(* ===== verification/_CoqProject ===== *)
-Q . S2P
Prelude.v
GoStrings.v
GoTime.v
GoErrors.v
Breaker.v
GoFloat.v
Retry.v
Downstream.v
TokenBucket.v
Base64.v
Json.v
Http.v
Mtls.v
RtErrors.v
HttpKit.v
Sha256.v
RateLimit.v
Lru.v
IdentityClient.v
AuthMW.v
Idempotency.v
FeatureFlags.v
Health.v
Startup.v
Async.v
ChangeJournal.v
NatsBus.v
NatsReliable.v
NatsConsumer.v
AgentHook.v
Migrate.v
Open.v
Tracing.v
Server.v
WideEvent.v
Metrics.v
IdentityMtls.v
HttpLb.v
TestUtil.v
