(* ===== verification/Prelude.v ===== *)
(** * service-runtime: a verification library

    service-runtime is the Go library the EvalOps services share: the pieces
    between a service's own code and the network.  Requests come in through
    HTTP middleware (browser guards, recovery, authentication, rate limiting,
    idempotency) and go out through clients (a circuit breaker and retries
    around downstream calls, a caching client of the identity service), while
    readiness checks, feature flags, startup, shutdown, background tasks and the
    change journal serve the process itself.  Domain changes leave through the
    event bus (NATS), migrations prepare the database, mutual TLS names the peers,
    and metrics, traces and wide events report what happened.

    ** Files and sources

    - Prelude: machine integers, time, contexts, results, tactics and hints.
    - GoStrings, GoErrors, GoFloat, Sha256, Http: what the packages use of the
      Go standard library.  GoStrings has byte strings (trimming, splitting,
      decimal numbers, sorting); GoErrors the error trees that [errors.Is] and
      [errors.As] walk; GoFloat a class of float64 arithmetics with the laws the
      code needs, a class that bounds the rounding of its operations, the rationals as
      an exact instance and [Up], an instance that rounds; Sha256 the hash, with
      test vectors; Http the response writers of net/http and of the packages,
      stacked as the middleware stacks them, with informational statuses and
      flushes, headers, requests and handlers.  A
      route is read from the router's mutable context ([Routing]) at the moment the
      code reads it.
    - Breaker, Retry: src/resilience.  The state of [Breaker] is the struct; each
      clock reading is an argument; concurrent callers are a step relation over
      the critical sections.  [Spec] is the abstract breaker.
    - Downstream: src/downstream, proved against the class [CallGuard], which the
      breaker implements.
    - TokenBucket, RateLimit: src/ratelimit.  The bucket works over any float64
      arithmetic; the Redis script is a function on a keyed store whose keys expire
      on the server's clock.
    - RtErrors: src/rterrors.  HttpKit: src/httpkit.
    - Lru, IdentityClient: src/identityclient.  Lru has the doubly indexed linked
      cache with its element pointers, the abstract recency list, and the class
      [Cache] that the client is proved against.
    - AuthMW: src/authmw.  Idempotency: src/idempotency, with the Postgres table
      as a list of rows, statements that can fail, and the interleavings of the
      transactions of concurrent requests; an uninterrupted run of the middleware
      is shown to be the steps of one thread of that system.
    - FeatureFlags, Health, Startup, Async, ChangeJournal: the packages
      src/featureflags, src/health (with its natscheck and redischeck),
      src/startup (retry.go and lifecycle.go), src/async and src/changejournal.  The
      rows of the journal are what the text of the SQL statements puts in the
      columns.
    - GoTime, Base64, Json: the layouts and the parser of time.Time, the base64
      of byte slices, and the encoder and decoder of encoding/json, each with its
      round trip.  They carry the bytes of messages, events and dead letters.
    - NatsBus, NatsReliable, NatsConsumer: src/natsbus.  Envelopes, their three wire
      formats, trace context and the plain publisher; retries behind the breaker
      with a directory of dead letters on a file system that fails and crashes,
      and replay; the consumer with its acknowledgements and shutdown.
    - AgentHook: src/agenthook, the command that asks for governance.
    - Migrate, Open: src/migrate, and the openers of src/postgres, src/pgxpoolutil
      and src/redisutil, which run the retries of Startup and the migrations.
    - Mtls, IdentityMtls, HttpLb: src/mtls, the construction of identity clients
      from HTTP clients with certificates, and src/httpclient.
    - Tracing, Server: src/startup (tracing.go and http.go).  Server starts tracing
      and runs the hooks of Startup.
    - WideEvent, Metrics: src/observability.  WideEvent is a store of objects with
      aliasing, and events are compared to any depth; Metrics has labels, the metrics of requests and Redis commands,
      pool statistics and the middleware that records requests.
    - TestUtil: src/testutil.  A helper acts on the world and on a test, which it may
      fail or skip, and whose cleanups run last in, first out.

    Definitions keep the names of the Go functions; a trailing underscore or a
    prefix tells apart names Rocq or another record already uses.  A method takes
    its receiver as an argument and returns the new one.  Code outside the
    repository (databases, HTTP exchanges, protobuf, randomness, timers) is a
    class or an argument, with the laws a theorem needs stated in it; each such
    theorem is applied to a concrete instance.

    ** What the theorems show

    - Circuit breaker: an invariant over all interleavings, with the number of
      calls let through, that the notifications form a path through the states, the refinement of the abstract breaker, the
      refusals of the open window, and what happens when a probe never reports.
    - Retries and downstream calls: every run has one of the documented outcomes
      within the attempt limit, the backoff stays below its maximum, and the
      failure mode decides the answer.
    - Rate limiting: no caller gets more than its burst and rate over any
      window, and what the rounding of its requests can add, also across evictions
      and policy changes; callers do not share budgets; without rounding, the retry
      time is right to the nanosecond, and the Redis script and the local bucket
      agree on every sequence of requests in which no key expires before an idle
      bucket would be full.
    - Identity and authentication: an accepted token was granted by the service,
      recently if the service is down; a rejected token is forgotten; the cache is
      an LRU cache; nothing unauthenticated reaches a handler.
    - Idempotency: a handler runs at most once for a key, sequentially and under
      concurrency (with a unique constraint in the schema), and a repeated request
      gets the recorded response.
    - Errors and HTTP: wrapping and conversion keep the classification, internal
      causes stay hidden, panics become answers, the entity tag that was sent round
      trips, and the capturing writer records what was sent by handlers that send
      final statuses only and do not flush.
    - The event bus: what is published is what a consumer decodes, in each format;
      a change that could not be published is in the dead-letter directory, also
      after a crash; replay goes oldest first, loses nothing and drains a
      directory of readable letters once publishing works; the gauge counts the letters; a message is
      acknowledged only after its handler accepted it; the trace context crosses.
    - The agent hook: a tool use goes on only with an answer that allows it, and
      the command ends.
    - TLS: the middleware lets only verified and allowed identities through, and a
      configuration has what the peers need.
    - Connections: what is opened answered a ping, what failed is closed, and a run
      of migrations releases its handles.  The migrating openers hand out a closed
      database.
    - The process: readiness reports, flag rollout and refresh, startup retries,
      shutdown order, the bound on background tasks, journalled mutations; the
      server's run stops what it started, and runs every hook when it is asked to.
    - Test helpers: a test gives back what it opened, however it ends; its database
      is scoped to a schema that is dropped; quoted identifiers, tokens and error
      codes are read back.
    - Observability: wide events of different requests do not share state, the
      series of a metric are bounded, and each request is recorded as it was sent.

    ** Bounds and fuel

    Loops that Go bounds by a counter are structural recursions on that counter
    ([retry_loop] and [do_loop] on the attempts left), so there is no fuel beyond
    what the code itself allows.  The one loop without a counter, the wait for an
    approval, takes fuel; the deadline bounds its iterations, and AgentHook proves
    that [enough_fuel] is enough.  The replay loop of
    the bus runs until it is stopped, so a run of it is given the number of its
    ticks.  The decoders of Json take the length of the text as fuel, which bounds their
    nesting and the number of elements, and the round trip shows that it is enough
    for every printed value; the other recursions are structural on lists.
    The bounds on the grants of a bucket and of a limiter hold for every arithmetic
    with the laws of [Float64Laws] and the rounding errors of [Float64Error], a
    relative [2^-53] per operation; a grant beyond burst and rate
    is possible ([TokenBucket.rounding_grants_more]), so each call adds one [slack].
    The bucket's invariant and the backoff's bound need the laws only.  What is advised
    to wait and the agreement with Redis are stated over the rationals.
    Integers wrap at 64 bits where the code's arithmetic can overflow.

    ** What is not modelled

    Lock acquisition below the level of critical sections, and logging text.  Of
    src/observability, connectotel.go and the handler that serves the metrics, which
    only call other packages.  Of src/cmd, main.go, which calls [AgentHook.Execute].
    The time limits that helpers put on their own statements.  The protobuf code is
    generated. *)

From stdpp Require Export base option list relations gmap strings fin_maps.
From Stdlib Require Export ZArith Lia Bool.

#[export] Set Default Goal Selector "!".

(** ** Machine integers

    A Go [int64] (and [int], which is 64 bits wide on the platforms the
    services run on) is a [Z] in [[-2^63, 2^63)].  Arithmetic that can leave
    the range goes through [wrap64], Go's two's complement wrap-around;
    [sat64] is the saturation that [time.Time.Sub] performs. *)

Declare Scope go_scope.
Delimit Scope go_scope with go.
Open Scope Z_scope.

Definition int64_min : Z := - 2 ^ 63.
Definition int64_max : Z := 2 ^ 63 - 1.
Definition int32_max : Z := 2 ^ 31 - 1.

Definition in_int64 (z : Z) : Prop := int64_min ≤ z ≤ int64_max.

Definition wrap64 (z : Z) : Z := (z + 2 ^ 63) mod 2 ^ 64 - 2 ^ 63.
Definition wrap32u (z : Z) : Z := z mod 2 ^ 32.
Definition sat64 (z : Z) : Z := Z.max int64_min (Z.min int64_max z).

Lemma wrap64_id z : in_int64 z → wrap64 z = z.
Proof.
  unfold in_int64, wrap64, int64_min, int64_max. intros H.
  rewrite Z.mod_small; lia.
Qed.

Lemma wrap64_range z : in_int64 (wrap64 z).
Proof.
  unfold in_int64, wrap64, int64_min, int64_max.
  pose proof (Z.mod_pos_bound (z + 2 ^ 63) (2 ^ 64) ltac:(lia)). lia.
Qed.

Lemma sat64_range z : in_int64 (sat64 z).
Proof. unfold in_int64, sat64, int64_min, int64_max. lia. Qed.

Lemma sat64_id z : in_int64 z → sat64 z = z.
Proof. unfold in_int64, sat64. lia. Qed.

Lemma sat64_mono a b : a ≤ b → sat64 a ≤ sat64 b.
Proof. unfold sat64. lia. Qed.

Lemma sat64_nonneg z : 0 ≤ z → 0 ≤ sat64 z.
Proof. unfold sat64, int64_min, int64_max. lia. Qed.

(** ** Time

    A [time.Time] is its instant, in nanoseconds since the zero value of
    [time.Time] (so [IsZero] is the test against 0); locations and monotonic
    clock readings are not represented, and [UTC()] is the identity.  A
    [time.Duration] is an [int64] count of nanoseconds. *)

Definition time := Z.
Definition duration := Z.

Definition Nanosecond : duration := 1.
Definition Millisecond : duration := 1000000.
Definition Second : duration := 1000000000.
Definition Minute : duration := 60 * Second.
Definition Hour : duration := 60 * Minute.

Definition zero_time : time := 0.
Definition is_zero_time (t : time) : bool := t =? 0.
Definition time_sub (t u : time) : duration := sat64 (t - u).
Definition time_add (t : time) (d : duration) : time := t + d.
Definition time_before (t u : time) : bool := t <? u.
Definition time_after (t u : time) : bool := u <? t.
(** [d.Milliseconds()]: integer division, truncating towards zero. *)
Definition milliseconds (d : duration) : Z := Z.quot d Millisecond.

(** ** Contexts

    What a called function can see of its [context.Context]: whether the caller
    has gone away, and the time it has left. *)

Record CallCtx := { Cancelled : bool; Budget : option duration }.

Definition Background : CallCtx := {| Cancelled := false; Budget := None |}.
Definition WithoutCancel (ctx : CallCtx) : CallCtx := Background.
Definition WithTimeout (ctx : CallCtx) (d : duration) : CallCtx :=
  {| Cancelled := Cancelled ctx; Budget := Some (from_option (Z.min d) d (Budget ctx)) |}.

(** ** Results of fallible Go functions

    A Go function of type [(T, error)] returns [Ok v] for [(v, nil)] and
    [Err e] for a non-nil error. *)

Inductive result (E A : Type) : Type :=
| Ok (a : A)
| Err (e : E).
Arguments Ok {E A} a.
Arguments Err {E A} e.

Definition is_ok {E A} (r : result E A) : bool :=
  match r with Ok _ => true | Err _ => false end.

#[export] Instance result_eq_dec {E A} `{EqDecision E, EqDecision A} :
  EqDecision (result E A).
Proof. solve_decision. Defined.

(** ** Automation *)

Create HintDb go discriminated.
#[export] Hint Resolve wrap64_range sat64_range : go.

(** Case analysis on every boolean guard and match of the goal and context. *)
Ltac break_match :=
  match goal with
  | |- context [match ?x with _ => _ end] => destruct x eqn:?
  | H : context [match ?x with _ => _ end] |- _ => destruct x eqn:?
  end.

(** Turn boolean comparisons into propositions. *)
Ltac breflect :=
  repeat match goal with
  | H : (_ && _) = true |- _ => apply andb_true_iff in H; destruct H
  | H : (_ && _) = false |- _ => apply andb_false_iff in H
  | H : (_ || _) = true |- _ => apply orb_true_iff in H
  | H : (_ || _) = false |- _ => apply orb_false_iff in H; destruct H
  | H : negb _ = true |- _ => apply negb_true_iff in H
  | H : negb _ = false |- _ => apply negb_false_iff in H
  | H : (_ <? _) = true |- _ => apply Z.ltb_lt in H
  | H : (_ <? _) = false |- _ => apply Z.ltb_ge in H
  | H : (_ <=? _) = true |- _ => apply Z.leb_le in H
  | H : (_ <=? _) = false |- _ => apply Z.leb_gt in H
  | H : (_ =? _) = true |- _ => apply Z.eqb_eq in H
  | H : (_ =? _) = false |- _ => apply Z.eqb_neq in H
  | H : bool_decide _ = true |- _ => apply bool_decide_eq_true in H
  | H : bool_decide _ = false |- _ => apply bool_decide_eq_false in H
  end.

(** ** Lists *)

Lemma last_cons_ne {A} (x : A) l : l ≠ [] → last (x :: l) = last l.
Proof. by destruct l. Qed.

Lemma prefix_of_app_inv {A} (l1 l2 k : list A) : l1 ++ k `prefix_of` l2 → l1 `prefix_of` l2.
Proof. intros [m ->]. rewrite <- app_assoc. apply prefix_app_r. done. Qed.
