(* ===== verification/GoStrings.v ===== *)
(** * Go's [strings] and [strconv] functions

    Go strings are byte strings; a Rocq [string] holds one byte per character.
    The functions below are the ones the modelled packages call, written over
    lists of bytes.  White space is Unicode's ([unicode.IsSpace]), recognised
    by its UTF-8 encodings.  Case conversion of strings with bytes above 127
    needs the Unicode tables and is a parameter ([Unicode]). *)

From S2P Require Import Prelude.
From stdpp Require Export pretty sorting.
From Stdlib Require Import Ascii.
#[local] Open Scope Z_scope.

Abbreviation bytes_of := String.list_ascii_of_string.
Abbreviation of_bytes := String.string_of_list_ascii.

Definition code (a : ascii) : Z := Z.of_N (N_of_ascii a).

(** ** White space *)

Definition space1 (a : ascii) : bool :=
  ((9 <=? code a) && (code a <=? 13)) || (code a =? 32).
(** U+0085 and U+00A0. *)
Definition space2 (a b : ascii) : bool :=
  (code a =? 194) && ((code b =? 133) || (code b =? 160)).
(** U+1680, U+2000..U+200A, U+2028, U+2029, U+202F, U+205F, U+3000. *)
Definition space3 (a b c : ascii) : bool :=
  ((code a =? 225) && (code b =? 154) && (code c =? 128))
  || ((code a =? 226) && (code b =? 128)
      && (((128 <=? code c) && (code c <=? 138))
          || (code c =? 168) || (code c =? 169) || (code c =? 175)))
  || ((code a =? 226) && (code b =? 129) && (code c =? 159))
  || ((code a =? 227) && (code b =? 128) && (code c =? 128)).

Section Trim.
Context (s1 : ascii → bool) (s2 : ascii → ascii → bool)
        (s3 : ascii → ascii → ascii → bool).

Definition starts (l : list ascii) : bool :=
  match l with
  | a :: b :: c :: _ => s1 a || s2 a b || s3 a b c
  | [a; b] => s1 a || s2 a b
  | [a] => s1 a
  | [] => false
  end.

Fixpoint trim_by (l : list ascii) : list ascii :=
  match l with
  | [] => []
  | a :: l1 =>
      if s1 a then trim_by l1 else
      match l1 with
      | [] => l
      | b :: l2 =>
          if s2 a b then trim_by l2 else
          match l2 with
          | [] => l
          | c :: l3 => if s3 a b c then trim_by l3 else l
          end
      end
  end.

Lemma trim_by_induct (P : list ascii → list ascii → Prop) :
  (∀ l, starts l = false → P l l) →
  (∀ x l, x ≠ [] → P l (trim_by l) → P (x ++ l) (trim_by l)) →
  ∀ l, P l (trim_by l).
Proof.
  intros Hstop Hgo l.
  remember (length l) as n eqn:Hn. revert l Hn.
  induction n as [n IH] using lt_wf_ind. intros l ->.
  destruct l as [|a l1]; [by apply Hstop|].
  cbn [trim_by]. destruct (s1 a) eqn:E1.
  { apply (Hgo [a]); [done|]. eapply IH; [|done]. cbn; lia. }
  destruct l1 as [|b l2]; [apply Hstop; cbn; by rewrite E1|].
  destruct (s2 a b) eqn:E2.
  { apply (Hgo [a; b]); [done|]. eapply IH; [|done]. cbn; lia. }
  destruct l2 as [|c l3]; [apply Hstop; cbn; by rewrite E1, E2|].
  destruct (s3 a b c) eqn:E3.
  { apply (Hgo [a; b; c]); [done|]. eapply IH; [|done]. cbn; lia. }
  apply Hstop; cbn; by rewrite E1, E2, E3.
Qed.

Lemma trim_by_starts l : starts (trim_by l) = false.
Proof. by apply (trim_by_induct (λ _ r, starts r = false)). Qed.

Lemma trim_by_suffix l : ∃ p, l = p ++ trim_by l.
Proof.
  apply (trim_by_induct (λ l r, ∃ p, l = p ++ r)).
  - intros k _. by exists [].
  - intros x k _ [p Hp]. exists (x ++ p). rewrite <- app_assoc. by f_equal.
Qed.

Lemma trim_by_id l : starts l = false → trim_by l = l.
Proof.
  destruct l as [|a [|b [|c l]]]; cbn; intros H; breflect;
    repeat match goal with E : _ = false |- _ => rewrite E; clear E end; done.
Qed.

Lemma starts_prefix l k : starts l = true → starts (l ++ k) = true.
Proof.
  destruct l as [|a [|b [|c l]]]; cbn; [done| |..]; intros H.
  - destruct k as [|b [|c k]]; cbn; rewrite H; done.
  - destruct k as [|c k]; cbn; rewrite H; done.
  - done.
Qed.
End Trim.

Definition trim_left_space := trim_by space1 space2 space3.
Definition trim_right_space (l : list ascii) : list ascii :=
  rev (trim_by space1 (λ b a, space2 a b) (λ c b a, space3 a b c) (rev l)).

(** [strings.TrimSpace] (and [bytes.TrimSpace]). *)
Definition TrimSpace (s : string) : string :=
  of_bytes (trim_right_space (trim_left_space (bytes_of s))).

Lemma bytes_of_of_bytes (l : list ascii) : bytes_of (of_bytes l) = l.
Proof. induction l; cbn; congruence. Qed.
Lemma of_bytes_bytes_of s : of_bytes (bytes_of s) = s.
Proof. induction s; cbn; congruence. Qed.
Lemma append_cons a s t : String a s +:+ t = String a (s +:+ t).
Proof. done. Qed.
Lemma append_nil t : "" +:+ t = t.
Proof. done. Qed.
Lemma bytes_of_app s t : bytes_of (s +:+ t) = bytes_of s ++ bytes_of t.
Proof. induction s as [|a s IH]; [done|]. rewrite append_cons. cbn. by f_equal. Qed.
Lemma of_bytes_app (l k : list ascii) : of_bytes (l ++ k) = of_bytes l +:+ of_bytes k.
Proof. induction l as [|a l IH]; [done|]. cbn. by rewrite append_cons, IH. Qed.
Lemma bytes_of_inj s t : bytes_of s = bytes_of t → s = t.
Proof. intros H. rewrite <- (of_bytes_bytes_of s), H. apply of_bytes_bytes_of. Qed.
#[export] Instance bytes_of_Inj : Inj (=) (=) bytes_of := bytes_of_inj.

Create Rewrite HintDb gostr.
#[export] Hint Rewrite bytes_of_of_bytes of_bytes_bytes_of bytes_of_app of_bytes_app : gostr.

Lemma trim_right_space_prefix l : trim_right_space l `prefix_of` l.
Proof.
  unfold trim_right_space.
  destruct (trim_by_suffix space1 (λ b a, space2 a b) (λ c b a, space3 a b c) (rev l))
    as [p Hp].
  exists (rev p). rewrite <- rev_app_distr, <- Hp. by rewrite rev_involutive.
Qed.

(** The prefix of a string that does not start with white space does not either. *)
Lemma starts_prefix_of l k :
  l `prefix_of` k → starts space1 space2 space3 k = false →
  starts space1 space2 space3 l = false.
Proof.
  intros [m ->] H. destruct (starts _ _ _ l) eqn:E; [|done].
  by rewrite (starts_prefix _ _ _ _ m E) in H.
Qed.

Lemma TrimSpace_idemp s : TrimSpace (TrimSpace s) = TrimSpace s.
Proof.
  unfold TrimSpace. autorewrite with gostr. f_equal.
  set (x := trim_left_space (bytes_of s)).
  assert (trim_left_space (trim_right_space x) = trim_right_space x) as ->.
  { apply trim_by_id. eapply starts_prefix_of; [apply trim_right_space_prefix|].
    apply trim_by_starts. }
  unfold trim_right_space. rewrite rev_involutive. f_equal.
  apply trim_by_id, trim_by_starts.
Qed.
#[export] Hint Rewrite TrimSpace_idemp : gostr.

(** A string all of whose first and last bytes are outside white space. *)
Definition trimmed (s : string) : Prop := TrimSpace s = s.
#[export] Instance trimmed_dec s : Decision (trimmed s) := _.

Lemma TrimSpace_bytes s a : a ∈ bytes_of (TrimSpace s) → a ∈ bytes_of s.
Proof.
  unfold TrimSpace. rewrite bytes_of_of_bytes. destruct (trim_by_suffix space1 space2 space3 (bytes_of s)) as [p Hp].
  fold trim_left_space in Hp. destruct (trim_right_space_prefix (trim_left_space (bytes_of s))) as [q Hq].
  intros Ha. rewrite Hp, Hq. apply elem_of_app. right. apply elem_of_app. by left.
Qed.

Lemma TrimSpace_trimmed s : trimmed (TrimSpace s).
Proof. apply TrimSpace_idemp. Qed.
#[export] Hint Resolve TrimSpace_trimmed : go.

Definition blank (s : string) : bool := bool_decide (TrimSpace s = "").

(** ** Prefixes, suffixes, splitting *)

Definition HasPrefix (s p : string) : bool := String.prefix p s.

Fixpoint strip_prefix (p l : list ascii) : option (list ascii) :=
  match p, l with
  | [], _ => Some l
  | a :: p', b :: l' => if Ascii.eqb a b then strip_prefix p' l' else None
  | _ :: _, [] => None
  end.

Definition strip_suffix (p l : list ascii) : option (list ascii) :=
  option_map (@rev ascii) (strip_prefix (rev p) (rev l)).

Definition HasSuffix (s p : string) : bool :=
  match strip_suffix (bytes_of p) (bytes_of s) with Some _ => true | None => false end.

Definition TrimSuffix (s p : string) : string :=
  match strip_suffix (bytes_of p) (bytes_of s) with
  | Some l => of_bytes l
  | None => s
  end.

Lemma strip_prefix_Some p l r : strip_prefix p l = Some r ↔ l = p ++ r.
Proof.
  revert l. induction p as [|a p IH]; intros l; cbn; [naive_solver|].
  destruct l as [|b l]; [naive_solver|].
  destruct (Ascii.eqb_spec a b) as [->|]; [|naive_solver].
  rewrite IH. naive_solver.
Qed.

Lemma strip_suffix_Some p l r : strip_suffix p l = Some r ↔ l = r ++ p.
Proof.
  unfold strip_suffix. destruct (strip_prefix (rev p) (rev l)) as [k|] eqn:E; cbn.
  - apply strip_prefix_Some in E. apply (f_equal (@rev ascii)) in E.
    rewrite rev_involutive, rev_app_distr, rev_involutive in E. subst l.
    split; [naive_solver|]. intros H%app_inv_tail. by f_equal.
  - split; [done|]. intros ->. exfalso.
    assert (strip_prefix (rev p) (rev (r ++ p)) = Some (rev r)); [|congruence].
    apply strip_prefix_Some. apply rev_app_distr.
Qed.

Lemma HasSuffix_spec s p : HasSuffix s p = true ↔ ∃ r, s = r +:+ p.
Proof.
  unfold HasSuffix. split.
  - destruct (strip_suffix _ _) as [l|] eqn:E; [|done]. intros _.
    apply strip_suffix_Some in E. exists (of_bytes l).
    apply bytes_of_inj. by autorewrite with gostr.
  - intros [r ->]. rewrite bytes_of_app.
    by rewrite (proj2 (strip_suffix_Some _ _ (bytes_of r)) eq_refl).
Qed.

Lemma TrimSuffix_app s p : TrimSuffix (s +:+ p) p = s.
Proof.
  unfold TrimSuffix. rewrite bytes_of_app.
  rewrite (proj2 (strip_suffix_Some _ _ (bytes_of s)) eq_refl).
  apply of_bytes_bytes_of.
Qed.

Lemma TrimSuffix_no s p : HasSuffix s p = false → TrimSuffix s p = s.
Proof. unfold HasSuffix, TrimSuffix. by destruct (strip_suffix _ _). Qed.

(** [strings.TrimRight], [strings.TrimLeft] and [strings.Trim] with a cutset of
    one byte. *)
Fixpoint drop_byte (c : ascii) (l : list ascii) : list ascii :=
  match l with
  | a :: l' => if Ascii.eqb a c then drop_byte c l' else l
  | [] => []
  end.
Definition TrimRightByte (c : ascii) (s : string) : string :=
  of_bytes (rev (drop_byte c (rev (bytes_of s)))).
Definition TrimByte (c : ascii) (s : string) : string :=
  of_bytes (rev (drop_byte c (rev (drop_byte c (bytes_of s))))).

Lemma drop_byte_spec (P : ascii → Prop) c l : Forall P l → Forall P (drop_byte c l) ∧ head (drop_byte c l) ≠ Some c.
Proof.
  induction l as [|a l IH]; intros Hl; [done|]. apply Forall_cons in Hl as [Ha Hl]. cbn.
  destruct (Ascii.eqb_spec a c) as [->|Hne]; [by apply IH|]. split; [by constructor|]. cbn. congruence.
Qed.

Lemma drop_byte_snoc c l a : a ≠ c → drop_byte c (l ++ [a]) = drop_byte c l ++ [a].
Proof.
  intros Ha. induction l as [|b l IH]; cbn; [by destruct (Ascii.eqb_spec a c)|]. destruct (Ascii.eqb_spec b c); [exact IH|done].
Qed.

(** Trimming keeps bytes only, and leaves the byte at neither end. *)
Lemma TrimByte_spec (P : ascii → Prop) c s : Forall P (bytes_of s) →
  let l := bytes_of (TrimByte c s) in Forall P l ∧ head l ≠ Some c ∧ last l ≠ Some c.
Proof.
  intros Hs. unfold TrimByte. cbn zeta. rewrite bytes_of_of_bytes.
  destruct (drop_byte_spec P c _ Hs) as [H1 H2]. set (l := drop_byte c (bytes_of s)) in *.
  destruct (drop_byte_spec P c (rev l) (Forall_rev H1)) as [H3 H4]. split_and!; [by apply Forall_rev| |].
  - destruct l as [|a l]; [done|]. cbn in H2 |- *. rewrite drop_byte_snoc by congruence. rewrite rev_app_distr. done.
  - rewrite rev_alt. change (rev_append ?l []) with (reverse l). by rewrite last_reverse.
Qed.

(** [strings.Cut] at a one-byte separator: what stands before and after its
    first occurrence. *)
Fixpoint cut_byte (c : ascii) (l : list ascii) : option (list ascii * list ascii) :=
  match l with
  | [] => None
  | a :: l' =>
      if Ascii.eqb a c then Some ([], l')
      else match cut_byte c l' with
           | Some (x, y) => Some (a :: x, y)
           | None => None
           end
  end.
Definition CutByte (c : ascii) (s : string) : option (string * string) :=
  match cut_byte c (bytes_of s) with
  | Some (x, y) => Some (of_bytes x, of_bytes y)
  | None => None
  end.

(** [strings.Split] at a one-byte separator. *)
Fixpoint split_byte (c : ascii) (l : list ascii) : list (list ascii) :=
  match l with
  | [] => [[]]
  | a :: l' =>
      if Ascii.eqb a c then [] :: split_byte c l'
      else match split_byte c l' with
           | x :: xs => (a :: x) :: xs
           | [] => [[a]]
           end
  end.
Definition SplitByte (c : ascii) (s : string) : list string :=
  of_bytes <$> split_byte c (bytes_of s).

Fixpoint Join (l : list string) (sep : string) : string :=
  match l with
  | [] => ""
  | [x] => x
  | x :: l' => x +:+ sep +:+ Join l' sep
  end.

(** [strings.Contains]. *)
Fixpoint contains (p l : list ascii) : bool :=
  match strip_prefix p l with
  | Some _ => true
  | None => match l with [] => false | _ :: l' => contains p l' end
  end.
Definition Contains (s p : string) : bool := contains (bytes_of p) (bytes_of s).

Lemma cut_byte_spec c l x y :
  cut_byte c l = Some (x, y) → l = x ++ c :: y ∧ c ∉ x.
Proof.
  revert x y. induction l as [|a l IH]; intros x y; [done|]. cbn.
  destruct (Ascii.eqb_spec a c) as [->|Hne].
  - intros [= <- <-]. split; [done|]. apply not_elem_of_nil.
  - destruct (cut_byte c l) as [[x' y']|]; [|done]. intros [= <- <-].
    destruct (IH x' y' eq_refl) as [-> ?]. split; [done|]. set_solver.
Qed.

Lemma cut_byte_None c l : cut_byte c l = None ↔ c ∉ l.
Proof.
  induction l as [|a l IH]; cbn.
  - split; [|done]. intros _. apply not_elem_of_nil.
  - destruct (Ascii.eqb_spec a c) as [->|Hne]; [set_solver|].
    destruct (cut_byte c l) as [[x y]|]; set_solver.
Qed.

(** Two strings with one separator between parts free of it determine the parts. *)
Lemma sep_app_inj (c : ascii) (x1 x2 y1 y2 : list ascii) :
  c ∉ x1 → c ∉ x2 → x1 ++ c :: y1 = x2 ++ c :: y2 → x1 = x2 ∧ y1 = y2.
Proof.
  revert x2. induction x1 as [|a x1 IH]; intros [|b x2] H1 H2; cbn; intros [= ]; subst.
  - done.
  - set_solver.
  - set_solver.
  - destruct (IH x2) as [-> ->]; [set_solver..|]; done.
Qed.

(** ** Case *)

(** Case conversion outside ASCII: Unicode's tables. *)
Class Unicode := {
  wide_to_lower : string → string;
  wide_to_upper : string → string;
}.

Definition ascii_only (s : string) : bool := forallb (λ a, code a <? 128) (bytes_of s).

Definition lower_byte (a : ascii) : ascii :=
  if (65 <=? code a) && (code a <=? 90)
  then ascii_of_N (N_of_ascii a + 32)%N else a.
Definition upper_byte (a : ascii) : ascii :=
  if (97 <=? code a) && (code a <=? 122)
  then ascii_of_N (N_of_ascii a - 32)%N else a.

Definition ToLower `{Unicode} (s : string) : string :=
  if ascii_only s then of_bytes (lower_byte <$> bytes_of s) else wide_to_lower s.
Definition ToUpper `{Unicode} (s : string) : string :=
  if ascii_only s then of_bytes (upper_byte <$> bytes_of s) else wide_to_upper s.

(** The ASCII part of the tables only; used where a concrete one is needed. *)
Definition ascii_unicode : Unicode :=
  {| wide_to_lower := λ s, of_bytes (lower_byte <$> bytes_of s);
     wide_to_upper := λ s, of_bytes (upper_byte <$> bytes_of s) |}.

(** [strconv.Quote], as %q prints; which runes it escapes is in the Unicode tables. *)
Class Quoting := { Quote : string → string }.

(** [strings.EqualFold] against an ASCII string [t].  Outside ASCII only U+017F
    folds to the letter s and only U+212A to the letter k. *)
Fixpoint equal_fold (s t : list ascii) : bool :=
  match t with
  | [] => match s with [] => true | _ => false end
  | c :: t' =>
      match s with
      | [] => false
      | a :: s' =>
          if Ascii.eqb (lower_byte a) (lower_byte c) then equal_fold s' t'
          else match s' with
               | b :: s'' =>
                   if (code a =? 197) && (code b =? 191) && (code (lower_byte c) =? 115)
                   then equal_fold s'' t'
                   else match s'' with
                        | d :: s''' =>
                            if (code a =? 226) && (code b =? 132) && (code d =? 170)
                               && (code (lower_byte c) =? 107)
                            then equal_fold s''' t' else false
                        | [] => false
                        end
               | [] => false
               end
      end
  end.
Definition EqualFold (s t : string) : bool := equal_fold (bytes_of s) (bytes_of t).

(** ** Numbers *)

Definition FormatInt (z : Z) : string := pretty z.

Definition digit (a : ascii) : option Z :=
  if (48 <=? code a) && (code a <=? 57) then Some (code a - 48) else None.

Fixpoint parse_digits (acc : Z) (l : list ascii) : option Z :=
  match l with
  | [] => Some acc
  | a :: l' =>
      match digit a with
      | Some d => parse_digits (10 * acc + d) l'
      | None => None
      end
  end.

Definition parse_unsigned (l : list ascii) : option Z :=
  match l with [] => None | _ => parse_digits 0 l end.

(** [strconv.ParseInt(s, 10, 64)]: the value, or [None] for an error (bad
    syntax or a value outside the range). *)
Definition ParseInt (s : string) : option Z :=
  let check z := if (int64_min <=? z) && (z <=? int64_max) then Some z else None in
  match bytes_of s with
  | a :: l =>
      if code a =? 45 then
        match parse_unsigned l with Some z => check (- z) | None => None end
      else if code a =? 43 then
        match parse_unsigned l with Some z => check z | None => None end
      else match parse_unsigned (a :: l) with Some z => check z | None => None end
  | [] => None
  end.

Example trim_example : TrimSpace " 	a b  " = "a b".
Proof. reflexivity. Qed.
Example parse_example : ParseInt "-42" = Some (-42) ∧ ParseInt "4x" = None
  ∧ ParseInt "9223372036854775808" = None.
Proof. by vm_compute. Qed.

(** ** Decimal numbers print and parse back *)

Definition decimal (l : list ascii) : Prop := Forall (λ a, is_Some (digit a)) l.

Lemma digit_pretty x : (x < 10)%N → digit (pretty_N_char x) = Some (Z.of_N x).
Proof.
  intros Hx.
  assert (x = 0 ∨ x = 1 ∨ x = 2 ∨ x = 3 ∨ x = 4 ∨ x = 5 ∨ x = 6 ∨ x = 7 ∨ x = 8 ∨ x = 9)%N
    as He by lia.
  decompose [or] He; subst; reflexivity.
Qed.

Lemma pretty_go_ind (P : N → string → Prop) :
  (∀ s, P 0%N s) → (∀ x s, (0 < x)%N → P (x / 10)%N (String (pretty_N_char (x mod 10)) s) → P x s) →
  ∀ x s, P x s.
Proof.
  intros H0 HS x. induction (N.lt_wf_0 x) as [x _ IH]. intros s.
  destruct (N.eq_0_gt_0_cases x) as [->|Hx]; [done|].
  apply HS; [done|]. apply IH. apply N.div_lt; lia.
Qed.

Lemma pretty_go_decimal x s : decimal (bytes_of s) → decimal (bytes_of (pretty_N_go x s)).
Proof.
  revert x s. apply (pretty_go_ind (λ x s, decimal (bytes_of s) → decimal (bytes_of (pretty_N_go x s)))).
  - intros s. by rewrite pretty_N_go_0.
  - intros x s Hx IH Hs. rewrite pretty_N_go_step by done. apply IH.
    constructor; [|done]. rewrite digit_pretty by (by apply N.mod_lt). eauto.
Qed.

Lemma parse_pretty_go x s :
  parse_digits 0 (bytes_of (pretty_N_go x s)) = parse_digits (Z.of_N x) (bytes_of s).
Proof.
  revert x s. apply (pretty_go_ind (λ x s,
    parse_digits 0 (bytes_of (pretty_N_go x s)) = parse_digits (Z.of_N x) (bytes_of s))).
  - intros s. by rewrite pretty_N_go_0.
  - intros x s Hx IH. rewrite pretty_N_go_step, IH by done. cbn [bytes_of parse_digits].
    rewrite digit_pretty by (by apply N.mod_lt). f_equal.
    rewrite (N.div_mod x 10) at 3 by done. lia.
Qed.

Lemma pretty_pos_decimal p :
  ∃ a l, bytes_of (pretty (N.pos p)) = a :: l ∧ decimal (a :: l) ∧
         parse_unsigned (a :: l) = Some (Zpos p).
Proof.
  assert (pretty (N.pos p) = pretty_N_go (N.pos p) "") as -> by done.
  pose proof (pretty_go_decimal (N.pos p) "" ltac:(constructor)) as Hd.
  pose proof (parse_pretty_go (N.pos p) "") as Hp.
  destruct (bytes_of (pretty_N_go (N.pos p) "")) as [|a l]; [by cbn in Hp|].
  by exists a, l.
Qed.

(** The bytes of a printed integer: an optional minus sign and digits. *)
Lemma FormatInt_bytes z :
  ∃ sign a l, bytes_of (FormatInt z) = sign ++ a :: l ∧ decimal (a :: l) ∧
    (sign = [] ∨ sign = ["-"%char]) ∧
    parse_unsigned (a :: l) = Some (Z.abs z) ∧ (sign = [] ↔ 0 ≤ z).
Proof.
  destruct z as [|p|p].
  - exists [], "0"%char, []. repeat split; try done; [|by left]. by repeat constructor; eexists.
  - destruct (pretty_pos_decimal p) as (a & l & He & Hd & Hp).
    exists [], a, l. repeat split; auto. done.
  - destruct (pretty_pos_decimal p) as (a & l & He & Hd & Hp).
    exists ["-"%char], a, l. repeat split; auto; [|done|lia].
    change (FormatInt (Z.neg p)) with ("-" +:+ pretty (N.pos p)). by rewrite bytes_of_app, He.
Qed.

Lemma digit_code a : is_Some (digit a) → 48 ≤ code a ≤ 57.
Proof. unfold digit. case_match; [|by intros []]. breflect. lia. Qed.

Lemma ParseInt_FormatInt z : in_int64 z → ParseInt (FormatInt z) = Some z.
Proof.
  intros [Hlo Hhi]. destruct (FormatInt_bytes z) as (sign & a & l & He & Hd & Hs & Hp & Hz).
  unfold ParseInt. rewrite He.
  assert ((int64_min <=? z) && (z <=? int64_max) = true) as Hc
    by (apply andb_true_iff; split; apply Z.leb_le; lia).
  destruct Hs as [->| ->]; cbn [app].
  - apply Forall_cons in Hd as [Ha%digit_code _].
    rewrite (proj2 (Z.eqb_neq _ _)), (proj2 (Z.eqb_neq (code a) 43)) by lia.
    rewrite Hp, Z.abs_eq by (by apply Hz). by rewrite Hc.
  - change (code "-" =? 45) with true. cbn iota. rewrite Hp.
    replace (- Z.abs z) with z; [by rewrite Hc|].
    destruct (Z.le_gt_cases 0 z) as [H0|H0]; [by apply Hz in H0|lia].
Qed.

(** ** Trimming does nothing to a string with solid ends *)

Definition solid (a : ascii) : Prop := 33 ≤ code a ≤ 126.

Lemma starts_solid a l : solid a → starts space1 space2 space3 (a :: l) = false.
Proof.
  unfold solid. intros Ha.
  assert (space1 a = false ∧ (∀ b, space2 a b = false) ∧ (∀ b c, space3 a b c = false)) as (H1 & H2 & H3).
  { unfold space1, space2, space3. repeat split; intros;
      rewrite ?(proj2 (Z.eqb_neq (code a) _)), ?(proj2 (Z.leb_gt (code a) _)) by lia; cbn;
      by rewrite ?andb_false_r. }
  destruct l as [|b [|c l]]; cbn; by rewrite ?H1, ?H2, ?H3.
Qed.

Lemma starts_solid_rev a l :
  solid a → starts space1 (λ b a, space2 a b) (λ c b a, space3 a b c) (a :: l) = false.
Proof.
  unfold solid. intros Ha.
  assert (space1 a = false ∧ (∀ b, space2 b a = false) ∧ (∀ b c, space3 c b a = false)) as (H1 & H2 & H3).
  { unfold space1, space2, space3. repeat split; intros;
      rewrite ?(proj2 (Z.eqb_neq (code a) _)), ?(proj2 (Z.leb_gt (code a) _)),
        ?(proj2 (Z.leb_gt 128 (code a))) by lia; cbn; by rewrite ?andb_false_r. }
  destruct l as [|b [|c l]]; cbn; by rewrite ?H1, ?H2, ?H3.
Qed.

Lemma TrimSpace_solid s a l b k :
  bytes_of s = a :: l → bytes_of s = k ++ [b] → solid a → solid b → TrimSpace s = s.
Proof.
  intros Hl Hk Ha Hb. unfold TrimSpace, trim_left_space.
  rewrite trim_by_id by (rewrite Hl; by apply starts_solid).
  unfold trim_right_space. rewrite trim_by_id.
  - by rewrite rev_involutive, of_bytes_bytes_of.
  - rewrite Hk, rev_app_distr. by apply starts_solid_rev.
Qed.

Lemma TrimSpace_all_solid s : Forall solid (bytes_of s) → TrimSpace s = s.
Proof.
  intros Hs. destruct (bytes_of s) as [|a l] eqn:E.
  - apply (bytes_of_inj s "") in E as ->. done.
  - destruct (exists_last (l := a :: l)) as (k & b & Hk); [done|].
    apply (TrimSpace_solid s a l b k); [done|by rewrite E, Hk| |].
    + by inversion Hs.
    + rewrite Hk in Hs. apply Forall_app in Hs as [_ Hs]. by inversion Hs.
Qed.

Lemma digit_solid a : is_Some (digit a) → solid a.
Proof. intros H%digit_code. unfold solid. lia. Qed.

(** ** Sorting ([slices.Sort] on strings) *)

(** Byte-wise order, the shorter string first. *)
Fixpoint bytes_leb (a b : list ascii) : bool :=
  match a, b with
  | [], _ => true
  | _ :: _, [] => false
  | x :: a', y :: b' =>
      if code x <? code y then true else if code x =? code y then bytes_leb a' b' else false
  end.

Definition string_le (s t : string) : Prop := bytes_leb (bytes_of s) (bytes_of t) = true.
#[export] Instance string_le_dec : RelDecision string_le.
Proof. intros s t. unfold string_le. apply _. Defined.

Lemma code_inj a b : code a = code b → a = b.
Proof.
  unfold code. intros He%N2Z.inj. rewrite <- (ascii_N_embedding a), He. apply ascii_N_embedding.
Qed.

#[export] Instance string_le_total : Total string_le.
Proof.
  intros s t. unfold string_le. generalize (bytes_of s) (bytes_of t).
  induction l as [|x a IH]; intros [|y b]; cbn; auto.
  destruct (Z.ltb_spec (code x) (code y)), (Z.ltb_spec (code y) (code x)); auto.
  rewrite !(proj2 (Z.eqb_eq _ _)) by lia. apply IH.
Qed.

#[export] Instance string_le_trans : Transitive string_le.
Proof.
  intros s t u. unfold string_le. generalize (bytes_of s) (bytes_of t) (bytes_of u).
  induction l as [|x a IH]; intros [|y b] [|z c]; cbn; auto; try done.
  destruct (Z.ltb_spec (code x) (code y)), (Z.ltb_spec (code y) (code z)),
    (Z.ltb_spec (code x) (code z)), (Z.eqb_spec (code x) (code y)),
    (Z.eqb_spec (code y) (code z)), (Z.eqb_spec (code x) (code z)); try lia; try done.
  apply IH.
Qed.

#[export] Instance string_le_antisym : AntiSymm (=) string_le.
Proof.
  intros s t. unfold string_le. intros H1 H2. apply bytes_of_inj. revert H1 H2.
  generalize (bytes_of s) (bytes_of t).
  induction l as [|x a IH]; intros [|y b]; cbn; try done.
  destruct (Z.ltb_spec (code x) (code y)), (Z.ltb_spec (code y) (code x)),
    (Z.eqb_spec (code x) (code y)), (Z.eqb_spec (code y) (code x)); try lia; try done.
  intros. f_equal; [by apply code_inj|by apply IH].
Qed.

Definition SortStrings (l : list string) : list string := merge_sort string_le l.

Lemma SortStrings_perm l : SortStrings l ≡ₚ l.
Proof. apply merge_sort_Permutation. Qed.
Lemma SortStrings_sorted l : StronglySorted string_le (SortStrings l).
Proof. apply StronglySorted_merge_sort; apply _. Qed.

Example sort_example : SortStrings ["b"; "a b"; "a"; "B"; ""] = [""; "B"; "a"; "a b"; "b"].
Proof. by vm_compute. Qed.

(** Two joins of separator-free, non-empty strings are equal only if the lists
    are. *)
Lemma Join_cons x y l sep : Join (x :: y :: l) sep = x +:+ sep +:+ Join (y :: l) sep.
Proof. done. Qed.

Lemma Join_inj (c : ascii) l k :
  Forall (λ s, c ∉ bytes_of s ∧ s ≠ "") l → Forall (λ s, c ∉ bytes_of s ∧ s ≠ "") k →
  Join l (String c "") = Join k (String c "") → l = k.
Proof.
  assert (∀ y m, y ≠ "" → bytes_of (Join (y :: m) (String c "")) ≠ []) as Hne.
  { intros y [|z m] Hy; [cbn; intros H; apply Hy, bytes_of_inj; done|].
    rewrite Join_cons, bytes_of_app. intros [H _]%app_nil. apply Hy, bytes_of_inj. done. }
  assert (∀ x y m, bytes_of (Join (x :: y :: m) (String c "")) =
                   bytes_of x ++ c :: bytes_of (Join (y :: m) (String c ""))) as Hb.
  { intros. by rewrite Join_cons, !bytes_of_app. }
  intros Hl. revert k. induction Hl as [|x l [Hx Hx0] Hl IH]; intros k Hk He.
  - destruct Hk as [|y k [Hy Hy0] Hk]; [done|]. exfalso. apply (Hne y k Hy0). by rewrite <- He.
  - destruct Hk as [|y k [Hy Hy0] Hk]; [exfalso; apply (Hne x l Hx0); by rewrite He|].
    apply (f_equal bytes_of) in He.
    destruct l as [|x' l], k as [|y' k].
    + cbn in He. f_equal. by apply bytes_of_inj.
    + rewrite Hb in He. cbn in He. rewrite He in Hx. set_solver.
    + rewrite Hb in He. cbn in He. rewrite <- He in Hy. set_solver.
    + rewrite !Hb in He. apply sep_app_inj in He as [He1%bytes_of_inj He2%bytes_of_inj]; [|done..].
      subst y. f_equal. by apply IH.
Qed.

(** ** Paths (path/filepath) *)

(** [filepath.Clean] on the elements between slashes. *)
Fixpoint clean_elements (rooted : bool) (stack l : list string) : list string :=
  match l with
  | [] => rev stack
  | x :: l' =>
      if decide (x = "" ∨ x = ".") then clean_elements rooted stack l'
      else if decide (x = "..") then
        match stack with
        | y :: stack' =>
            if decide (y = "..") then clean_elements rooted (x :: stack) l'
            else clean_elements rooted stack' l'
        | [] => if rooted then clean_elements rooted [] l' else clean_elements rooted [x] l'
        end
      else clean_elements rooted (x :: stack) l'
  end.

Definition Clean (path : string) : string :=
  let rooted := HasPrefix path "/" in
  let out := (if rooted then "/" else "") +:+ Join (clean_elements rooted [] (SplitByte "/" path)) "/" in
  if decide (out = "") then "." else out.

(** [filepath.Join] of a directory, which is not empty, and a name. *)
Definition join_path (dir name : string) : string := Clean (dir +:+ "/" +:+ name).

Example Clean_example :
  join_path "/var//dlq/./x/../" "a.json" = "/var/dlq/a.json" ∧ join_path "../q" "b" = "../q/b" ∧ Clean "" = ".".
Proof. by vm_compute. Qed.
