(* ===== verification/GoTime.v ===== *)
(** * Calendar time ([time.Time.Format], [time.Parse])

    A [time.Time] is the number of nanoseconds since January 1 of year 1, UTC
    (Prelude.v).  This file has the proleptic Gregorian calendar, the layouts the
    packages print ([time.RFC3339], [time.RFC3339Nano] and the layout of dead-letter
    file names) and the parser of RFC 3339 times. *)

From S2P Require Import Prelude GoStrings.
From Stdlib Require Import Ascii.
#[local] Open Scope Z_scope.

(** ** Dates *)

Definition leap (y : Z) : bool :=
  (y mod 4 =? 0) && (negb (y mod 100 =? 0) || (y mod 400 =? 0)).

Definition year_length (y : Z) : Z := if leap y then 366 else 365.

(** Days from January 1 of year 1 to January 1 of [y]. *)
Definition days_before_year (y : Z) : Z :=
  let p := y - 1 in 365 * p + p / 4 - p / 100 + p / 400.

Definition month_lengths (lp : bool) : list Z :=
  [31; if lp then 29 else 28; 31; 30; 31; 30; 31; 31; 30; 31; 30; 31].

(** The year of day [d] and the day within it, counted from 0. *)
Definition year_and_day (d : Z) : Z * Z :=
  let n400 := d / 146097 in
  let r := d mod 146097 in
  let n100 := Z.min 3 (r / 36524) in
  let r := r - 36524 * n100 in
  let n4 := r / 1461 in
  let r := r mod 1461 in
  let n1 := Z.min 3 (r / 365) in
  (400 * n400 + 100 * n100 + 4 * n4 + n1 + 1, r - 365 * n1).

(** The month, counted from [m], and the day of the month. *)
Fixpoint month_and_day (lengths : list Z) (m yd : Z) : Z * Z :=
  match lengths with
  | [] => (m, yd + 1)
  | n :: ls => if yd <? n then (m, yd + 1) else month_and_day ls (m + 1) (yd - n)
  end.

Record civil := { cYear : Z; cMonth : Z; cDay : Z; cHour : Z; cMin : Z; cSec : Z; cNano : Z }.

Definition civil_of (t : time) : civil :=
  let s := t / Second in
  let '(y, yd) := year_and_day (s / 86400) in
  let '(m, d) := month_and_day (month_lengths (leap y)) 1 yd in
  let sod := s mod 86400 in
  {| cYear := y; cMonth := m; cDay := d; cHour := sod / 3600; cMin := sod mod 3600 / 60;
     cSec := sod mod 60; cNano := t mod Second |}.

(** [time.Date] in UTC, for fields in their ranges. *)
Definition day_of_year (lp : bool) (m d : Z) : Z :=
  foldr Z.add 0 (take (Z.to_nat (m - 1)) (month_lengths lp)) + d - 1.

Definition Date (c : civil) : time :=
  ((days_before_year (cYear c) + day_of_year (leap (cYear c)) (cMonth c) (cDay c)) * 86400
   + cHour c * 3600 + cMin c * 60 + cSec c) * Second + cNano c.

(** ** Printing *)

Definition digit_char (d : Z) : ascii := ascii_of_N (Z.to_N (48 + d)).

(** The last [w] digits of [n]. *)
Fixpoint pad (w : nat) (n : Z) : list ascii :=
  match w with
  | O => []
  | S w' => pad w' (n / 10) ++ [digit_char (n mod 10)]
  end.

(** At least [w] digits, after a minus sign when negative. *)
Definition pad_int (w : nat) (z : Z) : list ascii :=
  (if z <? 0 then ["-"%char] else [])
  ++ (if Z.abs z <? 10 ^ Z.of_nat w then pad w (Z.abs z) else bytes_of (FormatInt (Z.abs z))).

(** A fraction without trailing zeros, and nothing for 0. *)
Fixpoint strip_zeros (w : nat) (n : Z) : list ascii :=
  match w with
  | O => []
  | S w' => if n mod 10 =? 0 then strip_zeros w' (n / 10) else pad w n
  end.

Definition fraction (n : Z) : list ascii :=
  if n =? 0 then [] else "."%char :: strip_zeros 9 n.

Definition date_time (c : civil) : list ascii :=
  pad_int 4 (cYear c) ++ "-"%char :: pad 2 (cMonth c) ++ "-"%char :: pad 2 (cDay c)
  ++ "T"%char :: pad 2 (cHour c) ++ ":"%char :: pad 2 (cMin c) ++ ":"%char :: pad 2 (cSec c).

(** [t.UTC().Format(time.RFC3339)] *)
Definition FormatRFC3339 (t : time) : string := of_bytes (date_time (civil_of t) ++ ["Z"%char]).

(** [t.UTC().Format(time.RFC3339Nano)] *)
Definition FormatRFC3339Nano (t : time) : string :=
  of_bytes (date_time (civil_of t) ++ fraction (cNano (civil_of t)) ++ ["Z"%char]).

(** [t.UTC().Format("20060102T150405.000000000Z0700")] *)
Definition FormatCompact (t : time) : string :=
  let c := civil_of t in
  of_bytes (pad_int 4 (cYear c) ++ pad 2 (cMonth c) ++ pad 2 (cDay c)
            ++ "T"%char :: pad 2 (cHour c) ++ pad 2 (cMin c) ++ pad 2 (cSec c)
            ++ "."%char :: pad 9 (cNano c) ++ ["Z"%char]).

Example format_example :
  FormatRFC3339 0 = "0001-01-01T00:00:00Z" ∧
  FormatRFC3339 (62135596800 * Second) = "1970-01-01T00:00:00Z" ∧
  FormatRFC3339Nano (63844797845120000000) = "2024-02-29T10:04:05.12Z" ∧
  FormatCompact (63844797845120000000) = "20240229T100405.120000000Z" ∧
  FormatRFC3339 (- Second) = "0000-12-31T23:59:59Z".
Proof. by vm_compute. Qed.

(** ** Parsing RFC 3339 *)

(** A field of [w] digits with a value in a range, and the rest. *)
Definition take_num (w : nat) (lo hi : Z) (l : list ascii) : option (Z * list ascii) :=
  if (length l <? w)%nat then None
  else n ← parse_digits 0 (take w l);
       if (lo <=? n) && (n <=? hi) then Some (n, drop w l) else None.

Definition expect (c : ascii) (l : list ascii) : option (list ascii) :=
  match l with
  | a :: l' => if decide (a = c) then Some l' else None
  | [] => None
  end.

Definition days_in (m y : Z) : Z := nth (Z.to_nat (m - 1)) (month_lengths (leap y)) 0.

(** The digits at the head of a list. *)
Fixpoint span_digits (l : list ascii) : list ascii * list ascii :=
  match l with
  | a :: l' =>
      match digit a with
      | Some _ => let '(ds, rest) := span_digits l' in (a :: ds, rest)
      | None => ([], l)
      end
  | [] => ([], [])
  end.

(** The nanoseconds of an optional fraction; digits after the ninth are dropped. *)
Definition take_fraction (l : list ascii) : option (Z * list ascii) :=
  match l with
  | a :: l' =>
      if decide (a = "."%char) then
        let '(ds, rest) := span_digits l' in
        match ds with
        | [] => Some (0, l)
        | _ =>
            let ds := take 9 ds in
            n ← parse_digits 0 ds;
            Some (n * 10 ^ (9 - Z.of_nat (length ds)), rest)
        end
      else Some (0, l)
  | [] => Some (0, l)
  end.

(** The seconds of an offset from UTC. *)
Definition take_zone (l : list ascii) : option Z :=
  match l with
  | a :: l' =>
      if decide (a = "Z"%char) then match l' with [] => Some 0 | _ => None end
      else
        sign ← (if decide (a = "+"%char) then Some 1
                else if decide (a = "-"%char) then Some (-1) else None);
        '(h, l) ← take_num 2 0 23 l';
        l ← expect ":" l;
        '(m, l) ← take_num 2 0 59 l;
        match l with [] => Some (sign * (h * 3600 + m * 60)) | _ => None end
  | [] => None
  end.

(** [time.Parse(time.RFC3339, s)]: the instant.  The relaxations of [time.Parse]
    that RFC 3339 does not have (an hour of one digit, a comma before the
    fraction) are left out. *)
Definition ParseRFC3339 (s : string) : option time :=
  '(y, l) ← take_num 4 0 9999 (bytes_of s);
  l ← expect "-" l;
  '(m, l) ← take_num 2 1 12 l;
  l ← expect "-" l;
  '(d, l) ← take_num 2 1 (days_in m y) l;
  l ← expect "T" l;
  '(hh, l) ← take_num 2 0 23 l;
  l ← expect ":" l;
  '(mm, l) ← take_num 2 0 59 l;
  l ← expect ":" l;
  '(ss, l) ← take_num 2 0 59 l;
  '(ns, l) ← take_fraction l;
  off ← take_zone l;
  Some (Date {| cYear := y; cMonth := m; cDay := d; cHour := hh; cMin := mm; cSec := ss; cNano := ns |}
        - off * Second).

Example parse_time_example :
  ParseRFC3339 "2024-02-29T10:04:05.12Z" = Some 63844797845120000000 ∧
  ParseRFC3339 "2024-02-29T11:34:05.12+01:30" = Some 63844797845120000000 ∧
  ParseRFC3339 "2023-02-29T10:04:05Z" = None ∧ ParseRFC3339 "2024-02-29T10:04:05" = None.
Proof. by vm_compute. Qed.

(** ** Calendar lemmas *)

Lemma year_and_day_spec d :
  let '(y, yd) := year_and_day d in
  days_before_year y + yd = d ∧ 0 ≤ yd < year_length y.
Proof.
  unfold year_and_day.
  pose proof (Z.div_mod d 146097 ltac:(done)) as Hd.
  pose proof (Z.mod_pos_bound d 146097 ltac:(done)) as Hr.
  set (a := d / 146097) in *. set (r := d mod 146097) in *. clearbody a r.
  set (b := Z.min 3 (r / 36524)). set (r1 := r - 36524 * b).
  assert (0 ≤ b ≤ 3 ∧ 0 ≤ r1 ≤ 36524 ∧ (r1 = 36524 → b = 3)) as (Hb & Hr1 & Hlast).
  { subst r1 b. pose proof (Z.div_mod r 36524 ltac:(done)).
    pose proof (Z.mod_pos_bound r 36524 ltac:(done)). lia. }
  assert (r = 36524 * b + r1) as Hrb by lia. clearbody b r1.
  pose proof (Z.div_mod r1 1461 ltac:(done)) as Hc0.
  pose proof (Z.mod_pos_bound r1 1461 ltac:(done)) as Hr2.
  set (c := r1 / 1461) in *. set (r2 := r1 mod 1461) in *. clearbody c r2.
  set (e := Z.min 3 (r2 / 365)). set (yd := r2 - 365 * e).
  assert (0 ≤ e ≤ 3 ∧ 0 ≤ yd ≤ 365 ∧ (yd = 365 → e = 3)) as (He & Hyd & Hlast4).
  { subst yd e. pose proof (Z.div_mod r2 365 ltac:(done)).
    pose proof (Z.mod_pos_bound r2 365 ltac:(done)). lia. }
  assert (r2 = 365 * e + yd) as Hre by lia. clearbody e yd.
  assert (0 ≤ c ≤ 24) as Hc by lia.
  set (y := 400 * a + 100 * b + 4 * c + e + 1).
  assert ((y - 1) / 4 = 100 * a + 25 * b + c) as H4 by (subst y; symmetry; apply (Z.div_unique_pos _ _ _ e); lia).
  assert ((y - 1) / 100 = 4 * a + b) as H100
    by (subst y; symmetry; apply (Z.div_unique_pos _ _ _ (4 * c + e)); lia).
  assert ((y - 1) / 400 = a) as H400
    by (subst y; symmetry; apply (Z.div_unique_pos _ _ _ (100 * b + 4 * c + e)); lia).
  split; [unfold days_before_year; rewrite H4, H100, H400; lia|].
  split; [lia|]. unfold year_length.
  destruct (decide (yd = 365)) as [->|]; [|destruct (leap y); lia].
  assert (e = 3) by (by apply Hlast4). subst e.
  assert (leap y = true) as ->; [|lia]. unfold leap, y.
  replace (400 * a + 100 * b + 4 * c + 3 + 1) with ((100 * a + 25 * b + c + 1) * 4) by lia.
  rewrite (Z.mod_mul _ 4) by done. cbn [Z.eqb andb].
  destruct (decide (c = 24)) as [->|Hc24].
  - assert (b = 3) as -> by lia.
    replace ((100 * a + 25 * 3 + 24 + 1) * 4) with ((a + 1) * 400) by lia.
    rewrite (Z.mod_mul _ 400) by done. by rewrite orb_true_r.
  - replace ((100 * a + 25 * b + c + 1) * 4) with (4 * (c + 1) + (4 * a + b) * 100) by lia.
    rewrite Z.mod_add, Z.mod_small by lia. rewrite (proj2 (Z.eqb_neq _ _)) by lia. done.
Qed.

Lemma days_before_year_S y : days_before_year (y + 1) = days_before_year y + year_length y.
Proof.
  unfold days_before_year, year_length, leap. replace (y + 1 - 1) with y by lia.
  assert (∀ k, 0 < k → y / k = (y - 1) / k + if y mod k =? 0 then 1 else 0) as Hk.
  { intros k Hk. destruct (Z.eqb_spec (y mod k) 0) as [E|E].
    - apply Z.mod_divide in E as [q ->]; [|lia]. rewrite Z.div_mul by lia.
      rewrite <- (Z.div_unique_pos (q * k - 1) k (q - 1) (k - 1)); lia.
    - symmetry. rewrite Z.add_0_r. symmetry.
      pose proof (Z.mod_pos_bound y k Hk). pose proof (Z.div_mod y k ltac:(lia)).
      apply (Z.div_unique_pos _ _ _ (y mod k - 1)); lia. }
  rewrite (Hk 4), (Hk 100), (Hk 400) by lia.
  assert (y mod 100 = 0 → y mod 4 = 0) as H1.
  { intros E. apply Z.mod_divide in E as [q ->]; [|done]. replace (q * 100) with (q * 25 * 4) by lia.
    by apply Z.mod_mul. }
  assert (y mod 400 = 0 → y mod 100 = 0) as H2.
  { intros E. apply Z.mod_divide in E as [q ->]; [|done]. replace (q * 400) with (q * 4 * 100) by lia.
    by apply Z.mod_mul. }
  destruct (Z.eqb_spec (y mod 4) 0), (Z.eqb_spec (y mod 100) 0), (Z.eqb_spec (y mod 400) 0);
    cbn [andb orb negb]; try lia.
Qed.

Lemma days_before_year_mono y z : y ≤ z → days_before_year y ≤ days_before_year z.
Proof.
  intros H. replace z with (y + Z.of_nat (Z.to_nat (z - y))) by lia.
  induction (Z.to_nat (z - y)) as [|n IH]; [by rewrite Z.add_0_r|].
  rewrite Nat2Z.inj_succ. replace (y + Z.succ (Z.of_nat n)) with (y + Z.of_nat n + 1) by lia.
  rewrite days_before_year_S. unfold year_length. destruct (leap _); lia.
Qed.

Lemma month_and_day_spec ls m yd :
  0 ≤ yd < foldr Z.add 0 ls → Forall (λ n, 0 ≤ n) ls →
  let '(m', d) := month_and_day ls m yd in
  m ≤ m' < m + Z.of_nat (length ls) ∧
  foldr Z.add 0 (take (Z.to_nat (m' - m)) ls) + d - 1 = yd ∧
  1 ≤ d ≤ nth (Z.to_nat (m' - m)) ls 0.
Proof.
  revert m yd. induction ls as [|n ls IH]; intros m yd Hyd Hls; [cbn in Hyd; lia|].
  apply Forall_cons in Hls as [Hn Hls]. cbn [foldr] in Hyd. cbn [month_and_day].
  destruct (Z.ltb_spec yd n) as [Hlt|Hge].
  - replace (m - m) with 0 by lia. change (Z.to_nat 0) with 0%nat. cbn [take foldr nth length]. lia.
  - specialize (IH (m + 1) (yd - n) ltac:(lia) Hls).
    destruct (month_and_day ls (m + 1) (yd - n)) as [m' d]. destruct IH as (Hm & He & Hd).
    replace (Z.to_nat (m' - m)) with (S (Z.to_nat (m' - (m + 1)))) by lia.
    cbn [take foldr nth length]. lia.
Qed.

Lemma month_lengths_sum y : foldr Z.add 0 (month_lengths (leap y)) = year_length y.
Proof. unfold year_length. by destruct (leap y). Qed.

Lemma month_lengths_nonneg lp : Forall (λ n, 0 ≤ n) (month_lengths lp).
Proof. destruct lp; repeat constructor; lia. Qed.

(** The fields are in their ranges. *)
Definition civil_ok (c : civil) : Prop :=
  1 ≤ cMonth c ≤ 12 ∧ 1 ≤ cDay c ≤ days_in (cMonth c) (cYear c) ∧
  0 ≤ cHour c ≤ 23 ∧ 0 ≤ cMin c ≤ 59 ∧ 0 ≤ cSec c ≤ 59 ∧ 0 ≤ cNano c < Second.

Lemma sod_split s :
  0 ≤ s < 86400 →
  s / 3600 * 3600 + s mod 3600 / 60 * 60 + s mod 60 = s ∧
  0 ≤ s / 3600 ≤ 23 ∧ 0 ≤ s mod 3600 / 60 ≤ 59 ∧ 0 ≤ s mod 60 ≤ 59.
Proof.
  intros Hs.
  pose proof (Z.div_mod s 3600 ltac:(done)). pose proof (Z.mod_pos_bound s 3600 ltac:(done)).
  pose proof (Z.mod_pos_bound s 60 ltac:(done)).
  pose proof (Z.div_mod (s mod 3600) 60 ltac:(done)).
  pose proof (Z.mod_pos_bound (s mod 3600) 60 ltac:(done)).
  assert (s mod 60 = (s mod 3600) mod 60); [|lia].
  rewrite <- (Z.mod_unique s 60 (60 * (s / 3600) + s mod 3600 / 60) ((s mod 3600) mod 60)); lia.
Qed.

Lemma civil_of_spec t : Date (civil_of t) = t ∧ civil_ok (civil_of t).
Proof.
  unfold civil_of, Date, civil_ok, days_in, day_of_year.
  pose proof (year_and_day_spec (t / Second / 86400)) as Hy.
  destruct (year_and_day (t / Second / 86400)) as [y yd]. destruct Hy as [Hy Hyd].
  pose proof (month_and_day_spec (month_lengths (leap y)) 1 yd) as Hm.
  rewrite month_lengths_sum in Hm. specialize (Hm Hyd (month_lengths_nonneg _)).
  destruct (month_and_day (month_lengths (leap y)) 1 yd) as [m d]. destruct Hm as (Hm & He & Hd).
  cbn [cYear cMonth cDay cHour cMin cSec cNano].
  destruct (sod_split ((t / Second) mod 86400)) as (Hs & Hh & Hmi & Hse);
    [by apply Z.mod_pos_bound|].
  pose proof (Z.mod_pos_bound t Second ltac:(done)) as Hn.
  pose proof (Z.div_mod t Second ltac:(done)) as Ht.
  pose proof (Z.div_mod (t / Second) 86400 ltac:(done)) as Hts.
  assert (length (month_lengths (leap y)) = 12%nat) as Hl by done. rewrite Hl in Hm.
  split; [|split_and!; lia].
  replace (days_before_year y + (foldr Z.add 0 (take (Z.to_nat (m - 1)) (month_lengths (leap y))) + d - 1))
    with (t / Second / 86400) by lia.
  lia.
Qed.

Lemma year_range t : 0 ≤ t < days_before_year 10000 * 86400 * Second → 1 ≤ cYear (civil_of t) ≤ 9999.
Proof.
  intros Ht. unfold civil_of. pose proof (year_and_day_spec (t / Second / 86400)) as Hy.
  destruct (year_and_day (t / Second / 86400)) as [y yd]. destruct Hy as [Hy Hyd].
  destruct (month_and_day _ _ _) as [m d]. cbn [cYear].
  assert (0 ≤ t / Second / 86400 < days_before_year 10000) as Hd.
  { split; [apply Z.div_pos; [apply Z.div_pos|]; done || lia|].
    apply Z.div_lt_upper_bound; [done|]. apply Z.div_lt_upper_bound; [done|]. lia. }
  split.
  - destruct (Z.le_gt_cases 1 y) as [|Hlt]; [done|].
    pose proof (days_before_year_mono (y + 1) 1 ltac:(lia)) as Hm.
    rewrite days_before_year_S in Hm. change (days_before_year 1) with 0 in Hm. lia.
  - destruct (Z.le_gt_cases y 9999) as [|Hlt]; [done|].
    pose proof (days_before_year_mono 10000 y ltac:(lia)). lia.
Qed.

(** ** Digits *)

Lemma digit_digit_char d : 0 ≤ d ≤ 9 → digit (digit_char d) = Some d.
Proof.
  intros Hd. unfold digit, digit_char, code. rewrite N_ascii_embedding by lia.
  rewrite Z2N.id by lia.
  rewrite (proj2 (Z.leb_le _ _)), (proj2 (Z.leb_le _ _)) by lia. cbn. f_equal. lia.
Qed.

Lemma pad_length w n : length (pad w n) = w.
Proof. revert n. induction w as [|w IH]; intros n; [done|]. cbn. rewrite length_app, IH. cbn. lia. Qed.

Lemma parse_digits_app acc l a d :
  digit a = Some d →
  parse_digits acc (l ++ [a]) = option_map (λ z, 10 * z + d) (parse_digits acc l).
Proof.
  intros Ha. revert acc. induction l as [|b l IH]; intros acc; cbn; [by rewrite Ha|].
  destruct (digit b); [apply IH|done].
Qed.

Lemma parse_pad w n : 0 ≤ n < 10 ^ Z.of_nat w → parse_digits 0 (pad w n) = Some n.
Proof.
  revert n. induction w as [|w IH]; intros n Hn; [cbn in Hn |- *; f_equal; lia|].
  rewrite Nat2Z.inj_succ, Z.pow_succ_r in Hn by lia. cbn [pad].
  pose proof (Z.div_mod n 10 ltac:(done)). pose proof (Z.mod_pos_bound n 10 ltac:(done)).
  rewrite (parse_digits_app _ _ _ (n mod 10)) by (apply digit_digit_char; lia).
  rewrite IH by lia. cbn. f_equal. lia.
Qed.

Lemma take_num_pad w lo hi n l :
  lo ≤ n ≤ hi → 0 ≤ n < 10 ^ Z.of_nat w → take_num w lo hi (pad w n ++ l) = Some (n, l).
Proof.
  intros Hr Hn. unfold take_num. rewrite length_app, pad_length.
  rewrite (proj2 (Nat.ltb_ge _ _)) by lia.
  rewrite take_app_le, drop_app_ge by (rewrite pad_length; lia).
  rewrite take_ge by (rewrite pad_length; lia). rewrite pad_length, Nat.sub_diag, parse_pad by done. cbn.
  by rewrite (proj2 (Z.leb_le _ _)), (proj2 (Z.leb_le _ _)) by lia.
Qed.

(** ** Printed times parse back *)

(** The instants of the years 1 to 9999. *)
Definition in_calendar (t : time) : Prop := 0 ≤ t < days_before_year 10000 * 86400 * Second.

Lemma pad_int_year y : 0 ≤ y ≤ 9999 → pad_int 4 y = pad 4 y.
Proof.
  intros Hy. unfold pad_int. rewrite (proj2 (Z.ltb_ge _ _)), Z.abs_eq by lia.
  by rewrite (proj2 (Z.ltb_lt _ _)) by (cbn; lia).
Qed.

Lemma expect_cons c l : expect c (c :: l) = Some l.
Proof. cbn. by rewrite decide_True. Qed.

Lemma days_in_bound m y : 1 ≤ m ≤ 12 → days_in m y ≤ 31.
Proof.
  intros Hm. unfold days_in.
  assert (∀ lp, Forall (λ n, n ≤ 31) (month_lengths lp)) as Hall
    by (intros []; repeat constructor; lia).
  destruct (nth_in_or_default (Z.to_nat (m - 1)) (month_lengths (leap y)) 0) as [Hi|He]; [|lia].
  specialize (Hall (leap y)). rewrite Forall_forall in Hall. apply Hall. by apply list_elem_of_In.
Qed.

Lemma parse_date_time c rest :
  civil_ok c → 0 ≤ cYear c ≤ 9999 →
  ParseRFC3339 (of_bytes (date_time c ++ rest)) =
  '(ns, l) ← take_fraction rest; off ← take_zone l;
  Some (Date {| cYear := cYear c; cMonth := cMonth c; cDay := cDay c; cHour := cHour c; cMin := cMin c;
                cSec := cSec c; cNano := ns |} - off * Second).
Proof.
  intros (Hm & Hd & Hh & Hmi & Hs & Hn) Hy. unfold ParseRFC3339, date_time.
  pose proof (days_in_bound (cMonth c) (cYear c) Hm) as Hdi.
  rewrite bytes_of_of_bytes, pad_int_year by done.
  repeat (rewrite <- ?app_assoc; cbn [app];
    first [rewrite take_num_pad by first [lia|cbn; lia]|rewrite expect_cons]; cbn [mbind option_bind]).
  done.
Qed.

(** The instant without its nanoseconds. *)
Definition truncate_second (t : time) : time := t / Second * Second.

Lemma Date_nano c n :
  Date {| cYear := cYear c; cMonth := cMonth c; cDay := cDay c; cHour := cHour c; cMin := cMin c;
          cSec := cSec c; cNano := n |} = Date c - cNano c + n.
Proof. unfold Date. cbn [cYear cMonth cDay cHour cMin cSec cNano]. lia. Qed.

Lemma ParseRFC3339_Format t :
  in_calendar t → ParseRFC3339 (FormatRFC3339 t) = Some (truncate_second t).
Proof.
  intros Ht. unfold FormatRFC3339. destruct (civil_of_spec t) as [HD Hc].
  pose proof (year_range t Ht) as Hy.
  rewrite parse_date_time by (done || lia).
  change (take_fraction ["Z"%char]) with (Some (0, ["Z"%char])). cbn [mbind option_bind].
  change (take_zone ["Z"%char]) with (Some 0). cbn [mbind option_bind].
  rewrite Date_nano, HD. f_equal.
  unfold truncate_second. assert (cNano (civil_of t) = t mod Second) as ->.
  { unfold civil_of. destruct (year_and_day _) as [y yd]. by destruct (month_and_day _ _ _). }
  pose proof (Z.div_mod t Second ltac:(done)). lia.
Qed.

(** ** The order of compact times *)

(** [a] comes before [b] at the first byte where they differ. *)
Definition lex_lt (a b : list ascii) : Prop :=
  ∃ p x y a' b', a = p ++ x :: a' ∧ b = p ++ y :: b' ∧ code x < code y.

Lemma lex_lt_app a b r s : lex_lt a b → lex_lt (a ++ r) (b ++ s).
Proof.
  intros (p & x & y & a' & b' & -> & -> & H). exists p, x, y, (a' ++ r), (b' ++ s).
  by rewrite <- !app_assoc.
Qed.

Lemma lex_lt_prefix p a b : lex_lt a b → lex_lt (p ++ a) (p ++ b).
Proof.
  intros (q & x & y & a' & b' & -> & -> & H). exists (p ++ q), x, y, a', b'. by rewrite <- !app_assoc.
Qed.

Lemma lex_lt_leb a b : lex_lt a b → bytes_leb a b = true ∧ bytes_leb b a = false.
Proof.
  intros (p & x & y & a' & b' & -> & -> & H). induction p as [|z p IH]; cbn.
  - rewrite (proj2 (Z.ltb_lt _ _)), (proj2 (Z.ltb_ge (code y) _)) by lia.
    by rewrite (proj2 (Z.eqb_neq _ _)) by lia.
  - by rewrite Z.ltb_irrefl, Z.eqb_refl.
Qed.

Lemma code_digit_char d : 0 ≤ d ≤ 9 → code (digit_char d) = 48 + d.
Proof. intros Hd. unfold code, digit_char. rewrite N_ascii_embedding by lia. lia. Qed.

Lemma pad_lt w m n : 0 ≤ m < n → n < 10 ^ Z.of_nat w → lex_lt (pad w m) (pad w n).
Proof.
  revert m n. induction w as [|w IH]; intros m n Hm Hn; [cbn in Hn; lia|].
  rewrite Nat2Z.inj_succ, Z.pow_succ_r in Hn by lia. cbn [pad].
  pose proof (Z.div_mod m 10 ltac:(done)). pose proof (Z.mod_pos_bound m 10 ltac:(done)).
  pose proof (Z.div_mod n 10 ltac:(done)). pose proof (Z.mod_pos_bound n 10 ltac:(done)).
  destruct (decide (m / 10 = n / 10)) as [He|Hne].
  - rewrite He. apply lex_lt_prefix. exists [], (digit_char (m mod 10)), (digit_char (n mod 10)), [], [].
    rewrite !code_digit_char by lia. split_and!; [done..|lia].
  - apply lex_lt_app, IH; lia.
Qed.

Lemma month_and_day_mono ls m a b :
  Forall (λ n, 0 ≤ n) ls → 0 ≤ a < b → b < foldr Z.add 0 ls →
  let '(m1, d1) := month_and_day ls m a in
  let '(m2, d2) := month_and_day ls m b in
  m1 < m2 ∨ m1 = m2 ∧ d1 < d2.
Proof.
  revert m a b. induction ls as [|n ls IH]; intros m a b Hls Ha Hb; [cbn in Hb; lia|].
  apply Forall_cons in Hls as [Hn Hls]. cbn [foldr] in Hb. cbn [month_and_day].
  destruct (Z.ltb_spec a n), (Z.ltb_spec b n); [right; lia| |lia|apply IH; [done|lia..]].
  pose proof (month_and_day_spec ls (m + 1) (b - n) ltac:(lia) Hls) as Hs.
  destruct (month_and_day ls (m + 1) (b - n)) as [m2 d2]. left. lia.
Qed.

(** The fields of a later instant are later, field by field. *)
Definition civil_lt (a b : civil) : Prop :=
  cYear a < cYear b ∨ cYear a = cYear b ∧
  (cMonth a < cMonth b ∨ cMonth a = cMonth b ∧
   (cDay a < cDay b ∨ cDay a = cDay b ∧
    (cHour a < cHour b ∨ cHour a = cHour b ∧
     (cMin a < cMin b ∨ cMin a = cMin b ∧
      (cSec a < cSec b ∨ cSec a = cSec b ∧ cNano a < cNano b))))).

Lemma year_and_day_mono d e :
  d < e →
  (year_and_day d).1 < (year_and_day e).1 ∨
  (year_and_day d).1 = (year_and_day e).1 ∧ (year_and_day d).2 < (year_and_day e).2.
Proof.
  intros H. pose proof (year_and_day_spec d) as Hd. pose proof (year_and_day_spec e) as He.
  destruct (year_and_day d) as [y yd], (year_and_day e) as [z zd]. cbn.
  destruct (Z.lt_trichotomy y z) as [|[->|Hlt]]; [by left|right; lia|].
  pose proof (days_before_year_mono (z + 1) y ltac:(lia)) as Hm.
  rewrite days_before_year_S in Hm. lia.
Qed.

Lemma civil_of_mono t u : t < u → civil_lt (civil_of t) (civil_of u).
Proof.
  intros Htu. unfold civil_of, civil_lt.
  pose proof (year_and_day_mono (t / Second / 86400) (u / Second / 86400)) as Hym.
  pose proof (year_and_day_spec (t / Second / 86400)) as Hyt.
  pose proof (year_and_day_spec (u / Second / 86400)) as Hyu.
  pose proof (Z.div_mod t Second ltac:(done)). pose proof (Z.mod_pos_bound t Second ltac:(done)).
  pose proof (Z.div_mod u Second ltac:(done)). pose proof (Z.mod_pos_bound u Second ltac:(done)).
  pose proof (Z.div_mod (t / Second) 86400 ltac:(done)).
  pose proof (Z.mod_pos_bound (t / Second) 86400 ltac:(done)).
  pose proof (Z.div_mod (u / Second) 86400 ltac:(done)).
  pose proof (Z.mod_pos_bound (u / Second) 86400 ltac:(done)).
  assert (t / Second ≤ u / Second) by (apply Z.div_le_mono; lia || done).
  destruct (decide (t / Second / 86400 = u / Second / 86400)) as [Hsame|Hne].
  - rewrite Hsame. destruct (year_and_day (u / Second / 86400)) as [y yd].
    destruct (month_and_day (month_lengths (leap y)) 1 yd) as [m d]. cbn [cYear cMonth cDay cHour cMin cSec cNano].
    right. split; [done|]. right. split; [done|]. right. split; [done|].
    assert (t / Second = u / Second → t mod Second < u mod Second) as Hns.
    { intros E. rewrite E in *. lia. }
    destruct (sod_split ((t / Second) mod 86400)) as (St & Sth & Stm & Sts); [done|].
    destruct (sod_split ((u / Second) mod 86400)) as (Su & Suh & Sum & Sus); [done|]. lia.
  - destruct (year_and_day (t / Second / 86400)) as [y yd], (year_and_day (u / Second / 86400)) as [z zd].
    cbn in Hym. destruct Hym as [Hlt|[-> Hlt]]; [lia| |].
    + destruct (month_and_day _ _ yd), (month_and_day _ _ zd). by left.
    + pose proof (month_and_day_mono (month_lengths (leap z)) 1 yd zd (month_lengths_nonneg _) ltac:(lia)) as Hm.
      rewrite month_lengths_sum in Hm. specialize (Hm ltac:(lia)).
      destruct (month_and_day _ _ yd), (month_and_day _ _ zd). cbn. lia.
Qed.

Lemma FormatCompact_lt t u :
  in_calendar t → in_calendar u → t < u →
  lex_lt (bytes_of (FormatCompact t)) (bytes_of (FormatCompact u)).
Proof.
  intros Ht Hu Htu. pose proof (civil_of_mono t u Htu) as Hlt.
  pose proof (year_range t Ht) as Hyt. pose proof (year_range u Hu) as Hyu.
  destruct (civil_of_spec t) as [_ (Hm & Hd & Hh & Hmi & Hs & Hn)].
  destruct (civil_of_spec u) as [_ (Hm' & Hd' & Hh' & Hmi' & Hs' & Hn')].
  pose proof (days_in_bound _ (cYear (civil_of t)) Hm). pose proof (days_in_bound _ (cYear (civil_of u)) Hm').
  unfold FormatCompact. rewrite !bytes_of_of_bytes, !pad_int_year by lia.
  set (a := civil_of t) in *. set (b := civil_of u) in *. clearbody a b.
  destruct Hlt as [Hl|[-> Hl]]; [apply lex_lt_app, pad_lt; cbn; lia|]. apply lex_lt_prefix.
  destruct Hl as [Hl|[-> Hl]]; [apply lex_lt_app, pad_lt; cbn; lia|]. apply lex_lt_prefix.
  destruct Hl as [Hl|[-> Hl]]; [apply lex_lt_app, pad_lt; cbn; lia|]. apply lex_lt_prefix.
  apply (lex_lt_prefix ["T"%char]).
  destruct Hl as [Hl|[-> Hl]]; [apply lex_lt_app, pad_lt; cbn; lia|]. apply lex_lt_prefix.
  destruct Hl as [Hl|[-> Hl]]; [apply lex_lt_app, pad_lt; cbn; lia|]. apply lex_lt_prefix.
  destruct Hl as [Hl|[-> Hl]]; [apply lex_lt_app, pad_lt; cbn; lia|]. apply lex_lt_prefix.
  apply (lex_lt_prefix ["."%char]). apply lex_lt_app, pad_lt; [lia|]. exact (proj2 Hn').
Qed.

(** ** Fractions parse back *)

Lemma strip_zeros_spec w n :
  0 < n < 10 ^ Z.of_nat w →
  ∃ k m, strip_zeros w n = pad (S k) m ∧ (S k ≤ w)%nat ∧ 0 ≤ m < 10 ^ Z.of_nat (S k) ∧
         m * 10 ^ (Z.of_nat w - Z.of_nat (S k)) = n.
Proof.
  revert n. induction w as [|w IH]; intros n Hn; [cbn in Hn; lia|].
  cbn [strip_zeros]. destruct (Z.eqb_spec (n mod 10) 0) as [E|E].
  - pose proof (Z.div_mod n 10 ltac:(done)) as Hd. rewrite Nat2Z.inj_succ, Z.pow_succ_r in Hn by lia.
    destruct (IH (n / 10)) as (k & m & -> & Hk & Hm & He); [lia|].
    exists k, m. split_and!; try done; try lia.
    replace (Z.of_nat (S w) - Z.of_nat (S k)) with (Z.succ (Z.of_nat w - Z.of_nat (S k))) by lia.
    rewrite Z.pow_succ_r by lia. lia.
  - exists w, n. rewrite Z.sub_diag, Z.pow_0_r. split_and!; try done; lia.
Qed.

Lemma pad_digits w n : 0 ≤ n → Forall (λ a, is_Some (digit a)) (pad w n).
Proof.
  revert n. induction w as [|w IH]; intros n Hn; [constructor|]. cbn. apply Forall_app. split.
  - apply IH. by apply Z.div_pos.
  - constructor; [|constructor]. pose proof (Z.mod_pos_bound n 10 ltac:(done)).
    rewrite digit_digit_char by lia. eauto.
Qed.

Lemma pad_solid w n : 0 ≤ n → Forall solid (pad w n).
Proof. intros Hn. eapply Forall_impl; [by apply pad_digits|apply digit_solid]. Qed.

Lemma date_time_solid c : civil_ok c → 0 ≤ cYear c ≤ 9999 → Forall solid (date_time c).
Proof.
  intros (Hm & Hd & Hh & Hmi & Hs & Hn) Hy. unfold date_time. rewrite pad_int_year by done.
  repeat (apply Forall_app; split; [apply pad_solid; lia|]; apply Forall_cons; split; [done|]).
  apply pad_solid; lia.
Qed.

Lemma FormatRFC3339_solid t : in_calendar t → Forall solid (bytes_of (FormatRFC3339 t)).
Proof.
  intros Ht. unfold FormatRFC3339. rewrite bytes_of_of_bytes.
  apply Forall_app; split; [|by repeat constructor].
  apply date_time_solid; [apply civil_of_spec|]. pose proof (year_range t Ht). lia.
Qed.

Lemma span_digits_app ds c rest :
  Forall (λ a, is_Some (digit a)) ds → digit c = None →
  span_digits (ds ++ c :: rest) = (ds, c :: rest).
Proof.
  intros Hd Hc. induction Hd as [|a ds [z Ha] Hd IH]; cbn; [by rewrite Hc|]. by rewrite Ha, IH.
Qed.

Lemma take_fraction_print n c rest :
  0 ≤ n < Second → digit c = None → c ≠ "."%char →
  take_fraction (fraction n ++ c :: rest) = Some (n, c :: rest).
Proof.
  intros Hn Hc Hdot. unfold fraction. destruct (Z.eqb_spec n 0) as [->|Hne].
  - cbn. by rewrite decide_False.
  - destruct (strip_zeros_spec 9 n) as (k & m & -> & Hk & Hm & He); [unfold Second in Hn; cbn; lia|].
    unfold take_fraction. cbn [app]. rewrite decide_True by done.
    rewrite span_digits_app by (apply pad_digits || done; lia).
    destruct (pad (S k) m) as [|x l] eqn:Ep; [by apply (f_equal length) in Ep; rewrite pad_length in Ep|].
    rewrite <- Ep. rewrite take_ge by (rewrite pad_length; lia). rewrite parse_pad by done. cbn [mbind option_bind].
    rewrite pad_length. by rewrite <- He.
Qed.

Lemma ParseRFC3339_FormatNano t : in_calendar t → ParseRFC3339 (FormatRFC3339Nano t) = Some t.
Proof.
  intros Ht. unfold FormatRFC3339Nano. destruct (civil_of_spec t) as [HD Hc].
  pose proof (year_range t Ht) as Hy. pose proof Hc as (_ & _ & _ & _ & _ & Hn).
  rewrite parse_date_time by (done || lia). rewrite take_fraction_print by done. cbn [mbind option_bind].
  change (take_zone ["Z"%char]) with (Some 0). cbn [mbind option_bind].
  rewrite Date_nano, HD. f_equal. lia.
Qed.

Lemma FormatRFC3339Nano_solid t : in_calendar t → Forall solid (bytes_of (FormatRFC3339Nano t)).
Proof.
  intros Ht. unfold FormatRFC3339Nano. rewrite bytes_of_of_bytes.
  destruct (civil_of_spec t) as [_ Hc]. pose proof Hc as (_ & _ & _ & _ & _ & Hn).
  apply Forall_app; split; [apply date_time_solid; [done|]; pose proof (year_range t Ht); lia|].
  apply Forall_app; split; [|by repeat constructor]. unfold fraction.
  destruct (Z.eqb_spec (cNano (civil_of t)) 0) as [|Hz]; [constructor|]. apply Forall_cons; split; [done|].
  destruct (strip_zeros_spec 9 (cNano (civil_of t))) as (k & m & -> & _ & Hm & _).
  - change (10 ^ Z.of_nat 9) with Second. lia.
  - apply pad_solid. lia.
Qed.

(** ** Protobuf timestamps *)

(** [timestamppb.Timestamp]: seconds since 1970 and nanoseconds. *)
Record Timestamp := { seconds : Z; nanos : Z }.

(** The seconds from the zero [time.Time] to 1970. *)
Definition unix_epoch : Z := 62135596800.

Definition timestamppb_New (t : time) : Timestamp :=
  {| seconds := t / Second - unix_epoch; nanos := t mod Second |}.
Definition AsTime (ts : Timestamp) : time := (seconds ts + unix_epoch) * Second + nanos ts.

Lemma AsTime_New t : AsTime (timestamppb_New t) = t.
Proof.
  unfold AsTime, timestamppb_New. cbn [seconds nanos].
  pose proof (Z.div_mod t Second ltac:(done)). lia.
Qed.
