(* ===== verification/GoErrors.v ===== *)
(** * Go error values

    The errors the packages create, wrap and inspect.  [errors.Is] and
    [errors.As] walk the tree of wrapped errors in Go's order: the error
    itself, then what it unwraps to, depth first. *)

From S2P Require Import Prelude GoStrings.
#[local] Open Scope Z_scope.

(** Connect's error codes (connectrpc.com/connect, [Code]). *)
Inductive connect_code : Set :=
| CodeCanceled | CodeUnknown | CodeInvalidArgument | CodeDeadlineExceeded
| CodeNotFound | CodeAlreadyExists | CodePermissionDenied | CodeResourceExhausted
| CodeFailedPrecondition | CodeAborted | CodeOutOfRange | CodeUnimplemented
| CodeInternal | CodeUnavailable | CodeDataLoss | CodeUnauthenticated.

#[export] Instance connect_code_eq_dec : EqDecision connect_code.
Proof. solve_decision. Defined.

Inductive error : Type :=
(** [errors.New(text)] held by the package variable [name] (empty for one made
    in place, which nothing compares against). *)
| ErrNew (name text : string)
(** [fmt.Errorf] without [%w]. *)
| ErrFmt (text : string)
(** [fmt.Errorf] with one [%w]: the text before it, the error, the text after. *)
| ErrWrap (pre : string) (inner : error) (post : string)
(** [*resilience.PermanentError]. *)
| ErrPermanent (inner : error)
(** [*rterrors.Error]. *)
| ErrRuntime (Code Message Op : string) (cause : option error)
(** [*connect.Error]. *)
| ErrConnect (c : connect_code) (inner : error)
(** [errors.Join]. *)
| ErrJoin (errs : list error)
(** An error of code outside the repository: its identity and its text. *)
| ErrForeign (ident : Z) (text : string).

(** What an error unwraps to. *)
Definition Unwrap (e : error) : list error :=
  match e with
  | ErrWrap _ i _ | ErrPermanent i | ErrConnect _ i => [i]
  | ErrRuntime _ _ _ (Some i) => [i]
  | ErrJoin es => es
  | _ => []
  end.

(** [errors.As] in general: the first error of the tree the test accepts. *)
Fixpoint find_error {A} (test : error → option A) (e : error) : option A :=
  match test e with
  | Some a => Some a
  | None =>
      match e with
      | ErrWrap _ i _ | ErrPermanent i | ErrConnect _ i => find_error test i
      | ErrRuntime _ _ _ (Some i) => find_error test i
      | ErrJoin es =>
          (fix go (l : list error) : option A :=
             match l with
             | [] => None
             | x :: l' => match find_error test x with Some a => Some a | None => go l' end
             end) es
      | _ => None
      end
  end.

(** [errors.Is(e, v)] for a package variable [v] made by [errors.New]. *)
Definition IsVar (name : string) (e : error) : bool :=
  match find_error (λ x, match x with
                         | ErrNew n _ => if bool_decide (n = name) then Some tt else None
                         | _ => None
                         end) e with
  | Some _ => true
  | None => false
  end.

Lemma IsVar_wrap name p e q : IsVar name (ErrWrap p e q) = IsVar name e.
Proof. done. Qed.

Lemma find_error_wrap {A} (t : error → option A) p e q :
  t (ErrWrap p e q) = None → find_error t (ErrWrap p e q) = find_error t e.
Proof. cbn. by intros ->. Qed.

(** ** Registration with Prometheus

    What [Registerer.Register] answers: an error that says that an equal collector is
    registered already carries that collector, of the same Go type or of another. *)
Inductive registration :=
| Registered
| AlreadyRegistered (same_type : bool) (e : error)
| RegisterFailed (e : error).
