(* ===== verification/Breaker.v ===== *)
(** * The circuit breaker (src/resilience/breaker.go)

    The state of a [Breaker] and its operations, one definition per method.
    Every method runs under the breaker's mutex, so a method is one atomic
    step; a call in progress between [before] and [after] is interleaved with
    other calls by the step relation [step].  The clock is read at most once
    per method and is an argument of the methods that read it.  Callbacks run
    after the mutex is released; a method returns the notifications it sends. *)

From S2P Require Import Prelude GoStrings GoErrors.
#[local] Open Scope Z_scope.

Inductive BreakerState : Set := StateClosed | StateOpen | StateHalfOpen.

#[export] Instance BreakerState_eq_dec : EqDecision BreakerState.
Proof. solve_decision. Defined.

Definition state_eqb (a b : BreakerState) : bool :=
  match a, b with
  | StateClosed, StateClosed | StateOpen, StateOpen | StateHalfOpen, StateHalfOpen => true
  | _, _ => false
  end.

Lemma state_eqb_spec a b : reflect (a = b) (state_eqb a b).
Proof. destruct a, b; by constructor. Qed.

Definition BreakerState_String (s : BreakerState) : string :=
  match s with
  | StateClosed => "closed"
  | StateOpen => "open"
  | StateHalfOpen => "half-open"
  end.

Definition ErrCircuitOpen : error := ErrNew "resilience.ErrCircuitOpen" "circuit_open".

(** [OnStateChange] is recorded as whether the callback is set; the clock is an
    argument of the operations. *)
Record BreakerConfig := {
  FailureThreshold : Z;
  ResetTimeout : duration;
  HalfOpenMax : Z;
  OnStateChange : bool;
}.

Definition withDefaults (c : BreakerConfig) : BreakerConfig :=
  {| FailureThreshold := if FailureThreshold c <? 1 then 5 else FailureThreshold c;
     ResetTimeout := if ResetTimeout c <=? 0 then 30 * Second else ResetTimeout c;
     HalfOpenMax := if HalfOpenMax c <? 1 then 1 else HalfOpenMax c;
     OnStateChange := OnStateChange c |}.

Record Breaker := {
  cfg : BreakerConfig;
  state : BreakerState;
  consecutiveFail : Z;
  openedAt : time;
  halfOpenCount : Z;
  onStateChange : bool;
}.

Definition NewBreaker (c : BreakerConfig) : Breaker :=
  let c := withDefaults c in
  {| cfg := c; state := StateClosed; consecutiveFail := 0; openedAt := zero_time;
     halfOpenCount := 0; onStateChange := OnStateChange c |}.

(** Field updates. *)
Definition set_state (s : BreakerState) (b : Breaker) : Breaker :=
  {| cfg := cfg b; state := s; consecutiveFail := consecutiveFail b;
     openedAt := openedAt b; halfOpenCount := halfOpenCount b;
     onStateChange := onStateChange b |}.
Definition set_fail (n : Z) (b : Breaker) : Breaker :=
  {| cfg := cfg b; state := state b; consecutiveFail := n;
     openedAt := openedAt b; halfOpenCount := halfOpenCount b;
     onStateChange := onStateChange b |}.
Definition set_openedAt (t : time) (b : Breaker) : Breaker :=
  {| cfg := cfg b; state := state b; consecutiveFail := consecutiveFail b;
     openedAt := t; halfOpenCount := halfOpenCount b;
     onStateChange := onStateChange b |}.
Definition set_halfOpen (n : Z) (b : Breaker) : Breaker :=
  {| cfg := cfg b; state := state b; consecutiveFail := consecutiveFail b;
     openedAt := openedAt b; halfOpenCount := n;
     onStateChange := onStateChange b |}.

(** A state change [(from, to)]; Go's [changed] flag is [Some]. *)
Abbreviation transition := (BreakerState * BreakerState)%type.

Definition notify (b : Breaker) (tr : option transition) : list transition :=
  match tr with
  | Some x => if onStateChange b then [x] else []
  | None => []
  end.

Definition changed (from to : BreakerState) : option transition :=
  if state_eqb from to then None else Some (from, to).

(** [stateLocked]: the promoted breaker, its state, and the change if any. *)
Definition stateLocked (now : time) (b : Breaker)
  : Breaker * BreakerState * option transition :=
  if state_eqb (state b) StateOpen
     && (ResetTimeout (cfg b) <=? time_sub now (openedAt b))
  then (set_halfOpen 0 (set_state StateHalfOpen b), StateHalfOpen,
        Some (StateOpen, StateHalfOpen))
  else (b, state b, None).

Definition State (now : time) (b : Breaker)
  : Breaker * BreakerState * list transition :=
  let '(b1, s, tr) := stateLocked now b in
  (b1, s, notify b1 tr).

Definition Reset (b : Breaker) : Breaker * list transition :=
  let prev := state b in
  let b1 := set_halfOpen 0 (set_fail 0 (set_state StateClosed b)) in
  (b1, notify b1 (changed prev StateClosed)).

(** [before]: [Ok wasProbe] when the call may proceed. *)
Definition before (now : time) (b : Breaker)
  : Breaker * result error bool * list transition :=
  let '(b1, s, tr) := stateLocked now b in
  let ev := notify b1 tr in
  match s with
  | StateClosed => (b1, Ok false, ev)
  | StateOpen => (b1, Err ErrCircuitOpen, ev)
  | StateHalfOpen =>
      if HalfOpenMax (cfg b1) <=? halfOpenCount b1
      then (b1, Err ErrCircuitOpen, ev)
      else (set_halfOpen (wrap64 (halfOpenCount b1 + 1)) b1, Ok true, ev)
  end.

Definition onSuccess (b : Breaker) : Breaker * option transition :=
  let prev := state b in
  let b1 :=
    match state b with
    | StateClosed => set_fail 0 b
    | StateOpen => b
    | StateHalfOpen => set_halfOpen 0 (set_fail 0 (set_state StateClosed b))
    end in
  (b1, changed prev (state b1)).

Definition onFailure (now : time) (b : Breaker) : Breaker * option transition :=
  let prev := state b in
  let b1 :=
    match state b with
    | StateClosed =>
        let b' := set_fail (wrap64 (consecutiveFail b + 1)) b in
        if FailureThreshold (cfg b') <=? consecutiveFail b'
        then set_openedAt now (set_state StateOpen b') else b'
    | StateOpen => b
    | StateHalfOpen => set_halfOpen 0 (set_openedAt now (set_state StateOpen b))
    end in
  (b1, changed prev (state b1)).

Definition after (now : time) (wasProbe : bool) (err : option error) (b : Breaker)
  : Breaker * list transition :=
  if wasProbe && negb (state_eqb (state b) StateHalfOpen) then (b, [])
  else
    let '(b1, tr) :=
      match err with
      | None => onSuccess b
      | Some _ => onFailure now b
      end in
    (b1, notify b1 tr).

(** [Do] run by one caller: [fn] acts on a world [W]; [t0] and [t1] are the
    clock readings of [before] and [after]. *)
Definition Do {W} (fn : W → option error * W) (t0 t1 : time) (b : Breaker) (w : W)
  : Breaker * option error * W * list transition :=
  let '(b1, r, ev1) := before t0 b in
  match r with
  | Err e => (b1, Some e, w, ev1)
  | Ok wasProbe =>
      let '(err, w1) := fn w in
      let '(b2, ev2) := after t1 wasProbe err b1 in
      (b2, err, w1, ev1 ++ ev2)
  end.

(** [DoValue]: the closure assigns the captured variable [result]. *)
Definition DoValue {W T} (zero : T) (fn : W → result error T * W)
  (t0 t1 : time) (b : Breaker) (w : W)
  : Breaker * result error T * W * list transition :=
  let closure '(w, res) :=
    match fn w with
    | (Ok v, w') => (None, (w', v))
    | (Err e, w') => (Some e, (w', res))
    end in
  let '(b1, err, (w1, res), ev) := Do closure t0 t1 b (w, zero) in
  match err with
  | Some e => (b1, Err e, w1, ev)
  | None => (b1, Ok res, w1, ev)
  end.

(** ** Concurrent use

    Any number of goroutines share the breaker.  [inflight] holds the
    [wasProbe] flag of every call between its [before] and its [after];
    [trace] the notifications in the order of the state changes.  [admitted] is
    an observer's count, which the breaker does not see: the calls let through
    since the breaker entered its present state.  Clock readings are arbitrary:
    no monotonicity is assumed. *)

Record system := { br : Breaker; inflight : list bool; trace : list transition; admitted : Z }.

Definition init (c : BreakerConfig) : system :=
  {| br := NewBreaker c; inflight := []; trace := []; admitted := 0 |}.

(** The count after a step to the breaker [b] that lets [n] calls through. *)
Definition tally (s : system) (b : Breaker) (n : Z) : Z :=
  (if state_eqb (state (br s)) (state b) then admitted s else 0) + n.

Inductive step : system → system → Prop :=
| step_admit now s b p ev :
    before now (br s) = (b, Ok p, ev) →
    step s {| br := b; inflight := inflight s ++ [p]; trace := trace s ++ ev; admitted := tally s b 1 |}
| step_reject now s b e ev :
    before now (br s) = (b, Err e, ev) →
    step s {| br := b; inflight := inflight s; trace := trace s ++ ev; admitted := tally s b 0 |}
| step_finish now s i p err b ev :
    inflight s !! i = Some p →
    after now p err (br s) = (b, ev) →
    step s {| br := b; inflight := delete i (inflight s); trace := trace s ++ ev; admitted := tally s b 0 |}
| step_query now s b st ev :
    State now (br s) = (b, st, ev) →
    step s {| br := b; inflight := inflight s; trace := trace s ++ ev; admitted := tally s b 0 |}
| step_reset s b ev :
    Reset (br s) = (b, ev) →
    step s {| br := b; inflight := inflight s; trace := trace s ++ ev; admitted := tally s b 0 |}.

Definition reachable (c : BreakerConfig) : system → Prop := rtc step (init c).

(** The configuration holds 64-bit integers. *)
Definition typed_config (c : BreakerConfig) : Prop :=
  in_int64 (FailureThreshold c) ∧ in_int64 (ResetTimeout c) ∧ in_int64 (HalfOpenMax c).

Definition config_ok (c : BreakerConfig) : Prop :=
  1 ≤ FailureThreshold c ≤ int64_max ∧ 0 < ResetTimeout c ≤ int64_max
  ∧ 1 ≤ HalfOpenMax c ≤ int64_max.

Lemma withDefaults_ok c : typed_config c → config_ok (withDefaults c).
Proof.
  unfold typed_config, config_ok, in_int64, int64_max, int64_min.
  intros (? & ? & ?). cbn. repeat case_match; breflect; cbn; unfold Second; lia.
Qed.

(** The well-formedness invariant of a breaker. *)
Record wf (b : Breaker) : Prop := {
  wf_cfg : config_ok (cfg b);
  wf_fail : 0 ≤ consecutiveFail b ≤ FailureThreshold (cfg b);
  wf_closed : state b = StateClosed → consecutiveFail b < FailureThreshold (cfg b);
  wf_half : 0 ≤ halfOpenCount b ≤ HalfOpenMax (cfg b);
  wf_only_half : state b ≠ StateHalfOpen → halfOpenCount b = 0;
}.

#[export] Hint Constructors wf : go.

Ltac breaker_cases :=
  repeat (match goal with
          | H : context [state_eqb ?a ?b] |- _ => destruct (state_eqb_spec a b)
          | |- context [state_eqb ?a ?b] => destruct (state_eqb_spec a b)
          end || case_match || simplify_eq/=); breflect.

Ltac wf_solve :=
  unfold config_ok, in_int64, int64_max, int64_min in *;
  constructor; cbn in *; unfold config_ok, int64_max in *; try done; try lia.

Lemma NewBreaker_wf c : typed_config c → wf (NewBreaker c).
Proof.
  intros H%withDefaults_ok. unfold NewBreaker. revert H. generalize (withDefaults c).
  intros c' H. wf_solve.
Qed.

Lemma stateLocked_wf now b b1 s tr :
  stateLocked now b = (b1, s, tr) → wf b → wf b1 ∧ s = state b1.
Proof.
  unfold stateLocked. intros H Hwf. breaker_cases; try done.
  destruct Hwf as [? ? ? ? ?]. split; [|done]. wf_solve.
Qed.

Lemma before_wf now b b1 r ev : before now b = (b1, r, ev) → wf b → wf b1.
Proof.
  unfold before. destruct (stateLocked now b) as [[b' s] tr] eqn:E. intros H Hwf.
  destruct (stateLocked_wf _ _ _ _ _ E Hwf) as [Hwf' ->].
  breaker_cases; try done.
  destruct Hwf' as [? ? ? ? ?]. wf_solve.
  rewrite wrap64_id; unfold in_int64, int64_min, int64_max; lia.
Qed.

Lemma onSuccess_wf b : wf b → wf (onSuccess b).1.
Proof.
  intros [Hcfg ? ? ? Hhalf]. unfold onSuccess.
  destruct (state b) eqn:E; cbn; rewrite ?E; wf_solve; eauto with congruence.
Qed.

Lemma onFailure_wf now b : wf b → wf (onFailure now b).1.
Proof.
  intros [Hcfg ? Hclosed ? Hhalf]. unfold onFailure.
  destruct (state b) eqn:E; cbn.
  - specialize (Hclosed eq_refl).
    rewrite wrap64_id by (unfold in_int64, config_ok, int64_max, int64_min in *; lia).
    case_match; breflect; wf_solve; rewrite ?E; eauto.
  - wf_solve; rewrite ?E; eauto.
  - wf_solve.
Qed.

Lemma after_wf now p err b b1 ev : after now p err b = (b1, ev) → wf b → wf b1.
Proof.
  unfold after. intros H Hwf. case_match; [by simplify_eq|].
  pose proof (onSuccess_wf b Hwf). pose proof (onFailure_wf now b Hwf).
  destruct err; [destruct (onFailure now b) | destruct (onSuccess b)]; by simplify_eq/=.
Qed.

Lemma State_wf now b b1 s ev : State now b = (b1, s, ev) → wf b → wf b1.
Proof.
  unfold State. destruct (stateLocked now b) as [[b' s'] tr] eqn:E. intros ? Hwf.
  simplify_eq. by eapply stateLocked_wf.
Qed.

Lemma Reset_wf b b1 ev : Reset b = (b1, ev) → wf b → wf b1.
Proof. intros [= <- <-] [Hcfg ? ? ? ?]. wf_solve. Qed.

#[export] Hint Resolve before_wf after_wf State_wf Reset_wf NewBreaker_wf : go.

Lemma step_wf s s' : step s s' → wf (br s) → wf (br s').
Proof. destruct 1; cbn; eauto with go. Qed.

Lemma before_admits now b b1 p ev :
  before now b = (b1, Ok p, ev) →
  (state b1 = StateClosed ∧ state b = StateClosed) ∨
  (state b1 = StateHalfOpen ∧
   let n := if state_eqb (state b) StateHalfOpen then halfOpenCount b else 0 in
   n < HalfOpenMax (cfg b) ∧ halfOpenCount b1 = wrap64 (n + 1)).
Proof.
  unfold before, stateLocked. intros Hb. destruct (state b) eqn:E; cbn in Hb.
  - simplify_eq. by left.
  - destruct (ResetTimeout (cfg b) <=? _); cbn in Hb; rewrite ?E in Hb; [|done].
    destruct (Z.leb_spec (HalfOpenMax (cfg b)) 0); [done|]. simplify_eq. by right.
  - rewrite ?E in Hb. destruct (Z.leb_spec (HalfOpenMax (cfg b)) (halfOpenCount b)); [done|]. simplify_eq. by right.
Qed.

(** Steps that let no call through leave the probe counter as long as the breaker
    stays half-open, and start it again when it becomes half-open. *)
Definition counter_kept (b b1 : Breaker) : Prop :=
  state b1 = StateHalfOpen → halfOpenCount b1 = if state_eqb (state b) StateHalfOpen then halfOpenCount b else 0.

Ltac counter_solve H :=
  unfold counter_kept; intros Hst; breaker_cases; try done; try congruence.

Lemma before_refuses now b b1 e ev : before now b = (b1, Err e, ev) → counter_kept b b1.
Proof. unfold before, stateLocked. intros H. counter_solve H. Qed.
Lemma after_counter now p err b b1 ev : after now p err b = (b1, ev) → counter_kept b b1.
Proof. unfold after, onSuccess, onFailure. intros H. counter_solve H. Qed.
Lemma State_counter now b b1 st ev : State now b = (b1, st, ev) → counter_kept b b1.
Proof. unfold State, stateLocked. intros H. counter_solve H. Qed.
Lemma Reset_counter b b1 ev : Reset b = (b1, ev) → counter_kept b b1.
Proof. unfold Reset. intros H. counter_solve H. Qed.

(** The observer's count and the breaker's. *)
Definition count_ok (s : system) : Prop :=
  match state (br s) with
  | StateClosed => True
  | StateOpen => admitted s = 0
  | StateHalfOpen => admitted s = halfOpenCount (br s)
  end.

Lemma tally_kept s b : counter_kept (br s) b → count_ok s →
  match state b with
  | StateClosed => True
  | StateOpen => tally s b 0 = 0
  | StateHalfOpen => tally s b 0 = halfOpenCount b
  end.
Proof.
  unfold counter_kept, count_ok, tally. intros Hk Hc. destruct (state b) eqn:E; [done| |].
  - destruct (state (br s)) eqn:E1; cbn; lia.
  - rewrite (Hk eq_refl). destruct (state (br s)) eqn:E1; cbn; lia.
Qed.

Lemma step_cfg s s' : step s s' → cfg (br s') = cfg (br s).
Proof.
  destruct 1 as [now s b p ev Hb|now s b e ev Hb|now s i p err b ev _ Hb|now s b st ev Hb|s b ev Hb]; cbn;
    [revert Hb; unfold before, stateLocked|revert Hb; unfold before, stateLocked
    |revert Hb; unfold after, onSuccess, onFailure|revert Hb; unfold State, stateLocked|revert Hb; unfold Reset];
    intros Hb; repeat case_match; by simplify_eq/=.
Qed.

Lemma step_count s s' : step s s' → wf (br s) → count_ok s → count_ok s'.
Proof.
  intros Hs Hwf Hc.
  destruct Hs as [now s b p ev Hb|now s b e ev Hb|now s i p err b ev _ Hb|now s b st ev Hb|s b ev Hb]; unfold count_ok; cbn.
  - destruct (before_admits _ _ _ _ _ Hb) as [[-> _]|(Hh & Hlt & Hn)]; [done|]. rewrite Hh, Hn. unfold tally. rewrite Hh.
    unfold count_ok in Hc. destruct Hwf as [Hcfg _ _ Hh' _]. unfold config_ok, int64_max in Hcfg. cbn zeta in *.
    destruct (state (br s)); cbn in *; rewrite wrap64_id by (unfold in_int64, int64_min, int64_max; lia); lia.
  - apply tally_kept; [by eapply before_refuses|done].
  - apply tally_kept; [by eapply after_counter|done].
  - apply tally_kept; [by eapply State_counter|done].
  - apply tally_kept; [by eapply Reset_counter|done].
Qed.

Ltac take_step tac := eapply rtc_l; [tac; vm_compute; reflexivity|cbn].

(** ** The notifications form a path *)

(** The edges of the state machine. *)
Definition edge (e : transition) : bool :=
  match e with
  | (StateClosed, StateOpen) | (StateOpen, StateHalfOpen)
  | (StateHalfOpen, StateClosed) | (StateHalfOpen, StateOpen)
  | (StateOpen, StateClosed) => true
  | _ => false
  end.

(** [path s l s']: the changes [l] lead from [s] to [s'], each along an edge. *)
Fixpoint path (s : BreakerState) (l : list transition) (s' : BreakerState) : Prop :=
  match l with
  | [] => s = s'
  | (a, c) :: l' => s = a ∧ edge (a, c) = true ∧ path c l' s'
  end.

Lemma path_app s l k s' s'' : path s l s' → path s' k s'' → path s (l ++ k) s''.
Proof.
  revert s. induction l as [|[a c] l IH]; intros s; cbn; [by intros ->|].
  naive_solver.
Qed.

(** Where a callback is set, an operation notifies a path between the states
    before and after it. *)
Definition notifies (b b1 : Breaker) (ev : list transition) : Prop :=
  onStateChange b1 = onStateChange b ∧
  (onStateChange b = true → path (state b) ev (state b1)).

Ltac path_solve :=
  unfold notifies, notify, changed in *; breaker_cases;
  repeat match goal with H : state _ = _ |- _ => rewrite ?H in *; clear H end;
  cbn in *; repeat split; auto; congruence.

Lemma stateLocked_notifies now b b1 s tr :
  stateLocked now b = (b1, s, tr) → notifies b b1 (notify b1 tr).
Proof. unfold stateLocked. intros H. path_solve. Qed.

Lemma before_notifies now b b1 r ev : before now b = (b1, r, ev) → notifies b b1 ev.
Proof.
  unfold before. destruct (stateLocked now b) as [[b' s] tr] eqn:E.
  apply stateLocked_notifies in E. intros H. breaker_cases; naive_solver.
Qed.

Lemma after_notifies now p err b b1 ev : after now p err b = (b1, ev) → notifies b b1 ev.
Proof.
  unfold after, onSuccess, onFailure. intros H. destruct (state b) eqn:E; path_solve.
Qed.

Lemma State_notifies now b b1 s ev : State now b = (b1, s, ev) → notifies b b1 ev.
Proof.
  unfold State. destruct (stateLocked now b) as [[b' s'] tr] eqn:E.
  apply stateLocked_notifies in E. naive_solver.
Qed.

Lemma Reset_notifies b b1 ev : Reset b = (b1, ev) → notifies b b1 ev.
Proof. unfold Reset. intros H. destruct (state b) eqn:E; path_solve. Qed.

#[export] Hint Resolve before_notifies after_notifies State_notifies Reset_notifies : go.

Definition trace_ok (s : system) : Prop :=
  onStateChange (br s) = true ∧ path StateClosed (trace s) (state (br s)).

Lemma step_trace s s' : step s s' → trace_ok s → trace_ok s'.
Proof.
  intros Hs [Hcb Hpath].
  assert (∃ ev, trace s' = trace s ++ ev ∧ notifies (br s) (br s') ev) as (ev & Ht & Hn & Hp)
    by (destruct Hs; cbn; eauto with go).
  split; [congruence|]. rewrite Ht. eapply path_app; eauto.
Qed.

Lemma reachable_ind_inv (c : BreakerConfig) (P : system → Prop) :
  P (init c) → (∀ s s', step s s' → P s → P s') → ∀ s, reachable c s → P s.
Proof.
  intros H0 Hstep s Hr. unfold reachable in Hr. revert H0.
  induction Hr as [|x y z Hxy _ IH]; eauto.
Qed.

(** ** Abstract specification

    What a circuit breaker promises, with one value per state and no counters
    that have no meaning in the state. *)

Module Spec.
Inductive t : Set :=
| Closed (fails : Z)
| Open (since : time)
| HalfOpen (admitted : Z).

Definition promote (c : BreakerConfig) (now : time) (s : t) : t :=
  match s with
  | Open since => if ResetTimeout c <=? time_sub now since then HalfOpen 0 else s
  | _ => s
  end.

(** The state after an arriving call, and whether it may run as a normal call,
    as a probe, or not at all. *)
Definition admits (c : BreakerConfig) (now : time) (s : t) : t * option bool :=
  match promote c now s with
  | Closed n => (Closed n, Some false)
  | Open since => (Open since, None)
  | HalfOpen k => if k <? HalfOpenMax c then (HalfOpen (k + 1), Some true) else (HalfOpen k, None)
  end.

(** The state after a call reports; [ok] is its success. *)
Definition report (c : BreakerConfig) (now : time) (probe ok : bool) (s : t) : t :=
  match s, probe, ok with
  | Closed _, false, true => Closed 0
  | Closed n, false, false => if n + 1 <? FailureThreshold c then Closed (n + 1) else Open now
  | HalfOpen _, _, true => Closed 0
  | HalfOpen _, _, false => Open now
  | _, _, _ => s
  end.
End Spec.

Definition abs (b : Breaker) : Spec.t :=
  match state b with
  | StateClosed => Spec.Closed (consecutiveFail b)
  | StateOpen => Spec.Open (openedAt b)
  | StateHalfOpen => Spec.HalfOpen (halfOpenCount b)
  end.

Definition admission (r : result error bool) : option bool :=
  match r with Ok p => Some p | Err _ => None end.

Lemma before_cfg now b : cfg (before now b).1.1 = cfg b.
Proof. unfold before, stateLocked. by repeat case_match; simplify_eq/=. Qed.
Lemma after_cfg now p err b : cfg (after now p err b).1 = cfg b.
Proof. unfold after, onSuccess, onFailure. by repeat case_match; simplify_eq/=. Qed.

Lemma before_refines b now :
  wf b → Spec.admits (cfg b) now (abs b) =
         (abs (before now b).1.1, admission (before now b).1.2).
Proof.
  intros [Hc _ _ Hh Hz]. unfold before, stateLocked, Spec.admits, Spec.promote, abs.
  destruct (state b) eqn:E; cbn.
  - by rewrite ?E.
  - destruct (_ <=? time_sub _ _) eqn:Et; cbn; rewrite ?E; [|done].
    unfold config_ok in Hc. rewrite (proj2 (Z.ltb_lt _ _)), (proj2 (Z.leb_gt _ _)) by lia.
    done.
  - rewrite ?E. destruct (Z.leb_spec (HalfOpenMax (cfg b)) (halfOpenCount b)).
    + rewrite (proj2 (Z.ltb_ge _ _)) by lia. cbn. by rewrite ?E.
    + rewrite (proj2 (Z.ltb_lt _ _)) by lia. cbn. rewrite ?E. repeat f_equal.
      unfold config_ok, int64_max in Hc. symmetry. apply wrap64_id.
      unfold in_int64, int64_min, int64_max. lia.
Qed.

Lemma after_refines b now p err :
  wf b → abs (after now p err b).1 =
         Spec.report (cfg b) now p (match err with None => true | Some _ => false end) (abs b).
Proof.
  intros [Hc Hf Hcl _ _]. unfold after, onSuccess, onFailure, abs.
  destruct (state b) eqn:E, p, err; cbn; rewrite ?E; try done.
  specialize (Hcl eq_refl). unfold config_ok, int64_max in Hc.
  rewrite wrap64_id by (unfold in_int64, int64_min, int64_max; lia).
  destruct (Z.leb_spec (FailureThreshold (cfg b)) (consecutiveFail b + 1)); cbn; rewrite ?E.
  - by rewrite (proj2 (Z.ltb_ge _ _)) by lia.
  - by rewrite (proj2 (Z.ltb_lt _ _)) by lia.
Qed.

Lemma promote_refines b now :
  abs (State now b).1.1 = Spec.promote (cfg b) now (abs b).
Proof.
  unfold State, stateLocked, abs, Spec.promote.
  destruct (state b) eqn:E; cbn; rewrite ?E; try done.
  by destruct (_ <=? _); cbn; rewrite ?E.
Qed.

(** ** Interface for the breaker's clients

    What a caller of [Do] may rely on, whatever the breaker's state: the call
    is either refused, without running the function, or the function runs
    exactly once and its error is returned. *)

Class CallGuard (G : Type) := {
  guard_do : ∀ {W}, (W → option error * W) → G → W → option error * W * G;
  guard_value : ∀ {W T}, T → (W → result error T * W) → G → W → result error T * W * G;
  guard_refusal : error;
  guard_do_law : ∀ W (fn : W → option error * W) g w,
    let '(err, w', _) := guard_do fn g w in
    (err = Some guard_refusal ∧ w' = w) ∨ (err = (fn w).1 ∧ w' = (fn w).2);
  guard_value_law : ∀ W T (zero : T) (fn : W → result error T * W) g w,
    let '(r, w', _) := guard_value zero fn g w in
    (r = Err guard_refusal ∧ w' = w) ∨ (r = (fn w).1 ∧ w' = (fn w).2);
}.

Lemma Do_runs_once {W} (fn : W → option error * W) t0 t1 b w :
  let '(_, err, w', _) := Do fn t0 t1 b w in
  (err = Some ErrCircuitOpen ∧ w' = w) ∨ (err = (fn w).1 ∧ w' = (fn w).2).
Proof.
  unfold Do, before. repeat case_match; simplify_eq/=; auto.
Qed.

Lemma DoValue_runs_once {W T} (zero : T) (fn : W → result error T * W) t0 t1 b w :
  let '(_, r, w', _) := DoValue zero fn t0 t1 b w in
  (r = Err ErrCircuitOpen ∧ w' = w) ∨ (r = (fn w).1 ∧ w' = (fn w).2).
Proof.
  unfold DoValue.
  match goal with |- context [Do ?f t0 t1 b ?s] =>
    pose proof (Do_runs_once f t0 t1 b s) as H;
    destruct (Do f t0 t1 b s) as [[[b' err] [w' res]] ev]
  end.
  destruct H as [[-> H]|[-> H]]; [left; by simplify_eq|].
  destruct (fn w) as [[v|e] w1]; simplify_eq/=; by right.
Qed.

(** A breaker together with the clock readings its next calls will make. *)
Record ClockedBreaker := { cb_breaker : Breaker; cb_clock : nat → time; cb_next : nat }.

Definition advance (b : Breaker) (g : ClockedBreaker) : ClockedBreaker :=
  {| cb_breaker := b; cb_clock := cb_clock g; cb_next := S (S (cb_next g)) |}.

Definition clocked_do {W} (fn : W → option error * W) (g : ClockedBreaker) (w : W)
  : option error * W * ClockedBreaker :=
  let '(b', err, w', _) :=
    Do fn (cb_clock g (cb_next g)) (cb_clock g (S (cb_next g))) (cb_breaker g) w in
  (err, w', advance b' g).

Definition clocked_value {W T} (zero : T) (fn : W → result error T * W)
  (g : ClockedBreaker) (w : W) : result error T * W * ClockedBreaker :=
  let '(b', r, w', _) :=
    DoValue zero fn (cb_clock g (cb_next g)) (cb_clock g (S (cb_next g))) (cb_breaker g) w in
  (r, w', advance b' g).

#[export, refine] Instance Breaker_guard : CallGuard ClockedBreaker := {|
  guard_do := @clocked_do;
  guard_value := @clocked_value;
  guard_refusal := ErrCircuitOpen;
|}.
Proof.
  - intros W fn g w. unfold clocked_do.
    match goal with |- context [Do ?f ?t0 ?t1 ?b ?s] =>
      pose proof (Do_runs_once f t0 t1 b s) as H; by destruct (Do f t0 t1 b s) as [[[??]?]?]
    end.
  - intros W T zero fn g w. unfold clocked_value.
    match goal with |- context [DoValue ?z ?f ?t0 ?t1 ?b ?s] =>
      pose proof (DoValue_runs_once z f t0 t1 b s) as H;
      by destruct (DoValue z f t0 t1 b s) as [[[??]?]?]
    end.
Defined.

(** ** Runs of calls by one caller *)

Fixpoint run {W} (fn : W → option error * W) (ts : list (time * time))
  (b : Breaker) (w : W) : Breaker * W :=
  match ts with
  | [] => (b, w)
  | (t0, t1) :: ts' =>
      let '(b1, _, w1, _) := Do fn t0 t1 b w in run fn ts' b1 w1
  end.

Lemma Do_closed_failure {W} (fn : W → option error * W) t0 t1 b w e :
  wf b → state b = StateClosed → (fn w).1 = Some e →
  let n := consecutiveFail b + 1 in
  let '(b', err, w', _) := Do fn t0 t1 b w in
  err = Some e ∧ w' = (fn w).2 ∧ cfg b' = cfg b ∧ consecutiveFail b' = n ∧ wf b' ∧
  if FailureThreshold (cfg b) <=? n
  then state b' = StateOpen ∧ openedAt b' = t1
  else state b' = StateClosed.
Proof.
  intros Hwf Hst Hfn. cbn.
  assert (Hb : before t0 b = (b, Ok false, []))
    by (unfold before, stateLocked; by rewrite Hst).
  unfold Do. rewrite Hb. destruct (fn w) as [err w1]. cbn in Hfn. subst err.
  destruct (after t1 false (Some e) b) as [b' ev] eqn:Ha.
  pose proof (after_wf _ _ _ _ _ _ Ha Hwf) as Hwf'.
  unfold after, onFailure in Ha. rewrite Hst in Ha. cbn in Ha.
  destruct Hwf as [Hc Hf Hcl _ _]. specialize (Hcl Hst).
  rewrite wrap64_id in Ha by (unfold config_ok, in_int64, int64_max, int64_min in *; lia).
  destruct (FailureThreshold (cfg b) <=? consecutiveFail b + 1); simplify_eq/=; auto 10.
Qed.

Lemma run_failures {W} (fn : W → option error * W) ts b w :
  (∀ w, (fn w).1 ≠ None) → wf b → state b = StateClosed →
  consecutiveFail b + Z.of_nat (length ts) < FailureThreshold (cfg b) →
  let '(b', w') := run fn ts b w in
  state b' = StateClosed ∧ consecutiveFail b' = consecutiveFail b + Z.of_nat (length ts)
  ∧ cfg b' = cfg b ∧ wf b' ∧ w' = Nat.iter (length ts) (λ w, (fn w).2) w.
Proof.
  intros Hfail. revert b w. induction ts as [|[t0 t1] ts IH]; intros b w Hwf Hst Hlen.
  { cbn in *. rewrite Z.add_0_r. done. }
  destruct ((fn w).1) as [e|] eqn:He; [|by destruct (Hfail w)].
  pose proof (Do_closed_failure fn t0 t1 b w e Hwf Hst He) as HD. cbn [run].
  destruct (Do fn t0 t1 b w) as [[[b1 err] w1] ev].
  destruct HD as (-> & -> & Hcfg & Hcf & Hwf1 & Hst1).
  cbn [length] in Hlen. rewrite (proj2 (Z.leb_gt _ _)) in Hst1 by lia.
  specialize (IH b1 (fn w).2 Hwf1 Hst1 ltac:(rewrite Hcfg; lia)).
  destruct (run fn ts b1 (fn w).2) as [b2 w2].
  destruct IH as (? & ? & ? & ? & ->). cbn [length].
  rewrite Nat.iter_succ_r. split_and!; try done; [lia|congruence].
Qed.

(** ** Properties *)

(** C1: in every state reachable by any interleaving of [before], [after],
    [State] and [Reset] from any number of goroutines, and for any clock
    readings, the breaker is well formed (the failure counter stays below the
    threshold while closed, so it never overflows, and no probes are counted
    outside a half-open period), no call was let through since the breaker
    opened, and at most [HalfOpenMax] calls were let through since it became
    half-open. *)
Theorem breaker_invariant c s :
  typed_config c → reachable c s →
  wf (br s) ∧
  (state (br s) = StateOpen → admitted s = 0) ∧
  (state (br s) = StateHalfOpen → admitted s ≤ HalfOpenMax (withDefaults c)).
Proof.
  intros Hc Hr.
  destruct (reachable_ind_inv c (λ s, wf (br s) ∧ cfg (br s) = withDefaults c ∧ count_ok s)) with s
    as (Hwf & Hcfg & Hn); [|intros x y Hxy (? & ? & ?)|done|].
  - split_and!; [by apply NewBreaker_wf|done|done].
  - split_and!; [by eapply step_wf|by rewrite (step_cfg _ _ Hxy)|by eapply step_count].
  - split_and!; [done| |]; unfold count_ok in Hn; intros Hst; rewrite Hst in Hn; [done|].
    destruct Hwf as [_ _ _ Hh _]. rewrite <- Hcfg. lia.
Qed.

Definition example_config : BreakerConfig :=
  {| FailureThreshold := 2; ResetTimeout := 10; HalfOpenMax := 1; OnStateChange := true |}.

Lemma breaker_invariant_witness :
  ∃ s, reachable example_config s ∧ state (br s) = StateHalfOpen ∧ inflight s = [true] ∧
    wf (br s) ∧ admitted s ≤ HalfOpenMax (withDefaults example_config).
Proof.
  assert (∃ s, reachable example_config s ∧ state (br s) = StateHalfOpen ∧ inflight s = [true]) as (s & Hr & Hst & Hin).
  { eexists. split.
    - unfold reachable. take_step ltac:(apply (step_admit 0)). take_step ltac:(apply (step_admit 0)).
      take_step ltac:(apply (step_finish 1 _ 0 false (Some ErrCircuitOpen)); [reflexivity|]).
      take_step ltac:(apply (step_finish 2 _ 0 false (Some ErrCircuitOpen)); [reflexivity|]).
      take_step ltac:(apply (step_admit 20)). apply rtc_refl.
    - by split. }
  destruct (breaker_invariant example_config s ltac:(vm_compute; repeat split; discriminate) Hr) as (Hwf & _ & Hn).
  exists s. split; [exact Hr|]. split; [exact Hst|]. split; [exact Hin|]. split; [exact Hwf|by apply Hn].
Defined.

(** With a callback set, the notifications of any concurrent run, in the
    order of the state changes, are a path of the state machine from Closed to
    the current state: no change is lost, duplicated or reported with a wrong
    source, and no edge outside Closed-Open, Open-HalfOpen, HalfOpen-Closed,
    HalfOpen-Open and Open-Closed (a reset) occurs. *)
Theorem breaker_trace_is_path c s :
  OnStateChange c = true → reachable c s →
  path StateClosed (trace s) (state (br s)).
Proof.
  intros Hcb Hr. by refine (proj2 (reachable_ind_inv c trace_ok _ step_trace s Hr)).
Qed.

Lemma breaker_trace_is_path_witness :
  OnStateChange example_config = true ∧
  path StateClosed (trace (init example_config)) StateClosed.
Proof.
  split; [reflexivity|].
  apply (breaker_trace_is_path example_config (init example_config)); [reflexivity|].
  apply rtc_refl.
Defined.

(** C2: the breaker implements the abstract circuit breaker [Spec]: on a well
    formed breaker each of [before], [after], [State] and [Reset] acts on the
    abstract state as the specification says, and [before] admits exactly the
    calls the specification admits. *)
Theorem breaker_refines_spec b now p err :
  wf b →
  Spec.admits (cfg b) now (abs b)
    = (abs (before now b).1.1, admission (before now b).1.2)
  ∧ abs (after now p err b).1
    = Spec.report (cfg b) now p (match err with None => true | Some _ => false end) (abs b)
  ∧ abs (State now b).1.1 = Spec.promote (cfg b) now (abs b)
  ∧ abs (Reset b).1 = Spec.Closed 0.
Proof.
  intros Hwf. auto using before_refines, after_refines, promote_refines.
Qed.

Lemma breaker_refines_spec_witness :
  wf (NewBreaker example_config) ∧
  abs (after 7 false (Some ErrCircuitOpen) (NewBreaker example_config)).1 = Spec.Closed 1.
Proof.
  assert (H : wf (NewBreaker example_config))
    by (apply NewBreaker_wf; vm_compute; repeat split; discriminate).
  split; [exact H|].
  destruct (breaker_refines_spec _ 7 false (Some ErrCircuitOpen) H) as (_ & E & _).
  rewrite E. reflexivity.
Defined.

(** A closed breaker opens at the failure that brings the count of
    consecutive failures to the threshold and at none before: the calls before
    it all run and leave it closed, and that call opens it at its own time. *)
Theorem breaker_opens_at_threshold {W} (fn : W → option error * W) ts t0 t1 b w :
  (∀ w, (fn w).1 ≠ None) → wf b → state b = StateClosed →
  consecutiveFail b + Z.of_nat (length ts) + 1 = FailureThreshold (cfg b) →
  let '(b1, w1) := run fn ts b w in
  let '(b2, err, w2, _) := Do fn t0 t1 b1 w1 in
  state b1 = StateClosed ∧ state b2 = StateOpen ∧ openedAt b2 = t1
  ∧ err = (fn w1).1 ∧ w2 = Nat.iter (S (length ts)) (λ w, (fn w).2) w.
Proof.
  intros Hfail Hwf Hst Hlen.
  pose proof (run_failures fn ts b w Hfail Hwf Hst ltac:(lia)) as HR.
  destruct (run fn ts b w) as [b1 w1]. destruct HR as (Hst1 & Hcf1 & Hcfg1 & Hwf1 & ->).
  set (w1 := Nat.iter _ _ w). destruct ((fn w1).1) as [e|] eqn:He; [|by destruct (Hfail w1)].
  pose proof (Do_closed_failure fn t0 t1 b1 w1 e Hwf1 Hst1 He) as HD.
  destruct (Do fn t0 t1 b1 w1) as [[[b2 err] w2] ev].
  destruct HD as (-> & -> & _ & _ & _ & Hopen).
  rewrite (proj2 (Z.leb_le _ _)) in Hopen by (rewrite Hcfg1; lia).
  destruct Hopen. done.
Qed.

(** A call that fails and counts how often it ran. *)
Definition failing_call (w : nat) : option error * nat := (Some (ErrFmt "boom"), S w).

Lemma breaker_opens_at_threshold_witness :
  let '(b1, w1) := run failing_call [(1, 2)] (NewBreaker example_config) 0%nat in
  let '(b2, err, w2, _) := Do failing_call 3 4 b1 w1 in
  state b1 = StateClosed ∧ state b2 = StateOpen ∧ openedAt b2 = 4
  ∧ err = Some (ErrFmt "boom") ∧ w2 = 2%nat.
Proof.
  apply (breaker_opens_at_threshold failing_call [(1, 2)] 3 4 (NewBreaker example_config) 0%nat);
    [done | | done | done].
  apply NewBreaker_wf; vm_compute; repeat split; discriminate.
Defined.

(** An open breaker refuses calls without running them, unchanged, until
    the reset timeout has elapsed; the first call after it runs once as a
    probe, and its outcome closes the breaker with its counters cleared or
    opens it again at that time. *)
Theorem breaker_open_window {W} (fn : W → option error * W) t0 t1 b w :
  wf b → state b = StateOpen →
  if time_sub t0 (openedAt b) <? ResetTimeout (cfg b)
  then Do fn t0 t1 b w = (b, Some ErrCircuitOpen, w, [])
  else
    let '(b', err, w', _) := Do fn t0 t1 b w in
    err = (fn w).1 ∧ w' = (fn w).2 ∧ halfOpenCount b' = 0 ∧
    match err with
    | None => state b' = StateClosed ∧ consecutiveFail b' = 0
    | Some _ => state b' = StateOpen ∧ openedAt b' = t1
    end.
Proof.
  intros [Hc _ _ _ _] Hst. unfold Do, before, stateLocked. rewrite Hst. cbn.
  unfold config_ok in Hc.
  destruct (Z.ltb_spec (time_sub t0 (openedAt b)) (ResetTimeout (cfg b))).
  - by rewrite (proj2 (Z.leb_gt _ _)) by lia.
  - rewrite (proj2 (Z.leb_le _ _)) by lia. cbn.
    rewrite (proj2 (Z.leb_gt _ _)) by lia. destruct (fn w) as [err w1].
    by destruct err.
Qed.

Definition open_breaker : Breaker :=
  {| cfg := withDefaults example_config; state := StateOpen; consecutiveFail := 2;
     openedAt := 100; halfOpenCount := 0; onStateChange := true |}.

Lemma breaker_open_window_witness :
  Do failing_call 105 105 open_breaker 0%nat = (open_breaker, Some ErrCircuitOpen, 0%nat, [])
  ∧ state (Do failing_call 110 112 open_breaker 0%nat).1.1.1 = StateOpen.
Proof.
  assert (H : wf open_breaker).
  { constructor; vm_compute; try done; repeat split; discriminate. }
  split.
  - exact (breaker_open_window failing_call 105 105 open_breaker 0%nat H eq_refl).
  - exact (proj1 (proj2 (proj2 (proj2
      (breaker_open_window failing_call 110 112 open_breaker 0%nat H eq_refl))))).
Defined.

(** What happens to a breaker while no call in progress reports: new calls
    arrive and its state is queried. *)
Inductive unattended : Breaker → Breaker → Prop :=
| unattended_call now b b' r ev : before now b = (b', r, ev) → unattended b b'
| unattended_query now b b' s ev : State now b = (b', s, ev) → unattended b b'.

(** A half-open breaker whose probe budget is taken by calls that never
    report (a probe whose function panics: [Do] does not defer [after]) is
    stuck: however much time passes, every further call is refused and the
    state never changes. *)
Theorem breaker_lost_probe_blocks b b' :
  state b = StateHalfOpen → halfOpenCount b = HalfOpenMax (cfg b) →
  rtc unattended b b' →
  b' = b ∧ ∀ now, before now b' = (b', Err ErrCircuitOpen, []).
Proof.
  intros Hst Hn Hrun.
  assert (Hrej : ∀ now, before now b = (b, Err ErrCircuitOpen, [])
                        ∧ State now b = (b, StateHalfOpen, [])).
  { intros now. unfold before, State, stateLocked. rewrite Hst. cbn.
    by rewrite (proj2 (Z.leb_le _ _)) by lia. }
  assert (b' = b) as ->; [|split; [done|apply Hrej]].
  revert Hst Hn Hrej. induction Hrun as [|x y z Hxy _ IH]; [done|]. intros Hst Hn Hrej.
  assert (y = x) as ->; [|by apply IH].
  destruct Hxy as [now ? ? ? ? E|now ? ? ? ? E]; destruct (Hrej now); congruence.
Qed.

(** The example breaker after its reset timeout, one probe having started. *)
Definition probing_breaker : Breaker := (before 110 open_breaker).1.1.

Lemma breaker_lost_probe_blocks_witness :
  before 200 probing_breaker = (probing_breaker, Err ErrCircuitOpen, []).
Proof.
  destruct (breaker_lost_probe_blocks probing_breaker probing_breaker) as [_ H];
    [reflexivity | reflexivity | apply rtc_refl | apply H].
Defined.

(** [HalfOpenMax] bounds the probes admitted in one half-open period, not
    the probes running at once: with [HalfOpenMax] = 1, a call admitted while
    the breaker was closed can fail during the half-open period and start a new
    one, so that two probes run concurrently. *)
Theorem breaker_concurrent_probes :
  HalfOpenMax (withDefaults example_config) = 1 ∧
  ∃ s, reachable example_config s ∧ state (br s) = StateHalfOpen
       ∧ inflight s = [true; true].
Proof.
  split; [reflexivity|]. eexists. split; [|split].
  - unfold reachable.
    take_step ltac:(apply (step_admit 0)). take_step ltac:(apply (step_admit 0)).
    take_step ltac:(apply (step_admit 0)).
    take_step ltac:(apply (step_finish 0 _ 0 false (Some (ErrFmt "e"))); [reflexivity|]).
    take_step ltac:(apply (step_finish 0 _ 0 false (Some (ErrFmt "e"))); [reflexivity|]).
    take_step ltac:(apply (step_admit 10)).
    take_step ltac:(apply (step_finish 11 _ 0 false (Some (ErrFmt "e"))); [reflexivity|]).
    take_step ltac:(apply (step_admit 21)).
    apply rtc_refl.
  - reflexivity.
  - reflexivity.
Qed.
