(* ===== verification/GoFloat.v ===== *)
(** * float64

    The packages compute with [float64].  [Float64] is the interface they use:
    the operations of IEEE 754 binary64 and Go's conversions.  [Float64Laws]
    states facts that hold of binary64 with its rounding (every operation rounds
    a real result to nearest, monotonically, and small integers are exact);
    [Float64Error] bounds what rounding adds to a result.  Theorems that only need
    them hold of the running code.  The instance over the rationals is arithmetic
    without rounding; it satisfies both.  [Up] is an arithmetic that rounds. *)

From S2P Require Import Prelude.
From Stdlib Require Import QArith Qround Qpower Lqa.
#[local] Open Scope Z_scope.

Class Float64 (F : Type) := {
  f_of_int : Z → F;          (* float64(n) *)
  fadd : F → F → F;
  fsub : F → F → F;
  fmul : F → F → F;
  fdiv : F → F → F;
  fpow : F → F → F;          (* math.Pow *)
  fceil : F → F;             (* math.Ceil *)
  fleb : F → F → bool;       (* <=, false on NaN *)
  fltb : F → F → bool;       (* <, false on NaN *)
  feqb : F → F → bool;       (* ==, false on NaN *)
  f_is_nan : F → bool;
  f_is_inf : F → bool;       (* either infinity *)
  f_to_int64 : F → Z;        (* int64(x), truncating *)
}.

Definition f0 `{Float64 F} : F := f_of_int 0.
Definition f1 `{Float64 F} : F := f_of_int 1.

(** [d.Seconds()]: whole seconds plus the fraction, as the [time] package
    computes it. *)
Definition duration_seconds `{Float64 F} (d : duration) : F :=
  fadd (f_of_int (Z.quot d Second))
       (fdiv (f_of_int (Z.rem d Second)) (f_of_int Second)).

Class Float64Laws (F : Type) `{Float64 F} : Prop := {
  fle_total x y : f_is_nan x = false → f_is_nan y = false → fltb x y = false → fleb y x = true;
  fle_num x y : fleb x y = true → f_is_nan x = false ∧ f_is_nan y = false;
  fle_refl x : f_is_nan x = false → fleb x x = true;
  fle_trans x y z : fleb x y = true → fleb y z = true → fleb x z = true;
  flt_le x y : fltb x y = true → fleb x y = true;
  flt_not_le x y : fltb x y = true → fleb y x = false;
  f_of_int_le a b : in_int64 a → in_int64 b → a ≤ b → fleb (f_of_int a) (f_of_int b) = true;
  f_of_int_finite a : in_int64 a → f_is_inf (f_of_int a) = false;
  fadd_nonneg x y : fleb f0 x = true → fleb f0 y = true → fleb f0 (fadd x y) = true;
  fadd_le_l x y : fleb f0 x = true → fleb f0 y = true → fleb x (fadd x y) = true;
  fmul_nonneg x y :
    fleb f0 x = true → fleb f0 y = true → f_is_inf x = false → f_is_inf y = false →
    fleb f0 (fmul x y) = true;
  fdiv_nonneg x y :
    fleb f0 x = true → fltb f0 y = true → f_is_inf x = false → f_is_inf y = false →
    fleb f0 (fdiv x y) = true;
  fsub_one x : fleb f1 x = true → fleb f0 (fsub x f1) = true ∧ fleb (fsub x f1) x = true;
  f_of_int_pos a : in_int64 a → 0 < a → fltb f0 (f_of_int a) = true;
  (* the sum of two values that represent a non-negative duration is finite *)
  seconds_finite d : in_int64 d → f_is_inf (duration_seconds d) = false;
  feq_refl x : f_is_nan x = false → feqb x x = true;
  f_to_int64_le x z : - 2 ^ 53 ≤ z ≤ 2 ^ 53 → fleb x (f_of_int z) = true → f_to_int64 x ≤ z;
}.

Section Laws.
Context `{Float64Laws F}.

Lemma f_of_int_num a : in_int64 a → f_is_nan (f_of_int a) = false.
Proof. intros Ha. by destruct (fle_num (f_of_int a) (f_of_int a) (f_of_int_le a a Ha Ha ltac:(lia))). Qed.

Lemma f_of_int_nonneg a : in_int64 a → 0 ≤ a → fleb f0 (f_of_int a) = true.
Proof. intros. apply f_of_int_le; auto. vm_compute; split; discriminate. Qed.

Lemma duration_seconds_nonneg d : in_int64 d → 0 ≤ d → fleb f0 (duration_seconds d) = true.
Proof.
  unfold in_int64, int64_min, int64_max. intros Hd Hpos. unfold duration_seconds.
  pose proof (Z.quot_pos d Second Hpos ltac:(done)).
  pose proof (Z.quot_le_upper_bound d Second d ltac:(done) ltac:(unfold Second; lia)).
  pose proof (Z.rem_bound_pos d Second Hpos ltac:(done)).
  unfold Second in *.
  apply fadd_nonneg; [|apply fdiv_nonneg].
  - apply f_of_int_nonneg; unfold in_int64, int64_min, int64_max; lia.
  - apply f_of_int_nonneg; unfold in_int64, int64_min, int64_max; lia.
  - apply f_of_int_pos; unfold in_int64, int64_min, int64_max; lia.
  - apply f_of_int_finite; unfold in_int64, int64_min, int64_max; lia.
  - apply f_of_int_finite; unfold in_int64, int64_min, int64_max; lia.
Qed.

(** [if limit < x then limit else x] is at most [limit]. *)
Lemma fclamp_le x limit :
  f_is_nan x = false → f_is_nan limit = false →
  fleb (if fltb limit x then limit else x) limit = true.
Proof.
  intros Hx Hl. destruct (fltb limit x) eqn:E; [by apply fle_refl|by apply fle_total].
Qed.
End Laws.

(** ** Exact arithmetic *)

Definition Qtrunc (x : Q) : Z := Z.quot (Qnum x) (Zpos (Qden x)).

(** Go leaves an out-of-range conversion to the platform; on amd64 it is the
    smallest [int64]. *)
Definition Q_to_int64 (x : Q) : Z :=
  let t := Qtrunc x in
  if (int64_min <=? t) && (t <=? int64_max) then t else int64_min.

#[export] Instance Q_float : Float64 Q := {
  f_of_int := inject_Z;
  fadd := Qplus;
  fsub := Qminus;
  fmul := Qmult;
  fdiv := Qdiv;
  fpow x y := Qpower x (Qtrunc y);
  fceil x := inject_Z (Qceiling x);
  fleb := Qle_bool;
  fltb x y := negb (Qle_bool y x);
  feqb := Qeq_bool;
  f_is_nan _ := false;
  f_is_inf _ := false;
  f_to_int64 := Q_to_int64;
}.

Lemma Qle_bool_false x y : Qle_bool x y = false ↔ (y < x)%Q.
Proof.
  split; intros H.
  - apply Qnot_le_lt. intros Hle%Qle_bool_iff. congruence.
  - destruct (Qle_bool x y) eqn:E; [|done]. apply Qle_bool_iff in E.
    by apply Qlt_not_le in H.
Qed.

(** Boolean tests on rationals as propositions. *)
Ltac qreflect :=
  unfold f0, f1, fleb, fltb, feqb, fadd, fsub, fmul, fdiv, f_of_int in *; cbn [Q_float] in *;
  repeat match goal with
  | H : negb _ = true |- _ => apply negb_true_iff in H
  | H : negb _ = false |- _ => apply negb_false_iff in H
  | |- negb _ = true => apply negb_true_iff
  | |- negb _ = false => apply negb_false_iff
  | H : Qle_bool _ _ = true |- _ => apply Qle_bool_iff in H
  | H : Qle_bool _ _ = false |- _ => apply Qle_bool_false in H
  | |- Qle_bool _ _ = true => apply Qle_bool_iff
  | |- Qle_bool _ _ = false => apply Qle_bool_false
  | H : _ ∧ _ |- _ => destruct H
  end;
  change (inject_Z 0) with 0%Q in *; change (inject_Z 1) with 1%Q in *.

Lemma Qtrunc_le x z : (x <= inject_Z z)%Q → Qtrunc x ≤ z.
Proof.
  destruct x as [n d]. unfold Qle, Qtrunc, inject_Z; cbn. intros H. rewrite Z.mul_1_r in H.
  destruct (Z_le_gt_dec 0 n) as [Hn|Hn].
  - apply Z.quot_le_upper_bound; lia.
  - pose proof (Z.quot_rem n (Zpos d) ltac:(done)).
    pose proof (Z.rem_bound_pos_neg n (Zpos d) ltac:(done) ltac:(lia)). nia.
Qed.

#[export] Instance Q_float_laws : Float64Laws Q.
Proof.
  constructor; cbn; try done.
  - intros x y _ _. by intros ?%negb_false_iff.
  - intros x _. apply Qle_bool_iff. lra.
  - intros x y z H1 H2. qreflect. lra.
  - intros x y H. qreflect. lra.
  - intros x y H. by apply negb_true_iff in H.
  - intros a b _ _ H. apply Qle_bool_iff. by rewrite <- Zle_Qle.
  - intros x y H1 H2. qreflect. lra.
  - intros x y H1 H2. qreflect. lra.
  - intros x y H1 H2 _ _. qreflect. nra.
  - intros x y H1 H2 _ _. qreflect. unfold Qdiv. apply Qmult_le_0_compat; [done|].
    by apply Qlt_le_weak, Qinv_lt_0_compat.
  - intros x H. qreflect. split; qreflect; lra.
  - intros a _ H. qreflect. change 0%Q with (inject_Z 0). by rewrite <- Zlt_Qlt.
  - intros x _. apply Qeq_bool_refl.
  - intros x z Hz H%Qle_bool_iff%Qtrunc_le. unfold Q_to_int64.
    case_match; [done|]. unfold int64_min. lia.
Qed.

(** ** Rounding

    The standard model of floating-point arithmetic, as upper bounds: a result is at
    most the real one times [1 + unit_roundoff], and a product that underflows may
    be [half_tiny] larger.  [val] is the value of a finite number; an infinity counts
    as [2^1023], which is below every real result that overflows to it. *)

Definition unit_roundoff : Q := (1 # 9007199254740992)%Q. (* 2^-53 *)
Definition half_tiny : Q := (1 # 2 ^ 1075)%Q.

Class Float64Error (F : Type) `{Float64 F} := {
  val : F → Q;
  val_nonneg x : fleb f0 x = true → (0 <= val x)%Q;
  val_one x : fleb f1 x = true → (1 <= val x)%Q;
  val_int n : in_int64 n → 0 ≤ n → (val (f_of_int n) <= (1 + unit_roundoff) * inject_Z n)%Q;
  val_int_exact n : 0 ≤ n ≤ 2 ^ 53 → (val (f_of_int n) == inject_Z n)%Q;
  val_below n x : in_int64 n → f_is_nan x = false → fltb (f_of_int n) x = false → (val x <= val (f_of_int n))%Q;
  val_above n x : in_int64 n → fltb (f_of_int n) x = true → (val (f_of_int n) <= val x)%Q;
  val_add x y :
    fleb f0 x = true → fleb f0 y = true → (val (fadd x y) <= (1 + unit_roundoff) * (val x + val y))%Q;
  val_mul x y :
    fleb f0 x = true → fleb f0 y = true → f_is_inf x = false → f_is_inf y = false →
    (val (fmul x y) <= (1 + unit_roundoff) * (val x * val y) + half_tiny)%Q;
  (* a quotient of integers that are exact is 0 or a normal number *)
  val_div a b :
    0 ≤ a ≤ 2 ^ 53 → 0 < b ≤ 2 ^ 53 →
    (val (fdiv (f_of_int a) (f_of_int b)) <= (1 + unit_roundoff) * (inject_Z a / inject_Z b))%Q;
  val_sub_one x : fleb f1 x = true → (val (fsub x f1) <= (1 + unit_roundoff) * (val x - 1))%Q;
}.

Lemma roundoff_grows x : (0 <= x → x <= (1 + unit_roundoff) * x)%Q.
Proof.
  intros Hx. assert (0 <= unit_roundoff * x)%Q as Hu by (apply Qmult_le_0_compat; [done|exact Hx]).
  assert ((1 + unit_roundoff) * x == x + unit_roundoff * x)%Q as Heq by ring. lra.
Qed.

#[export, refine] Instance Q_float_error : Float64Error Q := {| val x := x |}.
Proof.
  - intros x Hx. by qreflect.
  - intros x Hx. by qreflect.
  - intros n _ Hn. apply roundoff_grows. change 0%Q with (inject_Z 0). by rewrite <- Zle_Qle.
  - reflexivity.
  - intros n x _ _ Hx. qreflect. done.
  - intros n x _ Hx. qreflect. lra.
  - intros x y Hx Hy. qreflect. apply roundoff_grows. lra.
  - intros x y Hx Hy _ _. qreflect. pose proof (roundoff_grows (x * y) (Qmult_le_0_compat _ _ Hx Hy)).
    assert (0 <= half_tiny)%Q by done. lra.
  - intros a b Ha Hb. apply roundoff_grows. apply Qmult_le_0_compat.
    + change 0%Q with (inject_Z 0). rewrite <- Zle_Qle. lia.
    + apply Qlt_le_weak, Qinv_lt_0_compat. change 0%Q with (inject_Z 0). rewrite <- Zlt_Qlt. lia.
  - intros x Hx. qreflect. apply roundoff_grows. lra.
Defined.

(** ** An arithmetic that rounds

    Every product is rounded up by as much as binary64 ever rounds one; the other
    operations are exact.  It has the laws and the error bounds, so what is proved
    for every float64 arithmetic is proved with rounding. *)

Module Up.
Record up := Round { exact : Q }.

#[export] Instance up_float : Float64 up := {
  f_of_int n := Round (inject_Z n);
  fadd x y := Round (exact x + exact y);
  fsub x y := Round (exact x - exact y);
  fmul x y := Round ((1 + unit_roundoff) * (exact x * exact y));
  fdiv x y := Round (exact x / exact y);
  fpow x y := Round (fpow (exact x) (exact y));
  fceil x := Round (fceil (exact x));
  fleb x y := fleb (exact x) (exact y);
  fltb x y := fltb (exact x) (exact y);
  feqb x y := feqb (exact x) (exact y);
  f_is_nan _ := false;
  f_is_inf _ := false;
  f_to_int64 x := f_to_int64 (exact x);
}.

#[export] Instance up_laws : Float64Laws up.
Proof.
  constructor.
  - intros x y. exact (fle_total (F := Q) (exact x) (exact y)).
  - done.
  - intros x. exact (fle_refl (F := Q) (exact x)).
  - intros x y z. exact (fle_trans (F := Q) (exact x) (exact y) (exact z)).
  - intros x y. exact (flt_le (F := Q) (exact x) (exact y)).
  - intros x y. exact (flt_not_le (F := Q) (exact x) (exact y)).
  - exact (f_of_int_le (F := Q)).
  - done.
  - intros x y. exact (fadd_nonneg (F := Q) (exact x) (exact y)).
  - intros x y. exact (fadd_le_l (F := Q) (exact x) (exact y)).
  - intros x y Hx Hy _ _. apply Qle_bool_iff in Hx, Hy. apply Qle_bool_iff.
    apply Qmult_le_0_compat; [done|by apply Qmult_le_0_compat].
  - intros x y. exact (fdiv_nonneg (F := Q) (exact x) (exact y)).
  - intros x. exact (fsub_one (F := Q) (exact x)).
  - exact (f_of_int_pos (F := Q)).
  - done.
  - intros x. exact (feq_refl (F := Q) (exact x)).
  - intros x. exact (f_to_int64_le (F := Q) (exact x)).
Qed.

#[export, refine] Instance up_error : Float64Error up := {| val := exact |}.
Proof.
  - intros x. exact (val_nonneg (F := Q) (exact x)).
  - intros x. exact (val_one (F := Q) (exact x)).
  - exact (val_int (F := Q)).
  - exact (val_int_exact (F := Q)).
  - intros n x. exact (val_below (F := Q) n (exact x)).
  - intros n x. exact (val_above (F := Q) n (exact x)).
  - intros x y. exact (val_add (F := Q) (exact x) (exact y)).
  - intros x y _ _ _ _. assert (0 <= half_tiny)%Q by done. cbn. lra.
  - exact (val_div (F := Q)).
  - intros x. exact (val_sub_one (F := Q) (exact x)).
Defined.
End Up.
