(* ===== verification/Retry.v ===== *)
(** * Retry with exponential backoff (src/resilience/retry.go)

    [Retry] and [RetryValue] over a world [W] that the retried function acts
    on.  Waiting for the backoff timer or the context's cancellation, and the
    random source, are operations of the world. *)

From S2P Require Import Prelude GoStrings GoErrors GoFloat.
From Stdlib Require Import QArith.
#[local] Open Scope Z_scope.

Record RetryConfig (F : Type) := {
  MaxAttempts : Z;
  InitialDelay : duration;
  MaxDelay : duration;
  Multiplier : F;
  IsRetryable : option (error → bool);
}.
Arguments MaxAttempts {F} _.
Arguments InitialDelay {F} _.
Arguments MaxDelay {F} _.
Arguments Multiplier {F} _.
Arguments IsRetryable {F} _.

Definition withDefaults `{Float64 F} (c : RetryConfig F) : RetryConfig F :=
  {| MaxAttempts := if MaxAttempts c <? 1 then 3 else MaxAttempts c;
     InitialDelay := if InitialDelay c <=? 0 then 100 * Millisecond else InitialDelay c;
     MaxDelay := if MaxDelay c <=? 0 then 10 * Second else MaxDelay c;
     Multiplier :=
       let m := if fleb (Multiplier c) f0 then f_of_int 2 else Multiplier c in
       if fltb m f1 then f1 else m;
     IsRetryable := IsRetryable c |}.

(** [Permanent(err)]; [None] is the nil error. *)
Definition Permanent (err : option error) : option error :=
  match err with
  | None => None
  | Some e => Some (ErrPermanent e)
  end.

(** [errors.As(err, &pe)] and [pe.Err]. *)
Definition as_permanent (e : error) : option error :=
  find_error (λ x, match x with ErrPermanent i => Some i | _ => None end) e.

(** The world the retried function runs in: [wait d] blocks until the timer of
    [d] fires ([None]) or the context is done ([Some] of its error);
    [rand_int64n n] is [rand.Int64N(n)]. *)
Class RetryWorld (W : Type) := {
  wait : duration → W → option error * W;
  rand_int64n : Z → W → Z * W;
}.

Section Retry.
Context `{Float64 F} {W : Type} `{RetryWorld W}.

Definition backoffDelay (c : RetryConfig F) (attempt : Z) (w : W) : duration * W :=
  let delayF := fmul (f_of_int (InitialDelay c)) (fpow (Multiplier c) (f_of_int attempt)) in
  let delayF :=
    if fltb (f_of_int (MaxDelay c)) delayF || f_is_inf delayF || f_is_nan delayF
    then f_of_int (MaxDelay c) else delayF in
  let maxJitter := f_to_int64 delayF in
  if maxJitter <=? 0 then (0, w) else rand_int64n maxJitter w.

Definition not_retryable (c : RetryConfig F) (e : error) : bool :=
  match IsRetryable c with Some f => negb (f e) | None => false end.

Definition attempts_text (what : string) (n : Z) : string :=
  "retry " +:+ what +:+ " after " +:+ FormatInt n +:+ " attempts: ".

Definition exhausted (c : RetryConfig F) (lastErr : option error) : error :=
  match lastErr with
  | Some e => ErrWrap (attempts_text "failed" (MaxAttempts c)) e ""
  | None => ErrFmt (attempts_text "failed" (MaxAttempts c) +:+ "%!w(<nil>)")
  end.

(** The loop: [n] iterations of [for attempt < MaxAttempts] are left. *)
Fixpoint retry_loop (c : RetryConfig F) (fn : W → option error * W)
  (n : nat) (attempt : Z) (lastErr : option error) (w : W) : option error * W :=
  match n with
  | O => (Some (exhausted c lastErr), w)
  | S n' =>
      let '(r, w1) := fn w in
      match r with
      | None => (None, w1)
      | Some e =>
          match as_permanent e with
          | Some pe => (Some (ErrWrap (attempts_text "permanent" (attempt + 1)) pe ""), w1)
          | None =>
              if not_retryable c e
              then (Some (ErrWrap (attempts_text "non-retryable" (attempt + 1)) e ""), w1)
              else if attempt =? MaxAttempts c - 1
              then (Some (exhausted c (Some e)), w1)
              else
                let '(delay, w2) := backoffDelay c attempt w1 in
                match wait delay w2 with
                | (Some ctxErr, w3) => (Some (ErrWrap "retry interrupted: " ctxErr ""), w3)
                | (None, w3) => retry_loop c fn n' (attempt + 1) (Some e) w3
                end
          end
      end
  end.

Definition Retry (c : RetryConfig F) (fn : W → option error * W) (w : W) : option error * W :=
  let c := withDefaults c in
  retry_loop c fn (Z.to_nat (MaxAttempts c)) 0 None w.
End Retry.

(** [RetryValue]: the closure assigns the captured variable [result]. *)
#[export] Instance RetryWorld_captured {W T} `{RetryWorld W} : RetryWorld (W * T) := {
  wait d '(w, x) := let '(r, w') := wait d w in (r, (w', x));
  rand_int64n n '(w, x) := let '(k, w') := rand_int64n n w in (k, (w', x));
}.

Definition RetryValue `{Float64 F} {W T} `{RetryWorld W} (zero : T) (c : RetryConfig F)
  (fn : W → result error T * W) (w : W) : result error T * W :=
  let closure '(w, res) :=
    match fn w with
    | (Ok v, w') => (None, (w', v))
    | (Err e, w') => (Some e, (w', res))
    end in
  let '(err, (w1, res)) := Retry c closure (w, zero) in
  match err with
  | Some e => (Err e, w1)
  | None => (Ok res, w1)
  end.

(** ** What a run of [Retry] is

    [failed_attempts a w a' w']: from attempt number [a] in world [w], every
    attempt up to [a'] failed with a retryable error, its backoff elapsed
    without cancellation, and attempt [a'] starts in [w']. *)

Section Spec.
Context `{Float64 F} {W : Type} `{RetryWorld W}.
Context (c : RetryConfig F) (fn : W → option error * W).

Inductive failed_attempts : Z → W → Z → W → Prop :=
| failed_none a w : failed_attempts a w a w
| failed_one a w e w1 d w2 w3 a' w' :
    fn w = (Some e, w1) → as_permanent e = None → not_retryable c e = false →
    a ≠ MaxAttempts c - 1 →
    backoffDelay c a w1 = (d, w2) → wait d w2 = (None, w3) →
    failed_attempts (a + 1) w3 a' w' →
    failed_attempts a w a' w'.

(** The last attempt, and what [Retry] returns for it. *)
Inductive outcome (a : Z) (w : W) : option error → W → Prop :=
| outcome_success w1 : fn w = (None, w1) → outcome a w None w1
| outcome_permanent e pe w1 :
    fn w = (Some e, w1) → as_permanent e = Some pe →
    outcome a w (Some (ErrWrap (attempts_text "permanent" (a + 1)) pe "")) w1
| outcome_not_retryable e w1 :
    fn w = (Some e, w1) → as_permanent e = None → not_retryable c e = true →
    outcome a w (Some (ErrWrap (attempts_text "non-retryable" (a + 1)) e "")) w1
| outcome_exhausted e w1 :
    fn w = (Some e, w1) → as_permanent e = None → not_retryable c e = false →
    a = MaxAttempts c - 1 →
    outcome a w (Some (ErrWrap (attempts_text "failed" (MaxAttempts c)) e "")) w1
| outcome_interrupted e w1 d w2 ctxErr w3 :
    fn w = (Some e, w1) → as_permanent e = None → not_retryable c e = false →
    a ≠ MaxAttempts c - 1 →
    backoffDelay c a w1 = (d, w2) → wait d w2 = (Some ctxErr, w3) →
    outcome a w (Some (ErrWrap "retry interrupted: " ctxErr "")) w3.

Lemma retry_loop_spec n a last w r w' :
  Z.of_nat n = MaxAttempts c - a → (0 < n)%nat →
  retry_loop c fn n a last w = (r, w') →
  ∃ ak wk, failed_attempts a w ak wk ∧ a ≤ ak < MaxAttempts c ∧ outcome ak wk r w'.
Proof.
  revert a last w. induction n as [|n IH]; intros a last w Hn Hpos; [lia|]. cbn.
  assert (Hstop : ∀ r' w'', outcome a w r' w'' → (r', w'') = (r, w') →
    ∃ ak wk, failed_attempts a w ak wk ∧ a ≤ ak < MaxAttempts c ∧ outcome ak wk r w').
  { intros r' w'' Ho [= -> ->]. exists a, w. split; [apply failed_none|]. split; [lia|done]. }
  destruct (fn w) as [[e|] w1] eqn:Hfn; [|by apply Hstop, outcome_success].
  destruct (as_permanent e) as [pe|] eqn:Hp; [by apply Hstop, (outcome_permanent _ _ e)|].
  destruct (not_retryable c e) eqn:Hr; [by apply Hstop, outcome_not_retryable|].
  destruct (Z.eqb_spec a (MaxAttempts c - 1)) as [Ha|Ha].
  { by apply Hstop, outcome_exhausted. }
  destruct (backoffDelay c a w1) as [d w2] eqn:Hd.
  destruct (wait d w2) as [[x|] w3] eqn:Hw; [by apply Hstop, (outcome_interrupted _ _ e w1 d w2)|].
  intros Hrun. destruct (IH (a + 1) (Some e) w3 ltac:(lia) ltac:(lia) Hrun) as (ak & wk & Hf & ? & ?).
  exists ak, wk. split; [|split; [lia|done]]. by eapply failed_one.
Qed.

(** A count of calls of [fn] that waiting does not change. *)
Definition counts_calls (calls : W → Z) : Prop :=
  (∀ w, calls (fn w).2 = calls w + 1) ∧ (∀ d w, calls (wait d w).2 = calls w)
  ∧ (∀ n w, calls (rand_int64n n w).2 = calls w).

Lemma backoffDelay_calls calls a w : counts_calls calls → calls (backoffDelay c a w).2 = calls w.
Proof. intros (_ & _ & Hr). unfold backoffDelay. by case_match. Qed.

Lemma failed_attempts_calls calls a w a' w' :
  counts_calls calls → failed_attempts a w a' w' → calls w' = calls w + (a' - a).
Proof.
  intros Hc. pose proof Hc as (Hfn & Hw & Hr).
  induction 1 as [|a w e w1 d w2 w3 a' w' E1 _ _ _ E2 E3 _ IH]; [lia|].
  rewrite IH. specialize (Hfn w). rewrite E1 in Hfn. cbn in Hfn.
  pose proof (backoffDelay_calls calls a w1 Hc) as Hb. rewrite E2 in Hb. cbn in Hb.
  specialize (Hw d w2). rewrite E3 in Hw. cbn in Hw. lia.
Qed.

Lemma outcome_calls calls a w r w' :
  counts_calls calls → outcome a w r w' → calls w' = calls w + 1.
Proof.
  intros Hc. pose proof Hc as (Hfn & Hw & _). specialize (Hfn w).
  destruct 1 as [w1 E|e pe w1 E _|e w1 E _ _|e w1 E _ _ _|e w1 d w2 x w3 E _ _ _ Eb Ew];
    rewrite E in Hfn; cbn in Hfn; try done.
  pose proof (backoffDelay_calls calls a w1 Hc) as Hb. rewrite Eb in Hb. cbn in Hb.
  specialize (Hw d w2). rewrite Ew in Hw. cbn in Hw. lia.
Qed.
End Spec.

Lemma withDefaults_attempts `{Float64 F} (c : RetryConfig F) : 1 ≤ MaxAttempts (withDefaults c).
Proof. cbn. case_match; breflect; lia. Qed.

Lemma withDefaults_delay `{Float64 F} (c : RetryConfig F) : 0 < MaxDelay (withDefaults c).
Proof. cbn. case_match; breflect; [done|lia]. Qed.

(** ** Properties *)

(** C14: [Retry] always returns, and every run of it is a number (below
    [MaxAttempts]) of attempts that failed with a retryable error, each followed
    by its backoff, and one last attempt that decides the result: success is
    returned as nil; a permanent error stops the run and is returned unwrapped
    from its marker; a non-retryable error stops the run; the last allowed
    attempt's error is returned as exhausted; a cancelled wait returns the
    context's error. *)
Theorem retry_runs `{Float64 F} {W} `{RetryWorld W} (c : RetryConfig F)
  (fn : W → option error * W) w :
  let c' := withDefaults c in
  let '(r, w') := Retry c fn w in
  ∃ k wk, failed_attempts c' fn 0 w k wk ∧ 0 ≤ k < MaxAttempts c' ∧ outcome c' fn k wk r w'.
Proof.
  cbn zeta. destruct (Retry c fn w) as [r w'] eqn:E. unfold Retry in E.
  pose proof (withDefaults_attempts c).
  eapply retry_loop_spec; [| |exact E]; lia.
Qed.

(** [Retry] calls the function at least once and at most [MaxAttempts]
    times. *)
Theorem retry_attempt_bound `{Float64 F} {W} `{RetryWorld W} (c : RetryConfig F)
  (fn : W → option error * W) (calls : W → Z) w :
  counts_calls fn calls →
  1 ≤ calls (Retry c fn w).2 - calls w ≤ MaxAttempts (withDefaults c).
Proof.
  intros Hc. pose proof (withDefaults_attempts c).
  destruct (Retry c fn w) as [r w'] eqn:E. unfold Retry in E.
  eapply retry_loop_spec in E as (k & wk & Hf & Hk & Ho); [|lia..].
  apply (failed_attempts_calls _ _ calls) in Hf; [|done].
  apply (outcome_calls _ _ calls) in Ho; [|done]. cbn [snd]. lia.
Qed.

(** A world that only counts calls, whose waits are never cancelled. *)
#[export] Instance counting_world : RetryWorld Z := {
  wait _ w := (None, w);
  rand_int64n n w := (n - 1, w);
}.
Definition failing (w : Z) : option error * Z := (Some (ErrFmt "down"), w + 1).
Definition example_config : RetryConfig Q :=
  {| MaxAttempts := 4; InitialDelay := 0; MaxDelay := 0; Multiplier := 0%Q;
     IsRetryable := None |}.

Lemma retry_attempt_bound_witness :
  1 ≤ (Retry example_config failing 0).2 - 0 ≤ 4 ∧ (Retry example_config failing 0).2 = 4.
Proof.
  split; [|vm_compute; reflexivity].
  apply (retry_attempt_bound example_config failing (λ w, w) 0).
  split_and!; done.
Defined.

(** The backoff of every attempt is at least 0 and below the configured
    maximum (for a maximum of at most 2^53 ns, about 104 days, the range in
    which every duration is a float64), whatever the multiplier, even when the
    exponential overflows to infinity or is not a number. *)
Theorem backoff_bounded {F} `{!Float64 F} `{!Float64Laws F} {W} `{!RetryWorld W}
  (c : RetryConfig F) attempt (w : W) :
  (∀ n (w : W), 0 < n → 0 ≤ (rand_int64n n w).1 < n) →
  0 < MaxDelay c ≤ 2 ^ 53 →
  0 ≤ (backoffDelay c attempt w).1 < MaxDelay c.
Proof.
  intros Hrand Hmax. unfold backoffDelay. cbv zeta.
  set (x := fmul _ _). match goal with |- context [f_to_int64 ?z] => set (y := z) end.
  assert (Hm : in_int64 (MaxDelay c)) by (unfold in_int64, int64_min, int64_max; lia).
  assert (Hy : fleb y (f_of_int (MaxDelay c)) = true).
  { subst y. destruct (fltb (f_of_int (MaxDelay c)) x || f_is_inf x || f_is_nan x) eqn:E.
    - by apply fle_refl, f_of_int_num.
    - breflect. apply fle_total; [by apply f_of_int_num|done|done]. }
  apply f_to_int64_le in Hy; [|lia]. clearbody y.
  destruct (Z.leb_spec (f_to_int64 y) 0) as [|Hpos]; cbn [fst]; [lia|].
  destruct (Hrand (f_to_int64 y) w Hpos) as [Hlo Hhi].
  split; [exact Hlo|exact (Z.lt_le_trans _ _ _ Hhi Hy)].
Qed.

Lemma backoff_bounded_witness :
  0 ≤ (backoffDelay (withDefaults example_config) 3 0).1 < 10 * Second.
Proof.
  apply (backoff_bounded (withDefaults example_config) 3 0); [|vm_compute; split; congruence].
  intros n w. cbn. lia.
Defined.
