(* ===== verification/Downstream.v ===== *)
(** * The downstream client (src/downstream/downstream.go)

    A client applies a failure policy chosen at construction to every call.
    The circuit breaker is used through its interface [CallGuard]; the client's
    theorems hold for any guard with that contract, and [Breaker_guard] is the
    breaker of src/resilience. *)

From S2P Require Import Prelude GoStrings GoErrors Breaker.
#[local] Open Scope Z_scope.

(** [FailureMode] is an int with two named values; other values are possible. *)
Definition FailureMode := Z.
Definition FailClosed : FailureMode := 0.
Definition FailOpen : FailureMode := 1.

Definition FailureMode_String (m : FailureMode) : string :=
  if m =? FailClosed then "fail-closed"
  else if m =? FailOpen then "fail-open"
  else "unknown".

(** Which of the two Prometheus vectors are set. *)
Record Metrics := { Errors : bool; Latency : bool }.

Section Client.
Context {G : Type} `{CallGuard G}.

(** [nil] pointers are [None]; a logger is recorded as present or not, and the
    default logger replaces a missing one. *)
Record Config := {
  cfg_mode : FailureMode;
  cfg_breaker : option G;
  cfg_logger : bool;
  cfg_metrics : option Metrics;
}.

Record Client := {
  name : string;
  mode : FailureMode;
  breaker : option G;
  metrics : option Metrics;
}.

(** The [any] argument of [New]. *)
Inductive config_arg :=
| ArgConfig (c : Config)
| ArgConfigPtr (c : option Config)
| ArgMode (m : FailureMode)
| ArgOther.

Definition zero_config : Config :=
  {| cfg_mode := 0; cfg_breaker := None; cfg_logger := false; cfg_metrics := None |}.

Definition with_mode (m : FailureMode) (c : Config) : Config :=
  {| cfg_mode := m; cfg_breaker := cfg_breaker c; cfg_logger := cfg_logger c;
     cfg_metrics := cfg_metrics c |}.

(** [normalizeConfig]; [None] is a panic. *)
Definition normalizeConfig (arg : config_arg) (configs : list Config) : option Config :=
  match arg with
  | ArgConfig value => if decide (length configs ≠ 0%nat) then None else Some value
  | ArgConfigPtr value =>
      if decide (length configs ≠ 0%nat) then None
      else match value with
           | None => Some zero_config
           | Some v => Some v
           end
  | ArgMode value =>
      match configs with
      | [] => Some (with_mode value zero_config)
      | [c] => Some (with_mode value c)
      | _ => None
      end
  | ArgOther => None
  end.

Definition New (nm : string) (arg : config_arg) (configs : list Config) : option Client :=
  match normalizeConfig arg configs with
  | None => None
  | Some c => Some {| name := nm; mode := cfg_mode c; breaker := cfg_breaker c;
                      metrics := cfg_metrics c |}
  end.

(** What a call leaves in the logs and the metrics. *)
Inductive observation :=
| LogWarn (downstream op : string) (e : error)
| LogError (downstream op : string) (e : error)
| ObserveLatency (downstream op : string) (d : duration)
| IncErrors (downstream op : string).

Definition opLabel (op : string) : string := if decide (op = "") then "call" else op.

(** [failureResult]: the error the caller sees, and the log line. *)
Definition failureResult (c : Client) (op : string) (e : error)
  : option error * list observation :=
  if mode c =? FailOpen then (None, [LogWarn (name c) op e])
  else if mode c =? FailClosed then (Some e, [LogError (name c) op e])
  else (Some e, [LogError (name c) op e]).

Definition recordLatency (c : Client) (op : string) (d : duration) : list observation :=
  match metrics c with
  | Some m => if Latency m then [ObserveLatency (name c) (opLabel op) d] else []
  | None => []
  end.

Definition recordError (c : Client) (op : string) : list observation :=
  match metrics c with
  | Some m => if Errors m then [IncErrors (name c) (opLabel op)] else []
  | None => []
  end.

Definition set_breaker (g : option G) (c : Client) : Client :=
  {| name := name c; mode := mode c; breaker := g; metrics := metrics c |}.

Definition set_mode (m : FailureMode) (c : Client) : Client :=
  {| name := name c; mode := m; breaker := breaker c; metrics := metrics c |}.

(** What [CallOp] does with the outcome of the call: the same on both paths. *)
Definition finish {T} (c : Client) (op : string) (zero : T) (elapsed : duration)
  (r : result error T) : result error T * list observation :=
  let obs := recordLatency c op elapsed in
  match r with
  | Err e =>
      let obs := obs ++ recordError c op in
      let '(e', logs) := failureResult c op e in
      (match e' with Some e' => Err e' | None => Ok zero end, obs ++ logs)
  | Ok v => (Ok v, obs)
  end.

(** [CallOp]; [elapsed] is [time.Since(start)]. *)
Definition CallOp {W T} (zero : T) (elapsed : duration) (c : Client) (op : string)
  (fn : W → result error T * W) (w : W) : result error T * W * Client * list observation :=
  match breaker c with
  | Some g =>
      let '(r, w1, g1) := guard_value zero fn g w in
      let c1 := set_breaker (Some g1) c in
      let '(r', obs) := finish c1 op zero elapsed r in
      (r', w1, c1, obs)
  | None =>
      let '(r, w1) := fn w in
      let '(r', obs) := finish c op zero elapsed r in
      (r', w1, c, obs)
  end.

Definition Call {W T} (zero : T) (elapsed : duration) (c : Client)
  (fn : W → result error T * W) (w : W) := CallOp zero elapsed c "" fn w.

(** ** Properties *)

(** The result the client's policy gives for an outcome. *)
Definition policy {T} (m : FailureMode) (zero : T) (r : result error T) : result error T :=
  match r with
  | Ok v => Ok v
  | Err e => if m =? FailOpen then Ok zero else Err e
  end.

Lemma finish_policy {T} (c : Client) op (zero : T) d r :
  (finish c op zero d r).1 = policy (mode c) zero r.
Proof.
  unfold finish, policy, failureResult. destruct r as [v|e]; [done|].
  by destruct (mode c =? FailOpen), (mode c =? FailClosed).
Qed.

Lemma finish_errors {T} (c : Client) op (zero : T) d r m :
  metrics c = Some m → Errors m = true →
  (IncErrors (name c) (opLabel op) ∈ (finish c op zero d r).2) ↔ is_ok r = false.
Proof.
  intros Hm He. unfold finish, recordLatency, recordError, failureResult. rewrite Hm, He.
  destruct r as [v|e]; cbn; [destruct (Latency m); set_solver|].
  repeat case_match; set_solver.
Qed.

(** The outcome before the policy: what the guard, or the bare function, gave. *)
Definition underlying {W T} (c : Client) (zero : T) (fn : W → result error T * W) (w : W)
  : result error T * W * option G :=
  match breaker c with
  | Some g => let '(r, w1, g1) := guard_value zero fn g w in (r, w1, Some g1)
  | None => let '(r, w1) := fn w in (r, w1, None)
  end.

Lemma set_breaker_same c : breaker c = None → set_breaker None c = c.
Proof. destruct c; cbn. by intros ->. Qed.

Lemma CallOp_finish {W T} (zero : T) d c op (fn : W → result error T * W) w :
  CallOp zero d c op fn w =
  let '(r, w1, g) := underlying c zero fn w in
  let '(r', obs) := finish (set_breaker g c) op zero d r in
  (r', w1, set_breaker g c, obs).
Proof.
  unfold CallOp, underlying. destruct (breaker c) as [g|] eqn:E.
  - by destruct (guard_value zero fn g w) as [[??]?].
  - destruct (fn w). by rewrite set_breaker_same.
Qed.
End Client.
Arguments Client : clear implicits.
Arguments Config : clear implicits.

(** C34: a call through a downstream client runs the function at most once and
    applies the policy to what came back.  The outcome is either the guard's
    refusal, without running the function, or the function's own; success is
    returned as it is; a failure becomes the zero value without error in
    fail-open mode and is returned unchanged in every other mode. *)
Theorem callop_applies_policy {G} `{!CallGuard G} {W T} (zero : T) d (c : Client G) op
  (fn : W → result error T * W) w :
  let '(r, w', c', _) := CallOp zero d c op fn w in
  mode c' = mode c ∧
  ((∃ g, breaker c = Some g) ∧ w' = w ∧ r = policy (mode c) zero (Err guard_refusal)
   ∨ w' = (fn w).2 ∧ r = policy (mode c) zero (fn w).1).
Proof.
  unfold CallOp. destruct (breaker c) as [g|].
  - pose proof (guard_value_law W T zero fn g w) as Hlaw.
    destruct (guard_value zero fn g w) as [[r w1] g1].
    pose proof (finish_policy (set_breaker (Some g1) c) op zero d r) as Hf.
    destruct (finish _ op zero d r) as [r' obs]. cbn in Hf. subst r'. split; [done|].
    destruct Hlaw as [[-> ->]|[-> ->]]; eauto.
  - destruct (fn w) as [r w1]. pose proof (finish_policy c op zero d r) as Hf.
    destruct (finish c op zero d r) as [r' obs]. cbn in *. subst. eauto.
Qed.

(** The client's failure counter is incremented exactly when the call
    failed or was refused, also when fail-open hides the failure from the
    caller: exactly when the same call through a fail-closed client would have
    returned an error. *)
Theorem callop_counts_failures {G} `{!CallGuard G} {W T} (zero : T) d (c : Client G) op
  (fn : W → result error T * W) w m :
  metrics c = Some m → Errors m = true →
  let '(_, _, _, obs) := CallOp zero d c op fn w in
  let '(r, _, _, _) := CallOp zero d (set_mode FailClosed c) op fn w in
  IncErrors (name c) (opLabel op) ∈ obs ↔ is_ok r = false.
Proof.
  intros Hm He. rewrite !CallOp_finish.
  change (underlying (set_mode FailClosed c) zero fn w) with (underlying c zero fn w).
  destruct (underlying c zero fn w) as [[r w1] g].
  pose proof (finish_errors (set_breaker g c) op zero d r m Hm He) as Hf.
  pose proof (finish_policy (set_breaker g (set_mode FailClosed c)) op zero d r) as Hp.
  destruct (finish (set_breaker g c) op zero d r) as [r' obs].
  destruct (finish _ op zero d r) as [r'' obs']. cbn in *. subst r''.
  rewrite Hf. by destruct r.
Qed.

Definition example_client : Client ClockedBreaker :=
  {| name := "meter"; mode := FailOpen; breaker := None;
     metrics := Some {| Errors := true; Latency := true |} |}.

Lemma callop_counts_failures_witness :
  IncErrors "meter" "call" ∈
    (CallOp 0 5 example_client "" (λ w : nat, (Err (ErrFmt "down"), w)) 0%nat).2.
Proof.
  pose proof (callop_counts_failures 0 5 example_client ""
    (λ w : nat, (Err (ErrFmt "down"), w)) 0%nat _ eq_refl eq_refl) as H.
  apply H. reflexivity.
Defined.
