(* ===== verification/TokenBucket.v ===== *)
(** * The token bucket (src/ratelimit/ratelimit.go, [tokenBucket])

    The operations are written over [Float64].  The range invariant and the bound on
    the grants hold of binary64 arithmetic with its rounding; the theorems on the
    advised wait are about the same definitions computed without rounding (the instance
    over [Q]). *)

From S2P Require Import Prelude GoFloat.
From Stdlib Require Import QArith Qround Qminmax Lqa.
#[local] Open Scope Z_scope.

Record tokenBucket (F : Type) := {
  rate : F;
  burst : Z;
  tokens : F;
  lastTime : time;
}.
Arguments Build_tokenBucket {F}.
Arguments rate {F} _.
Arguments burst {F} _.
Arguments tokens {F} _.
Arguments lastTime {F} _.

Section Ops.
Context `{Float64 F}.

Definition newTokenBucket (r : F) (b : Z) (now : time) : tokenBucket F :=
  {| rate := r; burst := b; tokens := f_of_int b; lastTime := now |}.

(** The common start of both operations: a reading before the last one is
    replaced by it, the tokens of the elapsed time are added and capped. *)
Definition refill (now : time) (tb : tokenBucket F) : tokenBucket F :=
  let now := if time_before now (lastTime tb) then lastTime tb else now in
  let elapsed := duration_seconds (time_sub now (lastTime tb)) in
  let t := fadd (tokens tb) (fmul elapsed (rate tb)) in
  {| rate := rate tb; burst := burst tb;
     tokens := if fltb (f_of_int (burst tb)) t then f_of_int (burst tb) else t;
     lastTime := now |}.

Definition set_tokens (t : F) (tb : tokenBucket F) : tokenBucket F :=
  {| rate := rate tb; burst := burst tb; tokens := t; lastTime := lastTime tb |}.

(** [AllowAt]: the decision, the advised wait, and the bucket afterwards. *)
Definition AllowAt (now : time) (tb : tokenBucket F) : bool * duration * tokenBucket F :=
  let tb := refill now tb in
  if fleb f1 (tokens tb) then (true, 0, set_tokens (fsub (tokens tb) f1) tb)
  else if fleb (rate tb) f0 then (false, Second, tb)
  else
    let deficit := fsub f1 (tokens tb) in
    let retryAfter := f_to_int64 (fceil (fmul (fdiv deficit (rate tb)) (f_of_int Second))) in
    (false, if retryAfter <? Millisecond then Millisecond else retryAfter, tb).

Definition ReconfigureAt (r : F) (b : Z) (now : time) (tb : tokenBucket F) : tokenBucket F :=
  let tb := refill now tb in
  {| rate := r; burst := b;
     tokens := if fltb (f_of_int b) (tokens tb) then f_of_int b else tokens tb;
     lastTime := lastTime tb |}.

(** A bucket's life after its creation: decisions and policy changes. *)
Inductive bucket_op := OpAllow (now : time) | OpReconfigure (r : F) (b : Z) (now : time).

Definition apply_op (op : bucket_op) (tb : tokenBucket F) : tokenBucket F :=
  match op with
  | OpAllow now => (AllowAt now tb).2
  | OpReconfigure r b now => ReconfigureAt r b now tb
  end.

Fixpoint apply_ops (ops : list bucket_op) (tb : tokenBucket F) : tokenBucket F :=
  match ops with [] => tb | op :: ops' => apply_ops ops' (apply_op op tb) end.

(** A usable policy: a finite rate that is not negative, a burst of an int. *)
Definition policy_ok (r : F) (b : Z) : Prop :=
  fleb f0 r = true ∧ f_is_inf r = false ∧ in_int64 b ∧ 0 ≤ b.

Definition op_ok (op : bucket_op) : Prop :=
  match op with OpAllow _ => True | OpReconfigure r b _ => policy_ok r b end.

Record bucket_wf (tb : tokenBucket F) : Prop := {
  bw_policy : policy_ok (rate tb) (burst tb);
  bw_nonneg : fleb f0 (tokens tb) = true;
  bw_burst : fleb (tokens tb) (f_of_int (burst tb)) = true;
}.
End Ops.
#[global] Arguments bucket_op F : clear implicits.

(** ** The range invariant, for binary64 *)

Section Invariant.
Context `{Float64Laws F}.

Lemma new_wf r b now : policy_ok r b → bucket_wf (newTokenBucket r b now).
Proof.
  intros Hp. pose proof Hp as (_ & _ & Hb & Hb0). constructor; cbn; [done|..].
  - by apply f_of_int_nonneg.
  - by apply f_of_int_le; [..|lia].
Qed.

Lemma refill_lastTime now (tb : tokenBucket F) : lastTime (refill now tb) = Z.max (lastTime tb) now.
Proof. unfold refill, time_before. cbn. destruct (Z.ltb_spec now (lastTime tb)); lia. Qed.

Lemma refill_wf now tb :
  bucket_wf tb →
  bucket_wf (refill now tb) ∧ fleb (tokens tb) (tokens (refill now tb)) = true.
Proof.
  intros [Hp Hn Hb]. pose proof Hp as (Hr & Hri & Hb64 & Hb0).
  unfold refill. set (now' := if time_before _ _ then _ else _).
  assert (0 ≤ time_sub now' (lastTime tb)) as Hd.
  { apply sat64_nonneg. subst now'. unfold time_before.
    destruct (Z.ltb_spec now (lastTime tb)); lia. }
  set (e := duration_seconds _).
  assert (fleb f0 (fmul e (rate tb)) = true) as Hm.
  { apply fmul_nonneg; [|done| |done].
    - apply duration_seconds_nonneg; [apply sat64_range|done].
    - apply seconds_finite, sat64_range. }
  pose proof (fadd_nonneg _ _ Hn Hm) as Ha. pose proof (fadd_le_l _ _ Hn Hm) as Hl.
  split; [constructor|]; cbn [rate burst tokens]; [done| | |].
  - destruct (fltb _ _); [by apply f_of_int_nonneg|done].
  - apply fclamp_le; [apply (fle_num _ _ Ha)|by apply f_of_int_num].
  - by destruct (fltb _ _).
Qed.

Lemma AllowAt_wf now tb : bucket_wf tb → bucket_wf (AllowAt now tb).2.
Proof.
  intros [Hw _]%(refill_wf now). unfold AllowAt.
  destruct (fleb f1 _) eqn:E; [|by destruct (fleb _ f0)].
  destruct Hw as [Hp Hn Hb]. destruct (fsub_one _ E) as [Hs Hl].
  constructor; cbn; [done..|]. eapply fle_trans; [exact Hl|done].
Qed.

Lemma ReconfigureAt_wf r b now tb :
  policy_ok r b → bucket_wf tb → bucket_wf (ReconfigureAt r b now tb).
Proof.
  intros Hp [[_ Hn Hb] _]%(refill_wf now). pose proof Hp as (_ & _ & Hb64 & Hb0).
  constructor; cbn [rate burst tokens ReconfigureAt]; [done| |].
  - destruct (fltb _ _); [by apply f_of_int_nonneg|done].
  - apply fclamp_le; [apply (fle_num _ _ Hn)|by apply f_of_int_num].
Qed.

Lemma AllowAt_lastTime now tb : lastTime (AllowAt now tb).2 = Z.max (lastTime tb) now.
Proof. rewrite <- refill_lastTime. unfold AllowAt. by repeat case_match. Qed.

Lemma apply_op_wf op tb : op_ok op → bucket_wf tb → bucket_wf (apply_op op tb).
Proof. destruct op; cbn; intros; [by apply AllowAt_wf|by apply ReconfigureAt_wf]. Qed.

Lemma apply_op_lastTime op tb : lastTime tb ≤ lastTime (apply_op op tb).
Proof.
  destruct op; cbn [apply_op]; [rewrite AllowAt_lastTime; lia|].
  cbn [ReconfigureAt lastTime]. rewrite refill_lastTime. lia.
Qed.
End Invariant.

(** ** Token accounting, without rounding *)

#[local] Open Scope Q_scope.

Definition seconds (d : Z) : Q := inject_Z d / inject_Z Second.

Lemma Q_duration_seconds d : duration_seconds d == seconds d.
Proof.
  unfold duration_seconds, seconds, f_of_int, fadd, fdiv; cbn [Q_float].
  rewrite (Z.quot_rem' d Second) at 3. rewrite inject_Z_plus, inject_Z_mult.
  field. done.
Qed.

Lemma seconds_mono a b : (a <= b)%Z → seconds a <= seconds b.
Proof. intros Hab. unfold seconds, Qdiv. apply Qmult_le_compat_r; [by rewrite <- Zle_Qle|done]. Qed.

Lemma seconds_nonneg a : (0 <= a)%Z → 0 <= seconds a.
Proof.
  intros Ha. eapply Qle_trans; [|exact (seconds_mono 0 a Ha)]. by vm_compute.
Qed.

Lemma seconds_add a b : seconds (a + b) == seconds a + seconds b.
Proof. unfold seconds. rewrite inject_Z_plus. field. done. Qed.

(** The elapsed seconds [refill] credits: at most those between the readings. *)
Definition credited (now : time) (tb : tokenBucket Q) : Q :=
  seconds (sat64 (Z.max (lastTime tb) now - lastTime tb)).

Lemma credited_nonneg now tb : 0 <= credited now tb.
Proof. apply seconds_nonneg, sat64_nonneg. lia. Qed.

Lemma credited_le now tb : credited now tb <= seconds (Z.max (lastTime tb) now - lastTime tb).
Proof. apply seconds_mono. unfold sat64, int64_min. lia. Qed.

Lemma credited_exact now tb :
  (lastTime tb <= now)%Z → in_int64 (now - lastTime tb) →
  credited now tb = seconds (now - lastTime tb).
Proof. intros Hle Hin. unfold credited. rewrite Z.max_r by lia. by rewrite sat64_id. Qed.

Lemma refill_tokens now (tb : tokenBucket Q) :
  tokens (refill now tb) ==
  Qmin (inject_Z (burst tb)) (tokens tb + credited now tb * rate tb).
Proof.
  unfold refill. cbn [tokens].
  assert (duration_seconds (time_sub (if time_before now (lastTime tb) then lastTime tb else now)
    (lastTime tb)) == credited now tb) as He.
  { rewrite Q_duration_seconds. unfold credited, time_sub, time_before.
    destruct (Z.ltb_spec now (lastTime tb)); [rewrite Z.max_l by lia|rewrite Z.max_r by lia]; reflexivity. }
  set (e := duration_seconds _) in *. qreflect.
  destruct (Qle_bool _ _) eqn:E; cbn [negb]; qreflect.
  - rewrite Q.min_r, He; [reflexivity|]. by rewrite <- He.
  - rewrite Q.min_l; [reflexivity|]. rewrite <- He. lra.
Qed.

(** The decision of [AllowAt] in terms of the refilled bucket. *)
Lemma AllowAt_spec now (tb : tokenBucket Q) :
  let tb' := refill now tb in
  (AllowAt now tb).1.1 = true ∧ 1 <= tokens tb' ∧
    (AllowAt now tb).2 = set_tokens (tokens tb' - 1) tb' ∨
  (AllowAt now tb).1.1 = false ∧ tokens tb' < 1 ∧ (AllowAt now tb).2 = tb'.
Proof.
  unfold AllowAt. cbn zeta. destruct (fleb f1 _) eqn:E; qreflect; [by left|].
  right. by case_match.
Qed.

(** ** Token accounting, with rounding

    What one decision can gain by rounding: every operation errs by at most
    [unit_roundoff] relative to a number that the burst bounds. *)

Definition slack (B : Z) : Q := (7 * inject_Z B + 1) * unit_roundoff.

Lemma slack_nonneg B : (0 <= B)%Z → 0 <= slack B.
Proof.
  intros HB. apply Qmult_le_0_compat; [|done]. rewrite (Zle_Qle 0) in HB. change (inject_Z 0) with 0 in HB. lra.
Qed.

Lemma slack_mono B B' : (B <= B')%Z → slack B <= slack B'.
Proof. intros HB. unfold slack. apply Qmult_le_compat_r; [|done]. rewrite Zle_Qle in HB. lra. Qed.

(** The arithmetic of a refill: [t] tokens, [P] earned exactly, the cap [B]. *)
Lemma rounded_refill (t P B T tiny : Q) :
  0 <= t → 0 <= P → 0 <= B → 0 <= tiny → T <= B →
  T <= (1 + unit_roundoff) * (t + ((1 + unit_roundoff) * ((1 + unit_roundoff) * (1 + unit_roundoff) * P) + tiny)) →
  T <= t + P + 5 * unit_roundoff * B + 2 * tiny.
Proof. unfold unit_roundoff. intros. lra. Qed.

Section Rounding.
Context `{Float64Laws F} `{!Float64Error F}.

Lemma val_seconds d : in_int64 d → (0 <= d)%Z →
  val (duration_seconds d) <= (1 + unit_roundoff) * (1 + unit_roundoff) * seconds d.
Proof.
  unfold in_int64, int64_min, int64_max. intros Hd Hpos. unfold duration_seconds.
  pose proof (Z.quot_pos d Second Hpos ltac:(done)) as Hq.
  pose proof (Z.quot_le_upper_bound d Second (2 ^ 53) ltac:(done) ltac:(unfold Second; lia)) as Hq2.
  pose proof (Z.rem_bound_pos d Second Hpos ltac:(done)) as Hr. unfold Second in Hr.
  eapply Qle_trans; [apply val_add|].
  - apply f_of_int_nonneg; [unfold in_int64, int64_min, int64_max; lia|done].
  - apply fdiv_nonneg; [apply f_of_int_nonneg| |apply f_of_int_finite..]; unfold Second;
      try (unfold in_int64, int64_min, int64_max; lia); try lia.
    apply f_of_int_pos; [unfold in_int64, int64_min, int64_max; lia|lia].
  - rewrite (val_int_exact (Z.quot d Second)) by lia.
    pose proof (val_div (Z.rem d Second) Second ltac:(unfold Second; lia) ltac:(unfold Second; lia)) as Hdiv.
    assert (0 <= inject_Z (Z.quot d Second)) as Hq0 by (change 0 with (inject_Z 0); by rewrite <- Zle_Qle).
    unfold seconds. rewrite (Z.quot_rem' d Second) at 3. rewrite inject_Z_plus, inject_Z_mult.
    assert ((inject_Z Second * inject_Z (Z.quot d Second) + inject_Z (Z.rem d Second)) / inject_Z Second
            == inject_Z (Z.quot d Second) + inject_Z (Z.rem d Second) / inject_Z Second) as -> by (field; done).
    set (q := inject_Z (Z.quot d Second)) in *. set (r := inject_Z (Z.rem d Second) / inject_Z Second) in *.
    set (w := val _) in *. unfold unit_roundoff in *. lra.
Qed.

Definition cap (tb : tokenBucket F) : Q := val (f_of_int (burst tb)).

Lemma cap_bounds tb : bucket_wf tb →
  0 <= cap tb ∧ cap tb <= (1 + unit_roundoff) * inject_Z (burst tb) ∧ val (tokens tb) <= cap tb ∧ 0 <= val (tokens tb).
Proof.
  intros [(_ & _ & Hb & Hb0) Hn Hc]. pose proof (fle_num _ _ Hc) as [Hnum Hcap]. split_and!.
  - by apply val_nonneg, f_of_int_nonneg.
  - by apply val_int.
  - apply val_below; [done|done|]. destruct (fltb _ _) eqn:E; [|done]. apply flt_not_le in E. congruence.
  - by apply val_nonneg.
Qed.

(** A refill adds at most what the elapsed time earns and the errors of its operations. *)
Lemma val_refill now tb :
  bucket_wf tb →
  let s := seconds (Z.max (lastTime tb) now - lastTime tb) in
  val (tokens (refill now tb)) <= cap tb ∧
  val (tokens (refill now tb)) <= val (tokens tb) + val (rate tb) * s + 5 * unit_roundoff * cap tb + 2 * half_tiny.
Proof.
  intros Hwf. pose proof Hwf as [Hp Hn Hb]. pose proof Hp as (Hr & Hri & Hb64 & Hb0). cbn zeta.
  destruct (refill_wf now tb Hwf) as [Hwf' _]. destruct (cap_bounds _ Hwf') as (Hc0 & _ & HTc & _).
  destruct (cap_bounds _ Hwf) as (_ & _ & _ & Ht0). pose proof (val_nonneg _ Hr) as Hr0.
  change (cap (refill now tb)) with (cap tb) in *. split; [exact HTc|].
  set (d := time_sub (if time_before now (lastTime tb) then lastTime tb else now) (lastTime tb)).
  assert (0 <= d <= Z.max (lastTime tb) now - lastTime tb)%Z as Hd.
  { unfold d, time_sub, time_before, sat64, int64_min, int64_max. destruct (Z.ltb_spec now (lastTime tb)); lia. }
  assert (in_int64 d) as Hd64 by apply sat64_range.
  pose proof (seconds_mono d _ (proj2 Hd)) as Hs. pose proof (seconds_nonneg d (proj1 Hd)) as Hs0.
  set (s := seconds (Z.max (lastTime tb) now - lastTime tb)) in *.
  pose proof (val_seconds d Hd64 (proj1 Hd)) as He.
  pose proof (duration_seconds_nonneg d Hd64 (proj1 Hd)) as Hen. pose proof (seconds_finite d Hd64) as Hef.
  pose proof (fmul_nonneg _ _ Hen Hr Hef Hri) as Hpn. pose proof (val_mul _ _ Hen Hr Hef Hri) as Hpm.
  set (e := duration_seconds d) in *. set (p := fmul e (rate tb)) in *.
  pose proof (val_add _ _ Hn Hpn) as Ha. pose proof (fadd_nonneg _ _ Hn Hpn) as Han.
  assert (val (tokens (refill now tb)) <= val (fadd (tokens tb) p)) as HTx.
  { unfold refill. fold d e p. cbn [tokens]. destruct (fltb _ (fadd (tokens tb) p)) eqn:E; [by apply val_above|apply Qle_refl]. }
  assert (val e * val (rate tb) <= (1 + unit_roundoff) * (1 + unit_roundoff) * (val (rate tb) * s)) as Hes.
  { apply (Qmult_le_compat_r _ _ (val (rate tb))) in He; [|done].
    apply (Qmult_le_compat_r _ _ (val (rate tb))) in Hs; [|done]. unfold unit_roundoff in *. lra. }
  apply rounded_refill; [done| |done|done|exact HTc|].
  - apply Qmult_le_0_compat; [done|]. eapply Qle_trans; [exact Hs0|exact Hs].
  - set (y := val e * val (rate tb)) in *. set (z := val (rate tb) * s) in *. unfold unit_roundoff in *. lra.
Qed.

(** The decision in terms of the refilled bucket, for every arithmetic. *)
Lemma AllowAt_cases now (tb : tokenBucket F) :
  let tb' := refill now tb in
  (AllowAt now tb).1.1 = true ∧ fleb f1 (tokens tb') = true ∧ (AllowAt now tb).2 = set_tokens (fsub (tokens tb') f1) tb' ∨
  (AllowAt now tb).1.1 = false ∧ (AllowAt now tb).2 = tb'.
Proof. unfold AllowAt. cbn zeta. destruct (fleb f1 _) eqn:E; [by left|]. right. by case_match. Qed.

Lemma AllowAt_kept now (tb : tokenBucket F) : rate (AllowAt now tb).2 = rate tb ∧ burst (AllowAt now tb).2 = burst tb.
Proof. by destruct (AllowAt_cases now tb) as [(_ & _ & ->)|(_ & ->)]. Qed.

Lemma AllowAt_accounting now tb :
  bucket_wf tb →
  let '(ok, _, tb') := AllowAt now tb in
  (if ok : bool then 1 else 0) + val (tokens tb')
  <= val (tokens (refill now tb)) + unit_roundoff * cap tb.
Proof.
  intros Hwf. destruct (val_refill now tb Hwf) as [Hc _]. destruct (cap_bounds _ Hwf) as (Hc0 & _ & _ & _).
  pose proof (AllowAt_cases now tb) as Hs. destruct (AllowAt now tb) as [[ok d] tb']. cbn [fst snd] in Hs.
  assert (0 <= unit_roundoff * cap tb) as Hu by (apply Qmult_le_0_compat; [done|exact Hc0]).
  destruct Hs as [(-> & H1 & ->)|(-> & ->)]; cbn [tokens set_tokens]; [|lra].
  pose proof (val_sub_one _ H1) as Hv. unfold unit_roundoff in *. lra.
Qed.

(** How many of the decisions of a run were grants. *)
Fixpoint granted (ops : list (bucket_op F)) (tb : tokenBucket F) : Z :=
  match ops with
  | [] => 0
  | op :: ops' =>
      (match op with
       | OpAllow now => if (AllowAt now tb).1.1 then 1 else 0
       | OpReconfigure _ _ _ => 0
       end + granted ops' (apply_op op tb))%Z
  end.

(** A policy change is to a rate of at most [R] and a burst of at most [B]. *)
Definition policy_at_most (R : Q) (B : Z) (op : bucket_op F) : Prop :=
  match op with OpAllow _ => True | OpReconfigure r b _ => val r <= R ∧ (b <= B)%Z end.

Definition bucket_at_most (R : Q) (B : Z) (tb : tokenBucket F) : Prop := val (rate tb) <= R ∧ (burst tb <= B)%Z.

Lemma apply_op_at_most R B op tb :
  policy_at_most R B op → bucket_at_most R B tb → bucket_at_most R B (apply_op op tb).
Proof.
  unfold bucket_at_most. destruct op as [now|r b now]; cbn [apply_op]; [|by intros].
  intros _. by destruct (AllowAt_kept now tb) as [-> ->].
Qed.

(** The errors of one operation are below the slack of the largest burst. *)
Lemma errors_below_slack B tb : bucket_wf tb → (burst tb <= B)%Z →
  6 * unit_roundoff * cap tb + 2 * half_tiny <= slack B.
Proof.
  intros Hwf HB. destruct (cap_bounds _ Hwf) as (Hc0 & Hc & _ & _). rewrite Zle_Qle in HB.
  assert (0 <= inject_Z B) as HB0.
  { destruct Hwf as [(_ & _ & _ & Hb0) _ _]. rewrite (Zle_Qle 0) in Hb0. change (inject_Z 0) with 0 in Hb0. lra. }
  assert (2 * half_tiny <= unit_roundoff) as Ht by done.
  unfold slack. set (x := cap tb) in *. set (h := half_tiny) in *. unfold unit_roundoff in *. lra.
Qed.

Lemma refill_earns R B now tb :
  bucket_wf tb → bucket_at_most R B tb →
  val (tokens (refill now tb)) + unit_roundoff * cap tb
  <= val (tokens tb) + R * seconds (Z.max (lastTime tb) now - lastTime tb) + slack B.
Proof.
  intros Hwf [HR HB]. pose proof (errors_below_slack B tb Hwf HB) as Hsl.
  destruct (val_refill now tb Hwf) as [_ Ht].
  pose proof (seconds_nonneg (Z.max (lastTime tb) now - lastTime tb) ltac:(lia)) as Hs0.
  set (s := seconds (Z.max (lastTime tb) now - lastTime tb)) in *.
  assert (val (rate tb) * s <= R * s) as HRs by by apply Qmult_le_compat_r.
  unfold unit_roundoff in *. lra.
Qed.

Lemma apply_op_accounting R B op tb :
  op_ok op → bucket_wf tb → bucket_at_most R B tb →
  inject_Z (match op with OpAllow now => if (AllowAt now tb).1.1 then 1 else 0 | _ => 0 end)
    + val (tokens (apply_op op tb))
  <= val (tokens tb) + R * seconds (lastTime (apply_op op tb) - lastTime tb) + slack B.
Proof.
  intros Hok Hwf Hat. destruct (cap_bounds _ Hwf) as (Hc0 & _ & _ & _).
  assert (0 <= unit_roundoff * cap tb) as Hu by (apply Qmult_le_0_compat; [done|exact Hc0]).
  destruct op as [now|r b now]; cbn [apply_op]; pose proof (refill_earns R B now tb Hwf Hat) as He.
  - rewrite AllowAt_lastTime. pose proof (AllowAt_accounting now tb Hwf) as Ha.
    destruct (AllowAt now tb) as [[[] d] tb']; cbn [fst snd] in *;
      [change (inject_Z 1) with 1|change (inject_Z 0) with 0]; lra.
  - change (inject_Z 0) with 0. cbn [ReconfigureAt tokens lastTime]. rewrite refill_lastTime.
    assert (val (if fltb (f_of_int b) (tokens (refill now tb)) then f_of_int b else tokens (refill now tb))
            <= val (tokens (refill now tb))) as Hv; [|lra].
    destruct Hok as (_ & _ & Hb64 & _). destruct (fltb _ _) eqn:E; [by apply val_above|apply Qle_refl].
Qed.

(** Grants are paid for by the tokens held, the time that passes and the errors. *)
Lemma granted_accounting R B ops tb :
  0 <= R → Forall op_ok ops → Forall (policy_at_most R B) ops → bucket_wf tb → bucket_at_most R B tb →
  inject_Z (granted ops tb) + val (tokens (apply_ops ops tb))
  <= val (tokens tb) + R * seconds (lastTime (apply_ops ops tb) - lastTime tb)
     + inject_Z (Z.of_nat (length ops)) * slack B.
Proof.
  intros HR0 Hok HR. revert tb. induction ops as [|op ops IH]; intros tb Hwf Hat.
  - cbn [granted apply_ops length]. rewrite Z.sub_diag. change (inject_Z (Z.of_nat 0)) with 0.
    change (inject_Z 0) with 0. assert (seconds 0 == 0) as -> by reflexivity. lra.
  - apply Forall_cons in Hok as [Ho Hok], HR as [Hp HR]. cbn [granted apply_ops length].
    pose proof (apply_op_accounting R B op tb Ho Hwf Hat) as Hstep.
    specialize (IH Hok HR _ (apply_op_wf op tb Ho Hwf) (apply_op_at_most R B op tb Hp Hat)).
    set (tb1 := apply_op op tb) in *. set (tb2 := apply_ops ops tb1) in *.
    rewrite inject_Z_plus, Nat2Z.inj_succ, <- Z.add_1_l, inject_Z_plus. change (inject_Z 1) with 1.
    assert (seconds (lastTime tb2 - lastTime tb)
            == seconds (lastTime tb1 - lastTime tb) + seconds (lastTime tb2 - lastTime tb1)) as ->
      by (rewrite <- seconds_add; f_equiv; lia).
    set (g := inject_Z (match op with OpAllow _ => _ | _ => _ end)) in *.
    set (n := inject_Z (Z.of_nat (length ops))) in *. set (sl := slack B) in *. lra.
Qed.
End Rounding.

(** The wait [AllowAt] advises, before the floor of a millisecond: the time the
    refilled bucket needs to reach one token, in nanoseconds. *)
Definition needed (tb : tokenBucket Q) : Q :=
  (1 - tokens tb) / rate tb * inject_Z Second.

Lemma denied_wait now (tb : tokenBucket Q) :
  0 < rate tb → needed (refill now tb) <= inject_Z int64_max →
  (AllowAt now tb).1.1 = false →
  (AllowAt now tb).1.2 = Z.max Millisecond (Qceiling (needed (refill now tb))).
Proof.
  intros Hr Hn. unfold AllowAt.
  destruct (fleb f1 _) eqn:E; [done|]. intros _.
  destruct (fleb (rate _) f0) eqn:E2; [qreflect; cbn [refill rate] in *; lra|].
  cbn [fst snd]. set (k := f_to_int64 _).
  assert (k = Qceiling (needed (refill now tb))) as ->; [|by destruct (Z.ltb_spec (Qceiling
    (needed (refill now tb))) Millisecond); cbn; lia].
  subst k. unfold f_to_int64, fceil; cbn [Q_float]. unfold Q_to_int64.
  change (fmul _ _) with (needed (refill now tb)).
  assert (0 <= needed (refill now tb)) as H0.
  { qreflect. unfold needed, Qdiv. repeat apply Qmult_le_0_compat; [lra| |done].
    by apply Qlt_le_weak, Qinv_lt_0_compat. }
  unfold Qtrunc; cbn. rewrite Z.quot_1_r.
  assert (0 <= Qceiling (needed (refill now tb)))%Z by
    (rewrite <- (Qceiling_Z 0); by apply Qceiling_resp_le).
  assert (Qceiling (needed (refill now tb)) <= int64_max)%Z by
    (rewrite <- (Qceiling_Z int64_max); by apply Qceiling_resp_le).
  rewrite (proj2 (andb_true_iff _ _)); [done|].
  split; apply Z.leb_le; [unfold int64_min|]; lia.
Qed.

Lemma refill_after_wait t (tb : tokenBucket Q) :
  0 < rate tb → (1 <= burst tb)%Z → tokens tb < 1 →
  1 <= tokens (refill t tb) ↔ needed tb <= inject_Z (sat64 (Z.max (lastTime tb) t - lastTime tb)).
Proof.
  intros Hr Hb Ht. rewrite refill_tokens, Q.min_glb_iff.
  unfold credited, seconds, needed. set (z := inject_Z (sat64 _)).
  rewrite (Zle_Qle 1) in Hb. change (inject_Z 1) with 1 in *.
  assert (1 <= tokens tb + z / inject_Z Second * rate tb ↔
          (1 - tokens tb) / rate tb * inject_Z Second <= z) as Hiff; [|tauto].
  assert (0 < inject_Z Second / rate tb) as HS by (apply Qlt_shift_div_l; [done|]; by rewrite Qmult_0_l).
  rewrite <- (Qmult_le_r _ _ _ HS).
  assert (z / inject_Z Second * rate tb * (inject_Z Second / rate tb) == z) as Hz
    by (field; split; [lra|done]).
  assert ((1 - tokens tb) / rate tb * inject_Z Second
          == (1 - tokens tb) * (inject_Z Second / rate tb)) as -> by (field; lra).
  rewrite Qmult_plus_distr_l, Hz. split; lra.
Qed.

(** ** Properties *)

#[local] Open Scope Z_scope.

Lemma apply_ops_wf `{Float64Laws F} ops (tb : tokenBucket F) :
  Forall op_ok ops → bucket_wf tb →
  bucket_wf (apply_ops ops tb) ∧ lastTime tb ≤ lastTime (apply_ops ops tb).
Proof.
  revert tb. induction ops as [|op ops IH]; intros tb Hok Hwf; cbn; [by split|].
  apply Forall_cons in Hok as [Ho Hok].
  destruct (IH _ Hok (apply_op_wf op tb Ho Hwf)) as [Hw Hl]. split; [done|].
  pose proof (apply_op_lastTime op tb). lia.
Qed.

(** For every float64 arithmetic with the stated laws of IEEE 754, whatever
    clock readings the calls make (also readings that go backwards) and however
    the policy changes, a bucket's tokens stay numbers between 0 and its burst
    and its clock never goes back. *)
Theorem token_bucket_invariant `{Float64Laws F} (r : F) b now ops :
  policy_ok r b → Forall op_ok ops →
  let tb := apply_ops ops (newTokenBucket r b now) in
  fleb f0 (tokens tb) = true ∧ fleb (tokens tb) (f_of_int (burst tb)) = true ∧
  now ≤ lastTime tb.
Proof.
  intros Hp Hok. cbn zeta.
  destruct (apply_ops_wf ops _ Hok (new_wf r b now Hp)) as [[_ Hn Hb] Hl]. auto.
Qed.

Definition example_ops : list (bucket_op Q) :=
  [OpAllow 5; OpAllow 3; OpReconfigure 50%Q 1 2000000; OpAllow 1000; OpAllow 9000000].

Lemma example_ops_ok : Forall op_ok example_ops.
Proof. repeat constructor; done. Qed.

Lemma token_bucket_invariant_witness :
  let tb := apply_ops example_ops (newTokenBucket 100%Q 2 0) in
  fleb f0 (tokens tb) = true ∧ fleb (tokens tb) (f_of_int (burst tb)) = true ∧ 0 ≤ lastTime tb.
Proof.
  apply (token_bucket_invariant (100%Q) 2 0 example_ops); [|apply example_ops_ok].
  repeat split; done.
Defined.

(** C4: the rate limit holds over every window, whatever rounding does.  For
    every float64 arithmetic with the laws and the rounding errors of IEEE 754,
    from any state of a bucket, the number of requests granted during a run of
    calls and policy changes is at most the tokens it holds (never more than the
    burst) plus [R] times the seconds between the first and the last clock value,
    for every [R] that is at least the rates in force, plus one [slack] per call:
    [(7 B + 1) * 2^-53] for bursts of at most [B], what the rounding of one call
    can add.  No pattern of requests, no clock that goes back and no sequence of
    policy changes yields more. *)
Theorem token_bucket_rate_bound `{Float64Laws F} `{!Float64Error F} (R : Q) B ops (tb : tokenBucket F) :
  bucket_wf tb → bucket_at_most R B tb → Forall op_ok ops → Forall (policy_at_most R B) ops →
  (inject_Z (granted ops tb)
   <= val (tokens tb) + R * seconds (lastTime (apply_ops ops tb) - lastTime tb)
      + inject_Z (Z.of_nat (length ops)) * slack B)%Q.
Proof.
  intros Hwf Hat Hok HR.
  destruct (apply_ops_wf ops tb Hok Hwf) as [[_ Hn _] _]. apply val_nonneg in Hn.
  assert (0 <= R)%Q as HR0.
  { destruct Hwf as [(Hr0 & _) _ _]. eapply Qle_trans; [apply val_nonneg, Hr0|apply Hat]. }
  pose proof (granted_accounting R B ops tb HR0 Hok HR Hwf Hat). lra.
Qed.

Lemma token_bucket_rate_bound_witness :
  let tb := newTokenBucket 100%Q 2 0 in
  granted example_ops tb = 2 ∧
  (inject_Z (granted example_ops tb)
   <= val (tokens tb) + 100 * seconds (lastTime (apply_ops example_ops tb) - lastTime tb) + inject_Z (Z.of_nat (length example_ops)) * slack 2)%Q.
Proof.
  split; [reflexivity|].
  apply (token_bucket_rate_bound 100%Q 2 example_ops (newTokenBucket 100%Q 2 0)).
  - apply new_wf. repeat split; done.
  - split; done.
  - apply example_ops_ok.
  - repeat constructor; done.
Defined.

Section Rounded.
#[local] Existing Instances Up.up_float Up.up_laws Up.up_error.

(** The slack is needed: with the float64 nearest to a third of a token per
    second, a burst of 1 and a product rounded up, the calls at 0 s and at 3 s are
    both granted, though three seconds earn less than a token. *)
Example rounding_grants_more :
  let third := Up.Round (6004799503160661 # 18014398509481984) in
  let ops := [OpAllow 0; OpAllow (3 * Second)] in
  let tb := newTokenBucket third 1 0 in
  granted ops tb = 2 ∧
  (val (tokens tb) + val third * seconds (lastTime (apply_ops ops tb) - lastTime tb) < 2)%Q.
Proof. split; reflexivity. Qed.
End Rounded.

Lemma ceiling_int64 tb : (needed tb <= inject_Z int64_max)%Q → Qceiling (needed tb) ≤ int64_max.
Proof. intros Hn. rewrite <- (Qceiling_Z int64_max). by apply Qceiling_resp_le. Qed.

(** Waiting as long as advised is enough. *)
Lemma wait_suffices now t (tb : tokenBucket Q) :
  (0 < rate tb)%Q → 1 ≤ burst tb → (needed (refill now tb) <= inject_Z int64_max)%Q →
  (AllowAt now tb).1.1 = false →
  lastTime (AllowAt now tb).2 + (AllowAt now tb).1.2 ≤ t →
  (AllowAt t (AllowAt now tb).2).1.1 = true.
Proof.
  intros Hr Hb Hneed Hf Ht. rewrite (denied_wait now tb Hr Hneed Hf) in Ht.
  destruct (AllowAt_spec now tb) as [(? & _)|(_ & Hlt & He)]; [congruence|]. rewrite He in *.
  set (tb' := refill now tb) in *. pose proof (ceiling_int64 tb' Hneed) as Hk.
  destruct (AllowAt_spec t tb') as [(? & _)|(_ & Hn & _)]; [done|].
  exfalso. apply (Qlt_not_le _ _ Hn), refill_after_wait; [done..|].
  eapply Qle_trans; [apply Qle_ceiling|]. rewrite <- Zle_Qle.
  unfold sat64, int64_min, Millisecond in *. lia.
Qed.

(** Above the floor, waiting less is not. *)
Lemma wait_needed now t (tb : tokenBucket Q) :
  (0 < rate tb)%Q → 1 ≤ burst tb → (needed (refill now tb) <= inject_Z int64_max)%Q →
  (AllowAt now tb).1.1 = false →
  Millisecond < (AllowAt now tb).1.2 → t < lastTime (AllowAt now tb).2 + (AllowAt now tb).1.2 →
  (AllowAt t (AllowAt now tb).2).1.1 = false.
Proof.
  intros Hr Hb Hneed Hf Hms Ht. rewrite (denied_wait now tb Hr Hneed Hf) in Hms, Ht.
  destruct (AllowAt_spec now tb) as [(? & _)|(_ & Hlt & He)]; [congruence|]. rewrite He in *.
  set (tb' := refill now tb) in *. pose proof (ceiling_int64 tb' Hneed) as Hk.
  destruct (AllowAt_spec t tb') as [(_ & Hn & _)|(? & _)]; [|done].
  exfalso. apply refill_after_wait in Hn; [|done..].
  apply (Qlt_not_le _ _ (Qceiling_lt (needed tb'))).
  eapply Qle_trans; [exact Hn|]. rewrite <- Zle_Qle.
  unfold sat64, int64_min, Millisecond in *. lia.
Qed.

(** The wait reported with a refusal is right.  A caller that waits that
    long is granted its next request, and when the wait is above the floor of a
    millisecond, one nanosecond less is not enough. *)
Theorem retry_after_is_exact now t (tb : tokenBucket Q) :
  (0 < rate tb)%Q → 1 ≤ burst tb →
  (needed (refill now tb) <= inject_Z int64_max)%Q →
  (AllowAt now tb).1.1 = false →
  let wait := (AllowAt now tb).1.2 in
  let tb' := (AllowAt now tb).2 in
  (lastTime tb' + wait ≤ t → (AllowAt t tb').1.1 = true) ∧
  (Millisecond < wait → t < lastTime tb' + wait → (AllowAt t tb').1.1 = false).
Proof.
  intros Hr Hb Hneed Hf. cbn zeta. split; intros.
  - by apply wait_suffices.
  - by apply wait_needed.
Qed.

Lemma retry_after_is_exact_witness :
  let tb := {| rate := 100%Q; burst := 5; tokens := (1#2)%Q; lastTime := 0 |} in
  (AllowAt 0 tb).1.1 = false ∧ (AllowAt 0 tb).1.2 = 5000000 ∧
  (AllowAt 5000000 (AllowAt 0 tb).2).1.1 = true ∧
  (AllowAt 4999999 (AllowAt 0 tb).2).1.1 = false.
Proof.
  set (tb := {| rate := 100%Q; burst := 5; tokens := (1#2)%Q; lastTime := 0 |}).
  split; [reflexivity|]. split; [reflexivity|]. split.
  - apply (retry_after_is_exact 0 5000000 tb); [done..|reflexivity|by vm_compute].
  - apply (retry_after_is_exact 0 4999999 tb); [done..|reflexivity|by vm_compute|by vm_compute].
Defined.
