(* ===== verification/Base64.v ===== *)
(** * encoding/base64, the standard encoding

    What encoding/json uses for a [[]byte]: groups of three bytes as four letters,
    padded with equal signs; decoding skips line breaks. *)

From S2P Require Import Prelude GoStrings.
From Stdlib Require Import Ascii.
#[local] Open Scope Z_scope.

Definition letter (i : Z) : ascii :=
  ascii_of_N (Z.to_N (if i <? 26 then 65 + i else if i <? 52 then 71 + i else if i <? 62 then i - 4
                      else if i =? 62 then 43 else 47)).

Definition letter_value (a : ascii) : option Z :=
  let c := code a in
  if (65 <=? c) && (c <=? 90) then Some (c - 65)
  else if (97 <=? c) && (c <=? 122) then Some (c - 71)
  else if (48 <=? c) && (c <=? 57) then Some (c + 4)
  else if c =? 43 then Some 62 else if c =? 47 then Some 63 else None.

Definition byte_at (n : Z) : ascii := ascii_of_N (Z.to_N (n mod 256)).

Fixpoint encode_groups (l : list ascii) : list ascii :=
  match l with
  | [] => []
  | [a] => [letter (code a / 4); letter (code a mod 4 * 16); "="%char; "="%char]
  | [a; b] =>
      [letter (code a / 4); letter (code a mod 4 * 16 + code b / 16); letter (code b mod 16 * 4); "="%char]
  | a :: b :: c :: l' =>
      letter (code a / 4) :: letter (code a mod 4 * 16 + code b / 16)
      :: letter (code b mod 16 * 4 + code c / 64) :: letter (code c mod 64) :: encode_groups l'
  end.

Fixpoint decode_groups (l : list ascii) : option (list ascii) :=
  match l with
  | [] => Some []
  | w :: x :: y :: z :: l' =>
      i ← letter_value w; j ← letter_value x;
      let first := byte_at (i * 4 + j / 16) in
      if decide (y = "="%char) then
        if decide (z = "="%char) then match l' with [] => Some [first] | _ => None end else None
      else
        k ← letter_value y;
        let second := byte_at (j * 16 + k / 4) in
        if decide (z = "="%char) then match l' with [] => Some [first; second] | _ => None end
        else
          m ← letter_value z; rest ← decode_groups l';
          Some (first :: second :: byte_at (k * 64 + m) :: rest)
  | _ => None
  end.

Definition line_break (a : ascii) : bool := (code a =? 10) || (code a =? 13).

Definition EncodeToString (s : string) : string := of_bytes (encode_groups (bytes_of s)).
Definition DecodeString (s : string) : option string :=
  of_bytes <$> decode_groups (List.filter (λ a, negb (line_break a)) (bytes_of s)).

Example base64_example :
  EncodeToString "Many hands" = "TWFueSBoYW5kcw==" ∧ DecodeString ("TWFu" +:+ String (ascii_of_nat 10) "eSBo")
  = Some "Many h" ∧ DecodeString "TWF" = None ∧ DecodeString "TW=u" = None.
Proof. by vm_compute. Qed.

(** ** Round trip *)

Lemma code_range a : 0 ≤ code a < 256.
Proof. unfold code. pose proof (N_ascii_bounded a). lia. Qed.

Lemma code_byte_at n : 0 ≤ n < 256 → code (byte_at n) = n.
Proof. intros Hn. unfold code, byte_at. rewrite Z.mod_small, N_ascii_embedding by lia. lia. Qed.

Lemma byte_at_code n a : n mod 256 = code a → byte_at n = a.
Proof.
  intros Hn. apply code_inj. unfold byte_at. rewrite Hn. unfold code.
  rewrite N2Z.id, ascii_N_embedding. done.
Qed.

Lemma code_letter i : 0 ≤ i < 64 →
  code (letter i) = if i <? 26 then 65 + i else if i <? 52 then 71 + i else if i <? 62 then i - 4
                    else if i =? 62 then 43 else 47.
Proof.
  intros Hi. unfold code, letter. rewrite N_ascii_embedding; repeat case_match; breflect; lia.
Qed.

Lemma letter_spec i : 0 ≤ i < 64 →
  letter_value (letter i) = Some i ∧ letter i ≠ "="%char ∧ line_break (letter i) = false ∧ solid (letter i).
Proof.
  intros Hi. assert (∀ a, letter i = a → code (letter i) = code a) as Hc by (by intros a ->).
  unfold letter_value, line_break, solid. rewrite code_letter in * by done. split_and!.
  - repeat case_match; breflect; f_equal; lia.
  - intros E%Hc. change (code "=") with 61 in E. repeat case_match; breflect; lia.
  - repeat case_match; breflect; apply orb_false_iff; rewrite !Z.eqb_neq; lia.
  - repeat case_match; breflect; lia.
  - repeat case_match; breflect; lia.
Qed.

(** Lists by groups of three. *)
Lemma groups_ind (P : list ascii → Prop) :
  P [] → (∀ a, P [a]) → (∀ a b, P [a; b]) → (∀ a b c l, P l → P (a :: b :: c :: l)) → ∀ l, P l.
Proof.
  intros H0 H1 H2 H3. fix go 1. intros [|a [|b [|c l]]]; [apply H0|apply H1|apply H2|apply H3, go].
Qed.

(** A byte as two digits. *)
Lemma split_code a n : 0 < n → code a = n * (code a / n) + code a mod n ∧ 0 ≤ code a mod n < n ∧
  0 ≤ code a / n ∧ n * (code a / n) < 256.
Proof.
  intros Hn. pose proof (code_range a). pose proof (Z.div_mod (code a) n ltac:(lia)).
  pose proof (Z.mod_pos_bound (code a) n Hn). pose proof (Z.div_pos (code a) n ltac:(lia) Hn). lia.
Qed.

Lemma div_digit x y n : 0 ≤ y < n → (x * n + y) / n = x.
Proof. intros Hy. rewrite Z.div_add_l, Z.div_small by lia. lia. Qed.

Lemma first_byte a y : 0 ≤ y < 16 → byte_at (code a / 4 * 4 + (code a mod 4 * 16 + y) / 16) = a.
Proof.
  intros Hy. rewrite div_digit by done. apply byte_at_code. pose proof (split_code a 4 ltac:(lia)).
  pose proof (code_range a). rewrite Z.mod_small; lia.
Qed.

Lemma second_byte x b y :
  0 ≤ y < 4 → byte_at ((x * 16 + code b / 16) * 16 + (code b mod 16 * 4 + y) / 4) = b.
Proof.
  intros Hy. rewrite div_digit by done. apply byte_at_code. pose proof (split_code b 16 ltac:(lia)).
  pose proof (code_range b). symmetry. apply (Z.mod_unique_pos _ 256 x); lia.
Qed.

Lemma third_byte x c : byte_at ((x * 4 + code c / 64) * 64 + code c mod 64) = c.
Proof.
  apply byte_at_code. pose proof (split_code c 64 ltac:(lia)).
  pose proof (code_range c). symmetry. apply (Z.mod_unique_pos _ 256 x); lia.
Qed.

(** The letters of three bytes; [b] and [c] are 0 when missing. *)
Lemma letters_range a b c :
  0 ≤ code a / 4 < 64 ∧ 0 ≤ code a mod 4 * 16 + code b / 16 < 64 ∧
  0 ≤ code b mod 16 * 4 + code c / 64 < 64 ∧ 0 ≤ code c mod 64 < 64 ∧
  0 ≤ code a mod 4 * 16 < 64 ∧ 0 ≤ code b mod 16 * 4 < 64 ∧ 0 ≤ code b / 16 < 16 ∧ 0 ≤ code c / 64 < 4.
Proof.
  pose proof (split_code a 4 ltac:(lia)). pose proof (split_code b 16 ltac:(lia)).
  pose proof (split_code c 64 ltac:(lia)). lia.
Qed.

Lemma decode_encode_groups l :
  decode_groups (encode_groups l) = Some l ∧
  Forall (λ a, line_break a = false ∧ solid a) (encode_groups l).
Proof.
  revert l. apply groups_ind.
  - split; [done|constructor].
  - intros a. destruct (letters_range a "000" "000") as (L1 & _ & _ & _ & L5 & _).
    destruct (letter_spec _ L1) as (V1 & N1 & B1 & S1), (letter_spec _ L5) as (V2 & N2 & B2 & S2).
    cbn [encode_groups decode_groups]. rewrite V1, V2. cbn [mbind option_bind].
    rewrite !decide_True by done. split; [|repeat (apply Forall_cons; split; [done|]); first [done|apply Forall_nil, I]].
    pose proof (first_byte a 0 ltac:(lia)) as Hb. rewrite Z.add_0_r in Hb. by rewrite Hb.
  - intros a b. destruct (letters_range a b "000") as (L1 & L2 & _ & _ & _ & L6 & L7 & _).
    destruct (letter_spec _ L1) as (V1 & N1 & B1 & S1), (letter_spec _ L2) as (V2 & N2 & B2 & S2),
      (letter_spec _ L6) as (V3 & N3 & B3 & S3).
    cbn [encode_groups decode_groups]. rewrite V1, V2. cbn [mbind option_bind].
    rewrite decide_False, V3 by done. cbn [mbind option_bind]. rewrite decide_True by done.
    split; [|repeat (apply Forall_cons; split; [done|]); first [done|apply Forall_nil, I]].
    pose proof (second_byte (code a mod 4) b 0 ltac:(lia)) as Hb. rewrite Z.add_0_r in Hb.
    by rewrite first_byte, Hb by done.
  - intros a b c l [IH HF]. destruct (letters_range a b c) as (L1 & L2 & L3 & L4 & _ & _ & L7 & L8).
    destruct (letter_spec _ L1) as (V1 & N1 & B1 & S1), (letter_spec _ L2) as (V2 & N2 & B2 & S2),
      (letter_spec _ L3) as (V3 & N3 & B3 & S3), (letter_spec _ L4) as (V4 & N4 & B4 & S4).
    cbn [encode_groups decode_groups]. rewrite V1, V2. cbn [mbind option_bind].
    rewrite decide_False, V3 by done. cbn [mbind option_bind].
    rewrite decide_False, V4 by done. cbn [mbind option_bind].
    rewrite IH. cbn [mbind option_bind]. split; [|repeat (apply Forall_cons; split; [done|]); first [done|apply Forall_nil, I]].
    by rewrite first_byte, second_byte, third_byte by done.
Qed.

Lemma DecodeString_Encode s : DecodeString (EncodeToString s) = Some s.
Proof.
  unfold DecodeString, EncodeToString. rewrite bytes_of_of_bytes.
  destruct (decode_encode_groups (bytes_of s)) as [HD HF].
  assert (∀ l, Forall (λ a, line_break a = false ∧ solid a) l →
          List.filter (λ a, negb (line_break a)) l = l) as ->.
  { induction 1 as [|a l [Ha _] _ IH]; [done|]. cbn. by rewrite Ha, IH. }
  - rewrite HD. cbn. by rewrite of_bytes_bytes_of.
  - done.
Qed.

Lemma EncodeToString_solid s : Forall solid (bytes_of (EncodeToString s)).
Proof.
  unfold EncodeToString. rewrite bytes_of_of_bytes. eapply Forall_impl; [apply decode_encode_groups|].
  by intros a [_ ?].
Qed.

Lemma EncodeToString_empty s : EncodeToString s = "" ↔ s = "".
Proof.
  split; [|by intros ->]. intros E. pose proof (DecodeString_Encode s) as H. rewrite E in H.
  by injection H.
Qed.
