(* ===== verification/Json.v ===== *)
(** * JSON ([encoding/json])

    Values, the encoder of [json.Marshal] and the decoder of [json.Unmarshal] on
    bytes, and the proof that a printed value is read back.  Fields of structs are
    matched to object keys the way the decoder does it, ignoring case.  The
    decoder's limit on the depth of nesting is left out. *)

From S2P Require Import Prelude GoStrings GoTime.
From Stdlib Require Import Ascii.
#[local] Open Scope Z_scope.

(** ** Values and their encoding *)

Inductive json :=
| JNull
| JBool (b : bool)
| JInt (z : Z)
| JNumber (literal : string) (* a number that is not a plain integer *)
| JString (s : string)
| JArray (l : list json)
| JObject (fields : list (string * json)). (* in the order they are written *)

Definition between (lo hi : Z) (a : ascii) : bool := (lo <=? code a) && (code a <=? hi).
Definition continuation (a : ascii) : bool := between 128 191 a.

(** The length of the UTF-8 encoding at the head of a list; 0 when it is not
    a valid one. *)
Definition rune_width (l : list ascii) : nat :=
  match l with
  | [] => O
  | a :: l1 =>
      if code a <? 128 then 1%nat
      else if between 194 223 a then
        match l1 with b :: _ => if continuation b then 2%nat else O | _ => O end
      else if between 224 239 a then
        match l1 with
        | b :: c :: _ =>
            if (if code a =? 224 then between 160 191 b
                else if code a =? 237 then between 128 159 b else continuation b)
               && continuation c then 3%nat else O
        | _ => O
        end
      else if between 240 244 a then
        match l1 with
        | b :: c :: d :: _ =>
            if (if code a =? 240 then between 144 191 b
                else if code a =? 244 then between 128 143 b else continuation b)
               && continuation c && continuation d then 4%nat else O
        | _ => O
        end
      else O
  end.

Definition hex_digit (z : Z) : ascii :=
  ascii_of_N (Z.to_N (if z <? 10 then 48 + z else 87 + z)).

Definition backslash : ascii := "092"%char.

(** The escape of one ASCII byte, or the byte itself. *)
Definition escape_ascii (a : ascii) : list ascii :=
  let c := code a in
  if (c =? 34) || (c =? 92) then [backslash; a]
  else if c =? 8 then [backslash; "b"%char]
  else if c =? 12 then [backslash; "f"%char]
  else if c =? 10 then [backslash; "n"%char]
  else if c =? 13 then [backslash; "r"%char]
  else if c =? 9 then [backslash; "t"%char]
  else if (c <? 32) || (c =? 60) || (c =? 62) || (c =? 38)
  then [backslash; "u"%char; "0"%char; "0"%char; hex_digit (c / 16); hex_digit (c mod 16)]
  else [a].

(** [keep] bytes of the current rune are still to be copied, [skip] to be left
    out after an escape was written for the rune. *)
Fixpoint escape_json (keep skip : nat) (l : list ascii) : list ascii :=
  match l with
  | [] => []
  | a :: l' =>
      match keep, skip with
      | S k, _ => a :: escape_json k skip l'
      | O, S k => escape_json O k l'
      | O, O =>
          match rune_width l with
          | O => bytes_of "\ufffd" ++ escape_json O O l'
          | S O => escape_ascii a ++ escape_json O O l'
          | S k =>
              match l' with
              | b :: c :: _ =>
                  if (code a =? 226) && (code b =? 128) && (code c =? 168)
                  then bytes_of "\u2028" ++ escape_json O k l'
                  else if (code a =? 226) && (code b =? 128) && (code c =? 169)
                  then bytes_of "\u2029" ++ escape_json O k l'
                  else a :: escape_json k O l'
              | _ => a :: escape_json k O l'
              end
          end
      end
  end.

Definition dquote : string := String (Ascii.ascii_of_nat 34) "".
Definition newline : string := String (Ascii.ascii_of_nat 10) "".

Definition json_string (s : string) : string :=
  dquote +:+ of_bytes (escape_json O O (bytes_of s)) +:+ dquote.

(** [json.Marshal] of a value. *)
Fixpoint Marshal (v : json) : string :=
  match v with
  | JNull => "null"
  | JBool b => if b then "true" else "false"
  | JInt z => FormatInt z
  | JNumber lit => lit
  | JString s => json_string s
  | JArray l => "[" +:+ Join (Marshal <$> l) "," +:+ "]"
  | JObject fs =>
      "{" +:+ Join ((λ kv, json_string kv.1 +:+ ":" +:+ Marshal kv.2) <$> fs) "," +:+ "}"
  end.

(** ** Decoding *)

Definition json_space (a : ascii) : bool :=
  (code a =? 32) || (code a =? 9) || (code a =? 10) || (code a =? 13).

Fixpoint skip_space (l : list ascii) : list ascii :=
  match l with
  | a :: l' => if json_space a then skip_space l' else l
  | [] => []
  end.

Definition hex_value (a : ascii) : option Z :=
  let c := code a in
  if between 48 57 a then Some (c - 48)
  else if between 97 102 a then Some (c - 87)
  else if between 65 70 a then Some (c - 55)
  else None.

Definition hex4 (l : list ascii) : option (Z * list ascii) :=
  match l with
  | a :: b :: c :: d :: l' =>
      a ← hex_value a; b ← hex_value b; c ← hex_value c; d ← hex_value d;
      Some (((a * 16 + b) * 16 + c) * 16 + d, l')
  | _ => None
  end.

Definition byte_of (z : Z) : ascii := ascii_of_N (Z.to_N z).

(** The UTF-8 encoding of a code point. *)
Definition encode_rune (r : Z) : list ascii :=
  if r <? 128 then [byte_of r]
  else if r <? 2048 then [byte_of (192 + r / 64); byte_of (128 + r mod 64)]
  else if r <? 65536 then
    [byte_of (224 + r / 4096); byte_of (128 + r / 64 mod 64); byte_of (128 + r mod 64)]
  else
    [byte_of (240 + r / 262144); byte_of (128 + r / 4096 mod 64); byte_of (128 + r / 64 mod 64);
     byte_of (128 + r mod 64)].

Definition replacement : list ascii := encode_rune 65533.

(** The surrogate pair after a high surrogate, when there is one. *)
Definition low_surrogate (hi : Z) (l : list ascii) : option (Z * list ascii) :=
  match l with
  | a :: b :: l' =>
      if (code a =? 92) && (code b =? 117) then
        '(lo, l'') ← hex4 l';
        if (hi <? 56320) && (56320 <=? lo) && (lo <? 57344)
        then Some (65536 + (hi - 55296) * 1024 + (lo - 56320), l'') else None
      else None
  | _ => None
  end.

(** What an escape stands for, after its backslash. *)
Definition parse_escape (l : list ascii) : option (list ascii * list ascii) :=
  match l with
  | [] => None
  | a :: l' =>
      let c := code a in
      if (c =? 34) || (c =? 92) || (c =? 47) then Some ([a], l')
      else if c =? 98 then Some ([byte_of 8], l')
      else if c =? 102 then Some ([byte_of 12], l')
      else if c =? 110 then Some ([byte_of 10], l')
      else if c =? 114 then Some ([byte_of 13], l')
      else if c =? 116 then Some ([byte_of 9], l')
      else if c =? 117 then
        '(u, l1) ← hex4 l';
        if (55296 <=? u) && (u <? 57344) then
          match low_surrogate u l1 with
          | Some (r, l2) => Some (encode_rune r, l2)
          | None => Some (replacement, l1)
          end
        else Some (encode_rune u, l1)
      else None
  end.

(** The rest of a string literal, after its opening quote. *)
Fixpoint parse_string (fuel : nat) (l : list ascii) : option (list ascii * list ascii) :=
  match fuel, l with
  | S f, a :: l' =>
      if code a =? 34 then Some ([], l')
      else if code a =? 92 then
        '(bs, l1) ← parse_escape l'; '(s, r) ← parse_string f l1; Some (bs ++ s, r)
      else if code a <? 32 then None
      else
        match rune_width l with
        | O => '(s, r) ← parse_string f l'; Some (replacement ++ s, r)
        | S k => '(s, r) ← parse_string f (drop k l'); Some (a :: take k l' ++ s, r)
        end
  | _, _ => None
  end.

(** *** Numbers *)

Definition number_char (a : ascii) : bool :=
  between 48 57 a || (code a =? 43) || (code a =? 45) || (code a =? 46) || (code a =? 69)
  || (code a =? 101).

Fixpoint span_number (l : list ascii) : list ascii * list ascii :=
  match l with
  | a :: l' =>
      if number_char a then let '(n, rest) := span_number l' in (a :: n, rest) else ([], l)
  | [] => ([], [])
  end.

(** An exponent, or nothing. *)
Definition valid_exponent (l : list ascii) : bool :=
  match l with
  | [] => true
  | e :: l1 =>
      ((code e =? 69) || (code e =? 101))
      && match l1 with
         | s :: l2 =>
             let ds := if (code s =? 43) || (code s =? 45) then l2 else l1 in
             match span_digits ds with (_ :: _, []) => true | _ => false end
         | [] => false
         end
  end.

(** A fraction and an exponent, or nothing. *)
Definition valid_fraction (l : list ascii) : bool :=
  match l with
  | a :: l' =>
      if code a =? 46
      then match span_digits l' with (_ :: _, rest) => valid_exponent rest | _ => false end
      else valid_exponent l
  | [] => true
  end.

Definition valid_number (l : list ascii) : bool :=
  let l := match l with a :: l' => if code a =? 45 then l' else l | [] => l end in
  match l with
  | a :: l' =>
      if code a =? 48 then valid_fraction l'
      else match span_digits l with (_ :: _, rest) => valid_fraction rest | _ => false end
  | [] => false
  end.

(** The value of a plain integer literal. *)
Definition integer_literal (l : list ascii) : option Z :=
  z ← match l with
      | a :: l' => if code a =? 45 then Z.opp <$> parse_unsigned l' else parse_unsigned l
      | [] => None
      end;
  if decide (bytes_of (FormatInt z) = l) then Some z else None.

Definition number_value (l : list ascii) : json :=
  match integer_literal l with Some z => JInt z | None => JNumber (of_bytes l) end.

(** *** Values *)

Definition parse_literal (text : string) (v : json) (l : list ascii) : option (json * list ascii) :=
  rest ← strip_prefix (bytes_of text) l; Some (v, rest).

Definition colon (l : list ascii) : option (list ascii) := expect ":" (skip_space l).

(** [fuel] bounds the nesting and the number of elements; the length of the text
    is always enough. *)
Fixpoint parse_value (fuel : nat) (l : list ascii) : option (json * list ascii) :=
  match fuel with
  | O => None
  | S f =>
      match skip_space l with
      | [] => None
      | a :: l1 =>
          if code a =? 123 then
            match skip_space l1 with
            | b :: r => if code b =? 125 then Some (JObject [], r)
                        else '(ms, r) ← parse_members f l1; Some (JObject ms, r)
            | [] => None
            end
          else if code a =? 91 then
            match skip_space l1 with
            | b :: r => if code b =? 93 then Some (JArray [], r)
                        else '(vs, r) ← parse_elements f l1; Some (JArray vs, r)
            | [] => None
            end
          else if code a =? 34 then
            '(s, r) ← parse_string (length l1) l1; Some (JString (of_bytes s), r)
          else if code a =? 116 then parse_literal "rue" (JBool true) l1
          else if code a =? 102 then parse_literal "alse" (JBool false) l1
          else if code a =? 110 then parse_literal "ull" JNull l1
          else if number_char a then
            let '(n, r) := span_number (a :: l1) in
            if valid_number n then Some (number_value n, r) else None
          else None
      end
  end
with parse_elements (fuel : nat) (l : list ascii) : option (list json * list ascii) :=
  match fuel with
  | O => None
  | S f =>
      '(v, l1) ← parse_value f l;
      match skip_space l1 with
      | a :: l2 =>
          if code a =? 44 then '(vs, r) ← parse_elements f l2; Some (v :: vs, r)
          else if code a =? 93 then Some ([v], l2) else None
      | [] => None
      end
  end
with parse_members (fuel : nat) (l : list ascii) : option (list (string * json) * list ascii) :=
  match fuel with
  | O => None
  | S f =>
      match skip_space l with
      | q :: l1 =>
          if code q =? 34 then
            '(k, l2) ← parse_string (length l1) l1;
            l3 ← colon l2;
            '(v, l4) ← parse_value f l3;
            match skip_space l4 with
            | a :: l5 =>
                if code a =? 44 then '(ms, r) ← parse_members f l5; Some ((of_bytes k, v) :: ms, r)
                else if code a =? 125 then Some ([(of_bytes k, v)], l5) else None
            | [] => None
            end
          else None
      | [] => None
      end
  end.

(** [json.Unmarshal] into [any]; [None] is a syntax error. *)
Definition parse_json (s : string) : option json :=
  let l := bytes_of s in
  '(v, r) ← parse_value (S (length l)) l;
  match skip_space r with [] => Some v | _ => None end.

Definition quote_text (s : string) : string := dquote +:+ s +:+ dquote.

Example parse_json_example :
  parse_json (" {" +:+ quote_text "a\u00e9\n" +:+ ": [1, -2.50e3 ,true,null, {}] } ")
  = Some (JObject [("aé" +:+ newline, JArray [JInt 1; JNumber "-2.50e3"; JBool true; JNull; JObject []])])
  ∧ parse_json "01" = None ∧ parse_json "[1,]" = None
  ∧ parse_json (quote_text "\ud83d\ude00\ud800x") = Some (JString "😀�x").
Proof. by vm_compute. Qed.

(** ** Strings are read back *)

(** Valid UTF-8; [keep] bytes of the current rune are still to come. *)
Fixpoint utf8_from (keep : nat) (l : list ascii) : bool :=
  match l with
  | [] => true
  | a :: l' =>
      match keep with
      | S k => utf8_from k l'
      | O => match rune_width l with O => false | S k => utf8_from k l' end
      end
  end.

Definition utf8 (s : string) : Prop := utf8_from 0 (bytes_of s) = true.
#[export] Instance utf8_dec s : Decision (utf8 s).
Proof. unfold utf8. apply _. Defined.

Lemma utf8_solid s : Forall solid (bytes_of s) → utf8 s.
Proof.
  unfold utf8. induction 1 as [|a l Ha Hl IH]; [done|]. cbn [utf8_from].
  unfold rune_width. by rewrite (proj2 (Z.ltb_lt _ _)) by (unfold solid in Ha; lia).
Qed.

Lemma rune_width_length l k : rune_width l = S k → (S k ≤ length l)%nat.
Proof.
  unfold rune_width. destruct l as [|a [|b [|c [|d l]]]]; cbn [length];
    repeat match goal with |- context [if ?x then _ else _] => destruct x end; intros [=]; lia.
Qed.

(** The width only depends on the bytes of the rune. *)
Lemma rune_width_prefix a l' k r :
  rune_width (a :: l') = S k → rune_width (a :: take k l' ++ r) = S k.
Proof.
  intros H. pose proof (rune_width_length _ _ H) as Hl. cbn [length] in Hl.
  unfold rune_width in *.
  destruct (code a <? 128); [by simplify_eq|].
  destruct (between 194 223 a).
  { destruct l' as [|b l']; [done|]. destruct (continuation b) eqn:E; [|done]. simplify_eq. cbn. by rewrite E. }
  destruct (between 224 239 a).
  { destruct l' as [|b [|c l']]; [done..|].
    destruct ((if code a =? 224 then between 160 191 b
               else if code a =? 237 then between 128 159 b else continuation b)
              && continuation c) eqn:E; [|done]. simplify_eq. cbn. by rewrite E. }
  destruct (between 240 244 a); [|done].
  destruct l' as [|b [|c [|d l']]]; [done..|].
  destruct ((if code a =? 240 then between 144 191 b
             else if code a =? 244 then between 128 143 b else continuation b)
            && continuation c && continuation d) eqn:E; [|done]. simplify_eq. cbn. by rewrite E.
Qed.

Lemma utf8_from_drop k l : utf8_from k l = utf8_from 0 (drop k l).
Proof.
  revert k. induction l as [|a l IH]; intros [|k]; try done. cbn. apply IH.
Qed.

Lemma escape_keep k l :
  (k ≤ length l)%nat → escape_json k 0 l = take k l ++ escape_json 0 0 (drop k l).
Proof.
  revert k. induction l as [|a l IH]; intros [|k] Hk; try done; cbn in Hk; try lia. cbn.
  by rewrite IH by lia.
Qed.

Lemma escape_skip k l : escape_json 0 k l = escape_json 0 0 (drop k l).
Proof. revert k. induction l as [|a l IH]; intros [|k]; try done. cbn. apply IH. Qed.

(** Bytes are finite: a property of all of them is checked on each. *)
Lemma byte_cases (P : ascii → bool) :
  forallb P (ascii_of_nat <$> seq 0 256) = true → ∀ a, P a = true.
Proof.
  intros H a. rewrite forallb_forall in H. apply H. apply list_elem_of_In, list_elem_of_fmap.
  exists (nat_of_ascii a). split; [by rewrite ascii_nat_embedding|].
  apply elem_of_seq. pose proof (nat_ascii_bounded a). lia.
Qed.

(** The escape of an ASCII byte is read back as the byte. *)
Lemma parse_escaped_ascii a f rest :
  code a < 128 →
  parse_string (S f) (escape_ascii a ++ rest) =
  '(s, r) ← parse_string f rest; Some (a :: s, r).
Proof.
  intros Ha.
  assert (∀ a, (code a <? 128) = true →
    match escape_ascii a with
    | [b] => b = a ∧ code a ≠ 34 ∧ code a ≠ 92 ∧ 32 ≤ code a
    | b :: e => code b = 92 ∧ ∀ rest, parse_escape (e ++ rest) = Some ([a], rest)
    | [] => False
    end) as Hall.
  { clear. intros a Ha.
    assert ((if code a <? 128 then
       match escape_ascii a with
       | [b] => bool_decide (b = a ∧ code a ≠ 34 ∧ code a ≠ 92 ∧ 32 ≤ code a)
       | b :: e => bool_decide (code b = 92) &&
           match e with
           | [x] => bool_decide (parse_escape [x] = Some ([a], []))
                    && negb (code x =? 117)
           | [x; x1; x2; x3; x4] =>
               bool_decide (parse_escape e = Some ([a], [])) && (code x =? 117)
               && match hex4 [x1; x2; x3; x4] with Some (u, _) => u <? 55296 | None => false end
           | _ => false
           end
       | [] => false
       end else true) = true) as Hb by (revert a Ha; intros a _; revert a; apply byte_cases; by vm_compute).
    rewrite Ha in Hb. destruct (escape_ascii a) as [|b [|x e]]; [done| |].
    - by apply bool_decide_eq_true in Hb.
    - apply andb_true_iff in Hb as [Hb He]. apply bool_decide_eq_true in Hb. split; [done|]. intros rest.
      destruct e as [|x1 [|x2 [|x3 [|x4 [|]]]]]; try done.
      + apply andb_true_iff in He as [He Hu]. apply bool_decide_eq_true in He. apply negb_true_iff in Hu.
        unfold parse_escape in *. cbn [app] in *. rewrite Hu in *.
        repeat case_match; simplify_eq; done.
      + apply andb_true_iff in He as [[He Hu]%andb_true_iff Hs]. apply bool_decide_eq_true in He.
        unfold parse_escape in *. cbn [app] in *. apply Z.eqb_eq in Hu. rewrite Hu in *. cbn in *.
        destruct (hex_value x1); [|done]. destruct (hex_value x2); [|done].
        destruct (hex_value x3); [|done]. destruct (hex_value x4); [|done]. cbn in *.
        apply Z.ltb_lt in Hs. rewrite (proj2 (Z.leb_gt _ _)) in * by lia. cbn [andb] in *. injection He as He. by rewrite He. }
  specialize (Hall a (proj2 (Z.ltb_lt _ _) Ha)).
  destruct (escape_ascii a) as [|b [|x e]]; [done| |].
  - destruct Hall as (-> & H34 & H92 & H32). cbn [app parse_string].
    rewrite !(proj2 (Z.eqb_neq _ _)), (proj2 (Z.ltb_ge _ _)) by lia.
    assert (rune_width (a :: rest) = 1%nat) as -> by (cbn; by rewrite (proj2 (Z.ltb_lt _ _))).
    change (drop 0 rest) with rest. change (take 0 rest) with (@nil ascii).
    by destruct (parse_string f rest) as [[]|].
  - destruct Hall as (Hb & He). cbn [app parse_string]. rewrite Hb. cbn [Z.eqb Pos.eqb].
    specialize (He rest). cbn [app] in He. rewrite He. cbn. by destruct (parse_string f rest) as [[]|].
Qed.

Lemma escape_ascii_nonempty a : (1 ≤ length (escape_ascii a))%nat.
Proof.
  unfold escape_ascii.
  repeat match goal with |- context [if ?x then _ else _] => destruct x end; cbn; lia.
Qed.

(** The line and paragraph separators, which are escaped. *)
Definition separator (a : ascii) (l : list ascii) : bool :=
  match l with
  | b :: c :: _ => (code a =? 226) && (code b =? 128) && ((code c =? 168) || (code c =? 169))
  | _ => false
  end.

(** One rune of a valid string: its escape, and that the decoder gives it back. *)
Lemma escape_rune_spec a l' :
  utf8_from 0 (a :: l') = true →
  ∃ k e, rune_width (a :: l') = S k ∧ (k ≤ length l')%nat ∧ (1 ≤ length e)%nat ∧
    escape_json 0 0 (a :: l') = e ++ escape_json 0 0 (drop k l') ∧
    utf8_from 0 (drop k l') = true ∧
    ∀ f rest, parse_string (S f) (e ++ rest) =
      '(s, r) ← parse_string f rest; Some (a :: take k l' ++ s, r).
Proof.
  intros Hu. cbn [utf8_from] in Hu. destruct (rune_width (a :: l')) as [|k] eqn:Hw; [done|].
  pose proof (rune_width_length _ _ Hw) as Hl. cbn [length] in Hl. rewrite utf8_from_drop in Hu.
  exists k. destruct k as [|k].
  - exists (escape_ascii a). split_and!; [done|lia|apply escape_ascii_nonempty| |done|].
    + cbn [escape_json]. by rewrite Hw.
    + intros f rest. apply parse_escaped_ascii. unfold rune_width in Hw.
      destruct (Z.ltb_spec (code a) 128); [done|].
      repeat (case_match; try done).
  - assert (128 ≤ code a) as Ha.
    { unfold rune_width in Hw. by destruct (Z.ltb_spec (code a) 128). }
    destruct (separator a l') eqn:Hsep.
    + unfold separator in Hsep. destruct l' as [|b [|c r]]; [done..|]. breflect.
      rename H into H226, H1 into H128, H0 into Hc.
      assert (k = 1%nat) as ->.
      { revert Hw. unfold rune_width, between. rewrite H226.
        change (if continuation b && continuation c then 3%nat else 0%nat = S (S k) → k = 1%nat) || cbn.
        by destruct (_ && _); intros [=]. }
      assert (a = byte_of 226 ∧ b = byte_of 128) as [-> ->] by (split; by apply code_inj).
      destruct Hc as [Hc|Hc]; apply Z.eqb_eq in Hc;
        [assert (c = byte_of 168) as -> by (by apply code_inj)
        |assert (c = byte_of 169) as -> by (by apply code_inj)].
      * exists (bytes_of "\u2028"). split_and!; [done|lia|cbn; lia|cbn; by rewrite escape_skip|done|].
        intros f rest. reflexivity.
      * exists (bytes_of "\u2029"). split_and!; [done|lia|cbn; lia|cbn; by rewrite escape_skip|done|].
        intros f rest. reflexivity.
    + exists (a :: take (S k) l'). split_and!; [done|lia|cbn; lia| |done|].
      * cbn [escape_json]. rewrite Hw. cbn [app].
        destruct l' as [|b [|c r]]; [cbn in Hl; lia|by rewrite escape_keep by lia|].
        destruct ((code a =? 226) && (code b =? 128) && (code c =? 168)) eqn:E1.
        { unfold separator in Hsep. apply andb_true_iff in E1 as [E1 E1']. by rewrite E1, E1' in Hsep. }
        destruct ((code a =? 226) && (code b =? 128) && (code c =? 169)) eqn:E2.
        { unfold separator in Hsep. apply andb_true_iff in E2 as [E2 E2'].
          by rewrite E2, E2', orb_true_r in Hsep. }
        by rewrite escape_keep by lia.
      * intros f rest. cbn [app parse_string].
        rewrite !(proj2 (Z.eqb_neq _ _)), (proj2 (Z.ltb_ge _ _)) by lia.
        rewrite (rune_width_prefix _ _ _ rest Hw).
        assert (length (take (S k) l') = S k) as Ht by (rewrite length_take; lia).
        rewrite drop_app_ge, take_app_le by lia. rewrite Ht, Nat.sub_diag, take_take, Nat.min_id.
        done.
Qed.

Lemma parse_escaped l f q rest :
  utf8_from 0 l = true → (length (escape_json 0 0 l) < f)%nat → code q = 34 →
  parse_string f (escape_json 0 0 l ++ q :: rest) = Some (l, rest).
Proof.
  remember (length l) as n eqn:Hn. revert l f Hn.
  induction n as [n IH] using lt_wf_ind. intros [|a l'] f -> Hu Hf Hq.
  { cbn in Hf |- *. destruct f; [lia|]. cbn. by rewrite Hq. }
  destruct (escape_rune_spec a l' Hu) as (k & e & Hw & Hk & He & Heq & Hu' & Hp).
  rewrite Heq in *. rewrite length_app in Hf. rewrite <- app_assoc. destruct f as [|f]; [lia|].
  rewrite Hp. rewrite (IH (length (drop k l'))); [|rewrite length_drop; cbn; lia|done|done|lia|done].
  cbn. by rewrite take_drop.
Qed.

(** ** Values are read back *)

Section json_induction.
Context (P : json → Prop) (Hnull : P JNull) (Hbool : ∀ b, P (JBool b)) (Hint : ∀ z, P (JInt z))
  (Hnum : ∀ s, P (JNumber s)) (Hstr : ∀ s, P (JString s))
  (Harr : ∀ l, Forall P l → P (JArray l))
  (Hobj : ∀ fs, Forall (λ kv, P kv.2) fs → P (JObject fs)).

Fixpoint json_induct (v : json) : P v :=
  match v with
  | JNull => Hnull
  | JBool b => Hbool b
  | JInt z => Hint z
  | JNumber s => Hnum s
  | JString s => Hstr s
  | JArray l =>
      Harr l ((fix go l : Forall P l :=
                 match l with
                 | [] => Forall_nil_2 P
                 | x :: l' => Forall_cons_2 P x l' (json_induct x) (go l')
                 end) l)
  | JObject fs =>
      Hobj fs ((fix go fs : Forall (λ kv, P kv.2) fs :=
                  match fs with
                  | [] => Forall_nil_2 _
                  | kv :: fs' => Forall_cons_2 _ kv fs' (json_induct kv.2) (go fs')
                  end) fs)
  end.
End json_induction.

(** A number that is not a plain integer. *)
Definition number_ok (lit : string) : Prop :=
  valid_number (bytes_of lit) = true ∧ integer_literal (bytes_of lit) = None ∧
  Forall (λ a, number_char a = true) (bytes_of lit).

(** Values whose strings are valid UTF-8 and whose numbers are JSON numbers. *)
Inductive json_ok : json → Prop :=
| ok_null : json_ok JNull
| ok_bool b : json_ok (JBool b)
| ok_int z : json_ok (JInt z)
| ok_number lit : number_ok lit → json_ok (JNumber lit)
| ok_string s : utf8 s → json_ok (JString s)
| ok_array l : Forall json_ok l → json_ok (JArray l)
| ok_object fs : Forall (λ kv, utf8 kv.1 ∧ json_ok kv.2) fs → json_ok (JObject fs).

(** A text that does not continue a number. *)
Definition ends_number (l : list ascii) : Prop :=
  match l with a :: _ => number_char a = false | [] => True end.

Lemma span_number_app n rest :
  Forall (λ a, number_char a = true) n → ends_number rest → span_number (n ++ rest) = (n, rest).
Proof.
  intros Hn Hr. induction Hn as [|a n Ha Hn IH]; cbn; [|by rewrite Ha, IH].
  destruct rest as [|b rest]; [done|]. cbn in *. by rewrite Hr.
Qed.

Lemma digit_number_char a : is_Some (digit a) → number_char a = true.
Proof.
  intros H%digit_code. unfold number_char, between.
  by rewrite (proj2 (Z.leb_le _ _)), (proj2 (Z.leb_le _ _)) by lia.
Qed.

(** The first digit of a positive number is not 0. *)
Lemma pretty_go_head x s :
  (0 < x)%N → ∃ a l, bytes_of (pretty_N_go x s) = a :: l ∧ code a ≠ 48.
Proof.
  revert x s. apply (pretty_go_ind (λ x s, (0 < x)%N →
    ∃ a l, bytes_of (pretty_N_go x s) = a :: l ∧ code a ≠ 48)); [lia|].
  intros x s Hx IH _. rewrite pretty_N_go_step by done.
  destruct (N.eq_0_gt_0_cases (x / 10)) as [E|E]; [|by apply IH].
  rewrite E, pretty_N_go_0. assert (x < 10)%N as Hlt.
  { destruct (N.lt_ge_cases x 10) as [|Hge]; [done|].
    pose proof (N.div_str_pos x 10 ltac:(lia)). lia. }
  rewrite N.mod_small by done. eexists _, _. split; [done|]. intros H48.
  pose proof (digit_pretty x Hlt) as Hd. unfold digit in Hd. rewrite H48 in Hd. cbn in Hd.
  injection Hd as Hd. lia.
Qed.

Lemma span_digits_all ds : decimal ds → span_digits ds = (ds, []).
Proof. induction 1 as [|a ds [z Ha] Hd IH]; cbn; [done|]. by rewrite Ha, IH. Qed.

Lemma pretty_pos_head p : ∃ a l, bytes_of (pretty (N.pos p)) = a :: l ∧ decimal (a :: l) ∧
  parse_unsigned (a :: l) = Some (Zpos p) ∧ code a ≠ 48.
Proof.
  destruct (pretty_pos_decimal p) as (a & l & He & Hd & Hp). exists a, l. split_and!; try done.
  destruct (pretty_go_head (N.pos p) "" ltac:(done)) as (b & k & Hb & Hne).
  change (bytes_of (pretty (N.pos p)) = b :: k) in Hb. rewrite He in Hb. by simplify_eq.
Qed.

Lemma valid_number_pos p : valid_number (bytes_of (pretty (N.pos p))) = true.
Proof.
  destruct (pretty_pos_head p) as (a & l & -> & Hd & _ & Hne). unfold valid_number.
  pose proof (Forall_inv Hd) as Ha%digit_code.
  rewrite (proj2 (Z.eqb_neq (code a) 45)), (proj2 (Z.eqb_neq (code a) 48)) by lia.
  by rewrite span_digits_all.
Qed.

(** What the decoder needs to know of a printed integer. *)
Lemma FormatInt_number z :
  let l := bytes_of (FormatInt z) in
  valid_number l = true ∧ integer_literal l = Some z ∧ Forall (λ a, number_char a = true) l.
Proof.
  cbn zeta. destruct (FormatInt_bytes z) as (sign & a & l & He & Hd & Hs & Hp & Hz). split_and!.
  - destruct z as [|p|p]; [done|apply valid_number_pos|].
    change (FormatInt (Z.neg p)) with ("-" +:+ pretty (N.pos p)). rewrite bytes_of_app.
    pose proof (valid_number_pos p) as Hv. destruct (pretty_pos_head p) as (b & k & Hb & Hdb & _).
    rewrite Hb in *. unfold valid_number in *. pose proof (Forall_inv Hdb) as Hb'%digit_code.
    rewrite (proj2 (Z.eqb_neq (code b) 45)) in Hv by lia. exact Hv.
  - unfold integer_literal. rewrite He. destruct Hs as [->| ->]; cbn [app].
    + pose proof (Forall_inv Hd) as Ha%digit_code. rewrite (proj2 (Z.eqb_neq _ _)) by lia.
      rewrite Hp, Z.abs_eq by (by apply Hz). cbn [mbind option_bind]. by rewrite decide_True.
    + change (code "-" =? 45) with true. rewrite Hp. cbn [fmap option_fmap option_map mbind option_bind].
      replace (- Z.abs z) with z; [by rewrite decide_True|].
      destruct (Z.le_gt_cases 0 z) as [H0|H0]; [by apply Hz in H0|lia].
  - rewrite He. apply Forall_app. split; [by destruct Hs as [->| ->]; repeat constructor|].
    eapply Forall_impl; [exact Hd|]. apply digit_number_char.
Qed.

Lemma valid_number_head l :
  valid_number l = true → ∃ a l', l = a :: l' ∧ (code a = 45 ∨ 48 ≤ code a ≤ 57).
Proof.
  unfold valid_number. destruct l as [|a l']; [done|]. intros H. exists a, l'. split; [done|].
  destruct (Z.eqb_spec (code a) 45); [by left|]. right.
  destruct (Z.eqb_spec (code a) 48); [lia|]. cbn [span_digits] in H.
  destruct (digit a) eqn:Ha; [|done]. apply digit_code. by rewrite Ha.
Qed.

Lemma parse_number f n rest :
  valid_number n = true → Forall (λ a, number_char a = true) n → ends_number rest →
  parse_value (S f) (n ++ rest) = Some (number_value n, rest).
Proof.
  intros Hv Hn Hr. destruct (valid_number_head n Hv) as (a & l' & -> & Ha).
  pose proof (Forall_inv Hn) as Hc. cbn beta in Hc. pose proof (span_number_app _ rest Hn Hr) as Hs.
  cbn [parse_value app skip_space]. unfold json_space.
  rewrite !(proj2 (Z.eqb_neq (code a) _)) by lia. cbn [orb].
  rewrite !(proj2 (Z.eqb_neq (code a) _)) by lia. rewrite Hc.
  cbn [app] in Hs. by rewrite Hs, Hv.
Qed.

Lemma json_string_bytes s :
  bytes_of (json_string s) =
  ascii_of_nat 34 :: escape_json 0 0 (bytes_of s) ++ [ascii_of_nat 34].
Proof. unfold json_string. by rewrite !bytes_of_app, bytes_of_of_bytes. Qed.

Lemma parse_string_text s rest :
  utf8 s →
  let l := escape_json 0 0 (bytes_of s) ++ ascii_of_nat 34 :: rest in
  parse_string (length l) l = Some (bytes_of s, rest).
Proof.
  intros Hs. cbn zeta. apply parse_escaped; [done| |done]. rewrite length_app. cbn. lia.
Qed.

Lemma parse_string_value f s rest :
  utf8 s → parse_value (S f) (bytes_of (json_string s) ++ rest) = Some (JString s, rest).
Proof.
  intros Hs. rewrite json_string_bytes. cbn [app parse_value]. rewrite <- app_assoc. cbn [app].
  change (skip_space (ascii_of_nat 34 :: ?l)) with (ascii_of_nat 34 :: l).
  cbn [skip_space]. change (json_space (ascii_of_nat 34)) with false. cbn iota.
  change (code (ascii_of_nat 34)) with 34. cbn [Z.eqb Pos.eqb].
  rewrite parse_string_text by done. cbn [mbind option_bind]. by rewrite of_bytes_bytes_of.
Qed.

(** The first byte of a printed value. *)
Definition value_head (l : list ascii) : Prop :=
  ∃ a l', l = a :: l' ∧ json_space a = false ∧ code a ≠ 93 ∧ code a ≠ 125.

Lemma Marshal_head v : json_ok v → value_head (bytes_of (Marshal v)).
Proof.
  assert (∀ a l', code a = 45 ∨ 48 ≤ code a ≤ 57 → value_head (a :: l')) as Hnum.
  { intros a l' Ha. exists a, l'. split; [done|]. unfold json_space.
    rewrite !(proj2 (Z.eqb_neq (code a) _)) by lia. repeat split; lia. }
  destruct 1 as [|b|z|lit Hl|s _|l _|fs _].
  - by eexists _, _.
  - by destruct b; eexists _, _.
  - destruct (FormatInt_number z) as [(a & l' & Hv & Ha)%valid_number_head _].
    change (value_head (bytes_of (FormatInt z))). rewrite Hv. by apply Hnum.
  - destruct Hl as [(a & l' & Hv & Ha)%valid_number_head _].
    change (value_head (bytes_of lit)). rewrite Hv. by apply Hnum.
  - cbn [Marshal]. rewrite json_string_bytes. by eexists _, _.
  - by eexists _, _.
  - by eexists _, _.
Qed.

Lemma skip_space_head l : value_head l → ∀ rest, skip_space (l ++ rest) = l ++ rest.
Proof. intros (a & l' & -> & Hs & _) rest. cbn. by rewrite Hs. Qed.

Definition reads_back (v : json) : Prop :=
  ∀ fuel rest, (length (bytes_of (Marshal v)) < fuel)%nat → ends_number rest →
  parse_value fuel (bytes_of (Marshal v) ++ rest) = Some (v, rest).

Definition member_text (kv : string * json) : string := json_string kv.1 +:+ ":" +:+ Marshal kv.2.

Lemma bytes_of_Join_cons x y l sep :
  bytes_of (Join (x :: y :: l) sep) = bytes_of x ++ bytes_of sep ++ bytes_of (Join (y :: l) sep).
Proof. by rewrite Join_cons, !bytes_of_app. Qed.

Lemma parse_elements_Join v l fuel rest :
  Forall reads_back (v :: l) →
  (length (bytes_of (Join (Marshal <$> v :: l) ",")) + 1 < fuel)%nat →
  parse_elements fuel (bytes_of (Join (Marshal <$> v :: l) ",") ++ "]"%char :: rest) = Some (v :: l, rest).
Proof.
  revert v fuel. induction l as [|w l IH]; intros v [|f] Hr Hf; try lia;
    apply Forall_cons in Hr as [Hv Hr]; cbn [parse_elements].
  - cbn [fmap list_fmap Join] in *. rewrite (Hv f) by (done || lia). done.
  - cbn [fmap list_fmap] in *. rewrite bytes_of_Join_cons in *. rewrite !length_app in Hf. cbn in Hf.
    rewrite <- app_assoc. rewrite (Hv f) by (done || lia). cbn [mbind option_bind].
    change (bytes_of ",") with [","%char]. cbn [app skip_space].
    change (json_space ",") with false. cbn iota. change (code "," =? 44) with true. cbn iota.
    rewrite (IH w f Hr) by (cbn; lia). done.
Qed.

Lemma parse_members_Join kv fs fuel rest :
  Forall (λ kv, utf8 kv.1 ∧ reads_back kv.2) (kv :: fs) →
  (length (bytes_of (Join (member_text <$> kv :: fs) ",")) + 1 < fuel)%nat →
  parse_members fuel (bytes_of (Join (member_text <$> kv :: fs) ",") ++ "}"%char :: rest)
  = Some (kv :: fs, rest).
Proof.
  assert (∀ f k v tail, utf8 k → reads_back v → (length (bytes_of (Marshal v)) < f)%nat → ends_number tail →
    parse_members (S f) (bytes_of (member_text (k, v)) ++ tail) =
    match skip_space tail with
    | a :: l5 =>
        if code a =? 44 then '(ms, r) ← parse_members f l5; Some ((k, v) :: ms, r)
        else if code a =? 125 then Some ([(k, v)], l5) else None
    | [] => None
    end) as Hone.
  { intros f k v tail Hk Hv Hf Ht. unfold member_text. cbn [fst snd].
    rewrite !bytes_of_app, json_string_bytes. cbn [app]. rewrite <- !app_assoc. cbn [app].
    cbn [parse_members skip_space]. change (json_space (ascii_of_nat 34)) with false. cbn iota.
    change (code (ascii_of_nat 34) =? 34) with true. cbn iota.
    rewrite parse_string_text by done. cbn [mbind option_bind].
    change (colon (bytes_of ":" ++ bytes_of (Marshal v) ++ tail)) with (Some (bytes_of (Marshal v) ++ tail)).
    cbn [mbind option_bind]. rewrite (Hv f) by done. cbn [mbind option_bind].
    by rewrite of_bytes_bytes_of. }
  revert kv fuel. induction fs as [|kw fs IH]; intros [k v] [|f] Hr Hf; try lia;
    apply Forall_cons in Hr as [[Hk Hv] Hr].
  - cbn [fmap list_fmap Join] in *. unfold member_text in Hf at 1. cbn [fst snd] in Hf.
    rewrite !bytes_of_app, !length_app in Hf. rewrite Hone by (done || cbn in *; lia). done.
  - cbn [fmap list_fmap] in *. rewrite bytes_of_Join_cons in *. rewrite !length_app in Hf.
    unfold member_text in Hf at 1. cbn [fst snd] in Hf. rewrite !bytes_of_app, !length_app in Hf.
    rewrite <- app_assoc. rewrite Hone by (done || cbn in *; lia).
    change (bytes_of ",") with [","%char]. cbn [app skip_space].
    change (json_space ",") with false. cbn iota. change (code "," =? 44) with true. cbn iota.
    rewrite (IH kw f Hr) by (cbn in *; lia). done.
Qed.

Lemma Join_head v l c : value_head (bytes_of v) → value_head (bytes_of (Join (v :: l) c)).
Proof.
  intros (a & l' & Hv & Hs). destruct l as [|w l]; [by exists a, l'|].
  rewrite bytes_of_Join_cons, Hv. by eexists _, _.
Qed.

Lemma Marshal_reads_back v : json_ok v → reads_back v.
Proof.
  revert v. apply (json_induct (λ v, json_ok v → reads_back v)).
  - intros _ [|f] rest Hf _; [lia|done].
  - intros b _ [|f] rest Hf _; [lia|by destruct b].
  - intros z _ [|f] rest Hf Hr; [lia|]. destruct (FormatInt_number z) as (Hv & Hi & Hn).
    cbn [Marshal]. rewrite parse_number by done. unfold number_value. by rewrite Hi.
  - intros lit Hok [|f] rest Hf Hr; [lia|]. inversion Hok as [| | |? (Hv & Hi & Hn)| | |]; subst.
    cbn [Marshal]. rewrite parse_number by done. unfold number_value. by rewrite Hi, of_bytes_bytes_of.
  - intros s Hok [|f] rest Hf Hr; [lia|]. inversion Hok; subst. by apply parse_string_value.
  - intros l IH Hok [|f] rest Hf Hr; [lia|]. inversion Hok as [| | | | |? Hl|]; subst.
    destruct l as [|v l]; [done|]. pose proof Hl as Hl'. apply Forall_cons in Hl' as [Hv _].
    assert (Forall reads_back (v :: l)) as Hrb.
    { clear -IH Hl. induction IH; inversion Hl; subst; constructor; auto. }
    pose proof (Marshal_head v Hv) as Hh. apply (Join_head _ (Marshal <$> l) ",") in Hh.
    change (Marshal v :: (Marshal <$> l)) with (Marshal <$> v :: l) in Hh.
    change (Marshal (JArray (v :: l))) with ("[" +:+ Join (Marshal <$> v :: l) "," +:+ "]") in *.
    rewrite !bytes_of_app in *. rewrite !length_app in Hf.
    change (bytes_of "[") with ["["%char] in *. change (bytes_of "]") with ["]"%char] in *.
    cbn [length] in Hf. rewrite <- !app_assoc.
    cbn [app parse_value skip_space]. change (json_space "[") with false. cbn iota.
    change (code "[" =? 123) with false. change (code "[" =? 91) with true. cbn iota.
    rewrite (skip_space_head _ Hh). destruct Hh as (a & l' & Ha & _ & H93 & _). rewrite Ha. cbn [app].
    rewrite (proj2 (Z.eqb_neq _ _)) by done. rewrite app_comm_cons, <- Ha.
    rewrite parse_elements_Join by (done || lia). done.
  - intros fs IH Hok [|f] rest Hf Hr; [lia|]. inversion Hok as [| | | | | |? Hl]; subst.
    destruct fs as [|[k v] fs]; [done|].
    assert (Forall (λ kv, utf8 kv.1 ∧ reads_back kv.2) ((k, v) :: fs)) as Hrb.
    { clear -IH Hl. induction IH; inversion Hl; subst; constructor; naive_solver. }
    assert (value_head (bytes_of (member_text (k, v)))) as Hh.
    { unfold member_text. rewrite bytes_of_app, json_string_bytes. by eexists _, _. }
    apply (Join_head _ (member_text <$> fs) ",") in Hh.
    change (member_text (k, v) :: (member_text <$> fs)) with (member_text <$> (k, v) :: fs) in Hh.
    change (Marshal (JObject ((k, v) :: fs))) with ("{" +:+ Join (member_text <$> (k, v) :: fs) "," +:+ "}") in *.
    rewrite !bytes_of_app in *. rewrite !length_app in Hf.
    change (bytes_of "{") with ["{"%char] in *. change (bytes_of "}") with ["}"%char] in *.
    cbn [length] in Hf. rewrite <- !app_assoc.
    cbn [app parse_value skip_space]. change (json_space "{") with false. cbn iota.
    change (code "{" =? 123) with true. cbn iota.
    rewrite (skip_space_head _ Hh). destruct Hh as (a & l' & Ha & _ & _ & H125). rewrite Ha. cbn [app].
    rewrite (proj2 (Z.eqb_neq _ _)) by done. rewrite app_comm_cons, <- Ha.
    rewrite parse_members_Join by (done || lia). done.
Qed.

Lemma string_app_nil_r s : s +:+ "" = s.
Proof. induction s as [|a s IH]; [done|]. change (String a (s +:+ "") = String a s). by rewrite IH. Qed.

(** White space, which an encoder may write after a value. *)
Definition space_text (ws : string) : Prop := Forall (λ a, json_space a = true) (bytes_of ws).

Lemma skip_space_text ws : space_text ws → skip_space (bytes_of ws) = [].
Proof. unfold space_text. induction (bytes_of ws) as [|a l IH]; [done|]. intros [Ha Hl]%Forall_cons. cbn. rewrite Ha. by apply IH. Qed.

Lemma space_text_ends ws : space_text ws → ends_number (bytes_of ws).
Proof.
  unfold space_text. destruct (bytes_of ws) as [|a l]; [done|]. intros [Ha _]%Forall_cons. cbn.
  unfold json_space in Ha. unfold number_char, between. rewrite !orb_true_iff, !Z.eqb_eq in Ha. repeat case_match; lia.
Qed.

(** What [json.Marshal] prints, [json.Unmarshal] reads. *)
Lemma parse_json_Marshal_space v ws : json_ok v → space_text ws → parse_json (Marshal v +:+ ws) = Some v.
Proof.
  intros Hv Hw. unfold parse_json. rewrite bytes_of_app. rewrite (Marshal_reads_back v Hv).
  - cbn. by rewrite skip_space_text.
  - rewrite length_app. lia.
  - by apply space_text_ends.
Qed.

Lemma parse_json_Marshal v : json_ok v → parse_json (Marshal v) = Some v.
Proof. intros Hv. pose proof (parse_json_Marshal_space v "" Hv ltac:(constructor)) as Hp. by rewrite string_app_nil_r in Hp. Qed.

#[export] Hint Constructors json_ok : go.
#[export] Hint Resolve Marshal_reads_back : go.

(** ** Structs

    A struct decodes from the members of an object, each with the text of its
    value for fields of type [json.RawMessage]. *)

Definition raw_member : Type := string * (string * json).

Fixpoint raw_members (fuel : nat) (l : list ascii) : option (list raw_member * list ascii) :=
  match fuel with
  | O => None
  | S f =>
      match skip_space l with
      | q :: l1 =>
          if code q =? 34 then
            '(k, l2) ← parse_string (length l1) l1;
            l3 ← colon l2;
            let l3 := skip_space l3 in
            '(v, l4) ← parse_value f l3;
            let raw := of_bytes (take (length l3 - length l4) l3) in
            match skip_space l4 with
            | a :: l5 =>
                if code a =? 44
                then '(ms, r) ← raw_members f l5; Some ((of_bytes k, (raw, v)) :: ms, r)
                else if code a =? 125 then Some ([(of_bytes k, (raw, v))], l5) else None
            | [] => None
            end
          else None
      | [] => None
      end
  end.

(** The members of the object a text holds. *)
Definition object_members (s : string) : option (list raw_member) :=
  match skip_space (bytes_of s) with
  | a :: l1 =>
      if code a =? 123 then
        match skip_space l1 with
        | b :: r =>
            if code b =? 125 then match skip_space r with [] => Some [] | _ => None end
            else
              '(ms, r) ← raw_members (S (length l1)) l1;
              match skip_space r with [] => Some ms | _ => None end
        | [] => None
        end
      else None
  | [] => None
  end.

(** The members given to [json.Unmarshal] of a struct: [None] is an error.  A null
    leaves the struct as it is. *)
Definition struct_members (s : string) : option (list raw_member) :=
  match parse_json s with
  | None => None
  | Some JNull => Some []
  | Some (JObject _) => object_members s
  | Some _ => None
  end.

(** Members assign in their order; [None] is a value of the wrong type. *)
Definition string_field (name : string) (ms : list raw_member) : option string :=
  foldl (λ acc m, acc ← acc;
         if EqualFold m.1 name then
           match m.2.2 with JString s => Some s | JNull => Some acc | _ => None end
         else Some acc) (Some "") ms.

(** A field of any type, from what assigning a value does to it. *)
Definition fold_field {X} (name : string) (assign : X → json → option X) (init : X) (ms : list raw_member)
  : option X :=
  foldl (λ acc m, acc ← acc; if EqualFold m.1 name then assign acc m.2.2 else Some acc) (Some init) ms.

Definition assign_string (acc : string) (j : json) : option string :=
  match j with JString s => Some s | JNull => Some acc | _ => None end.

Lemma string_field_fold name ms : string_field name ms = fold_field name assign_string "" ms.
Proof. done. Qed.

Lemma fold_field_cons {X} name (assign : X → json → option X) init k raw v ms :
  fold_field name assign init ((k, (raw, v)) :: ms) =
  if EqualFold k name then init ← assign init v; fold_field name assign init ms
  else fold_field name assign init ms.
Proof.
  unfold fold_field. cbn [foldl mbind option_bind fst snd]. destruct (EqualFold k name); [|done].
  destruct (assign init v); [done|]. induction ms; done.
Qed.

(** A field of type [json.RawMessage]; [None] is the nil slice. *)
Definition raw_field (name : string) (ms : list raw_member) : option string :=
  foldl (λ acc m, if EqualFold m.1 name then Some m.2.1 else acc) None ms.

(** The text of an object from the texts of its values. *)
Definition marshal_members (ms : list (string * string)) : string :=
  "{" +:+ Join ((λ m, json_string m.1 +:+ ":" +:+ m.2) <$> ms) "," +:+ "}".

(** What [json.Marshal] makes of a [json.RawMessage] that is valid: white space
    between tokens is dropped, and <, >, & and the two separators are escaped.
    [in_string] and [escaped] follow the string literals. *)
Fixpoint compact_from (in_string escaped : bool) (skip : nat) (l : list ascii) : list ascii :=
  match l with
  | [] => []
  | a :: l' =>
      match skip with
      | S k => compact_from in_string false k l'
      | O =>
          if (code a =? 60) || (code a =? 62) || (code a =? 38)
          then [backslash; "u"%char; "0"%char; "0"%char; hex_digit (code a / 16); hex_digit (code a mod 16)]
               ++ compact_from in_string false O l'
          else if separator a l' then
            bytes_of (match l' with _ :: c :: _ => if code c =? 168 then "\u2028" else "\u2029" | _ => "" end)
            ++ compact_from in_string false 2 l'
          else if in_string then
            a :: compact_from (escaped || negb (code a =? 34)) (negb escaped && (code a =? 92)) O l'
          else if json_space a then compact_from false false O l'
          else a :: compact_from (code a =? 34) false O l'
      end
  end.

Definition compact (s : string) : string := of_bytes (compact_from false false O (bytes_of s)).

Example compact_example :
  compact ("{ " +:+ quote_text "a <b\\" +:+ " : [ 1 , " +:+ quote_text ("\" +:+ dquote +:+ " x") +:+ "] }")
  = "{" +:+ quote_text "a \u003cb\\" +:+ ":[1," +:+ quote_text ("\" +:+ dquote +:+ " x") +:+ "]}".
Proof. by vm_compute. Qed.

Lemma marshal_members_json fs :
  marshal_members ((λ kv, (kv.1, Marshal kv.2)) <$> fs) = Marshal (JObject fs).
Proof.
  unfold marshal_members. cbn [Marshal]. do 2 f_equal. rewrite <- list_fmap_compose. done.
Qed.

Lemma raw_members_Join kv fs fuel rest :
  Forall (λ kv, utf8 kv.1 ∧ json_ok kv.2) (kv :: fs) →
  (length (bytes_of (Join (member_text <$> kv :: fs) ",")) + 1 < fuel)%nat →
  raw_members fuel (bytes_of (Join (member_text <$> kv :: fs) ",") ++ "}"%char :: rest)
  = Some ((λ kv, (kv.1, (Marshal kv.2, kv.2))) <$> kv :: fs, rest).
Proof.
  assert (∀ f k v tail, utf8 k → json_ok v → (length (bytes_of (Marshal v)) < f)%nat → ends_number tail →
    raw_members (S f) (bytes_of (member_text (k, v)) ++ tail) =
    match skip_space tail with
    | a :: l5 =>
        if code a =? 44 then '(ms, r) ← raw_members f l5; Some ((k, (Marshal v, v)) :: ms, r)
        else if code a =? 125 then Some ([(k, (Marshal v, v))], l5) else None
    | [] => None
    end) as Hone.
  { intros f k v tail Hk Hv Hf Ht. unfold member_text. cbn [fst snd].
    rewrite !bytes_of_app, json_string_bytes. cbn [app]. rewrite <- !app_assoc. cbn [app].
    cbn [raw_members skip_space]. change (json_space (ascii_of_nat 34)) with false. cbn iota.
    change (code (ascii_of_nat 34) =? 34) with true. cbn iota.
    rewrite parse_string_text by done. cbn [mbind option_bind].
    change (colon (bytes_of ":" ++ bytes_of (Marshal v) ++ tail)) with (Some (bytes_of (Marshal v) ++ tail)).
    cbn [mbind option_bind]. cbn zeta. rewrite (skip_space_head _ (Marshal_head v Hv)).
    rewrite (Marshal_reads_back v Hv f) by done. cbn [mbind option_bind].
    replace (length (bytes_of (Marshal v) ++ tail) - length tail)%nat with (length (bytes_of (Marshal v)))
      by (rewrite length_app; lia).
    rewrite take_app_length. by rewrite !of_bytes_bytes_of. }
  revert kv fuel. induction fs as [|kw fs IH]; intros [k v] [|f] Hr Hf; try lia;
    apply Forall_cons in Hr as [[Hk Hv] Hr].
  - cbn [fmap list_fmap Join] in *. unfold member_text in Hf at 1. cbn [fst snd] in Hf.
    rewrite !bytes_of_app, !length_app in Hf. rewrite Hone by (done || cbn in *; lia). done.
  - cbn [fmap list_fmap] in *. rewrite bytes_of_Join_cons in *. rewrite !length_app in Hf.
    unfold member_text in Hf at 1. cbn [fst snd] in Hf. rewrite !bytes_of_app, !length_app in Hf.
    rewrite <- app_assoc. rewrite Hone by (done || cbn in *; lia).
    change (bytes_of ",") with [","%char]. cbn [app skip_space].
    change (json_space ",") with false. cbn iota. change (code "," =? 44) with true. cbn iota.
    rewrite (IH kw f Hr) by (cbn in *; lia). done.
Qed.

Lemma struct_members_Marshal_space fs ws :
  json_ok (JObject fs) → space_text ws →
  struct_members (Marshal (JObject fs) +:+ ws) = Some ((λ kv, (kv.1, (Marshal kv.2, kv.2))) <$> fs).
Proof.
  intros Hok Hw. unfold struct_members. rewrite parse_json_Marshal_space by done. inversion Hok as [| | | | | |? Hl]; subst.
  unfold object_members. rewrite bytes_of_app. destruct fs as [|[k v] fs].
  { change (skip_space (bytes_of (Marshal (JObject [])) ++ ?l)) with ("{"%char :: "}"%char :: l).
    cbv beta iota. change (skip_space ("}"%char :: ?l)) with ("}"%char :: l).
    change (code "{" =? 123) with true. change (code "}" =? 125) with true. cbn iota. by rewrite skip_space_text. }
  assert (value_head (bytes_of (member_text (k, v)))) as Hh.
  { unfold member_text. rewrite bytes_of_app, json_string_bytes. by eexists _, _. }
  apply (Join_head _ (member_text <$> fs) ",") in Hh.
  change (member_text (k, v) :: (member_text <$> fs)) with (member_text <$> (k, v) :: fs) in Hh.
  change (Marshal (JObject ((k, v) :: fs))) with ("{" +:+ Join (member_text <$> (k, v) :: fs) "," +:+ "}").
  rewrite !bytes_of_app. change (bytes_of "{") with ["{"%char]. change (bytes_of "}") with ["}"%char].
  rewrite <- !app_assoc. cbn [app skip_space]. change (json_space "{") with false. cbn iota.
  change (code "{" =? 123) with true. cbn iota.
  rewrite (skip_space_head _ Hh). destruct Hh as (a & l' & Ha & _ & _ & H125).
  rewrite Ha at 1. cbn [app]. rewrite (proj2 (Z.eqb_neq _ _)) by done.
  rewrite raw_members_Join; [|done|rewrite length_app; cbn; lia]. cbn [mbind option_bind]. by rewrite skip_space_text.
Qed.

Lemma struct_members_Marshal fs :
  json_ok (JObject fs) →
  struct_members (Marshal (JObject fs)) = Some ((λ kv, (kv.1, (Marshal kv.2, kv.2))) <$> fs).
Proof.
  intros Hok. pose proof (struct_members_Marshal_space fs "" Hok ltac:(constructor)) as Hs. by rewrite string_app_nil_r in Hs.
Qed.
