(* ===== verification/Http.v ===== *)
(** * HTTP as the packages use it

    The parts of [net/http], [encoding/json] and [context] the packages act on:
    headers with canonical keys, requests, response writers with the wrappers
    the packages put around them, handlers, and the JSON encoder.  What the
    server adds on its own to a response (Date, Content-Length, a sniffed
    Content-Type) is not part of the model. *)

From S2P Require Import Prelude GoStrings GoErrors Json.
From Stdlib Require Import Ascii.
#[local] Open Scope Z_scope.

(** ** Headers *)

(** Bytes that may stand in a header field name. *)
Definition token_byte (a : ascii) : bool :=
  let c := code a in
  ((48 <=? c) && (c <=? 57)) || ((65 <=? c) && (c <=? 90)) || ((97 <=? c) && (c <=? 122))
  || existsb (Z.eqb c) [33; 35; 36; 37; 38; 39; 42; 43; 45; 46; 94; 95; 96; 124; 126].

Fixpoint canonical_bytes (upper : bool) (l : list ascii) : list ascii :=
  match l with
  | [] => []
  | a :: l' =>
      (if upper then upper_byte a else lower_byte a) :: canonical_bytes (code a =? 45) l'
  end.

(** [textproto.CanonicalMIMEHeaderKey]. *)
Definition CanonicalHeaderKey (k : string) : string :=
  if forallb token_byte (bytes_of k) then of_bytes (canonical_bytes true (bytes_of k)) else k.

Abbreviation header := (gmap string (list string)).

Definition header_get (h : header) (k : string) : string :=
  match h !! CanonicalHeaderKey k with
  | Some (v :: _) => v
  | _ => ""
  end.

Definition header_set (k v : string) (h : header) : header :=
  <[CanonicalHeaderKey k := [v]]> h.

Lemma header_get_set k v h : header_get (header_set k v h) k = v.
Proof. unfold header_get, header_set. by rewrite lookup_insert_eq. Qed.

Lemma header_get_set_ne k k' v h :
  CanonicalHeaderKey k ≠ CanonicalHeaderKey k' →
  header_get (header_set k v h) k' = header_get h k'.
Proof. intros. unfold header_get, header_set. by rewrite lookup_insert_ne. Qed.

(** ** Context values

    The values the packages store in a request's context. *)

Record Actor := {
  Type_ : string;
  ID : string;
  OrganizationID : string;
  Attributes : list (string * string); (* in the order of one iteration of the map *)
}.

Record Principal := {
  p_OrganizationID : string;
  WorkspaceID : string;
  Subject : string;
  UserSubject : string;
  Service : string;
  TokenType : string;
  Scopes : list string;
  AgentID : string;
  IsHuman : bool;
}.

Record context := {
  ctx_request_id : option string;
  ctx_route : option positive; (* the pointer to chi's route context, when there is one *)
  ctx_actor : option Actor;
  ctx_principal : option Principal;
  ctx_state : option positive; (* the pointer to the request state of observability *)
}.

(** A route context of chi is an object that the router writes to while it routes a
    request: the pattern it has in a state of the world, empty before a route matched. *)
Class Routing (W : Type) := chi_pattern : positive → W → string.

(** ** Requests *)

Inductive body :=
| BodyNil
| NoBody
| Body (content : result error string). (* what reading it to the end gives *)

Record Request := {
  Method : string;
  Path : string;
  Query : list (string * list string);
  Header : header;
  RemoteAddr : string;
  ReqBody : body;
  ContentLength : Z;
  TransferEncoding : list string;
  Ctx : context;
}.

Definition with_body (b : body) (r : Request) : Request :=
  {| Method := Method r; Path := Path r; Query := Query r; Header := Header r;
     RemoteAddr := RemoteAddr r; ReqBody := b; ContentLength := ContentLength r;
     TransferEncoding := TransferEncoding r; Ctx := Ctx r |}.

Definition with_ctx (c : context) (r : Request) : Request :=
  {| Method := Method r; Path := Path r; Query := Query r; Header := Header r;
     RemoteAddr := RemoteAddr r; ReqBody := ReqBody r; ContentLength := ContentLength r;
     TransferEncoding := TransferEncoding r; Ctx := c |}.

(** [request.URL.Query().Get(key)]. *)
Definition query_get (r : Request) (k : string) : string :=
  match find (λ kv, bool_decide (kv.1 = k)) (Query r) with
  | Some (_, v :: _) => v
  | _ => ""
  end.

(** ** Response writers

    [NetRW] is the server's writer: the live header map, the status and the
    header map as they were when the header was sent, the bytes of the body.
    [CaptureRW] is [httpkit.CaptureResponseWriter] and [RecoveryRW] is
    [rterrors.recoveryResponseWriter], each around another writer. *)

Record wire := {
  live : header;
  sent : option (Z * header);
  out : string;
}.

Inductive RW :=
| NetRW (w : wire)
| CaptureRW (statusCode : Z) (wroteHeader : bool) (captured : string) (inner : RW)
| RecoveryRW (wroteHeader : bool) (inner : RW).

Fixpoint base (rw : RW) : wire :=
  match rw with
  | NetRW w => w
  | CaptureRW _ _ _ i | RecoveryRW _ i => base i
  end.

(** [writer.Header()], and a change made through the map it returns. *)
Definition rw_header (rw : RW) : header := live (base rw).

Fixpoint rw_update_header (f : header → header) (rw : RW) : RW :=
  match rw with
  | NetRW w => NetRW {| live := f (live w); sent := sent w; out := out w |}
  | CaptureRW s wh b i => CaptureRW s wh b (rw_update_header f i)
  | RecoveryRW wh i => RecoveryRW wh (rw_update_header f i)
  end.

Definition set_header (k v : string) : RW → RW := rw_update_header (header_set k v).

(** Informational responses go out at once and are not the final status. *)
Definition informational (code : Z) : bool := (100 <=? code) && (code <=? 199) && negb (code =? 101).

Definition wire_write_header (code : Z) (w : wire) : wire :=
  match sent w with
  | Some _ => w
  | None =>
      if informational code then w
      else {| live := live w; sent := Some (code, live w); out := out w |}
  end.

Definition body_allowed (code : Z) : bool :=
  negb (((100 <=? code) && (code <=? 199)) || (code =? 204) || (code =? 304)).

Definition wire_write (b : string) (w : wire) : wire :=
  let w := wire_write_header 200 w in
  match sent w with
  | Some (code, _) =>
      if body_allowed code
      then {| live := live w; sent := sent w; out := out w +:+ b |} else w
  | None => w
  end.

(** [WriteHeader] of each writer. *)
Fixpoint WriteHeader (code : Z) (rw : RW) : RW :=
  match rw with
  | NetRW w => NetRW (wire_write_header code w)
  | CaptureRW s wh b i =>
      if wh then rw else CaptureRW code true b (WriteHeader code i)
  | RecoveryRW _ i => RecoveryRW true (WriteHeader code i)
  end.

(** [Write] of each writer.  [first] is set when the wrapper around the writer
    calls [WriteHeader(200)] just before; the equations below give each writer's
    method as it is written. *)
Fixpoint write_rec (first : bool) (data : string) (rw : RW) : RW :=
  match rw with
  | NetRW w => NetRW (wire_write data (if first then wire_write_header 200 w else w))
  | CaptureRW s wh b i =>
      if wh then CaptureRW s true (b +:+ data) (write_rec false data i)
      else CaptureRW 200 true (b +:+ data) (write_rec true data i)
  | RecoveryRW wh i => RecoveryRW true (write_rec (first || negb wh) data i)
  end.

Definition Write_ : string → RW → RW := write_rec false.

Lemma write_rec_first data rw : write_rec true data rw = Write_ data (WriteHeader 200 rw).
Proof. unfold Write_. induction rw as [w|s [] b i IH|wh i IH]; cbn; by rewrite ?IH. Qed.

Lemma Write_capture data s wh b i :
  Write_ data (CaptureRW s wh b i) =
  if wh then CaptureRW s wh (b +:+ data) (Write_ data i)
  else CaptureRW 200 true (b +:+ data) (Write_ data (WriteHeader 200 i)).
Proof. destruct wh; [done|]. rewrite <- write_rec_first. done. Qed.

Lemma Write_recovery data wh i :
  Write_ data (RecoveryRW wh i) =
  if wh then RecoveryRW wh (Write_ data i)
  else RecoveryRW true (Write_ data (WriteHeader 200 i)).
Proof. destruct wh; [done|]. rewrite <- write_rec_first. done. Qed.

(** The writer inside a wrapper, and the wrapper's [wroteHeader] flag. *)
Definition unwrap (rw : RW) : RW :=
  match rw with NetRW _ => rw | CaptureRW _ _ _ i | RecoveryRW _ i => i end.
Definition wrote_header (rw : RW) : bool :=
  match rw with
  | NetRW w => bool_decide (is_Some (sent w))
  | CaptureRW _ wh _ _ | RecoveryRW wh _ => wh
  end.

(** [Flush]: the server's writer sends the header when it was not sent yet; the
    capturing writer passes the call on; the recovery writer has no such method, so that
    a writer around it does nothing. *)
Fixpoint Flush (rw : RW) : RW :=
  match rw with
  | NetRW w => NetRW (wire_write_header 200 w)
  | CaptureRW s wh b i => CaptureRW s wh b (Flush i)
  | RecoveryRW wh i => rw
  end.

(** What a handler may do to the writer it was given. *)
Inductive rw_step : relation RW :=
| step_header f rw : rw_step rw (rw_update_header f rw)
| step_status code rw : rw_step rw (WriteHeader code rw)
| step_write data rw : rw_step rw (Write_ data rw)
| step_flush rw : rw_step rw (Flush rw).

(** What a handler does that sends a final status and a body only: the wrappers take
    the first status for the final one and do not see that a flush sends it, so they
    need this to agree with the server. *)
Inductive plain_step : relation RW :=
| plain_header f rw : plain_step rw (rw_update_header f rw)
| plain_status code rw : informational code = false → plain_step rw (WriteHeader code rw)
| plain_write data rw : plain_step rw (Write_ data rw).

(** ** Responses

    [responds st b rw]: every layer of the stack [rw] agrees that the response
    has status [st] ([None]: nothing sent yet) and that the bytes [b] were
    written as its body. *)
Fixpoint responds (st : option Z) (b : string) (rw : RW) : Prop :=
  match rw with
  | NetRW w =>
      match st with
      | None => sent w = None ∧ out w = "" ∧ b = ""
      | Some s => fst <$> sent w = Some s ∧ (body_allowed s = true → out w = b)
      end
  | CaptureRW s' wh b' i =>
      s' = default 200 st ∧ wh = bool_decide (is_Some st) ∧ b' = b ∧ responds st b i
  | RecoveryRW wh i => wh = bool_decide (is_Some st) ∧ responds st b i
  end.

(** A stack nothing was written to. *)
Abbreviation fresh := (responds None "").

Lemma responds_none_body b rw : responds None b rw → b = "".
Proof. induction rw; cbn; naive_solver. Qed.

Lemma responds_header f st b rw : responds st b rw → responds st b (rw_update_header f rw).
Proof. induction rw as [w|s wh c i IH|wh i IH]; cbn; [by destruct st|naive_solver..]. Qed.

Lemma responds_write_header code st b rw :
  informational code = false → responds st b rw →
  responds (Some (default code st)) b (WriteHeader code rw).
Proof.
  intros Hc. induction rw as [w|s wh c i IH|wh i IH]; cbn.
  - unfold wire_write_header. rewrite Hc. destruct st as [s|]; cbn.
    + destruct (sent w) as [[s' h]|] eqn:E; cbn; [|by intros [? _]].
      rewrite E; cbn. tauto.
    + intros (-> & Ho & ->). cbn. auto.
  - intros (-> & -> & -> & Hi). specialize (IH Hi). by destruct st.
  - intros (-> & Hi). auto.
Qed.

Lemma wire_write_first data w : wire_write data (wire_write_header 200 w) = wire_write data w.
Proof. unfold wire_write, wire_write_header. by destruct w as [l [[c h]|] o]. Qed.

Lemma responds_write_rec first data st b rw :
  responds st b rw → responds (Some (default 200 st)) (b +:+ data) (write_rec first data rw).
Proof.
  revert first. induction rw as [w|s wh c i IH|wh i IH]; intros first; cbn.
  - replace (wire_write data (if first then wire_write_header 200 w else w))
      with (wire_write data w) by (destruct first; by rewrite ?wire_write_first).
    unfold wire_write, wire_write_header. destruct st as [s|]; cbn.
    + destruct (sent w) as [[s' h]|] eqn:E; cbn; [|by intros [? _]].
      intros [[= ->] Hb]. rewrite E. destruct (body_allowed s) eqn:Ea; cbn; rewrite ?E; [|done].
      split; [done|]. intros _. by rewrite Hb.
    + intros (-> & -> & ->). done.
  - intros (-> & -> & -> & Hi). destruct st as [s|]; cbn; auto.
  - intros (-> & Hi). auto.
Qed.

Lemma responds_write data st b rw :
  responds st b rw → responds (Some (default 200 st)) (b +:+ data) (Write_ data rw).
Proof. apply responds_write_rec. Qed.

(** A status that can end a response. *)
Definition final_status (st : option Z) : Prop := ∀ s, st = Some s → informational s = false.

Lemma final_default code st :
  informational code = false → final_status st → final_status (Some (default code st)).
Proof. intros Hc Hf s [= <-]. destruct st as [s'|]; [by apply Hf|done]. Qed.

(** Whatever a plain handler does to a fresh stack, the layers stay in agreement. *)
Lemma responds_steps st b rw rw' :
  rtc plain_step rw rw' → responds st b rw → final_status st →
  ∃ st' b', responds st' b' rw' ∧ final_status st'.
Proof.
  intros Hs. revert st b. induction Hs as [rw|rw1 rw2 rw3 Hs _ IH]; intros st b Hr Hf;
    [by exists st, b|].
  destruct Hs as [f rw|code rw Hc|data rw].
  - apply (responds_header f) in Hr. by apply IH in Hr.
  - apply (responds_write_header code) in Hr; [|done]. eapply IH; [exact Hr|by apply final_default].
  - apply (responds_write data) in Hr. eapply IH; [exact Hr|by apply final_default].
Qed.

(** A handler leaves the shape of the stack as it found it. *)
Fixpoint same_shape (a b : RW) : Prop :=
  match a, b with
  | NetRW _, NetRW _ => True
  | CaptureRW _ _ _ i, CaptureRW _ _ _ j | RecoveryRW _ i, RecoveryRW _ j => same_shape i j
  | _, _ => False
  end.

#[export] Instance same_shape_preorder : PreOrder same_shape.
Proof.
  split.
  - intros a. by induction a.
  - intros a. induction a as [w|s wh c i IH|wh i IH]; intros [] []; cbn; naive_solver.
Qed.

Lemma same_shape_header f rw : same_shape rw (rw_update_header f rw).
Proof. by induction rw. Qed.
Lemma same_shape_write_header c rw : same_shape rw (WriteHeader c rw).
Proof. induction rw as [w|s [] b i IH|wh i IH]; cbn; try done. Qed.
Lemma same_shape_write data rw : same_shape rw (Write_ data rw).
Proof.
  unfold Write_. generalize false. induction rw as [w|s wh b i IH|wh i IH]; intros f; [done| |].
  - destruct wh; apply IH.
  - apply IH.
Qed.

Lemma same_shape_flush rw : same_shape rw (Flush rw).
Proof. induction rw as [w|s wh b i IH|wh i IH]; cbn; [done|done|]. by reflexivity. Qed.

Lemma same_shape_steps rw rw' : rtc rw_step rw rw' → same_shape rw rw'.
Proof.
  induction 1 as [|x y z Hs _ IH]; [done|]. etrans; [|exact IH].
  destruct Hs; [apply same_shape_header|apply same_shape_write_header|apply same_shape_write|apply same_shape_flush].
Qed.

Lemma plain_steps rw rw' : rtc plain_step rw rw' → rtc rw_step rw rw'.
Proof. induction 1 as [|x y z Hs _ IH]; [done|]. eapply rtc_l; [|exact IH]. destruct Hs; constructor. Qed.

(** ** Handlers

    A handler acts on the writer and on a world of its own; it returns or
    panics with a value (its [fmt.Sprint] text). *)

Inductive outcome := Returned | Panicked (value : string).

Definition Handler (W : Type) : Type := Request → RW → W → outcome * RW * W.

(** A handler that uses the writer through its interface only. *)
Definition uses_interface {W} (h : Handler W) : Prop :=
  ∀ r rw w, rtc rw_step rw (h r rw w).1.2.

(** A handler that sends a final status and a body only: no informational status
    (1xx) and no flush. *)
Definition answers_plainly {W} (h : Handler W) : Prop :=
  ∀ r rw w, rtc plain_step rw (h r rw w).1.2.

(** ** The JSON encoder *)

(** [json.NewEncoder(writer).Encode(v)]: the value and a newline. *)
Definition EncodeJSON (v : json) (rw : RW) : RW := Write_ (Marshal v +:+ newline) rw.

(** ** A request and a writer for the witnesses *)

Definition example_request : Request :=
  {| Method := "POST"; Path := "/orders"; Query := []; Header := ∅; RemoteAddr := "10.0.0.9:4711";
     ReqBody := Body (Ok "{}"); ContentLength := 2; TransferEncoding := [];
     Ctx := {| ctx_request_id := None; ctx_route := None; ctx_actor := None;
               ctx_principal := None; ctx_state := None |} |}.

Definition example_writer : RW := NetRW {| live := ∅; sent := None; out := "" |}.
