(* ===== verification/Mtls.v ===== *)
(** * Mutual TLS (src/mtls/mtls.go)

    The TLS configurations of servers and clients, the client certificate of a
    request, and the middleware that requires one.  Reading files and parsing
    certificates are the class [Certificates]. *)

From S2P Require Import Prelude GoStrings GoErrors Json Http.
#[local] Open Scope Z_scope.

Record ClientConfig := { CAFile : string; CertFile : string; KeyFile : string; ServerName : string }.
Record ServerConfig := { srvCertFile : string; srvKeyFile : string; ClientCAFile : string }.

Definition VersionTLS13 : Z := 772.
Inductive ClientAuthType := NoClientCert | VerifyClientCertIfGiven.

(** Key pairs and pools of certificates. *)
Class Certificates := {
  keypair : Type;
  pool : Type;
  LoadX509KeyPair : string → string → result error keypair;
  os_ReadFile : string → result error string;
  AppendCertsFromPEM : string → option pool;  (* to an empty pool; [None] is false *)
}.

Section Configurations.
Context `{!Certificates}.

Record Config := {
  MinVersion : Z;
  ConfigServerName : string;
  KeyPairs : list keypair;
  ClientAuth : ClientAuthType;
  ClientCAs : option pool;
  RootCAs : option pool;
  GetClientCertificate : bool;  (* whether the callback is set *)
}.

(** A pool from a file, with the names of the two errors. *)
Definition load_pool (file reading parsing : string) : result error pool :=
  match os_ReadFile file with
  | Err e => Err (ErrWrap (reading +:+ ": ") e "")
  | Ok pem => match AppendCertsFromPEM pem with None => Err (ErrNew "" parsing) | Some p => Ok p end
  end.

(** [BuildServerTLSConfig]; [Ok None] is the nil configuration. *)
Definition BuildServerTLSConfig (cfg : ServerConfig) : result error (option Config) :=
  if bool_decide (srvCertFile cfg = "") && bool_decide (srvKeyFile cfg = "") && bool_decide (ClientCAFile cfg = "")
  then Ok None
  else if bool_decide (srvCertFile cfg = "") || bool_decide (srvKeyFile cfg = "")
  then Err (ErrNew "" "tls_cert_and_key_must_both_be_set")
  else
    match LoadX509KeyPair (srvCertFile cfg) (srvKeyFile cfg) with
    | Err e => Err (ErrWrap "load_server_keypair: " e "")
    | Ok certificate =>
        let base auth cas := {| MinVersion := VersionTLS13; ConfigServerName := ""; KeyPairs := [certificate];
                                ClientAuth := auth; ClientCAs := cas; RootCAs := None;
                                GetClientCertificate := false |} in
        if decide (ClientCAFile cfg ≠ "") then
          match load_pool (ClientCAFile cfg) "read_client_ca" "parse_client_ca" with
          | Err e => Err e
          | Ok clientPool => Ok (Some (base VerifyClientCertIfGiven (Some clientPool)))
          end
        else Ok (Some (base NoClientCert None))
    end.

(** The steps of [BuildClientTLSConfig] after its checks. *)
Definition client_roots (cfg : ClientConfig) : result error (option pool) :=
  if decide (CAFile cfg ≠ "") then
    match load_pool (CAFile cfg) "read_server_ca" "parse_server_ca" with Err e => Err e | Ok p => Ok (Some p) end
  else Ok None.

Definition client_config (cfg : ClientConfig) (roots : option pool) : result error (option Config) :=
  let base pairs := {| MinVersion := VersionTLS13; ConfigServerName := ServerName cfg; KeyPairs := pairs;
                       ClientAuth := NoClientCert; ClientCAs := None; RootCAs := roots;
                       GetClientCertificate := false |} in
  if decide (CertFile cfg ≠ "") then
    match LoadX509KeyPair (CertFile cfg) (KeyFile cfg) with
    | Err e => Err (ErrWrap "load_client_keypair: " e "")
    | Ok certificate => Ok (Some (base [certificate]))
    end
  else Ok (Some (base [])).

Definition BuildClientTLSConfig (cfg : ClientConfig) : result error (option Config) :=
  if bool_decide (CAFile cfg = "") && bool_decide (CertFile cfg = "") && bool_decide (KeyFile cfg = "")
     && bool_decide (ServerName cfg = "")
  then Ok None
  else if bool_decide (CertFile cfg = "") && bool_decide (KeyFile cfg ≠ "")
  then Err (ErrNew "" "tls_cert_file_required")
  else if bool_decide (CertFile cfg ≠ "") && bool_decide (KeyFile cfg = "")
  then Err (ErrNew "" "tls_key_file_required")
  else
    match client_roots cfg with
    | Err e => Err e
    | Ok roots => client_config cfg roots
    end.

(** ** HTTP clients *)

(** Round trippers: a plain transport with its TLS configuration, the package's
    traced wrapper, otelhttp's own, or another one. *)
Inductive RoundTripper :=
| Transport (tls : option Config)
| TracedTransport (inner : RoundTripper)
| OtelTransport (inner : RoundTripper)
| OtherTransport (ident : Z).

(** The default transport is a plain one, unless the program replaced it. *)
Context (DefaultTransport : RoundTripper).

(** A client by its transport; nil is [None]. *)
Record HTTPClient := { client_transport : option RoundTripper }.
Definition DefaultClient : HTTPClient := {| client_transport := None |}.

Definition traceRoundTripper (t : option RoundTripper) : RoundTripper :=
  let t := default DefaultTransport t in
  match t with
  | TracedTransport _ | OtelTransport _ => t
  | _ => TracedTransport t
  end.

Definition TraceHTTPClient (c : option HTTPClient) : HTTPClient :=
  let c := default DefaultClient c in
  let t := default DefaultTransport (client_transport c) in
  {| client_transport := Some (traceRoundTripper (Some t)) |}.

Definition BuildHTTPClient (cfg : ClientConfig) : result error HTTPClient :=
  match BuildClientTLSConfig cfg with
  | Err e => Err e
  | Ok None => Ok (TraceHTTPClient (Some DefaultClient))
  | Ok (Some tls) =>
      match DefaultTransport with
      | Transport _ => Ok (TraceHTTPClient (Some {| client_transport := Some (Transport (Some tls)) |}))
      | _ => Err (ErrNew "" "default transport is not *http.Transport")
      end
  end.

(** [Unwrap] of a traced transport. *)
Definition Unwrap_ (t : RoundTripper) : option RoundTripper :=
  match t with TracedTransport b => Some b | _ => None end.
End Configurations.

(** ** The certificate of a request *)

Record Certificate := {
  CommonName : string; DNSNames : list string; URIs : list (option string); EmailAddresses : list string
}.

(** [request.TLS]; nil is [None]. *)
Record ConnectionState := { VerifiedChains : list (list Certificate) }.

Definition HasVerifiedClientCertificate (tls : option ConnectionState) : bool :=
  match tls with None => false | Some s => bool_decide (VerifiedChains s ≠ []) end.

(** [appendIdentity]: the set of seen values is the list itself. *)
Definition appendIdentity (identities : list string) (value : string) : list string :=
  if decide (value = "") then identities
  else if decide (value ∈ identities) then identities
  else identities ++ [value].

(** The names of a certificate, in the order they are appended. *)
Definition certificate_names (c : Certificate) : list string :=
  [CommonName c] ++ DNSNames c ++ omap id (URIs c) ++ EmailAddresses c.

Definition VerifiedClientCertificateIdentities (tls : option ConnectionState) : list string :=
  if negb (HasVerifiedClientCertificate tls) then []
  else
    foldl (λ identities chain,
             match chain with
             | [] => identities
             | certificate :: _ => foldl appendIdentity identities (certificate_names certificate)
             end) [] (from_option VerifiedChains [] tls).

Definition HasAllowedVerifiedClientCertificate (tls : option ConnectionState) (allowed : list string) : bool :=
  if negb (HasVerifiedClientCertificate tls) then false
  else if decide (allowed = []) then true
  else existsb (λ identity, existsb (λ a, bool_decide (identity = a)) allowed)
         (VerifiedClientCertificateIdentities tls).

Section Middleware.
Context {W : Type}.

Definition rejection (text : string) : string :=
  "{" +:+ newline +:+ "  " +:+ dquote +:+ "error" +:+ dquote +:+ ": " +:+ dquote +:+ text +:+ dquote +:+ newline
  +:+ "}" +:+ newline.

Definition reject (text : string) (rw : RW) : RW :=
  Write_ (rejection text) (WriteHeader 401 (set_header "Content-Type" "application/json" rw)).

Definition RequireVerifiedClientCertificateForIdentities (allowed : list string) (next : Handler W)
  (tls : option ConnectionState) (r : Request) (rw : RW) (w : W) : outcome * RW * W :=
  if negb (HasVerifiedClientCertificate tls) then (Returned, reject "client_certificate_required" rw, w)
  else if negb (HasAllowedVerifiedClientCertificate tls allowed)
  then (Returned, reject "client_certificate_identity_not_allowed" rw, w)
  else next r rw w.

Definition RequireVerifiedClientCertificate := RequireVerifiedClientCertificateForIdentities [].
End Middleware.

(** ** Lemmas *)

Lemma appendIdentity_elem l v x : x ∈ appendIdentity l v ↔ x ∈ l ∨ (x = v ∧ v ≠ "").
Proof. unfold appendIdentity. repeat case_decide; set_solver. Qed.

Lemma appendIdentity_NoDup l v : NoDup l → NoDup (appendIdentity l v).
Proof.
  intros Hl. unfold appendIdentity. repeat case_decide; [done..|]. apply NoDup_app. split_and!; [done| |].
  - set_solver.
  - apply NoDup_singleton.
Qed.

Lemma append_all l names x :
  NoDup l → NoDup (foldl appendIdentity l names) ∧
  (x ∈ foldl appendIdentity l names ↔ x ∈ l ∨ (x ∈ names ∧ x ≠ "")).
Proof.
  revert l. induction names as [|v names IH]; intros l Hl; cbn [foldl]; [set_solver|].
  destruct (IH (appendIdentity l v) (appendIdentity_NoDup l v Hl)) as [Hnd Hx].
  split; [done|]. rewrite Hx, appendIdentity_elem. set_solver.
Qed.

Lemma identities_spec chains l x :
  NoDup l →
  let out := foldl (λ identities chain, match chain with
                    | [] => identities
                    | c :: _ => foldl appendIdentity identities (certificate_names c) end) l chains in
  NoDup out ∧ (x ∈ out ↔ x ∈ l ∨ ∃ c rest, (c :: rest) ∈ chains ∧ x ∈ certificate_names c ∧ x ≠ "").
Proof.
  revert l. induction chains as [|ch chains IH]; intros l Hl; cbn [foldl]; [set_solver|].
  destruct ch as [|c rest].
  - destruct (IH l Hl) as [Hnd Hx]. split; [done|]. rewrite Hx. setoid_rewrite elem_of_cons. naive_solver.
  - destruct (append_all l (certificate_names c) x Hl) as [Hnd1 Hx1].
    destruct (IH _ Hnd1) as [Hnd Hx]. split; [done|]. rewrite Hx, Hx1. setoid_rewrite elem_of_cons. split.
    + intros [[?|[? ?]]|(c' & r' & ? & ?)]; [by left|right; exists c, rest; auto|right; exists c', r'; auto].
    + intros [?|(c' & r' & [Hc|?] & ?)]; [by auto|injection Hc as -> ->; auto|right; exists c', r'; auto].
Qed.

(** A name of the leaf certificate of a verified chain. *)
Definition presents (s : ConnectionState) (name : string) : Prop :=
  ∃ c rest, (c :: rest) ∈ VerifiedChains s ∧ name ∈ certificate_names c ∧ name ≠ "".

Lemma identities_presents s x :
  NoDup (VerifiedClientCertificateIdentities (Some s)) ∧
  (x ∈ VerifiedClientCertificateIdentities (Some s) ↔ presents s x).
Proof.
  unfold VerifiedClientCertificateIdentities. cbn [HasVerifiedClientCertificate from_option].
  destruct (identities_spec (VerifiedChains s) [] x (NoDup_nil_2)) as [Hnd Hx]. cbn zeta in *.
  case_bool_decide as Hc; cbn [negb].
  - split; [done|]. rewrite Hx. unfold presents. set_solver.
  - split; [apply NoDup_nil_2|]. unfold presents. split; [set_solver|]. intros (c & rest & Hin & _).
    rewrite Hc in Hin. set_solver.
Qed.

Lemma allowed_spec s allowed :
  HasAllowedVerifiedClientCertificate (Some s) allowed = true ↔
  VerifiedChains s ≠ [] ∧ (allowed = [] ∨ ∃ name, name ∈ allowed ∧ presents s name).
Proof.
  unfold HasAllowedVerifiedClientCertificate. cbn [HasVerifiedClientCertificate].
  case_bool_decide as Hc; cbn [negb]; [|naive_solver]. case_decide as Ha; [naive_solver|].
  rewrite existsb_exists. split.
  - intros (x & Hx & Hex). split; [done|]. right. apply existsb_exists in Hex as (a & Hin & Heq). breflect. subst a.
    exists x. rewrite <- !list_elem_of_In in *. split; [done|]. by apply identities_presents.
  - intros [_ [?|(x & Hin & Hp)]]; [done|]. exists x. split.
    + apply list_elem_of_In. by apply identities_presents.
    + apply existsb_exists. exists x. split; [by apply list_elem_of_In|]. by apply bool_decide_eq_true_2.
Qed.

(** ** Properties *)

Definition all_empty (l : list string) : Prop := Forall (λ s, s = "") l.

(** The certificates of a file that can be read and parsed. *)
Definition authorities `{!Certificates} (file : string) : option pool :=
  match os_ReadFile file with Ok pem => AppendCertsFromPEM pem | Err _ => None end.

Lemma load_pool_ok `{!Certificates} file reading parsing p :
  load_pool file reading parsing = Ok p → authorities file = Some p.
Proof. unfold load_pool, authorities. destruct (os_ReadFile file); [|done]. case_match; congruence. Qed.

(** C28: A TLS configuration is all or nothing: there is none exactly when every
    setting is empty, otherwise building it fails or gives one that needs TLS 1.3, carries exactly the
    configured key pair, and checks peers against exactly the authorities of the
    configured file; a configured file that cannot be loaded is never ignored. *)
Theorem tls_configuration_is_complete `{!Certificates} (srv : ServerConfig) (cl : ClientConfig) :
  match BuildServerTLSConfig srv with
  | Ok None => all_empty [srvCertFile srv; srvKeyFile srv; ClientCAFile srv]
  | Ok (Some c) =>
      ¬ all_empty [srvCertFile srv; srvKeyFile srv; ClientCAFile srv] ∧ MinVersion c = VersionTLS13 ∧
      (∃ kp, LoadX509KeyPair (srvCertFile srv) (srvKeyFile srv) = Ok kp ∧ KeyPairs c = [kp]) ∧
      (if decide (ClientCAFile srv = "") then ClientAuth c = NoClientCert ∧ ClientCAs c = None
       else ClientAuth c = VerifyClientCertIfGiven ∧
            ∃ p, authorities (ClientCAFile srv) = Some p ∧ ClientCAs c = Some p)
  | Err _ => ¬ all_empty [srvCertFile srv; srvKeyFile srv; ClientCAFile srv]
  end ∧
  match BuildClientTLSConfig cl with
  | Ok None => all_empty [CAFile cl; CertFile cl; KeyFile cl; ServerName cl]
  | Ok (Some c) =>
      ¬ all_empty [CAFile cl; CertFile cl; KeyFile cl; ServerName cl] ∧ MinVersion c = VersionTLS13 ∧ ConfigServerName c = ServerName cl ∧
      (if decide (CertFile cl = "") then KeyPairs c = []
       else ∃ kp, LoadX509KeyPair (CertFile cl) (KeyFile cl) = Ok kp ∧ KeyPairs c = [kp]) ∧
      (if decide (CAFile cl = "") then RootCAs c = None
       else ∃ p, authorities (CAFile cl) = Some p ∧ RootCAs c = Some p)
  | Err _ => ¬ all_empty [CAFile cl; CertFile cl; KeyFile cl; ServerName cl]
  end.
Proof.
  split.
  - unfold BuildServerTLSConfig. set (e := bool_decide _ && _ && _).
    assert (e = true ↔ all_empty [srvCertFile srv; srvKeyFile srv; ClientCAFile srv]) as He.
    { unfold e, all_empty. rewrite !andb_true_iff, !bool_decide_eq_true, !Forall_cons, Forall_nil. tauto. }
    destruct e; [by apply He|]. assert (¬ all_empty [srvCertFile srv; srvKeyFile srv; ClientCAFile srv]) by naive_solver.
    destruct (bool_decide _ || _); [done|]. destruct (LoadX509KeyPair _ _) as [kp|]; [|done].
    destruct (decide (ClientCAFile srv = "")) as [Hca|Hca]; [rewrite decide_False by naive_solver; naive_solver|].
    rewrite decide_True by done. destruct (load_pool _ _ _) eqn:El; [|done]. apply load_pool_ok in El.
    cbn. naive_solver.
  - unfold BuildClientTLSConfig. set (e := bool_decide _ && _ && _ && _).
    assert (e = true ↔ all_empty [CAFile cl; CertFile cl; KeyFile cl; ServerName cl]) as He.
    { unfold e, all_empty. rewrite !andb_true_iff, !bool_decide_eq_true, !Forall_cons, Forall_nil. tauto. }
    destruct e; [by apply He|]. assert (¬ all_empty [CAFile cl; CertFile cl; KeyFile cl; ServerName cl]) by naive_solver.
    destruct (bool_decide _ && _); [done|]. destruct (bool_decide _ && _); [done|].
    destruct (client_roots cl) as [roots|] eqn:Er; [|done].
    assert (if decide (CAFile cl = "") then roots = None
            else ∃ p, authorities (CAFile cl) = Some p ∧ roots = Some p) as Hroots.
    { unfold client_roots in Er. destruct (decide (CAFile cl = "")) as [Hca|Hca].
      - rewrite decide_False in Er by naive_solver. congruence.
      - rewrite decide_True in Er by done. destruct (load_pool _ _ _) eqn:El; [|done].
        apply load_pool_ok in El. naive_solver. }
    unfold client_config. destruct (decide (CertFile cl = "")) as [Hce|Hce].
    + rewrite decide_False by naive_solver. done.
    + rewrite decide_True by done. destruct (LoadX509KeyPair _ _); [|done]. cbn. split_and!; eauto.
Qed.

(** C27: The client-certificate middleware: a request reaches the handler exactly when
    its connection has a verified client certificate and, when identities are listed,
    the leaf certificate of a verified chain presents one of them; every other request
    is answered 401 without running the handler. *)
Theorem client_certificate_guard {W} allowed (next : Handler W) tls r rw w :
  fresh rw →
  let admitted := ∃ s, tls = Some s ∧ VerifiedChains s ≠ [] ∧
                       (allowed = [] ∨ ∃ name, name ∈ allowed ∧ presents s name) in
  let run := RequireVerifiedClientCertificateForIdentities allowed next tls r rw w in
  (admitted → run = next r rw w) ∧
  (¬ admitted → ∃ text rw', run = (Returned, rw', w) ∧ responds (Some 401) (rejection text) rw').
Proof.
  intros Hfresh. cbn zeta.
  assert (∀ text, responds (Some 401) (rejection text) (reject text rw)) as Hrej.
  { intros text. unfold reject. eapply (responds_write _ (Some 401) ""), (responds_write_header 401 None); [done|].
    by apply responds_header. }
  unfold RequireVerifiedClientCertificateForIdentities. destruct tls as [s|].
  - pose proof (allowed_spec s allowed) as Hspec. destruct (HasAllowedVerifiedClientCertificate _ allowed).
    + destruct (proj1 Hspec eq_refl) as [Hc Ha].
      cbn [HasVerifiedClientCertificate]. rewrite bool_decide_eq_true_2 by done. cbn [negb].
      split; [done|]. intros Hn. exfalso. apply Hn. eauto.
    + split; [|intros _; destruct (negb _); eauto]. intros (s' & [= <-] & Hc & Ha). by discriminate (proj2 Hspec (conj Hc Ha)).
  - split; [by intros (? & ? & _)|]. intros _. cbn. eauto.
Qed.

(** Tracing a client twice is tracing it once. *)
Lemma TraceHTTPClient_idemp `{!Certificates} dt c :
  TraceHTTPClient dt (Some (TraceHTTPClient dt c)) = TraceHTTPClient dt c.
Proof.
  unfold TraceHTTPClient, traceRoundTripper. cbn.
  by destruct (default dt (client_transport (default DefaultClient c))).
Qed.

Definition example_state : ConnectionState :=
  {| VerifiedChains := [[{| CommonName := "svc"; DNSNames := ["svc.local"]; URIs := [None; Some "spiffe://x/svc"];
                            EmailAddresses := [] |}]] |}.

Lemma client_certificate_guard_witness :
  let next : Handler nat := λ _ rw n, (Returned, Write_ "ok" rw, S n) in
  RequireVerifiedClientCertificateForIdentities ["spiffe://x/svc"] next (Some example_state) example_request
    example_writer 0%nat = next example_request example_writer 0%nat ∧
  ∃ text rw', RequireVerifiedClientCertificateForIdentities ["other"] next (Some example_state) example_request
    example_writer 0%nat = (Returned, rw', 0%nat) ∧ responds (Some 401) (rejection text) rw'.
Proof.
  intros next. split.
  - apply (client_certificate_guard ["spiffe://x/svc"] next (Some example_state)); [done|].
    exists example_state. split_and!; [done..|]. right. exists "spiffe://x/svc". split; [set_solver|].
    eexists _, _. split_and!; [by left|set_solver|done].
  - apply (client_certificate_guard ["other"] next (Some example_state)); [done|].
    intros (s & [= <-] & _ & [?|(name & Hn & c & rest & Hin & Hname & _)]); [done|].
    apply list_elem_of_singleton in Hn, Hin. subst name. injection Hin as -> _. cbn in Hname. set_solver.
Defined.
