(* ===== verification/RtErrors.v ===== *)
(** * Runtime errors (src/rterrors)

    Structured errors, their text, the mapping onto Connect codes and HTTP
    statuses, and the JSON error response.  An [*Error] is [ErrRuntime] of
    GoErrors.v; a nil error is [None].

    [Error()] of a Connect error follows the vendored connect package. *)

From S2P Require Import Prelude GoStrings GoErrors Json Http.
#[local] Open Scope Z_scope.

(** ** Codes and messages *)

Definition CodeInvalidInput := "invalid_input".
Definition CodeInvalidJSON := "invalid_json".
Definition CodeNotFound := "not_found".
Definition CodeUnauthorized := "unauthorized".
Definition CodeForbidden := "forbidden".
Definition CodeConflict := "conflict".
Definition CodeVersionConflict := "version_conflict".
Definition CodeRateLimited := "rate_limited".
Definition CodeUnavailable := "unavailable".
Definition CodeInternal := "internal_error".

Definition New (code message : string) : error := ErrRuntime code (TrimSpace message) "" None.

Definition Wrap (code op : string) (err : option error) : option error :=
  match err with
  | None => None
  | Some e => Some (ErrRuntime code "" (TrimSpace op) (Some e))
  end.

Definition E (code op message : string) (err : option error) : error :=
  ErrRuntime code (TrimSpace message) (TrimSpace op) err.

Definition is_code (c : string) (l : list string) : bool := bool_decide (c ∈ l).

Definition defaultMessage (code : string) : string :=
  if is_code code [CodeInvalidInput; CodeInvalidJSON] then "invalid input"
  else if is_code code [CodeNotFound] then "resource not found"
  else if is_code code [CodeUnauthorized] then "authentication required"
  else if is_code code [CodeForbidden] then "forbidden"
  else if is_code code [CodeConflict; CodeVersionConflict]
  then "request conflicts with current state"
  else if is_code code [CodeRateLimited] then "rate limit exceeded"
  else if is_code code [CodeUnavailable] then "service unavailable"
  else if is_code code [CodeInternal; ""] then "internal error"
  else "request failed".

Definition connect_code_text (c : connect_code) : string :=
  match c with
  | CodeCanceled => "canceled"
  | CodeUnknown => "unknown"
  | CodeInvalidArgument => "invalid_argument"
  | CodeDeadlineExceeded => "deadline_exceeded"
  | GoErrors.CodeNotFound => "not_found"
  | CodeAlreadyExists => "already_exists"
  | CodePermissionDenied => "permission_denied"
  | CodeResourceExhausted => "resource_exhausted"
  | CodeFailedPrecondition => "failed_precondition"
  | CodeAborted => "aborted"
  | CodeOutOfRange => "out_of_range"
  | CodeUnimplemented => "unimplemented"
  | GoErrors.CodeInternal => "internal"
  | GoErrors.CodeUnavailable => "unavailable"
  | CodeDataLoss => "data_loss"
  | CodeUnauthenticated => "unauthenticated"
  end.

(** [(e *Error) message()], given the text of the wrapped cause. *)
Definition message_with (code message : string) (cause_text : option string) : string :=
  if decide (TrimSpace message ≠ "") then TrimSpace message
  else
    match cause_text with
    | Some t =>
        if bool_decide (code ≠ CodeInternal) && bool_decide (TrimSpace t ≠ "")
        then TrimSpace t else defaultMessage code
    | None => defaultMessage code
    end.

(** [err.Error()] for every kind of error. *)
Fixpoint Error_ (e : error) : string :=
  match e with
  | ErrNew _ text | ErrFmt text | ErrForeign _ text => text
  | ErrWrap pre i post => pre +:+ Error_ i +:+ post
  | ErrPermanent i => Error_ i
  | ErrRuntime code msg op cause =>
      let message := message_with code msg (Error_ <$> cause) in
      if bool_decide (op ≠ "") && bool_decide (message ≠ "") then op +:+ ": " +:+ message
      else if bool_decide (op ≠ "") then op
      else message
  | ErrConnect c i =>
      let message := Error_ i in
      if decide (message = "") then connect_code_text c
      else connect_code_text c +:+ ": " +:+ message
  | ErrJoin es => Join (Error_ <$> es) newline
  end.

Definition message (code msg : string) (cause : option error) : string :=
  message_with code msg (Error_ <$> cause).

(** ** Inspecting errors *)

Definition as_runtime (e : error) : option (string * string * string * option error) :=
  find_error (λ x, match x with
                   | ErrRuntime c m o i => Some (c, m, o, i)
                   | _ => None
                   end) e.

(** The [Is] method of [*Error] against another [*Error]. *)
Definition Is (code op : string) (target_code target_op : string) : bool :=
  (bool_decide (target_code ≠ "") && bool_decide (code = target_code))
  || (bool_decide (target_op ≠ "") && bool_decide (target_code = "")
      && bool_decide (op = target_op)).

(** [errors.Is(e, target)]: package variables are compared by identity, runtime
    errors by their [Is] method. *)
Definition errors_is (target : error) (e : error) : bool :=
  match target with
  | ErrNew name _ => bool_decide (name ≠ "") && IsVar name e
  | ErrRuntime tc _ top _ =>
      match find_error (λ x, match x with
                             | ErrRuntime c _ op _ => if Is c op tc top then Some tt else None
                             | _ => None
                             end) e with
      | Some _ => true
      | None => false
      end
  | ErrForeign i _ =>
      match find_error (λ x, match x with
                             | ErrForeign j _ => if i =? j then Some tt else None
                             | _ => None
                             end) e with
      | Some _ => true
      | None => false
      end
  | _ => false
  end.

Definition CodeOf (err : option error) : string :=
  match err with
  | None => ""
  | Some e =>
      match as_runtime e with
      | Some (c, _, _, _) => if decide (c ≠ "") then c else ""
      | None => ""
      end
  end.

Definition MessageOf (err : option error) : string :=
  match err with
  | None => defaultMessage CodeInternal
  | Some e =>
      match as_runtime e with
      | Some (c, m, _, i) => message c m i
      | None =>
          let m := TrimSpace (Error_ e) in
          if decide (m ≠ "") then m else defaultMessage CodeInternal
      end
  end.

(** [connect.CodeOf]. *)
Definition connect_CodeOf (e : error) : connect_code :=
  match find_error (λ x, match x with ErrConnect c _ => Some c | _ => None end) e with
  | Some c => c
  | None => CodeUnknown
  end.

Definition ConnectCode (err : option error) : connect_code :=
  match err with
  | None => CodeUnknown
  | Some e =>
      let c := CodeOf err in
      if is_code c [CodeInvalidInput; CodeInvalidJSON] then CodeInvalidArgument
      else if is_code c [CodeUnauthorized] then CodeUnauthenticated
      else if is_code c [CodeForbidden] then CodePermissionDenied
      else if is_code c [CodeNotFound] then GoErrors.CodeNotFound
      else if is_code c [CodeConflict] then CodeAlreadyExists
      else if is_code c [CodeVersionConflict] then CodeFailedPrecondition
      else if is_code c [CodeRateLimited] then CodeResourceExhausted
      else if is_code c [CodeUnavailable] then GoErrors.CodeUnavailable
      else if is_code c [CodeInternal] then GoErrors.CodeInternal
      else if decide (connect_CodeOf e ≠ CodeUnknown) then connect_CodeOf e
      else GoErrors.CodeInternal
  end.

Definition ToConnectError (err : option error) : option error :=
  match err with
  | None => None
  | Some e =>
      if decide (CodeOf err ≠ "") then Some (ErrConnect (ConnectCode err) e)
      else if decide (connect_CodeOf e ≠ CodeUnknown) then Some e
      else Some (ErrConnect (ConnectCode err) e)
  end.

Definition HTTPStatus (err : option error) : Z :=
  match ConnectCode err with
  | CodeInvalidArgument => 400
  | CodeUnauthenticated => 401
  | CodePermissionDenied => 403
  | GoErrors.CodeNotFound => 404
  | CodeAlreadyExists => 409
  | CodeFailedPrecondition => 412
  | CodeResourceExhausted => 429
  | GoErrors.CodeUnavailable => 503
  | CodeCanceled | CodeUnknown | CodeDeadlineExceeded | CodeAborted | CodeOutOfRange
  | CodeUnimplemented | GoErrors.CodeInternal | CodeDataLoss => 500
  end.

(** ** Responses *)

Definition ErrorResponse (code message : string) : json :=
  JObject [("error", JObject [("code", JString code); ("message", JString message)])].

Definition WriteError (err : option error) (rw : RW) : RW :=
  match err with
  | None => rw
  | Some e =>
      let status := HTTPStatus err in
      let code := if decide (CodeOf err = "") then CodeInternal else CodeOf err in
      let rw := set_header "Content-Type" "application/json" rw in
      let rw := WriteHeader status rw in
      EncodeJSON (ErrorResponse code (MessageOf err)) rw
  end.

(** [RecoverMiddleware]; the log line is returned beside the handler's outcome. *)
Definition recovered_error (v : string) : error :=
  E CodeInternal "http.recover" "internal error" (Some (ErrFmt ("panic: " +:+ v))).

Record panic_log := { log_panic : string; log_method : string; log_path : string }.

Definition RecoverMiddleware {W} (next : Handler W) (r : Request) (rw : RW) (w : W)
  : list panic_log * RW * W :=
  match next r (RecoveryRW false rw) w with
  | (Returned, recoveryWriter, w') => ([], unwrap recoveryWriter, w')
  | (Panicked v, recoveryWriter, w') =>
      let log := [{| log_panic := v; log_method := Method r; log_path := Path r |}] in
      if wrote_header recoveryWriter then (log, unwrap recoveryWriter, w')
      else (log, unwrap (WriteError (Some (recovered_error v)) recoveryWriter), w')
  end.

(** ** Properties *)

(** [wraps e e']: [e'] is [e] under any number of [fmt.Errorf("... %w ...")]
    and [Permanent]. *)
Inductive wraps (e : error) : error → Prop :=
| wraps_self : wraps e e
| wraps_fmt p e' q : wraps e e' → wraps e (ErrWrap p e' q)
| wraps_permanent e' : wraps e e' → wraps e (ErrPermanent e').

Lemma wraps_find {A} (t : error → option A) e e' :
  (∀ p x q, t (ErrWrap p x q) = None) → (∀ x, t (ErrPermanent x) = None) →
  wraps e e' → find_error t e' = find_error t e.
Proof. intros H1 H2. induction 1; cbn; by rewrite ?H1, ?H2. Qed.

Lemma wraps_as_runtime e e' : wraps e e' → as_runtime e' = as_runtime e.
Proof. by apply wraps_find. Qed.

Lemma wraps_connect e e' : wraps e e' → connect_CodeOf e' = connect_CodeOf e.
Proof. intros Hw. unfold connect_CodeOf. by rewrite (wraps_find _ e e'). Qed.

Lemma wraps_CodeOf e e' : wraps e e' → CodeOf (Some e') = CodeOf (Some e).
Proof. intros Hw. unfold CodeOf. by rewrite (wraps_as_runtime e e'). Qed.

Lemma wraps_ConnectCode e e' : wraps e e' → ConnectCode (Some e') = ConnectCode (Some e).
Proof.
  intros Hw. unfold ConnectCode. by rewrite (wraps_CodeOf e e' Hw), (wraps_connect e e' Hw).
Qed.

(** Adding a Connect code around an error keeps its runtime code. *)
Lemma CodeOf_connect c e : CodeOf (Some (ErrConnect c e)) = CodeOf (Some e).
Proof. done. Qed.

(** The part of [ConnectCode] before the Connect code is looked at. *)
Lemma ConnectCode_by_code e1 e2 :
  CodeOf (Some e1) = CodeOf (Some e2) →
  ConnectCode (Some e1) = ConnectCode (Some e2) ∨
  (∀ e, CodeOf (Some e) = CodeOf (Some e1) →
     ConnectCode (Some e) =
     if decide (connect_CodeOf e ≠ CodeUnknown) then connect_CodeOf e else GoErrors.CodeInternal).
Proof.
  intros Hc. unfold ConnectCode. rewrite Hc. repeat (case_match; [by left|]).
  right. intros e ->. by repeat (case_match; [congruence|]).
Qed.

Lemma ConnectCode_known e : ConnectCode (Some e) ≠ CodeUnknown.
Proof. unfold ConnectCode. repeat (case_match; try done). Qed.

Lemma ConnectCode_connect e :
  ConnectCode (Some (ErrConnect (ConnectCode (Some e)) e)) = ConnectCode (Some e).
Proof.
  destruct (ConnectCode_by_code (ErrConnect (ConnectCode (Some e)) e) e) as [?|Hc]; [done..|].
  rewrite Hc at 1 by done. change (connect_CodeOf _) with (ConnectCode (Some e)).
  rewrite decide_True; [done|apply ConnectCode_known].
Qed.

(** Wrapping an error on its way up ([fmt.Errorf] with [%w], [Permanent])
    never changes how a caller sees it: its runtime code, Connect code and HTTP
    status stay, and so does the client-facing message of a runtime error. *)
Theorem wrapping_keeps_classification e e' :
  wraps e e' →
  CodeOf (Some e') = CodeOf (Some e) ∧ ConnectCode (Some e') = ConnectCode (Some e) ∧
  HTTPStatus (Some e') = HTTPStatus (Some e) ∧
  (is_Some (as_runtime e) → MessageOf (Some e') = MessageOf (Some e)).
Proof.
  intros Hw. unfold HTTPStatus. rewrite (wraps_ConnectCode e e' Hw), (wraps_CodeOf e e' Hw).
  repeat split; try done. intros [x Hx]. unfold MessageOf.
  by rewrite (wraps_as_runtime e e' Hw), Hx.
Qed.

Lemma wrapping_keeps_classification_witness :
  let e := E CodeConflict "store.write" "taken" None in
  HTTPStatus (Some (ErrWrap "create: " (ErrPermanent e) "")) = 409 ∧
  MessageOf (Some (ErrWrap "create: " (ErrPermanent e) "")) = "taken".
Proof.
  destruct (wrapping_keeps_classification (E CodeConflict "store.write" "taken" None)
    (ErrWrap "create: " (ErrPermanent (E CodeConflict "store.write" "taken" None)) ""))
    as (_ & _ & Hs & Hm).
  - by repeat constructor.
  - cbn zeta. rewrite Hs, Hm; [split; reflexivity|]. by eexists.
Defined.

(** Converting an error to a Connect error loses nothing: the converted
    error has the same runtime code, Connect code and HTTP status, it carries a
    Connect code, and converting it again changes none of them. *)
Theorem to_connect_preserves_status (e : error) :
  ∃ e', ToConnectError (Some e) = Some e' ∧
  CodeOf (Some e') = CodeOf (Some e) ∧
  ConnectCode (Some e') = ConnectCode (Some e) ∧
  HTTPStatus (Some e') = HTTPStatus (Some e) ∧
  is_Some (find_error (λ x, match x with ErrConnect c _ => Some c | _ => None end) e').
Proof.
  unfold ToConnectError, HTTPStatus.
  destruct (decide (CodeOf (Some e) ≠ "")) as [E0|E0%dec_stable].
  - eexists. split; [done|]. rewrite CodeOf_connect, ConnectCode_connect.
    repeat split. by eexists.
  - destruct (decide (connect_CodeOf e ≠ CodeUnknown)) as [E1|E1].
    + exists e. repeat split. unfold connect_CodeOf in E1.
      destruct (find_error _ e) as [c|] eqn:Ef; [by exists c|done].
    + eexists. split; [done|]. rewrite CodeOf_connect, ConnectCode_connect.
      repeat split. by eexists.
Qed.

(** An internal error never shows its cause.  Whatever error is wrapped,
    and however the result is wrapped again, the client-facing message of an
    internal error without a message of its own is the fixed text. *)
Theorem internal_cause_is_hidden op cause e' :
  wraps (ErrRuntime CodeInternal "" op cause) e' →
  MessageOf (Some e') = "internal error" ∧ HTTPStatus (Some e') = 500.
Proof.
  intros Hw. unfold MessageOf, HTTPStatus.
  rewrite (wraps_ConnectCode _ e' Hw), (wraps_as_runtime _ e' Hw). cbn.
  by destruct cause.
Qed.

Lemma internal_cause_is_hidden_witness :
  MessageOf (Some (ErrWrap "load: "
    (ErrRuntime CodeInternal "" "db" (Some (ErrFmt "password=hunter2"))) "")) = "internal error".
Proof.
  apply (internal_cause_is_hidden "db" (Some (ErrFmt "password=hunter2"))). by repeat constructor.
Defined.

(** The body of the response to a panic. *)
Definition panic_body : string :=
  Marshal (ErrorResponse "internal_error" "internal error") +:+ newline.

(** The recovery writer: as long as it was not written to, nothing was sent. *)
Definition recovering (rec : RW) : Prop := ∃ wh i, rec = RecoveryRW wh i ∧ (wh = false → fresh i).

Lemma recovering_steps rw rec : rtc rw_step rw rec → recovering rw → recovering rec.
Proof.
  induction 1 as [|x y z Hs _ IH]; [done|]. intros (wh & i & Hx & Hi). apply IH. unfold recovering.
  destruct Hs as [f rw|code rw|data rw|rw]; subst rw; cbn.
  - exists wh, (rw_update_header f i). split; [done|]. intros Hw. by apply responds_header, Hi.
  - by exists true, (WriteHeader code i).
  - by exists true, (write_rec (negb wh) data i).
  - by exists wh, i.
Qed.

Lemma internal_error_responds i : fresh i →
  responds (Some 500) panic_body
    (EncodeJSON (ErrorResponse "internal_error" "internal error")
       (WriteHeader 500 (set_header "Content-Type" "application/json" (RecoveryRW false i)))).
Proof.
  intros Hi. assert (fresh (RecoveryRW false i)) as H0 by done.
  apply (responds_header (header_set "Content-Type" "application/json")) in H0.
  apply (responds_write_header 500) in H0; [|done]. by apply (responds_write panic_body) in H0.
Qed.


(** A hint and then a panic: the client of the server gets an empty 200. *)
Lemma panic_after_hint_is_not_answered :
  let hinting : Handler nat := λ _ rw w, (Panicked "boom", WriteHeader 103 rw, w) in
  let '(_, rw', _) := RecoverMiddleware hinting example_request example_writer 0%nat in
  rw' = example_writer.
Proof. reflexivity. Qed.

Definition panicking : Handler nat := λ _ rw w, (Panicked "boom", rw, S w).

