(* ===== verification/HttpKit.v ===== *)
(** * HTTP helpers and guards (src/httpkit)

    Responses, request helpers, the request-id, logging and body-limit
    middleware, and the browser security guards.  [mime.ParseMediaType] is
    written out as the standard library has it. *)

From S2P Require Import Prelude GoStrings GoErrors Json Http RtErrors.
From Stdlib Require Import Ascii.
#[local] Open Scope Z_scope.

(** ** Responses *)

Definition WriteJSON (status : Z) (v : json) (rw : RW) : RW :=
  let rw := set_header "Content-Type" "application/json" rw in
  let rw := WriteHeader status rw in
  EncodeJSON v rw.

Definition WriteError (status : Z) (code message : string) (rw : RW) : RW :=
  WriteJSON status (ErrorResponse code message) rw.

Definition WriteMappedError (err : option error) (rw : RW) : RW := RtErrors.WriteError err rw.

Definition etag (version : Z) : string := dquote +:+ FormatInt version +:+ dquote.

Definition SetETag (version : Z) (rw : RW) : RW := set_header "ETag" (etag version) rw.

(** [version] is [Some] when the payload implements [Versioned]. *)
Definition WriteMutationJSON (status : Z) (payload : json) (version : option Z) (sequence : Z)
  (rw : RW) : RW :=
  let rw := set_header "X-Change-Seq" (FormatInt sequence) rw in
  let rw := match version with Some v => SetETag v rw | None => rw end in
  WriteJSON status payload rw.

Record StoreErrors := {
  se_NotFound : option error;
  se_VersionConflict : option error;
  se_Conflict : option error;
}.

Definition is_store_error (target : option error) (err : error) : bool :=
  match target with Some t => errors_is t err | None => false end.

Definition WriteStoreError (err : error) (se : StoreErrors) (rw : RW) : RW :=
  if is_store_error (se_NotFound se) err then
    WriteMappedError (Some (E CodeNotFound "store.read" (Error_ err) (Some err))) rw
  else if is_store_error (se_VersionConflict se) err then
    WriteMappedError (Some (E CodeVersionConflict "store.write"
      "resource version does not match If-Match" (Some err))) rw
  else if is_store_error (se_Conflict se) err then
    WriteMappedError (Some (E CodeConflict "store.write" (Error_ err) (Some err))) rw
  else WriteMappedError (Some (E CodeInternal "store.write" (Error_ err) (Some err))) rw.

(** ** The capturing writer *)

Definition NewCaptureResponseWriter (rw : RW) : RW := CaptureRW 200 false "" rw.

Definition StatusCode (rw : RW) : Z :=
  match rw with CaptureRW s _ _ _ => s | _ => 0 end.
Definition BodyBytes (rw : RW) : string :=
  match rw with CaptureRW _ _ b _ => b | _ => "" end.

(** [ReadFrom]: the bytes of the reader go to the body and, through [io.Copy],
    to the inner writer. *)
Definition ReadFrom (data : string) (rw : RW) : RW :=
  match rw with
  | CaptureRW s wh b i =>
      let i := if decide (data = "") then i else Write_ data i in
      if bool_decide (data ≠ "") && negb wh then CaptureRW 200 true (b +:+ data) i
      else CaptureRW s wh (b +:+ data) i
  | _ => rw
  end.

(** ** Requests *)

(** What a JSON decoder gives for the body: the value of the first [Decode],
    and whether the second one reports the end of the input. *)
Definition DecodeJSON {V} (decode : body → option V) (decode_trailing : body → bool)
  (r : Request) (rw : RW) : option V * RW :=
  match decode (ReqBody r) with
  | None => (None, WriteError 400 "invalid_json" "Request body must be valid JSON" rw)
  | Some v =>
      if negb (decode_trailing (ReqBody r))
      then (None, WriteError 400 "invalid_json" "Request body must contain a single JSON value" rw)
      else (Some v, rw)
  end.

(** [uuid.Parse] is the parameter [parse]. *)
Definition PathUUID {U} (parse : string → option U) (raw name : string) (rw : RW) : option U * RW :=
  match parse raw with
  | Some u => (Some u, rw)
  | None =>
      let name := if decide (TrimSpace name = "") then "id" else name in
      (None, WriteError 400 ("invalid_" +:+ name) (name +:+ " must be a valid UUID") rw)
  end.

Definition RequireIfMatchVersion (r : Request) (rw : RW) : option Z * RW :=
  let h := TrimSpace (header_get (Header r) "If-Match") in
  if decide (h = "") then
    (None, WriteError 428 "missing_if_match" "If-Match header is required" rw)
  else
    match ParseInt (TrimByte "034"%char h) with
    | None => (None, WriteError 400 "invalid_if_match" "If-Match must contain a numeric version" rw)
    | Some v => (Some v, rw)
    end.

Definition ParseInt64Query (r : Request) (key : string) (fallback : Z) : Z :=
  let raw := TrimSpace (query_get r key) in
  if decide (raw = "") then fallback
  else match ParseInt raw with Some v => v | None => fallback end.

Definition RequestIDFromContext (c : context) : string * bool :=
  match ctx_request_id c with
  | Some id => (id, bool_decide (TrimSpace id ≠ ""))
  | None => ("", false)
  end.

Definition RequestMetadata (r : Request) : list (string * string) :=
  [("method", Method r); ("path", Path r)] ++
  (let '(id, ok) := RequestIDFromContext (Ctx r) in if ok then [("request_id", id)] else []).

Definition RoutePattern `{Routing W} (r : Request) (w : W) : string :=
  match ctx_route (Ctx r) with
  | Some p => if decide (chi_pattern p w ≠ "") then chi_pattern p w else Path r
  | None => Path r
  end.

(** ** Endpoints *)

Definition HealthHandler {W} (service : string) : Handler W := λ _ rw w,
  (Returned, WriteJSON 200 (JObject [("service", JString service); ("status", JString "ok")]) rw, w).

Definition ReadyHandler {W} (ping : option (W → option error * W)) : Handler W := λ _ rw w,
  let ready rw := WriteJSON 200 (JObject [("status", JString "ready")]) rw in
  match ping with
  | None => (Returned, ready rw, w)
  | Some p =>
      match p w with
      | (Some err, w') => (Returned, WriteError 503 "not_ready" (Error_ err) rw, w')
      | (None, w') => (Returned, ready rw, w')
      end
  end.

(** [HandlerFor] is promhttp's handler of the metrics of a gatherer. *)
Definition MetricsHandlerFor {G W} (HandlerFor : G → Handler W) (DefaultGatherer : G) (gatherer : option G) : Handler W :=
  HandlerFor (default DefaultGatherer gatherer).

Definition MetricsHandler {G W} (HandlerFor : G → Handler W) (DefaultGatherer : G) : Handler W :=
  MetricsHandlerFor HandlerFor DefaultGatherer (Some DefaultGatherer).

(** ** Middleware *)

Definition set_request_id (id : string) (c : context) : context :=
  {| ctx_request_id := Some id; ctx_route := ctx_route c; ctx_actor := ctx_actor c;
     ctx_principal := ctx_principal c; ctx_state := ctx_state c |}.

(** [NewV7] and [NewString] are those of package uuid. *)
Definition newRequestID {W} (NewV7 : W → result error string * W) (NewString : W → string * W) (w : W)
  : string * W :=
  match NewV7 w with
  | (Ok id, w) => (id, w)
  | (Err _, w) => NewString w
  end.

(** [newRequestID] draws a fresh identifier from the world. *)
Definition WithRequestID {W} (newRequestID : W → string * W) (next : Handler W) : Handler W :=
  λ r rw w,
  let given := header_get (Header r) "X-Request-Id" in
  let '(id, w) := if decide (given = "") then newRequestID w else (given, w) in
  let rw := set_header "X-Request-Id" id rw in
  next (with_ctx (set_request_id id (Ctx r)) r) rw w.

(** [http.MaxBytesReader]: reading more than the limit is an error. *)
Definition MaxBytesReader (limit : Z) (b : body) : body :=
  match b with
  | Body (Ok s) =>
      if limit <? Z.of_nat (String.length s)
      then Body (Err (ErrForeign 413 "http: request body too large")) else b
  | _ => b
  end.

Definition WithMaxBodySize {W} (maxBytes : Z) (next : Handler W) : Handler W := λ r rw w,
  let r := if 0 <? maxBytes then with_body (MaxBytesReader maxBytes (ReqBody r)) r else r in
  next r rw w.

Record request_log := {
  rl_request_id : string;
  rl_method : string;
  rl_path : string;
  rl_route : string;
  rl_status : Z;
}.

(** [WithRequestLogging]; the log line is returned beside the outcome (none when
    the handler panics). *)
Definition WithRequestLogging `{Routing W} (next : Handler W) (r : Request) (rw : RW) (w : W)
  : list request_log * (outcome * RW * W) :=
  let '(o, recorder, w') := next r (NewCaptureResponseWriter rw) w in
  match o with
  | Panicked _ => ([], (o, unwrap recorder, w'))
  | Returned =>
      ([{| rl_request_id := (RequestIDFromContext (Ctx r)).1; rl_method := Method r;
           rl_path := Path r; rl_route := RoutePattern r w'; rl_status := StatusCode recorder |}],
       (o, unwrap recorder, w'))
  end.

(** otelhttp: its middleware, with the formatter of span names, and renaming the span
    of a context. *)
Class OtelHTTP (W : Type) := {
  NewMiddleware : string → (Request → W → string) → Handler W → Handler W;
  SetSpanName : context → string → W → W;
}.

Section Telemetry.
Context {W : Type} `{!Routing W, !OtelHTTP W}.

(** The formatter of span names. *)
Definition span_name (r : Request) (w : W) : string :=
  let route := RoutePattern r w in
  Method r +:+ " " +:+ (if decide (route = "") then "/" else route).

(** The handler that [WithTelemetry] gives to otelhttp. *)
Definition renaming (next : Handler W) : Handler W := λ r rw w,
  let '(o, rw, w) := next r rw w in
  match o with
  | Panicked _ => (o, rw, w)
  | Returned =>
      let route := RoutePattern r w in
      (o, rw, if decide (route ≠ Path r) then SetSpanName (Ctx r) (Method r +:+ " " +:+ route) w else w)
  end.

Definition WithTelemetry (service : string) (next : Handler W) : Handler W :=
  NewMiddleware service span_name (renaming next).
End Telemetry.

(** ** [mime.ParseMediaType] *)

Definition tspecial (a : ascii) : bool :=
  existsb (Z.eqb (code a)) [40; 41; 60; 62; 64; 44; 59; 58; 92; 34; 47; 91; 93; 63; 61].
Definition mime_token (a : ascii) : bool :=
  (32 <? code a) && (code a <? 127) && negb (tspecial a).

Fixpoint consume_token (l : list ascii) : list ascii * list ascii :=
  match l with
  | [] => ([], [])
  | a :: l' => if mime_token a then let '(t, r) := consume_token l' in (a :: t, r) else ([], l)
  end.

(** The inside of a quoted string after its opening quote; [None] when it does
    not end or holds a line break. *)
Fixpoint consume_quoted (l : list ascii) : option (list ascii * list ascii) :=
  match l with
  | [] => None
  | a :: l' =>
      if code a =? 34 then Some ([], l')
      else if code a =? 92 then
        match l' with
        | b :: l'' =>
            if tspecial b then
              match consume_quoted l'' with Some (v, r) => Some (b :: v, r) | None => None end
            else match consume_quoted l' with Some (v, r) => Some (a :: v, r) | None => None end
        | [] => None
        end
      else if (code a =? 13) || (code a =? 10) then None
      else match consume_quoted l' with Some (v, r) => Some (a :: v, r) | None => None end
  end.

(** [consumeValue], with the failure of the caller's test as [None]. *)
Definition consume_value (l : list ascii) : option (list ascii * list ascii) :=
  match l with
  | [] => None
  | a :: l' =>
      if code a =? 34 then consume_quoted l'
      else match consume_token l with ([], _) => None | tr => Some tr end
  end.

(** [consumeMediaParam]: the parameter and what follows, or [None]. *)
Definition consume_param (l : list ascii) : option (list ascii * list ascii * list ascii) :=
  match trim_left_space l with
  | a :: l1 =>
      if code a =? 59 then
        match consume_token (trim_left_space l1) with
        | ([], _) => None
        | (k, l2) =>
            match trim_left_space l2 with
            | e :: l3 =>
                if code e =? 61 then
                  match consume_value (trim_left_space l3) with
                  | Some (v, rest) => Some (lower_byte <$> k, v, rest)
                  | None => None
                  end
                else None
            | [] => None
            end
        end
      else None
  | [] => None
  end.

(** The loop over the parameters; each round consumes at least a byte, so the
    length of the input is enough fuel. *)
Fixpoint params_ok (fuel : nat) (seen : list (list ascii * list ascii)) (l : list ascii) : bool :=
  match trim_left_space l with
  | [] => true
  | v =>
      match fuel with
      | O => false
      | S fuel' =>
          match consume_param v with
          | None => bool_decide (trim_right_space v = [";"%char])
          | Some (k, x, rest) =>
              if existsb (λ kv, bool_decide (kv.1 = k) && bool_decide (kv.2 ≠ x)) seen
              then false
              else params_ok fuel' ((k, x) :: seen) rest
          end
      end
  end.

(** The media type, when there is no error. *)
Definition ParseMediaType `{Unicode} (v : string) : option string :=
  let '(base, rest) :=
    match cut_byte ";"%char (bytes_of v) with
    | Some (b, r) => (b, ";"%char :: r)
    | None => (bytes_of v, [])
    end in
  let mediatype := TrimSpace (ToLower (of_bytes base)) in
  match consume_token (bytes_of mediatype) with
  | ([], _) => None
  | (_, []) => if params_ok (length rest) [] rest then Some mediatype else None
  | (_, c :: sub) =>
      if code c =? 47 then
        match consume_token sub with
        | ([], _) => None
        | (_, []) => if params_ok (length rest) [] rest then Some mediatype else None
        | (_, _ :: _) => None
        end
      else None
  end.

(** ** Browser security *)

Definition setHeaderIfEmpty (k v : string) (h : header) : header :=
  if decide (header_get h k = "") then header_set k v h else h.

Definition unsafeHTTPMethod (m : string) : bool :=
  negb (bool_decide (m ∈ ["GET"; "HEAD"; "OPTIONS"; "TRACE"])).

Definition requestHasBody (r : Request) : bool :=
  match ReqBody r with
  | BodyNil | NoBody => false
  | Body _ =>
      if (0 <? ContentLength r) || (ContentLength r =? -1) then true
      else bool_decide (TransferEncoding r ≠ [])
  end.

Definition allowedRequestContentType `{Unicode} (mediaType : string) : bool :=
  let m := ToLower (TrimSpace mediaType) in
  bool_decide (m = "application/json")
  || HasSuffix m "+json"
  || bool_decide (m = "application/x-www-form-urlencoded")
  || bool_decide (m = "multipart/form-data")
  || bool_decide (m ∈ ["application/protobuf"; "application/x-protobuf"; "application/proto"])
  || HasSuffix m "+proto"
  || bool_decide (m = "application/grpc")
  || HasPrefix m "application/grpc+"
  || bool_decide (m ∈ ["application/grpc-web"; "application/grpc-web-text"])
  || HasPrefix m "application/grpc-web+" || HasPrefix m "application/grpc-web-text+"
  || bool_decide (m = "application/octet-stream")
  || bool_decide (m = "application/x-ndjson").

Definition security_headers : list (string * string) :=
  [("X-Content-Type-Options", "nosniff");
   ("X-Frame-Options", "DENY");
   ("Referrer-Policy", "no-referrer");
   ("Content-Security-Policy", "default-src 'self'; object-src 'none'; base-uri 'none'; frame-ancestors 'none'; script-src 'self' 'unsafe-inline'; style-src 'self' 'unsafe-inline'; img-src 'self' data:; connect-src 'self'");
   ("Permissions-Policy", "camera=(), microphone=(), geolocation=(), payment=(), usb=()");
   ("Cross-Origin-Opener-Policy", "same-origin");
   ("Cross-Origin-Resource-Policy", "same-origin")].

Definition WithSecurityHeaders {W} (next : Handler W) : Handler W := λ r rw w,
  let rw := foldl (λ rw kv, rw_update_header (setHeaderIfEmpty kv.1 kv.2) rw) rw security_headers in
  next r rw w.

Definition WithFetchMetadataProtection {W} (next : Handler W) : Handler W := λ r rw w,
  if unsafeHTTPMethod (Method r)
     && EqualFold (TrimSpace (header_get (Header r) "Sec-Fetch-Site")) "cross-site"
  then (Returned, WriteError 403 "cross_site_request"
                    "cross-site browser requests are not allowed" rw, w)
  else next r rw w.

Definition WithRequestContentTypeValidation `{Unicode} {W} (next : Handler W) : Handler W :=
  λ r rw w,
  if negb (unsafeHTTPMethod (Method r)) || negb (requestHasBody r) then next r rw w
  else
    let raw := TrimSpace (header_get (Header r) "Content-Type") in
    if decide (raw = "") then
      (Returned, WriteError 415 "missing_content_type"
                   "request body requires a Content-Type header" rw, w)
    else
      match ParseMediaType raw with
      | Some m =>
          if allowedRequestContentType m then next r rw w
          else (Returned, WriteError 415 "unsupported_content_type"
                            "request Content-Type is not supported" rw, w)
      | None => (Returned, WriteError 415 "unsupported_content_type"
                             "request Content-Type is not supported" rw, w)
      end.

Definition WithBrowserSecurityDefaults `{Unicode} {W} (next : Handler W) : Handler W :=
  WithSecurityHeaders (WithFetchMetadataProtection (WithRequestContentTypeValidation next)).

(** ** Lemmas on responses *)

(** Copying from a reader is a write of what it has. *)
Lemma write_rec_any first first' data rw : write_rec first data rw = write_rec first' data rw.
Proof.
  revert first first'. induction rw as [w|s [] b i IH|wh i IH]; intros first first'; cbn.
  - destruct first, first'; by rewrite ?wire_write_first.
  - done.
  - done.
  - f_equal. by apply IH.
Qed.

Lemma ReadFrom_write data s wh b i :
  ReadFrom data (CaptureRW s wh b i)
  = if decide (data = "") then CaptureRW s wh b i else Write_ data (CaptureRW s wh b i).
Proof.
  unfold ReadFrom. case_decide as Hd.
  - subst data. rewrite bool_decide_false by auto. cbn. by rewrite string_app_nil_r.
  - rewrite bool_decide_true by done. unfold Write_. destruct wh; cbn; [done|]. f_equal. apply write_rec_any.
Qed.

Definition json_body (v : json) : string := Marshal v +:+ newline.
Definition error_body (code message : string) : string := json_body (ErrorResponse code message).

Lemma WriteJSON_responds status v rw :
  informational status = false → fresh rw →
  responds (Some status) (json_body v) (WriteJSON status v rw).
Proof.
  intros Hs Hf. unfold WriteJSON, EncodeJSON.
  apply (responds_header (header_set "Content-Type" "application/json")) in Hf.
  apply (responds_write_header status) in Hf; [|done].
  by apply (responds_write (json_body v)) in Hf.
Qed.

Lemma WriteError_responds status code message rw :
  informational status = false → fresh rw →
  responds (Some status) (error_body code message) (WriteError status code message rw).
Proof. apply WriteJSON_responds. Qed.
#[export] Hint Resolve WriteJSON_responds WriteError_responds : go.

Lemma live_write_header code rw : rw_header (WriteHeader code rw) = rw_header rw.
Proof.
  unfold rw_header. induction rw as [w|s [] b i IH|wh i IH]; cbn; try done.
  unfold wire_write_header. by repeat case_match.
Qed.

Lemma live_write data rw : rw_header (Write_ data rw) = rw_header rw.
Proof.
  unfold rw_header, Write_. generalize false.
  induction rw as [w|s [] b i IH|wh i IH]; intros f; cbn; [|by apply IH..].
  unfold wire_write, wire_write_header. by repeat (case_match; simplify_eq/=).
Qed.

Lemma live_update f rw : rw_header (rw_update_header f rw) = f (rw_header rw).
Proof. unfold rw_header. by induction rw. Qed.

Lemma live_WriteJSON status v rw :
  rw_header (WriteJSON status v rw) = header_set "Content-Type" "application/json" (rw_header rw).
Proof. unfold WriteJSON, EncodeJSON, set_header. by rewrite live_write, live_write_header, live_update. Qed.

(** The header that is sent is the one that is live then. *)
Lemma sent_update f rw : sent (base (rw_update_header f rw)) = sent (base rw).
Proof. by induction rw. Qed.

Lemma sent_write_header code rw : sent (base rw) = None →
  sent (base (WriteHeader code rw)) = None ∨ sent (base (WriteHeader code rw)) = Some (code, rw_header rw).
Proof.
  unfold rw_header. induction rw as [w|s [] b i IH|wh i IH]; cbn; auto.
  unfold wire_write_header. intros Hs. rewrite Hs. destruct (informational code); auto.
Qed.

Lemma sent_write data rw : ∃ st,
  sent (base (Write_ data rw)) = match sent (base rw) with Some x => Some x | None => Some (st, rw_header rw) end.
Proof.
  exists 200. unfold Write_, rw_header. generalize false. induction rw as [w|s [] b i IH|wh i IH]; intros f; cbn; [|apply IH..].
  replace (wire_write data (if f then wire_write_header 200 w else w)) with (wire_write data w)
    by (destruct f; by rewrite ?wire_write_first).
  unfold wire_write, wire_write_header. destruct (sent w) as [[c h]|] eqn:E; cbn; rewrite ?E.
  - by destruct (body_allowed c).
  - done.
Qed.

Lemma sent_WriteJSON status v rw : sent (base rw) = None →
  ∃ st, sent (base (WriteJSON status v rw))
        = Some (st, header_set "Content-Type" "application/json" (rw_header rw)).
Proof.
  intros Hs. unfold WriteJSON, EncodeJSON, set_header. set (rw1 := rw_update_header _ rw).
  assert (sent (base rw1) = None) as H1 by (unfold rw1; by rewrite sent_update).
  assert (rw_header rw1 = header_set "Content-Type" "application/json" (rw_header rw)) as Hl by apply live_update.
  destruct (sent_write (Marshal v +:+ newline) (WriteHeader status rw1)) as [st ->].
  rewrite live_write_header, Hl. destruct (sent_write_header status rw1 H1) as [-> | ->]; [by exists st|].
  exists status. by rewrite Hl.
Qed.

(** ** Entity tags *)

Lemma drop_byte_ne c a l : a ≠ c → drop_byte c (a :: l) = a :: l.
Proof. intros Hne. cbn. by rewrite (proj2 (Ascii.eqb_neq a c)). Qed.

Lemma TrimByte_quoted c l a k b m :
  l = a :: k → l = m ++ [b] → a ≠ c → b ≠ c →
  TrimByte c (of_bytes (c :: l ++ [c])) = of_bytes l.
Proof.
  intros Hk Hm Ha Hb. unfold TrimByte. rewrite bytes_of_of_bytes. f_equal.
  cbn [drop_byte]. rewrite Ascii.eqb_refl. rewrite Hk at 1. rewrite <- app_comm_cons.
  rewrite drop_byte_ne by done. rewrite app_comm_cons, <- Hk, rev_app_distr. cbn.
  rewrite Ascii.eqb_refl. rewrite Hm, rev_app_distr. cbn [rev app].
  rewrite drop_byte_ne by done.
  rewrite <- (rev_involutive (m ++ [b])). f_equal. by rewrite rev_app_distr.
Qed.

Lemma digit_not_quote a : is_Some (digit a) → a ≠ "034"%char.
Proof. intros Hd%digit_code ->. by vm_compute in Hd; destruct Hd. Qed.

Lemma FormatInt_ends z :
  ∃ a k b m, bytes_of (FormatInt z) = a :: k ∧ bytes_of (FormatInt z) = m ++ [b] ∧
             a ≠ "034"%char ∧ b ≠ "034"%char.
Proof.
  destruct (FormatInt_bytes z) as (sign & a & l & He & Hd & Hs & _). rewrite He.
  destruct (exists_last (l := a :: l)) as (m & b & Hm); [done|].
  assert (b ≠ "034"%char) as Hb.
  { apply digit_not_quote. unfold decimal in Hd. rewrite Hm in Hd.
    apply Forall_app in Hd as [_ Hd]. by apply Forall_cons in Hd as [? _]. }
  assert (a ≠ "034"%char) as Ha by (apply digit_not_quote; by apply Forall_cons in Hd as [? _]).
  destruct Hs as [->| ->]; cbn.
  - exists a, l, b, m. rewrite <- Hm. done.
  - exists "-"%char, (a :: l), b, ("-"%char :: m). rewrite <- app_comm_cons, <- Hm. done.
Qed.

Lemma etag_bytes v : etag v = of_bytes ("034"%char :: bytes_of (FormatInt v) ++ ["034"%char]).
Proof.
  apply bytes_of_inj. unfold etag. autorewrite with gostr. done.
Qed.

Lemma etag_parses v : in_int64 v →
  TrimSpace (etag v) = etag v ∧ ParseInt (TrimByte "034"%char (etag v)) = Some v.
Proof.
  intros Hv. rewrite etag_bytes. destruct (FormatInt_ends v) as (a & k & b & m & H1 & H2 & Ha & Hb).
  split.
  - eapply TrimSpace_solid; [by rewrite bytes_of_of_bytes| |by vm_compute|].
    + rewrite bytes_of_of_bytes. by rewrite app_comm_cons.
    + by vm_compute.
  - rewrite (TrimByte_quoted _ _ a k b m) by done.
    rewrite of_bytes_bytes_of. by apply ParseInt_FormatInt.
Qed.

(** ** Properties *)

(** C35: optimistic concurrency works end to end.  On a writer that has not answered,
    the header that a mutation response sends carries an entity tag for version [v]
    which, sent back in If-Match, is read as exactly [v], and the guard leaves the
    response alone. *)
Theorem etag_round_trip status payload v seq rw :
  in_int64 v → sent (base rw) = None →
  ∃ st h, sent (base (WriteMutationJSON status payload (Some v) seq rw)) = Some (st, h) ∧
  ∀ r rw', header_get (Header r) "If-Match" = header_get h "ETag" →
           RequireIfMatchVersion r rw' = (Some v, rw').
Proof.
  intros Hv Hs. unfold WriteMutationJSON.
  destruct (sent_WriteJSON status payload (SetETag v (set_header "X-Change-Seq" (FormatInt seq) rw))) as [st Hst].
  { unfold SetETag, set_header. by rewrite !sent_update. }
  exists st. eexists. split; [exact Hst|]. intros r rw' Hh. unfold RequireIfMatchVersion. rewrite Hh.
  rewrite header_get_set_ne by done. unfold SetETag, set_header. rewrite live_update, header_get_set.
  destruct (etag_parses v Hv) as [-> ->]. by rewrite decide_False.
Qed.

Lemma etag_round_trip_witness :
  let r := {| Method := "PUT"; Path := "/a"; Query := [];
              Header := {["If-Match" := [etag (-7)]]}; RemoteAddr := ""; ReqBody := NoBody;
              ContentLength := 0; TransferEncoding := []; Ctx := Ctx example_request |} in
  RequireIfMatchVersion r example_writer = (Some (-7), example_writer).
Proof.
  destruct (etag_round_trip 200 JNull (-7) 3 example_writer) as (st & h & Hs & Hr); [by vm_compute|reflexivity|].
  apply Hr.
  assert (Some (etag (-7)) = (λ x, header_get x.2 "ETag") <$> Some (st, h)) as He by (rewrite <- Hs; by vm_compute).
  injection He as <-. reflexivity.
Defined.

(** What the capturing writer shows once a handler is done with it. *)
Lemma capture_faithful rw rec :
  fresh rw → rtc plain_step (NewCaptureResponseWriter rw) rec →
  ∃ st, responds st (BodyBytes rec) (unwrap rec) ∧ StatusCode rec = default 200 st ∧
        final_status st.
Proof.
  intros Hf Hs. pose proof (same_shape_steps _ _ (plain_steps _ _ Hs)) as Hsh.
  destruct (responds_steps None "" _ _ Hs) as (st & b & Hr & Hfin); [by repeat split|done|].
  destruct rec as [|s wh c i|]; try done. exists st. cbn in *.
  by destruct Hr as (-> & -> & -> & Hr).
Qed.

(** The capturing writer records what was sent.  After any handler that
    sends no informational status and does not flush, the captured status is the one the writer below it sent (200 when nothing
    was sent, as the server then answers) and the captured bytes are its body. *)
Theorem capture_records_response {W} (h : Handler W) r rw w :
  answers_plainly h → fresh rw →
  let rec := (h r (NewCaptureResponseWriter rw) w).1.2 in
  ∃ st, StatusCode rec = default 200 st ∧ responds st (BodyBytes rec) (unwrap rec).
Proof.
  intros Hu Hf. cbn zeta.
  destruct (capture_faithful rw _ Hf (Hu r (NewCaptureResponseWriter rw) w)) as (st & ? & ? & _).
  eauto.
Qed.

Definition created : Handler nat := λ _ rw w,
  (Returned, Write_ "b" (Write_ "a" (WriteHeader 201 rw)), w).

Lemma created_plain : answers_plainly created.
Proof.
  intros r rw w. cbn. eapply rtc_l; [by apply (plain_status 201)|].
  eapply rtc_l; [apply (plain_write "a")|]. apply rtc_once, plain_write.
Qed.

Lemma capture_records_response_witness :
  let rec := (created example_request (NewCaptureResponseWriter example_writer) 0%nat).1.2 in
  StatusCode rec = 201 ∧ BodyBytes rec = "ab" ∧
  ∃ st, StatusCode rec = default 200 st ∧ responds st (BodyBytes rec) (unwrap rec).
Proof.
  split; [reflexivity|]. split; [reflexivity|].
  apply (capture_records_response created example_request example_writer 0%nat);
    [apply created_plain|done].
Defined.

(** An informational status (for instance 103 Early Hints) sent through the
    capturing writer makes it drop the final one.  The client of a handler that
    sends a hint and then any other status gets 200, and the recorder reports
    the hint as the response's status. *)
Theorem capture_drops_status_after_hint hint status data rw :
  informational hint = true → sent rw = None →
  let rec := Write_ data (WriteHeader status (WriteHeader hint (NewCaptureResponseWriter (NetRW rw)))) in
  StatusCode rec = hint ∧ fst <$> sent (base rec) = Some 200.
Proof.
  intros Hh Hn. cbn.
  assert (wire_write_header hint rw = rw) as -> by (unfold wire_write_header; by rewrite Hn, Hh).
  unfold wire_write, wire_write_header. by rewrite Hn.
Qed.

Lemma capture_drops_status_after_hint_witness :
  let rec := Write_ "no" (WriteHeader 404 (WriteHeader 103
               (NewCaptureResponseWriter (NetRW {| live := ∅; sent := None; out := "" |})))) in
  StatusCode rec = 103 ∧ fst <$> sent (base rec) = Some 200.
Proof. apply (capture_drops_status_after_hint 103 404 "no"); reflexivity. Defined.

(** The optional interfaces of the server's writer: [None] when it lacks them (a
    connection of HTTP/2 cannot be hijacked, one of HTTP/1 cannot push). *)
Class NetWriter (W : Type) := {
  net_conn : Type;
  net_Hijack : wire → option (W → result error net_conn * W);
  net_Push : wire → option (string → W → option error * W);
}.

Definition ErrNotSupported : error := ErrNew "http.ErrNotSupported" "feature not supported".

Section Optional.
Context {W : Type} `{!NetWriter W}.

(** The [http.Hijacker] and the [http.Pusher] that a writer is, if it is one: the
    capturing writer always has the methods, the recovery writer never. *)
Fixpoint hijacker (rw : RW) : option (W → result error net_conn * W) :=
  match rw with
  | NetRW w => net_Hijack w
  | CaptureRW _ _ _ i => Some (λ w, match hijacker i with None => (Err ErrNotSupported, w) | Some h => h w end)
  | RecoveryRW _ _ => None
  end.

Fixpoint pusher (rw : RW) : option (string → W → option error * W) :=
  match rw with
  | NetRW w => net_Push w
  | CaptureRW _ _ _ i =>
      Some (λ target w, match pusher i with None => (Some ErrNotSupported, w) | Some p => p target w end)
  | RecoveryRW _ _ => None
  end.

(** [Hijack] and [Push] of a capturing writer around [inner]. *)
Definition Hijack (inner : RW) (w : W) : result error net_conn * W :=
  match hijacker inner with None => (Err ErrNotSupported, w) | Some h => h w end.
Definition Push (inner : RW) (target : string) (w : W) : option error * W :=
  match pusher inner with None => (Some ErrNotSupported, w) | Some p => p target w end.

(** Hijacking reaches the server's connection through any number of capturing writers,
    and a recovery writer between them hides it. *)
Fixpoint captures (n : nat) (i : RW) : RW :=
  match n with O => i | S n => NewCaptureResponseWriter (captures n i) end.

Lemma hijack_reaches_connection n i w : Hijack (captures n i) w = Hijack i w.
Proof. induction n as [|n IH]; [done|]. exact IH. Qed.

Lemma push_reaches_connection n i target w : Push (captures n i) target w = Push i target w.
Proof. induction n as [|n IH]; [done|]. exact IH. Qed.

Lemma recovery_hides_connection n wh i target w :
  Hijack (captures n (RecoveryRW wh i)) w = (Err ErrNotSupported, w) ∧
  Push (captures n (RecoveryRW wh i)) target w = (Some ErrNotSupported, w).
Proof. by rewrite hijack_reaches_connection, push_reaches_connection. Qed.
End Optional.

(** Renaming the span leaves the answer as the handler gave it. *)
Lemma renaming_answer `{Routing W, !OtelHTTP W} (next : Handler W) r rw w :
  (renaming next r rw w).1 = (next r rw w).1.
Proof. unfold renaming. by destruct (next r rw w) as [[[] rw1] w1]. Qed.

(** A status that is set after a flush reaches the recorder and not the client. *)
Theorem capture_misses_flushed_status status rw :
  informational status = false → sent rw = None →
  let rec := WriteHeader status (Flush (NewCaptureResponseWriter (NetRW rw))) in
  StatusCode rec = status ∧ fst <$> sent (base rec) = Some 200.
Proof. intros Hi Hn. cbn. unfold wire_write_header. by rewrite Hn. Qed.

(** *** The browser guards *)

(** The decision on a request, before any handler: the status and error code of
    the rejection, if any. *)
Definition guard_verdict `{Unicode} (r : Request) : option (Z * string) :=
  if negb (unsafeHTTPMethod (Method r)) then None
  else if EqualFold (TrimSpace (header_get (Header r) "Sec-Fetch-Site")) "cross-site"
  then Some (403, "cross_site_request")
  else if negb (requestHasBody r) then None
  else if decide (TrimSpace (header_get (Header r) "Content-Type") = "")
  then Some (415, "missing_content_type")
  else match ParseMediaType (TrimSpace (header_get (Header r) "Content-Type")) with
       | Some m => if allowedRequestContentType m then None else Some (415, "unsupported_content_type")
       | None => Some (415, "unsupported_content_type")
       end.

Definition secured (kvs : list (string * string)) (h : header) : header :=
  foldl (λ h kv, setHeaderIfEmpty kv.1 kv.2 h) h kvs.

Lemma secured_rw kvs rw :
  foldl (λ rw kv, rw_update_header (setHeaderIfEmpty kv.1 kv.2) rw) rw kvs =
  rw_update_header (secured kvs) rw.
Proof.
  revert rw. induction kvs as [|kv kvs IH]; intros rw; cbn [foldl].
  - induction rw as [[l s o]|s wh b i IH|wh i IH]; cbn; by rewrite <- ?IH.
  - rewrite IH. clear IH. induction rw as [[l s o]|s wh b i IH|wh i IH]; cbn; by rewrite ?IH.
Qed.

Lemma setHeaderIfEmpty_get k v h :
  header_get (setHeaderIfEmpty k v h) k = if decide (header_get h k = "") then v else header_get h k.
Proof. unfold setHeaderIfEmpty. case_decide; [apply header_get_set|done]. Qed.

Lemma setHeaderIfEmpty_get_ne k k' v h :
  CanonicalHeaderKey k ≠ CanonicalHeaderKey k' →
  header_get (setHeaderIfEmpty k v h) k' = header_get h k'.
Proof. intros Hne. unfold setHeaderIfEmpty. case_decide; [by apply header_get_set_ne|done]. Qed.

Lemma secured_get kvs h k v :
  NoDup ((λ kv, CanonicalHeaderKey kv.1) <$> kvs) → (k, v) ∈ kvs →
  header_get (secured kvs h) k = if decide (header_get h k = "") then v else header_get h k.
Proof.
  revert h. induction kvs as [|[k0 v0] kvs IH]; intros h Hnd Hin; [by apply elem_of_nil in Hin|].
  cbn in Hnd. apply NoDup_cons in Hnd as [Hni Hnd]. cbn [secured foldl fst snd].
  apply elem_of_cons in Hin as [[= -> ->]|Hin].
  - rewrite <- setHeaderIfEmpty_get. clear IH. generalize (setHeaderIfEmpty k0 v0 h).
    induction kvs as [|[k1 v1] kvs IH]; intros h1; [done|]. cbn in Hni, Hnd.
    apply not_elem_of_cons in Hni as [Hne Hni]. apply NoDup_cons in Hnd as [_ Hnd].
    cbn. rewrite IH by done. by rewrite setHeaderIfEmpty_get_ne.
  - change (foldl _ _ kvs) with (secured kvs (setHeaderIfEmpty k0 v0 h)). rewrite IH by done.
    rewrite setHeaderIfEmpty_get_ne; [done|]. intros He. apply Hni. rewrite He.
    by apply (list_elem_of_fmap_2 (λ kv, CanonicalHeaderKey kv.1) kvs (k, v)).
Qed.

Lemma security_headers_nodup : NoDup ((λ kv, CanonicalHeaderKey kv.1) <$> security_headers).
Proof. apply (bool_decide_unpack _). by vm_compute. Qed.

(** The browser guards.  Every response, rejected or not, starts with the
    hardening headers (a value set before is kept); a request the guards reject
    is answered with their status and error code and never reaches the handler;
    any other request reaches it once, unchanged.  In particular a cross-site
    write is rejected whatever its body. *)
Theorem browser_guards `{Unicode} {W} (next : Handler W) r rw w :
  fresh rw →
  let '(o, rw', w') := WithBrowserSecurityDefaults next r rw w in
  ∃ rw1, fresh rw1 ∧
  (∀ k v, (k, v) ∈ security_headers →
     header_get (rw_header rw1) k =
       if decide (header_get (rw_header rw) k = "") then v else header_get (rw_header rw) k) ∧
  match guard_verdict r with
  | Some (status, code) =>
      o = Returned ∧ w' = w ∧
      ∃ msg, rw' = WriteError status code msg rw1 ∧ responds (Some status) (error_body code msg) rw'
  | None => (o, rw', w') = next r rw1 w
  end.
Proof.
  intros Hf. unfold WithBrowserSecurityDefaults, WithSecurityHeaders. rewrite secured_rw.
  set (rw1 := rw_update_header _ rw).
  assert (fresh rw1) as Hf1 by (by apply responds_header).
  assert (∀ k v, (k, v) ∈ security_headers → header_get (rw_header rw1) k =
    if decide (header_get (rw_header rw) k = "") then v else header_get (rw_header rw) k) as Hh.
  { intros k v Hin. unfold rw1. rewrite live_update.
    apply secured_get; [apply security_headers_nodup|done]. }
  unfold WithFetchMetadataProtection, WithRequestContentTypeValidation, guard_verdict.
  destruct (unsafeHTTPMethod (Method r)); cbn [andb orb negb];
    [|destruct (next r rw1 w) as [[??]?] eqn:E; exists rw1; by rewrite E].
  destruct (EqualFold _ "cross-site"); [by eauto 10 with go|].
  destruct (requestHasBody r); cbn [negb]; [|destruct (next r rw1 w) as [[??]?] eqn:E; exists rw1; by rewrite E].
  case_decide; [by eauto 10 with go|].
  destruct (ParseMediaType _) as [m|]; [|by eauto 10 with go].
  destruct (allowedRequestContentType m); [|by eauto 10 with go].
  destruct (next r rw1 w) as [[??]?] eqn:E; exists rw1; by rewrite E.
Qed.

Lemma browser_guards_witness :
  let _ := ascii_unicode in
  let r := {| Method := "POST"; Path := "/a"; Query := [];
              Header := {["Sec-Fetch-Site" := ["Cross-Site"]]}; RemoteAddr := "";
              ReqBody := NoBody; ContentLength := 0; TransferEncoding := [];
              Ctx := Ctx example_request |} in
  (WithBrowserSecurityDefaults created r example_writer 0%nat).2 = 0%nat ∧
  ∃ b, responds (Some 403) b (WithBrowserSecurityDefaults created r example_writer 0%nat).1.2.
Proof.
  intros U r. pose proof (browser_guards created r example_writer 0%nat ltac:(done)) as H.
  destruct (WithBrowserSecurityDefaults created r example_writer 0%nat) as [[o rw'] w'].
  destruct H as (rw1 & _ & _ & Hv). change (guard_verdict r) with (Some (403, "cross_site_request")) in Hv.
  destruct Hv as (_ & -> & msg & _ & Hr). eauto.
Defined.
