(* ===== verification/Sha256.v ===== *)
(** * SHA-256 and hexadecimal ([crypto/sha256], [encoding/hex])

    The digest the packages key their stores with, on lists of bytes.  Words
    are [Z] below [2^32] with addition modulo [2^32]. *)

From S2P Require Import Prelude GoStrings.
From Stdlib Require Import Ascii.
#[local] Open Scope Z_scope.

Definition add32 (a b : Z) : Z := wrap32u (a + b).
Definition rotr (n x : Z) : Z :=
  Z.lor (Z.shiftr x n) (wrap32u (Z.shiftl x (32 - n))).
Definition not32 (x : Z) : Z := Z.lxor x (2 ^ 32 - 1).

(** The constants are the first 32 bits of the fractional parts of the cube roots
    (for the rounds) and square roots (for the initial state) of the first
    primes; they are computed from that, once, when this file is compiled. *)
Definition is_prime (n : nat) : bool :=
  forallb (λ d, negb (n mod d =? 0)%nat) (seq 2 (n - 2)).
Definition primes : list Z := Z.of_nat <$> List.filter is_prime (seq 2 310).

(** The integer cube root of [n], from its [bits] binary digits. *)
Fixpoint cube_root (bits : nat) (acc n : Z) : Z :=
  match bits with
  | O => acc
  | S b =>
      let r := acc + 2 ^ Z.of_nat b in
      cube_root b (if r * r * r <=? n then r else acc) n
  end.

Definition round_constants : list Z :=
  Eval vm_compute in (λ p, wrap32u (cube_root 35 0 (p * 2 ^ 96))) <$> take 64 primes.

Definition initial : list Z :=
  Eval vm_compute in (λ p, wrap32u (Z.sqrt (p * 2 ^ 64))) <$> take 8 primes.

Example constants_example :
  length round_constants = 64%nat ∧ last round_constants = Some 0xc67178f2 ∧
  head initial = Some 0x6a09e667.
Proof. done. Qed.

(** [n] bytes of [x], most significant first. *)
Fixpoint be_bytes (n : nat) (x : Z) : list Z :=
  match n with
  | O => []
  | S n' => be_bytes n' (Z.shiftr x 8) ++ [Z.land x 255]
  end.

(** The padded message: a 1 bit, zeros to 56 modulo 64, the length in bits. *)
Definition pad (m : list Z) : list Z :=
  let n := Z.of_nat (length m) in
  m ++ [128] ++ replicate (Z.to_nat ((55 - n) mod 64)) 0 ++ be_bytes 8 (8 * n).

Fixpoint words (l : list Z) : list Z :=
  match l with
  | a :: b :: c :: d :: l' =>
      Z.lor (Z.lor (Z.shiftl a 24) (Z.shiftl b 16)) (Z.lor (Z.shiftl c 8) d) :: words l'
  | _ => []
  end.

(** The message schedule, latest word first. *)
Fixpoint schedule (n : nat) (w : list Z) : list Z :=
  match n with
  | O => w
  | S n' =>
      let at_ i := nth i w 0 in
      let s0 := let x := at_ 14%nat in Z.lxor (Z.lxor (rotr 7 x) (rotr 18 x)) (Z.shiftr x 3) in
      let s1 := let x := at_ 1%nat in Z.lxor (Z.lxor (rotr 17 x) (rotr 19 x)) (Z.shiftr x 10) in
      schedule n' (add32 (add32 (at_ 15%nat) s0) (add32 (at_ 6%nat) s1) :: w)
  end.

Definition round (st : list Z) (kw : Z * Z) : list Z :=
  match st with
  | [a; b; c; d; e; f; g; h] =>
      let S1 := Z.lxor (Z.lxor (rotr 6 e) (rotr 11 e)) (rotr 25 e) in
      let ch := Z.lxor (Z.land e f) (Z.land (not32 e) g) in
      let t1 := add32 (add32 h S1) (add32 ch (add32 kw.1 kw.2)) in
      let S0 := Z.lxor (Z.lxor (rotr 2 a) (rotr 13 a)) (rotr 22 a) in
      let maj := Z.lxor (Z.lxor (Z.land a b) (Z.land a c)) (Z.land b c) in
      let t2 := add32 S0 maj in
      [add32 t1 t2; a; b; c; add32 d t1; e; f; g]
  | _ => st
  end.

Definition block (st : list Z) (w16 : list Z) : list Z :=
  let ws := rev (schedule 48 (rev w16)) in
  zip_with add32 st (foldl round st (zip round_constants ws)).

Fixpoint blocks (n : nat) (st : list Z) (ws : list Z) : list Z :=
  match n with
  | O => st
  | S n' => blocks n' (block st (take 16 ws)) (drop 16 ws)
  end.

Definition sha256 (m : list Z) : list Z :=
  let ws := words (pad m) in
  blocks (length ws / 16) initial ws ≫= be_bytes 4.

Definition hex_nibble (z : Z) : ascii :=
  ascii_of_N (Z.to_N (if z <? 10 then 48 + z else 87 + z)).

(** [hex.EncodeToString]. *)
Definition hex_encode (l : list Z) : string :=
  of_bytes (l ≫= λ b, [hex_nibble (b / 16); hex_nibble (b mod 16)]).

(** [sha256.Sum256([]byte(s))] in hexadecimal. *)
Definition sha256_hex (s : string) : string := hex_encode (sha256 (code <$> bytes_of s)).

Example sha256_abc :
  sha256_hex "abc" = "ba7816bf8f01cfea414140de5dae2223b00361a396177a9cb410ff61f20015ad".
Proof. by vm_compute. Qed.

Example sha256_empty :
  sha256_hex "" = "e3b0c44298fc1c149afbf4c8996fb92427ae41e4649b934ca495991b7852b855".
Proof. by vm_compute. Qed.

Example sha256_two_blocks :
  sha256_hex "abcdbcdecdefdefgefghfghighijhijkijkljklmklmnlmnomnopnopq" =
  "248d6a61d20638b8e5c026930c3e6039a33ce45964ff2167f6ecedd419db06c1".
Proof. by vm_compute. Qed.
