(* ===== verification/RateLimit.v ===== *)
(** * The rate limiter (src/ratelimit)

    The limiter's configuration, its map of buckets, the local and the Redis
    decision, the HTTP middleware and the eviction of idle buckets.  Clock
    readings are arguments.  Redis is reached through [run_script], an
    operation of the world; the token-bucket script of redis.go is
    [token_script]. *)

From S2P Require Import Prelude GoStrings GoErrors GoFloat Json Http HttpKit Sha256 TokenBucket.
From Stdlib Require Import Ascii QArith Qround Qminmax Lqa.
#[local] Open Scope Z_scope.

Record Policy (F : Type) := {
  RequestsPerSecond : F;
  Burst : Z;
  Scope : string;
  Exempt : bool;
}.
Arguments Build_Policy {F}.
Arguments RequestsPerSecond {F} _.
Arguments Burst {F} _.
Arguments Scope {F} _.
Arguments Exempt {F} _.

(** ** The caller's identity *)

(** The text before and after the last separator. *)
Definition cut_last (c : ascii) (l : list ascii) : option (list ascii * list ascii) :=
  match cut_byte c (rev l) with
  | Some (after, before) => Some (rev before, rev after)
  | None => None
  end.

(** [net.SplitHostPort]: the host, when there is no error. *)
Definition SplitHostPort (s : string) : option string :=
  let l := bytes_of s in
  match l with
  | "["%char :: rest =>
      match cut_byte "]"%char rest with
      | Some (host, ":"%char :: port) =>
          if bool_decide (":"%char ∉ port) && bool_decide ("["%char ∉ host)
             && bool_decide ("["%char ∉ port) && bool_decide ("]"%char ∉ port)
          then Some (of_bytes host) else None
      | _ => None
      end
  | _ =>
      match cut_last ":"%char l with
      | Some (host, _) =>
          if bool_decide (":"%char ∉ host) && bool_decide ("["%char ∉ l)
             && bool_decide ("]"%char ∉ l)
          then Some (of_bytes host) else None
      | None => None
      end
  end.

(** The last part that is not blank, trimmed. *)
Fixpoint first_nonblank (l : list string) : option string :=
  match l with
  | [] => None
  | p :: l' => if decide (TrimSpace p ≠ "") then Some (TrimSpace p) else first_nonblank l'
  end.

Definition forwarded_ip (xff : string) : option string :=
  if decide (xff ≠ "") then first_nonblank (rev (SplitByte ","%char xff)) else None.

Definition clientIP (r : Request) : string :=
  match forwarded_ip (header_get (Header r) "X-Forwarded-For") with
  | Some ip => ip
  | None =>
      let xri := TrimSpace (header_get (Header r) "X-Real-Ip") in
      if decide (xri ≠ "") then xri
      else match SplitHostPort (RemoteAddr r) with
           | Some host => if decide (host ≠ "") then host else RemoteAddr r
           | None => RemoteAddr r
           end
  end.

Definition routePattern `{Routing W} (r : Request) (w : W) : string :=
  match ctx_route (Ctx r) with
  | Some p => if decide (chi_pattern p w ≠ "") then chi_pattern p w else Path r
  | None => Path r
  end.

Definition localBucketKey (scope key : string) : string := scope +:+ newline +:+ key.

(** ** Metric names and Redis keys *)

(** [unicode.IsLetter]/[IsDigit] and [unicode.ToLower] for a rune of more than
    one byte: its lower-case form when it is a letter or digit. *)
Class UnicodeRunes := { wide_letter : list ascii → option (list ascii) }.

Definition ascii_letter_or_digit (a : ascii) : bool :=
  between 48 57 a || between 65 90 a || between 97 122 a.

(** [skip] bytes of the rune just handled are still to be passed over. *)
Fixpoint prefix_runes `{UnicodeRunes} (skip : nat) (l : list ascii) : list ascii :=
  match l with
  | [] => []
  | a :: l' =>
      match skip with
      | S k => prefix_runes k l'
      | O =>
          match rune_width l with
          | O => "_"%char :: prefix_runes O l'
          | S O =>
              (if ascii_letter_or_digit a then lower_byte a else "_"%char) :: prefix_runes O l'
          | S k =>
              match wide_letter (take (S k) l) with
              | Some b => b ++ prefix_runes k l'
              | None => "_"%char :: prefix_runes k l'
              end
          end
      end
  end.

Definition metricPrefix `{UnicodeRunes} (serviceName : string) : string :=
  let s := TrimSpace serviceName in
  if decide (s = "") then "service"
  else
    let prefix := TrimByte "_"%char (of_bytes (prefix_runes O (bytes_of s))) in
    match bytes_of prefix with
    | [] => "service"
    | a :: _ => if between 48 57 a then "service_" +:+ prefix else prefix
    end.

Definition redisBucketKey `{UnicodeRunes} (serviceName scope key : string) : string :=
  let prefix := metricPrefix serviceName in
  let prefix := if decide (TrimSpace serviceName = "") then "shared" else prefix in
  "ratelimit:" +:+ prefix +:+ ":" +:+ sha256_hex (scope +:+ newline +:+ key).

(** ** The limiter *)

Section Limiter.
Context `{Float64 F} `{UnicodeRunes} {W : Type} `{!Routing W}.

(** A value a Redis script returned. *)
Inductive any :=
| AInt64 (z : Z)
| AFloat64 (x : F)
| AString (s : string)
| ABytes (s : string)
| AList (l : list any)
| AOther (type_name : string).

Definition type_name (v : any) : string :=
  match v with
  | AInt64 _ => "int64"
  | AFloat64 _ => "float64"
  | AString _ => "string"
  | ABytes _ => "[]uint8"
  | AList _ => "[]interface {}"
  | AOther t => t
  end.

(** The arguments of one run of the script. *)
Record script_args := {
  sa_key : string;
  sa_now_ms : Z;
  sa_rate : F;
  sa_burst : Z;
  sa_ttl_ms : Z;
}.

Record Config := {
  cfg_rps : F;
  cfg_burst : Z;
  CleanupInterval : duration;
  MaxAge : duration;
  ExemptPaths : option (gmap string bool);
  KeyFunc : option (Request → string);
  ScopeFunc : option (Request → W → string);
  PolicyFunc : option (Request → Policy F);
  RedisClient : option (script_args → W → result error any * W);
  ServiceName : string;
}.

Definition default_exempt : gmap string bool :=
  {["/healthz" := true; "/readyz" := true; "/metrics" := true]}.

Definition withDefaults (c : Config) : Config :=
  {| cfg_rps := if fleb (cfg_rps c) f0 then f_of_int 100 else cfg_rps c;
     cfg_burst := if cfg_burst c <=? 0 then 200 else cfg_burst c;
     CleanupInterval := if CleanupInterval c <=? 0 then Minute else CleanupInterval c;
     MaxAge := if MaxAge c <=? 0 then 5 * Minute else MaxAge c;
     ExemptPaths := match ExemptPaths c with None => Some default_exempt | x => x end;
     KeyFunc := match KeyFunc c with None => Some clientIP | x => x end;
     ScopeFunc := match ScopeFunc c with None => Some routePattern | x => x end;
     PolicyFunc := PolicyFunc c;
     RedisClient := RedisClient c;
     ServiceName := ServiceName c |}.

Record entry := { limiter : tokenBucket F; lastSeen : time }.

Record Limiter := { cfg : Config; entries : gmap string entry }.

Definition set_entries (m : gmap string entry) (l : Limiter) : Limiter :=
  {| cfg := cfg l; entries := m |}.

Definition New (c : Config) : Limiter := {| cfg := withDefaults c; entries := ∅ |}.

Definition Len (l : Limiter) : nat := size (entries l).

(** The map's part of [allowLocal], up to the release of the mutex. *)
Definition bucket_for (p : Policy F) (now : time) (e : option entry) : tokenBucket F :=
  match e with
  | None => newTokenBucket (RequestsPerSecond p) (Burst p) now
  | Some e =>
      if negb (feqb (rate (limiter e)) (RequestsPerSecond p))
         || negb (burst (limiter e) =? Burst p)
      then ReconfigureAt (RequestsPerSecond p) (Burst p) now (limiter e)
      else limiter e
  end.

Definition allowLocal (p : Policy F) (key : string) (now : time) (l : Limiter)
  : bool * duration * Limiter :=
  let bucketKey := localBucketKey (Scope p) key in
  let tb := bucket_for p now (entries l !! bucketKey) in
  let '(ok, wait, tb') := AllowAt now tb in
  (ok, wait, set_entries (<[bucketKey := {| limiter := tb'; lastSeen := now |}]> (entries l)) l).

Definition unix_epoch : time := 62135596800 * Second.
Definition UnixMilli (t : time) : Z := (t - unix_epoch) / Millisecond.

Definition entryTTL (l : Limiter) : duration := MaxAge (cfg l).

Definition int64FromAny (v : any) : option Z :=
  match v with
  | AInt64 z => Some z
  | AFloat64 x => Some (f_to_int64 x)
  | AString s | ABytes s => ParseInt s
  | _ => None
  end.

Definition allowRedis (run : script_args → W → result error any * W) (p : Policy F)
  (key : string) (now : time) (l : Limiter) (w : W) : result error (bool * duration) * W :=
  let '(r, w') :=
    run {| sa_key := redisBucketKey (ServiceName (cfg l)) (Scope p) key;
           sa_now_ms := UnixMilli now; sa_rate := RequestsPerSecond p; sa_burst := Burst p;
           sa_ttl_ms := milliseconds (entryTTL l) |} w in
  let res :=
    match r with
    | Err e => Err (ErrWrap "redis_ratelimit: " e "")
    | Ok (AList [v0; v1]) =>
        match int64FromAny v0 with
        | None => Err (ErrFmt ("redis_ratelimit: unexpected_allowed " +:+ type_name v0))
        | Some allowed =>
            match int64FromAny v1 with
            | None => Err (ErrFmt ("redis_ratelimit: unexpected_retry_after " +:+ type_name v1))
            | Some ms =>
                let retryAfter := wrap64 (ms * Millisecond) in
                let retryAfter := if retryAfter <=? 0 then Millisecond else retryAfter in
                Ok (allowed =? 1, retryAfter)
            end
        end
    | Ok v => Err (ErrFmt ("redis_ratelimit: unexpected_result " +:+ type_name v))
    end in
  (res, w').

(** [allowWithRetry]: the decision, the wait, and the error of Redis when the
    local buckets decided instead. *)
Definition allowWithRetry (p : Policy F) (key : string) (now : time) (l : Limiter) (w : W)
  : bool * duration * option error * Limiter * W :=
  match RedisClient (cfg l) with
  | Some run =>
      match allowRedis run p key now l w with
      | (Ok (allowed, retryAfter), w') => (allowed, retryAfter, None, l, w')
      | (Err e, w') =>
          let '(allowed, retryAfter, l') := allowLocal p key now l in
          (allowed, retryAfter, Some e, l', w')
      end
  | None =>
      let '(allowed, retryAfter, l') := allowLocal p key now l in
      (allowed, retryAfter, None, l', w)
  end.

Definition AllowContext (key : string) (now : time) (l : Limiter) (w : W)
  : bool * option error * Limiter * W :=
  let p := {| RequestsPerSecond := cfg_rps (cfg l); Burst := cfg_burst (cfg l);
              Scope := "global"; Exempt := false |} in
  let '(allowed, _, err, l', w') := allowWithRetry p key now l w in (allowed, err, l', w').

Definition Allow (key : string) (now : time) (l : Limiter) (w : W) : bool * Limiter * W :=
  let '(allowed, _, l', w') := AllowContext key now l w in (allowed, l', w').

Definition policyForRequest (l : Limiter) (r : Request) (w : W) : Policy F :=
  let scope := TrimSpace (match ScopeFunc (cfg l) with Some f => f r w | None => "" end) in
  let scope := if decide (scope = "") then Path r else scope in
  let exempt := match ExemptPaths (cfg l) with
                | Some m => default false (m !! Path r)
                | None => false
                end in
  let p := {| RequestsPerSecond := cfg_rps (cfg l); Burst := cfg_burst (cfg l);
              Scope := scope; Exempt := exempt |} in
  let p :=
    match PolicyFunc (cfg l) with
    | None => p
    | Some f =>
        let o := f r in
        {| RequestsPerSecond :=
             if fltb f0 (RequestsPerSecond o) then RequestsPerSecond o else RequestsPerSecond p;
           Burst := if 0 <? Burst o then Burst o else Burst p;
           Scope := if decide (TrimSpace (Scope o) ≠ "") then TrimSpace (Scope o) else Scope p;
           Exempt := if Exempt o then true else Exempt p |}
    end in
  {| RequestsPerSecond := RequestsPerSecond p; Burst := Burst p;
     Scope := if decide (Scope p = "") then "unknown" else Scope p;
     Exempt := Exempt p |}.

(** What the middleware reports: a metric sample, a callback. *)
Inductive limiter_event :=
| Hit (route action : string)
| OnLimited
| OnError (e : error).

Definition record_hit (route action : string) : limiter_event :=
  Hit (if decide (TrimSpace route = "") then "unknown" else route)
      (if decide (TrimSpace action = "") then "unknown" else action).

Definition retry_seconds (wait : duration) : Z :=
  let s := f_to_int64 (fceil (duration_seconds wait)) in
  if s <? 1 then 1 else s.

Definition limited_body : string :=
  "{" +:+ dquote +:+ "error" +:+ dquote +:+ ":" +:+ dquote +:+ "rate_limit_exceeded" +:+ dquote +:+ "}".

Definition limited_response (wait : duration) (rw : RW) : RW :=
  let rw := set_header "Content-Type" "application/json" rw in
  let rw := set_header "Retry-After" (FormatInt (retry_seconds wait)) rw in
  let rw := WriteHeader 429 rw in
  Write_ limited_body rw.

Definition request_key (l : Limiter) (r : Request) : string :=
  let key := TrimSpace (match KeyFunc (cfg l) with Some f => f r | None => "" end) in
  if decide (key = "") then "anonymous" else key.

(** [Middleware]; the handler's world [V] is beside the limiter's. *)
Definition Middleware {V} (next : Handler V) (now : time) (l : Limiter) (r : Request)
  (rw : RW) (w : W) (v : V) : outcome * RW * V * Limiter * W * list limiter_event :=
  let p := policyForRequest l r w in
  if Exempt p then
    let '(o, rw', v') := next r rw v in
    (o, rw', v', l, w, [record_hit (Scope p) "exempt"])
  else
    let '(allowed, retryAfter, err, l', w') := allowWithRetry p (request_key l r) now l w in
    let ev := match err with Some e => [OnError e] | None => [] end in
    if negb allowed then
      (Returned, limited_response retryAfter rw, v, l', w',
       ev ++ [record_hit (Scope p) "limited"; OnLimited])
    else
      let '(o, rw', v') := next r rw v in
      (o, rw', v', l', w', ev ++ [record_hit (Scope p) "allowed"]).

(** One tick of [cleanup]. *)
Definition sweep (now : time) (l : Limiter) : Limiter :=
  let cutoff := time_add now (wrap64 (- MaxAge (cfg l))) in
  set_entries (filter (λ kv, negb (time_before (lastSeen kv.2) cutoff)) (entries l)) l.

(** ** The Redis script

    A key of the store is the fields [tokens] and [updated_at_ms] of its hash, and
    the time on the server's clock after which the key is gone. *)
Definition redis_bucket : Type := F * F * Z.

(** [HMGET]: an expired key has no fields. *)
Definition live_fields (server_ms : Z) (k : option redis_bucket) : option (F * F) :=
  match k with
  | Some (tu, expires) => if server_ms <=? expires then Some tu else None
  | None => None
  end.

(** [PEXPIRE]: a time to live that is not positive deletes the key. *)
Definition pexpire (server_ms ttl_ms : Z) (tu : F * F) : option redis_bucket :=
  if 0 <? ttl_ms then Some (tu, server_ms + ttl_ms) else None.

Definition script_earn (now_ms rate burst : F) (tu : F * F) : F * F :=
  let '(tokens, updated) := tu in
  if fltb updated now_ms then
    let elapsed_seconds := fdiv (fsub now_ms updated) (f_of_int 1000) in
    let t := fadd tokens (fmul elapsed_seconds rate) in
    (if fltb t burst then t else burst, now_ms)
  else (tokens, updated).

(** The fields to store, [allowed] and [retry_after_ms]. *)
Definition script_take (rate ttl_ms : F) (tu : F * F) : F * F * (F * F) :=
  let '(tokens, updated) := tu in
  if fleb f1 tokens then (fsub tokens f1, updated, (f1, f0))
  else if fltb f0 rate
  then (tokens, updated, (f0, fceil (fmul (fdiv (fsub f1 tokens) rate) (f_of_int 1000))))
  else (tokens, updated, (f0, ttl_ms)).

(** One run at [server_ms] on the server's clock. *)
Definition token_script (server_ms : Z) (a : script_args) (k : option redis_bucket)
  : option redis_bucket * (F * F) :=
  let now_ms := f_of_int (sa_now_ms a) in
  let burst := f_of_int (sa_burst a) in
  let tu := default (burst, now_ms) (live_fields server_ms k) in
  let tu := script_earn now_ms (sa_rate a) burst tu in
  let '(tu, result) := script_take (sa_rate a) (f_of_int (sa_ttl_ms a)) tu in
  (pexpire server_ms (sa_ttl_ms a) tu, result).
End Limiter.
Arguments any F : clear implicits.
Arguments Config F W : clear implicits.
Arguments Limiter F W : clear implicits.
Arguments entry F : clear implicits.
Arguments script_args F : clear implicits.
Arguments redis_bucket F : clear implicits.

(** ** Bucket keys *)

Definition newline_free (s : string) : Prop := "010"%char ∉ bytes_of s.
#[export] Instance newline_free_dec s : Decision (newline_free s) := _.

Lemma localBucketKey_bytes s k :
  bytes_of (localBucketKey s k) = bytes_of s ++ "010"%char :: bytes_of k.
Proof. unfold localBucketKey. by rewrite !bytes_of_app. Qed.

Lemma localBucketKey_inj s1 k1 s2 k2 :
  (newline_free s1 ∧ newline_free s2) ∨ (newline_free k1 ∧ newline_free k2) →
  localBucketKey s1 k1 = localBucketKey s2 k2 → s1 = s2 ∧ k1 = k2.
Proof.
  intros Hnf He%(f_equal bytes_of). rewrite !localBucketKey_bytes in He.
  destruct Hnf as [[H1 H2]|[H1 H2]].
  - apply sep_app_inj in He as [Hs Hk]; [|done..]. by split; apply bytes_of_inj.
  - apply (f_equal (@rev ascii)) in He. rewrite !rev_app_distr in He. cbn in He.
    rewrite <- !app_assoc in He. cbn in He. unfold newline_free in *.
    apply sep_app_inj in He as [Hk Hs]; [|by rewrite list_elem_of_In, <- in_rev, <- list_elem_of_In..].
    split; apply bytes_of_inj; [rewrite <- (rev_involutive (bytes_of s1)), Hs
      |rewrite <- (rev_involutive (bytes_of k1)), Hk]; apply rev_involutive.
Qed.

(** ** Accounting across evictions

    [bk] is the key of one bucket, [r] and [B] the policy its requests carry. *)

Section Accounting.
Context `{Float64Laws F} `{!Float64Error F} {W : Type} (bk : string) (r : F) (B : Z).

Record tracked (t : time) (e : entry F) : Prop := {
  tr_rate : rate (limiter e) = r;
  tr_burst : burst (limiter e) = B;
  tr_wf : bucket_wf (limiter e);
  tr_seen : lastTime (limiter e) = lastSeen e;
  tr_past : lastSeen e ≤ t;
}.

Definition tracked_limiter (t : time) (l : Limiter F W) : Prop :=
  ∀ e, entries l !! bk = Some e → tracked t e.

(** The tokens the bucket would hold at time [t]; an absent bucket counts as
    full, since the next request creates a full one. *)
Definition available (t : time) (l : Limiter F W) : Q :=
  match entries l !! bk with
  | None => val (f_of_int B)
  | Some e => Qmin (val (f_of_int B))
      (val (tokens (limiter e)) + val r * seconds (t - lastTime (limiter e)))
  end.

Lemma available_le_burst t l : (available t l <= val (f_of_int B))%Q.
Proof. unfold available. destruct (_ !! _); [apply Q.le_min_l|apply Qle_refl]. Qed.

(** Waiting earns at most the rate. *)
Lemma available_growth t t' l :
  (0 <= val r)%Q → t ≤ t' → (available t' l <= available t l + val r * seconds (t' - t))%Q.
Proof.
  intros HR Ht. assert (0 <= val r * seconds (t' - t))%Q as H2
    by (apply Qmult_le_0_compat; [done|apply seconds_nonneg; lia]).
  unfold available. destruct (_ !! _) as [e|]; [|lra].
  set (t0 := lastTime (limiter e)).
  replace (t' - t0) with ((t' - t) + (t - t0)) by lia. rewrite seconds_add, Qmult_plus_distr_r.
  set (c := val (f_of_int B)). set (x := val (tokens (limiter e))).
  destruct (Q.min_spec c (x + val r * seconds (t - t0))) as [[_ ->]|[_ ->]].
  - pose proof (Q.le_min_l c (x + (val r * seconds (t' - t) + val r * seconds (t - t0)))). lra.
  - pose proof (Q.le_min_r c (x + (val r * seconds (t' - t) + val r * seconds (t - t0)))). lra.
Qed.

(** The bucket a request finds, created when absent. *)
Lemma bucket_for_tracked (p : Policy F) t now l :
  policy_ok r B → RequestsPerSecond p = r → Burst p = B →
  tracked_limiter t l → t ≤ now →
  let tb := bucket_for p now (entries l !! bk) in
  rate tb = r ∧ burst tb = B ∧ bucket_wf tb ∧ lastTime tb ≤ now ∧
  (Qmin (val (f_of_int B)) (val (tokens tb) + val r * seconds (now - lastTime tb)) <= available now l)%Q.
Proof.
  intros Hp Hr Hb Htr Ht. unfold available, bucket_for.
  destruct (entries l !! bk) as [e|] eqn:E.
  - destruct (Htr e E) as [H1 H2 H3 H4 H5]. rewrite H1, H2, Hr, Hb.
    destruct (fle_num _ _ (proj1 Hp)) as [_ Hnum]. rewrite (feq_refl r Hnum), Z.eqb_refl. cbn.
    split_and!; [done..|lia|apply Qle_refl].
  - rewrite Hr, Hb. split_and!; [done|done|by apply new_wf|cbn; lia|apply Q.le_min_l].
Qed.

(** What a refill leaves, and the errors of the decision. *)
Lemma refill_available now tb :
  bucket_wf tb → rate tb = r → burst tb = B → lastTime tb ≤ now →
  (val (tokens (refill now tb)) + unit_roundoff * cap tb
   <= Qmin (val (f_of_int B)) (val (tokens tb) + val r * seconds (now - lastTime tb)) + slack B)%Q.
Proof.
  intros Hwf Hr Hb Hl. destruct (val_refill now tb Hwf) as [Hc He].
  pose proof (errors_below_slack B tb Hwf ltac:(lia)) as Hsl.
  destruct (cap_bounds _ Hwf) as (Hc0 & _). rewrite (Z.max_r _ _ Hl), Hr in He.
  assert (0 <= half_tiny)%Q as Hh by done. unfold cap in *. rewrite Hb in *.
  set (c := val (f_of_int B)) in *. set (T := val (tokens (refill now tb))) in *.
  set (x := (val (tokens tb) + _)%Q) in *. set (sl := slack B) in *. set (h := half_tiny) in *.
  unfold unit_roundoff in *. destruct (Q.min_spec c x) as [[_ ->]|[_ ->]]; lra.
Qed.

Lemma allowLocal_accounting (p : Policy F) key t now l :
  policy_ok r B → localBucketKey (Scope p) key = bk →
  RequestsPerSecond p = r → Burst p = B →
  tracked_limiter t l → t ≤ now →
  let '(ok, _, l') := allowLocal p key now l in
  tracked_limiter now l' ∧
  ((if ok : bool then 1 else 0) + available now l' <= available now l + slack B)%Q.
Proof.
  intros Hp Hbk Hr Hb Htr Ht. unfold allowLocal. rewrite Hbk.
  destruct (bucket_for_tracked p t now l Hp Hr Hb Htr Ht) as (H1 & H2 & H3 & H4 & H5).
  set (tb := bucket_for p now (entries l !! bk)) in *.
  pose proof (AllowAt_wf now tb H3) as Hwf. pose proof (AllowAt_lastTime now tb) as Hl.
  pose proof (AllowAt_accounting now tb H3) as Ha. destruct (AllowAt_kept now tb) as [Hr' Hb'].
  pose proof (refill_available now tb H3 H1 H2 H4) as Hav. rewrite (Z.max_r _ _ H4) in Hl.
  destruct (AllowAt now tb) as [[ok wait] tb']. cbn [fst snd] in *. split.
  - intros e He. cbn in He. rewrite lookup_insert_eq in He. injection He as <-.
    constructor; cbn; [congruence..|done|done|lia].
  - unfold available at 1. cbn [set_entries entries]. rewrite lookup_insert_eq. cbn [limiter].
    rewrite Hl, Z.sub_diag.
    assert (val r * seconds 0 == 0)%Q as Hz by (unfold seconds, Qdiv; change (inject_Z 0) with 0%Q; ring).
    pose proof (Q.le_min_r (val (f_of_int B)) (val (tokens tb') + val r * seconds 0)) as Hm.
    set (g := (if ok then 1 else 0)%Q) in *. lra.
Qed.

Lemma allowLocal_other (p : Policy F) key now (l : Limiter F W) :
  localBucketKey (Scope p) key ≠ bk →
  entries (allowLocal p key now l).2 !! bk = entries l !! bk.
Proof.
  intros Hne. unfold allowLocal. destruct (AllowAt now _) as [[??]?]. cbn.
  by rewrite lookup_insert_ne.
Qed.

(** An idle bucket is full again by the time it is evicted. *)
Lemma sweep_accounting t now (l : Limiter F W) :
  0 < MaxAge (cfg l) ≤ int64_max → (val (f_of_int B) <= val r * seconds (MaxAge (cfg l)))%Q → (0 <= val r)%Q →
  tracked_limiter t l → t ≤ now →
  tracked_limiter now (sweep now l) ∧ (available now (sweep now l) <= available now l)%Q.
Proof.
  intros Hm Hfull HR Htr Ht. unfold tracked_limiter, available, sweep. cbn.
  unfold time_before, time_add.
  rewrite wrap64_id by (unfold in_int64, int64_min, int64_max in *; lia).
  destruct (entries l !! bk) as [e|] eqn:E.
  - destruct (Htr e E) as [H1 H2 H3 H4 H5]. rewrite map_lookup_filter, E. cbn.
    case_guard as Hg; cbn.
    + split; [|apply Qle_refl]. intros ? [= <-]. constructor; try done. lia.
    + split; [done|]. apply Is_true_false_1 in Hg. breflect.
      rewrite Q.min_l; [apply Qle_refl|]. rewrite H4. destruct (cap_bounds _ H3) as (_ & _ & _ & Hn).
      assert (seconds (MaxAge (cfg l)) <= seconds (now - lastSeen e))%Q as Hs
        by (apply seconds_mono; lia).
      apply (Qmult_le_compat_r _ _ (val r)) in Hs; [|done].
      rewrite (Qmult_comm (val r)) in Hfull. rewrite (Qmult_comm (val r)). lra.
  - rewrite map_lookup_filter, E. cbn. split; [done|apply Qle_refl].
Qed.

Lemma burst_below_slack : policy_ok r B → (val (f_of_int B) <= inject_Z B + slack B)%Q.
Proof.
  intros (_ & _ & HB64 & HB). pose proof (val_int B HB64 HB) as Hv. rewrite (Zle_Qle 0) in HB.
  change (inject_Z 0) with 0%Q in HB. unfold slack. set (x := val (f_of_int B)) in *.
  unfold unit_roundoff in *. lra.
Qed.

Lemma available_nonneg t l : policy_ok r B → tracked_limiter t l → (0 <= available t l)%Q.
Proof.
  intros (HR & _ & HB64 & HB) Htr. pose proof (val_nonneg _ HR) as HR0.
  pose proof (val_nonneg _ (f_of_int_nonneg B HB64 HB)) as Hc. unfold available.
  destruct (entries l !! bk) as [e|] eqn:E; [|done]. destruct (Htr e E) as [_ _ Hwf H4 H5].
  destruct (cap_bounds _ Hwf) as (_ & _ & _ & Hn). apply Q.min_glb; [done|].
  assert (0 <= seconds (t - lastTime (limiter e)))%Q as Hs by (apply seconds_nonneg; lia).
  pose proof (Qmult_le_0_compat _ _ HR0 Hs). lra.
Qed.

Lemma tracked_later t t' (l l' : Limiter F W) :
  entries l' !! bk = entries l !! bk → t ≤ t' → tracked_limiter t l → tracked_limiter t' l'.
Proof.
  intros He Ht Htr e Hl. rewrite He in Hl. destruct (Htr e Hl). constructor; [done..|lia].
Qed.
End Accounting.

(** ** Traffic: requests of any callers and ticks of the cleanup *)

Inductive traffic (F : Type) :=
| Req (p : Policy F) (key : string) (now : time)
| Tick (now : time).
Arguments Req {F} _ _ _.
Arguments Tick {F} _.

Definition at_time {F} (op : traffic F) : time :=
  match op with Req _ _ now | Tick now => now end.

Fixpoint ordered {F} (t : time) (ops : list (traffic F)) : Prop :=
  match ops with [] => True | op :: ops' => t ≤ at_time op ∧ ordered (at_time op) ops' end.

Definition end_time {F} (t : time) (ops : list (traffic F)) : time :=
  foldl (λ _ op, at_time op) t ops.

Section Traffic.
Context `{Float64 F} {W : Type}.

Definition handle (op : traffic F) (l : Limiter F W) : Limiter F W :=
  match op with
  | Req p key now => (allowLocal p key now l).2
  | Tick now => sweep now l
  end.

(** How many requests of the bucket [bk] were granted. *)
Definition grants (bk : string) (op : traffic F) (l : Limiter F W) : Z :=
  match op with
  | Req p key now =>
      if bool_decide (localBucketKey (Scope p) key = bk) && (allowLocal p key now l).1.1
      then 1 else 0
  | Tick _ => 0
  end.

Fixpoint granted_to (bk : string) (ops : list (traffic F)) (l : Limiter F W) : Z :=
  match ops with
  | [] => 0
  | op :: ops' => grants bk op l + granted_to bk ops' (handle op l)
  end.

Definition carries (bk : string) (r : F) (B : Z) (op : traffic F) : Prop :=
  match op with
  | Req p key _ =>
      localBucketKey (Scope p) key = bk → RequestsPerSecond p = r ∧ Burst p = B
  | Tick _ => True
  end.

Lemma handle_cfg op (l : Limiter F W) : cfg (handle op l) = cfg l.
Proof.
  destruct op; cbn; [|done]. unfold allowLocal. by destruct (AllowAt _ _) as [[??]?].
Qed.
End Traffic.

Section TrafficAccounting.
Context `{Float64Laws F} `{!Float64Error F} {W : Type} (bk : string) (r : F) (B : Z).
Implicit Type l : Limiter F W.

Lemma handle_accounting op t l :
  policy_ok r B → 0 < MaxAge (cfg l) ≤ int64_max →
  (val (f_of_int B) <= val r * seconds (MaxAge (cfg l)))%Q →
  carries bk r B op → t ≤ at_time op → tracked_limiter bk r B t l →
  tracked_limiter bk r B (at_time op) (handle op l) ∧
  (inject_Z (grants bk op l) + available bk r B (at_time op) (handle op l)
   <= available bk r B t l + val r * seconds (at_time op - t) + slack B)%Q.
Proof.
  intros Hp Hm Hfull Hc Ht Htr. pose proof (val_nonneg _ (proj1 Hp)) as HR.
  pose proof (slack_nonneg B ltac:(apply Hp)) as Hsl.
  pose proof (available_growth bk r B t (at_time op) l HR Ht) as Hg.
  destruct op as [p key now|now]; cbn [at_time handle grants] in *.
  - destruct (decide (localBucketKey (Scope p) key = bk)) as [Hk|Hk].
    + rewrite bool_decide_true by done. destruct (Hc Hk) as [Hr Hb].
      pose proof (allowLocal_accounting bk r B p key t now l Hp Hk Hr Hb Htr Ht) as Ha.
      destruct (allowLocal p key now l) as [[[] wait] l']; cbn [fst snd andb] in *;
        [change (inject_Z 1) with 1%Q|change (inject_Z 0) with 0%Q];
        destruct Ha as [Htr' Ha]; (split; [done|lra]).
    + rewrite bool_decide_false by done. cbn [andb]. change (inject_Z 0) with 0%Q.
      pose proof (allowLocal_other bk p key now l Hk) as Ho.
      split; [by eapply tracked_later|].
      unfold available at 1. rewrite Ho. fold (available bk r B now l). lra.
  - destruct (sweep_accounting bk r B t now l Hm Hfull HR Htr Ht) as [Htr' Ha].
    split; [done|]. change (inject_Z 0) with 0%Q. lra.
Qed.

Lemma granted_to_accounting ops t l :
  policy_ok r B → 0 < MaxAge (cfg l) ≤ int64_max →
  (val (f_of_int B) <= val r * seconds (MaxAge (cfg l)))%Q →
  Forall (carries bk r B) ops → ordered t ops → tracked_limiter bk r B t l →
  (inject_Z (granted_to bk ops l)
   <= available bk r B t l + val r * seconds (end_time t ops - t)
      + inject_Z (Z.of_nat (length ops)) * slack B)%Q.
Proof.
  intros Hp Hm Hfull Hc Ho Htr. revert t l Hm Hfull Ho Htr.
  induction Hc as [|op ops Hop Hc IH]; intros t l Hm Hfull Ho Htr; cbn [granted_to end_time foldl length].
  - rewrite Z.sub_diag. unfold seconds, Qdiv. change (inject_Z (Z.of_nat 0)) with 0%Q.
    change (inject_Z 0) with 0%Q. rewrite !Qmult_0_l, Qmult_0_r, !Qplus_0_r. by apply available_nonneg.
  - destruct Ho as [Ht Ho].
    destruct (handle_accounting op t l Hp Hm Hfull Hop Ht Htr) as [Htr' Ha].
    specialize (IH (at_time op) (handle op l)). rewrite handle_cfg in IH.
    specialize (IH Hm Hfull Ho Htr'). rewrite Nat2Z.inj_succ, <- Z.add_1_l, !inject_Z_plus.
    fold (end_time (at_time op) ops). change (inject_Z 1) with 1%Q.
    set (te := end_time (at_time op) ops) in *.
    replace (te - t) with ((te - at_time op) + (at_time op - t)) by lia.
    rewrite seconds_add, Qmult_plus_distr_r. set (sl := slack B) in *.
    set (n := inject_Z (Z.of_nat (length ops))) in *. lra.
Qed.
End TrafficAccounting.

(** ** Properties *)

(** Callers do not share budgets.  A decision for one scope and caller
    leaves the bucket of every other scope and caller as it was, provided the
    two scopes, or the two callers' keys, hold no line feed. *)
Theorem buckets_are_separate `{Float64Laws F} {W} (p : Policy F) key now (l : Limiter F W) scope' key' :
  (newline_free (Scope p) ∧ newline_free scope') ∨ (newline_free key ∧ newline_free key') →
  (Scope p, key) ≠ (scope', key') →
  entries (allowLocal p key now l).2 !! localBucketKey scope' key' =
  entries l !! localBucketKey scope' key'.
Proof.
  intros Hnf Hne. apply allowLocal_other. intros He. apply Hne.
  by destruct (localBucketKey_inj _ _ _ _ Hnf He) as [-> ->].
Qed.

(** A world in which every route context has one pattern. *)
#[export] Instance one_route : Routing unit := λ _ _, "/orders/{id}".

Definition example_config : Config Q unit :=
  {| cfg_rps := 10%Q; cfg_burst := 3; CleanupInterval := 0; MaxAge := 0; ExemptPaths := None;
     KeyFunc := None; ScopeFunc := None; PolicyFunc := None; RedisClient := None;
     ServiceName := "" |}.

Definition example_policy (scope : string) : Policy Q :=
  {| RequestsPerSecond := 10%Q; Burst := 3; Scope := scope; Exempt := false |}.

Lemma buckets_are_separate_witness :
  entries (allowLocal (example_policy "/a") "u1" 7 (New example_config)).2
    !! localBucketKey "/a" "u2" = None.
Proof.
  apply (buckets_are_separate (example_policy "/a") "u1" 7 (New example_config) "/a" "u2");
    [left; split; by apply (bool_decide_unpack _)|done].
Defined.

(** C13: the limit holds across evictions, whatever rounding does.  For every
    float64 arithmetic with the laws and the rounding errors of IEEE 754 and a
    caller whose requests carry one policy, with an idle time before eviction in
    which an empty bucket refills, any traffic of all callers and any cleanup
    ticks at non-decreasing times grant that caller at most its burst plus the
    rate times the seconds that passed, plus one [slack] per event and one for the
    burst: [(7 B + 1) * 2^-53], what the rounding of one decision can add.
    Evicting idle buckets gives nobody extra requests. *)
Theorem limiter_rate_bound `{Float64Laws F} `{!Float64Error F} {W} scope key (r : F) B ops t (c : Config F W)
  `{!Routing W} :
  policy_ok r B → 0 < MaxAge (cfg (New c)) ≤ int64_max →
  (val (f_of_int B) <= val r * seconds (MaxAge (cfg (New c))))%Q →
  Forall (carries (localBucketKey scope key) r B) ops → ordered t ops →
  (inject_Z (granted_to (localBucketKey scope key) ops (New c))
   <= inject_Z B + val r * seconds (end_time t ops - t)
      + inject_Z (Z.of_nat (S (length ops))) * slack B)%Q.
Proof.
  intros Hp Hm Hfull Hc Ho. pose proof (burst_below_slack r B Hp) as Hb.
  pose proof (granted_to_accounting (localBucketKey scope key) r B ops t (New c) Hp Hm Hfull Hc Ho) as Hg.
  pose proof (available_le_burst (localBucketKey scope key) r B t (New c)) as Ha.
  rewrite Nat2Z.inj_succ, <- Z.add_1_l, inject_Z_plus. change (inject_Z 1) with 1%Q.
  set (n := inject_Z (Z.of_nat (length ops))) in *. set (sl := slack B) in *.
  specialize (Hg ltac:(intros e; cbn; by rewrite lookup_empty)). lra.
Qed.

Definition example_traffic : list (traffic Q) :=
  [Req (example_policy "/a") "u" 0; Req (example_policy "/a") "u" 1;
   Req (example_policy "/a") "v" 2; Req (example_policy "/a") "u" 3;
   Req (example_policy "/a") "u" 4; Tick (301 * Second);
   Req (example_policy "/a") "u" (301 * Second)].

Lemma limiter_rate_bound_witness :
  let bk := localBucketKey "/a" "u" in
  granted_to bk example_traffic (New example_config) = 4 ∧
  (inject_Z (granted_to bk example_traffic (New example_config))
   <= inject_Z 3 + val 10 * seconds (end_time 0%Z example_traffic - 0)%Z
      + inject_Z (Z.of_nat (S (length example_traffic))) * slack 3)%Q.
Proof.
  split; [by vm_compute|].
  apply (limiter_rate_bound "/a" "u" 10%Q 3 example_traffic 0 example_config).
  - repeat split; done.
  - by vm_compute.
  - by vm_compute.
  - repeat constructor.
  - repeat split; by vm_compute.
Defined.

(** *** The Redis script and the local bucket decide alike

    A Redis server as far as the script needs it: its clock and its keys. *)

Record redis_server := { server_ms : Z; keys : gmap string (redis_bucket Q) }.

Definition server_at (ms : Z) (w : redis_server) : redis_server := {| server_ms := ms; keys := keys w |}.

#[export] Instance redis_routes : Routing redis_server := λ _ _, "/orders/{id}".

Definition redis_client (a : script_args Q) (w : redis_server) : result error (any Q) * redis_server :=
  let '(k, (allowed, retry)) := token_script (server_ms w) a (keys w !! sa_key a) in
  (Ok (AList [AInt64 (f_to_int64 allowed); AInt64 (f_to_int64 retry)]),
   {| server_ms := server_ms w; keys := partial_alter (λ _, k) (sa_key a) (keys w) |}).

(** The instant of a Unix time in milliseconds. *)
Definition ms_time (ms : Z) : time := unix_epoch + ms * Millisecond.

Lemma UnixMilli_ms ms : UnixMilli (ms_time ms) = ms.
Proof.
  unfold UnixMilli, ms_time. replace (unix_epoch + ms * Millisecond - unix_epoch)
    with (ms * Millisecond) by lia. by apply Z.div_mul.
Qed.

(** The script's state for one key, and the bucket it stands for. *)
Record same_bucket (R : Q) (B : Z) (ms : Z) (tu : Q * Q) (tb : tokenBucket Q) : Prop := {
  sb_rate : rate tb = R;
  sb_burst : burst tb = B;
  sb_tokens : (tu.1 == tokens tb)%Q;
  sb_cap : (tokens tb <= inject_Z B)%Q;
  sb_updated : tu.2 = inject_Z ms;
  sb_last : lastTime tb = ms_time ms;
}.

(** What the script earns is what [refill] earns. *)
Lemma script_refill R B ms ms' tu tb :
  same_bucket R B ms tu tb → in_int64 ((ms' - ms) * Millisecond) →
  same_bucket R B (Z.max ms ms') (script_earn (inject_Z ms') R (inject_Z B) tu) (refill (ms_time ms') tb).
Proof.
  intros [Hr Hb Ht Hcap Hu Hl] Hin. destruct tu as [tok upd]. cbn in Hu, Ht. subst upd.
  assert (Z.max (lastTime tb) (ms_time ms') = ms_time (Z.max ms ms')) as Hmax
    by (rewrite Hl; unfold ms_time, Millisecond; lia).
  assert (credited (ms_time ms') tb == inject_Z (Z.max 0 (ms' - ms)) / inject_Z 1000)%Q as Hcr.
  { unfold credited. rewrite Hmax, Hl, sat64_id;
      [|unfold ms_time, Millisecond, in_int64, int64_min, int64_max in *; lia].
    replace (ms_time (Z.max ms ms') - ms_time ms) with (Z.max 0 (ms' - ms) * Millisecond)
      by (unfold ms_time; lia).
    unfold seconds. rewrite inject_Z_mult. unfold Second, Millisecond. field. }
  pose proof (refill_tokens (ms_time ms') tb) as Hrt. rewrite Hr, Hb, Hcr in Hrt.
  constructor; cbn [rate burst refill script_earn]; [done|done| | | |by rewrite refill_lastTime].
  - rewrite Hrt. qreflect. destruct (Qle_bool (inject_Z ms') (inject_Z ms)) eqn:E; cbn [negb fst].
    + qreflect. rewrite <- Zle_Qle in E. rewrite Z.max_l by lia. change (inject_Z 0) with 0%Q.
      assert (tokens tb + 0 / inject_Z 1000 * R == tokens tb)%Q as -> by (field; done).
      rewrite Ht. symmetry. by apply Q.min_r.
    + qreflect. rewrite <- Zlt_Qlt in E. rewrite Z.max_r by lia.
      assert (tok + (inject_Z ms' - inject_Z ms) / inject_Z 1000 * R ==
              tokens tb + inject_Z (ms' - ms) / inject_Z 1000 * R)%Q as Hx.
      { rewrite Ht. unfold Z.sub. rewrite inject_Z_plus, inject_Z_opp. reflexivity. }
      destruct (Qle_bool (inject_Z B) _) eqn:E2; cbn [negb]; qreflect; rewrite Hx in E2.
      * symmetry. by apply Q.min_l.
      * rewrite Hx. symmetry. apply Q.min_r. lra.
  - rewrite Hrt. apply Q.le_min_l.
  - qreflect. destruct (Qle_bool (inject_Z ms') (inject_Z ms)) eqn:E; cbn [negb snd]; qreflect.
    + rewrite <- Zle_Qle in E. by rewrite Z.max_l.
    + rewrite <- Zlt_Qlt in E. by rewrite Z.max_r by lia.
Qed.

Lemma same_bucket_new R B ms :
  same_bucket R B ms (inject_Z B, inject_Z ms) (newTokenBucket R B (ms_time ms)).
Proof. constructor; cbn; try reflexivity. apply Qle_refl. Qed.

(** A bucket that the time fills stands for the full one of an expired key. *)
Lemma expired_refill R B ms ms' tu tb :
  same_bucket R B ms tu tb → (0 <= tokens tb)%Q → in_int64 ((ms' - ms) * Millisecond) → ms ≤ ms' →
  (inject_Z B <= R * seconds ((ms' - ms) * Millisecond))%Q →
  same_bucket R B ms' (script_earn (inject_Z ms') R (inject_Z B) (inject_Z B, inject_Z ms'))
    (refill (ms_time ms') tb).
Proof.
  intros [Hr Hb _ _ _ Hl] Hn Hin Hle Hfull.
  assert (lastTime tb <= ms_time ms') as Hle' by (rewrite Hl; unfold ms_time, Millisecond; lia).
  assert (tokens (refill (ms_time ms') tb) == inject_Z B)%Q as Ht.
  { rewrite refill_tokens, Hr, Hb. apply Q.min_l. unfold credited. rewrite Z.max_r by done.
    replace (ms_time ms' - lastTime tb) with ((ms' - ms) * Millisecond) by (rewrite Hl; unfold ms_time; lia).
    rewrite sat64_id by done. rewrite (Qmult_comm _ R). lra. }
  assert (script_earn (inject_Z ms') R (inject_Z B) (inject_Z B, inject_Z ms') = (inject_Z B, inject_Z ms')) as ->.
  { unfold script_earn, fltb; cbn [Q_float]. by rewrite (proj2 (Qle_bool_iff _ _) (Qle_refl (inject_Z ms'))). }
  constructor; cbn [fst snd rate burst refill]; [done|done|by symmetry|by apply Qle_lteq; right|done|].
  rewrite refill_lastTime. by apply Z.max_r.
Qed.

(** From buckets that agree after earning, the same decision and buckets that agree. *)
Lemma script_decides R B m ttl now tu tb :
  same_bucket R B m tu (refill now tb) →
  let '(tu', (allowed, _)) := script_take R ttl tu in
  let '(ok, _, tb') := AllowAt now tb in
  allowed = (if ok : bool then 1 else 0)%Q ∧ same_bucket R B m tu' tb'.
Proof.
  intros Hs. destruct tu as [tok' upd']. unfold script_take.
  pose proof (AllowAt_spec now tb) as Ha.
  destruct (AllowAt now tb) as [[ok wait] tb']. cbn [fst snd] in Ha.
  destruct Hs as [Hr Hb Ht Hcap Hu Hl]. cbn [fst snd] in Ht, Hu.
  destruct (fleb f1 tok') eqn:E; qreflect.
  - destruct Ha as [(-> & Hle & ->)|(-> & Hlt & ->)]; [|rewrite Ht in E; lra].
    split; [done|]. constructor;
      cbn [set_tokens rate burst tokens lastTime fst snd]; [done|done|by rewrite Ht|lra|done|done].
  - destruct Ha as [(-> & Hle & ->)|(-> & Hlt & ->)]; [rewrite Ht in E; lra|].
    destruct (Qle_bool R 0); cbn [negb]; (split; [done|]); by constructor.
Qed.

(** The readings of the caller's clock and of the server's, at each decision. *)
Abbreviation clocks := (list (Z * Z)).

(** The decisions, through Redis and in process. *)
Fixpoint redis_run `{UnicodeRunes} (p : Policy Q) (key : string) (readings : clocks)
  (l : Limiter Q redis_server) (w : redis_server) : list bool :=
  match readings with
  | [] => []
  | (ms, server) :: rest =>
      let '(r, w') := allowRedis redis_client p key (ms_time ms) l (server_at server w) in
      match r with Ok (ok, _) => ok | Err _ => false end :: redis_run p key rest l w'
  end.

Fixpoint local_run {W} (p : Policy Q) (key : string) (readings : clocks) (l : Limiter Q W)
  : list bool :=
  match readings with
  | [] => []
  | (ms, _) :: rest =>
      let '(ok, _, l') := allowLocal p key (ms_time ms) l in ok :: local_run p key rest l'
  end.

(** [m] and [s] are the latest reading of the caller's clock and the last one of
    the server's.  Between two decisions either the server keeps the key, or the
    caller's clock shows enough time to fill the bucket. *)
Fixpoint expiry_harmless (R : Q) (B ttl m s : Z) (readings : clocks) : Prop :=
  match readings with
  | [] => True
  | (ms, server) :: rest =>
      (server ≤ s + ttl ∨ m ≤ ms ∧ (inject_Z B <= R * seconds ((ms - m) * Millisecond))%Q) ∧
      expiry_harmless R B ttl (Z.max m ms) server rest
  end.

(** The stored bucket and the one in process. *)
Record in_step (R : Q) (B ttl m s : Z) (k : option (redis_bucket Q)) (e : option (entry Q)) : Prop := {
  is_step : ∃ tu e', k = Some (tu, s + ttl) ∧ e = Some e' ∧ same_bucket R B m tu (limiter e') ∧
    bucket_wf (limiter e');
}.

Section RedisStep.
Context `{UnicodeRunes} {W : Type} (p : Policy Q) (key : string).
Let R := RequestsPerSecond p.
Let B := Burst p.

(** One decision of each, from buckets that agree after earning. *)
Lemma allow_in_step ms server m (l : Limiter Q redis_server) (l' : Limiter Q W) (w : redis_server) :
  let rk := redisBucketKey (ServiceName (cfg l)) (Scope p) key in
  let bk := localBucketKey (Scope p) key in
  let tb := bucket_for p (ms_time ms) (entries l' !! bk) in
  let tu := default (inject_Z B, inject_Z ms) (live_fields server (keys w !! rk)) in
  0 < milliseconds (entryTTL l) → bucket_wf tb →
  same_bucket R B m (script_earn (inject_Z ms) R (inject_Z B) tu) (refill (ms_time ms) tb) →
  let '(r, w1) := allowRedis redis_client p key (ms_time ms) l (server_at server w) in
  let '(ok, _, l1) := allowLocal p key (ms_time ms) l' in
  (∃ wait, r = Ok (ok, wait)) ∧
  in_step R B (milliseconds (entryTTL l)) m server (keys w1 !! rk) (entries l1 !! bk).
Proof.
  intros rk bk tb tu Httl Hwf Hs. unfold allowRedis, redis_client, allowLocal.
  cbn [sa_key server_ms keys server_at]. fold rk bk tb. unfold token_script.
  cbn [sa_now_ms sa_rate sa_burst sa_ttl_ms sa_key]. rewrite UnixMilli_ms. fold R B.
  unfold f_of_int; cbn [Q_float]. fold tu.
  pose proof (script_decides R B m (inject_Z (milliseconds (entryTTL l))) _ _ _ Hs) as Hd.
  pose proof (AllowAt_wf (ms_time ms) tb Hwf) as Hwf'.
  destruct (script_take _ _ _) as [tu' [allowed retry]].
  destruct (AllowAt _ _) as [[ok wait] tb']. destruct Hd as [-> Hsb].
  unfold pexpire. rewrite (proj2 (Z.ltb_lt _ _) Httl). split.
  - destruct ok; cbn; by eexists.
  - cbn [set_entries entries keys]. rewrite lookup_partial_alter_eq, lookup_insert_eq.
    split. by do 2 eexists.
Qed.

(** The first decision, and every later one. *)
Lemma first_in_step ms server (l : Limiter Q redis_server) (l' : Limiter Q W) (w : redis_server) :
  policy_ok R B → 0 < milliseconds (entryTTL l) →
  keys w !! redisBucketKey (ServiceName (cfg l)) (Scope p) key = None →
  entries l' !! localBucketKey (Scope p) key = None →
  let '(r, w1) := allowRedis redis_client p key (ms_time ms) l (server_at server w) in
  let '(ok, _, l1) := allowLocal p key (ms_time ms) l' in
  (∃ wait, r = Ok (ok, wait)) ∧
  in_step R B (milliseconds (entryTTL l)) ms server
    (keys w1 !! redisBucketKey (ServiceName (cfg l)) (Scope p) key)
    (entries l1 !! localBucketKey (Scope p) key).
Proof.
  intros Hp Httl Hk He. apply allow_in_step; [done| |]; rewrite He; cbn [bucket_for]; fold R B.
  - by apply new_wf.
  - rewrite Hk. cbn [live_fields default]. rewrite <- (Z.max_id ms) at 1.
    apply script_refill; [apply same_bucket_new|]. by rewrite Z.sub_diag.
Qed.

Lemma next_in_step ms server m s (l : Limiter Q redis_server) (l' : Limiter Q W) (w : redis_server) :
  let rk := redisBucketKey (ServiceName (cfg l)) (Scope p) key in
  let bk := localBucketKey (Scope p) key in
  let ttl := milliseconds (entryTTL l) in
  0 < ttl → in_int64 ((ms - m) * Millisecond) →
  (server ≤ s + ttl ∨ m ≤ ms ∧ (inject_Z B <= R * seconds ((ms - m) * Millisecond))%Q) →
  in_step R B ttl m s (keys w !! rk) (entries l' !! bk) →
  let '(r, w1) := allowRedis redis_client p key (ms_time ms) l (server_at server w) in
  let '(ok, _, l1) := allowLocal p key (ms_time ms) l' in
  (∃ wait, r = Ok (ok, wait)) ∧ in_step R B ttl (Z.max m ms) server (keys w1 !! rk) (entries l1 !! bk).
Proof.
  intros rk bk ttl Httl H64 Hgap [(tu & e & Hk & He & Hsb & Hwf)].
  assert (bucket_for p (ms_time ms) (entries l' !! bk) = limiter e) as Hb.
  { rewrite He. unfold bucket_for. rewrite (sb_rate _ _ _ _ _ Hsb), (sb_burst _ _ _ _ _ Hsb).
    fold R B. assert (feqb R R = true) as -> by apply Qeq_bool_refl. by rewrite Z.eqb_refl. }
  apply allow_in_step; [done|..]; fold bk rk; rewrite Hb; [done|]. rewrite Hk. cbn [live_fields].
  destruct (Z.leb_spec server (s + ttl)) as [Hlive|Hexp]; cbn [default]; [by apply script_refill|].
  destruct Hgap as [?|[Hle Hfull]]; [lia|]. rewrite Z.max_r by done.
  eapply expired_refill; [done| |done|done|done].
  destruct Hwf as [_ Hn _]. by qreflect.
Qed.
End RedisStep.

(** C17: the Redis script and the in-process bucket implement the same limiter.
    Computed without rounding, on any sequence of readings of the caller's clock in
    milliseconds (a window of up to 292 years, in any order) the two grant and
    refuse the same requests, provided that whenever the server has let the key
    expire between two of them ([PEXPIRE] with MaxAge, on the server's own clock)
    the caller's clock has advanced enough to fill the bucket; nothing is asked of
    requests that follow each other within MaxAge.  So falling back from one to the
    other changes where a budget is kept and not how it is spent. *)
Theorem redis_matches_local `{UnicodeRunes} `{Routing W} (p : Policy Q) key lo hi ms server readings
  (c : Config Q redis_server) (c' : Config Q W) :
  policy_ok (RequestsPerSecond p) (Burst p) → 0 < milliseconds (MaxAge (cfg (New c))) →
  (hi - lo) * Millisecond ≤ int64_max → Forall (λ r, lo ≤ r.1 ≤ hi) ((ms, server) :: readings) →
  expiry_harmless (RequestsPerSecond p) (Burst p) (milliseconds (MaxAge (cfg (New c)))) ms server readings →
  let empty := {| server_ms := 0; keys := ∅ |} in
  redis_run p key ((ms, server) :: readings) (New c) empty
  = local_run p key ((ms, server) :: readings) (New c').
Proof.
  intros Hp Httl Hspan Hr Hexp. set (l := New c) in *.
  assert (∀ rest m s l' w, Forall (λ r, lo ≤ r.1 ≤ hi) rest → lo ≤ m ≤ hi →
    expiry_harmless (RequestsPerSecond p) (Burst p) (milliseconds (entryTTL l)) m s rest →
    in_step (RequestsPerSecond p) (Burst p) (milliseconds (entryTTL l)) m s
      (keys w !! redisBucketKey (ServiceName (cfg l)) (Scope p) key)
      (entries l' !! localBucketKey (Scope p) key) →
    redis_run p key rest l w = local_run (W := W) p key rest l') as Hgen.
  { induction rest as [|[ms' s'] rest IH]; intros m s l' w Hf Hm Hh Hin; [done|]. cbn [redis_run local_run].
    apply Forall_cons in Hf as [Hms Hf]. destruct Hh as [Hgap Hh]. cbn [fst] in Hms.
    assert (in_int64 ((ms' - m) * Millisecond)) as H64
      by (unfold in_int64, int64_min, int64_max, Millisecond in *; lia).
    pose proof (next_in_step p key ms' s' m s l l' w Httl H64 Hgap Hin) as Hstep.
    destruct (allowRedis redis_client p key (ms_time ms') l (server_at s' w)) as [r w1].
    destruct (allowLocal p key (ms_time ms') l') as [[ok wait] l1].
    destruct Hstep as [[wait' ->] Hin']. f_equal. apply (IH (Z.max m ms') s'); [done|lia|done|done]. }
  apply Forall_cons in Hr as [Hms Hr]. cbn zeta. cbn [redis_run local_run].
  pose proof (first_in_step p key ms server l (New c') {| server_ms := 0; keys := ∅ |} Hp Httl
    (lookup_empty _) (lookup_empty _)) as Hstep.
  destruct (allowRedis redis_client p key (ms_time ms) l _) as [r w1].
  destruct (allowLocal p key (ms_time ms) (New c')) as [[ok wait] l1].
  destruct Hstep as [[wait' ->] Hin']. f_equal. by apply (Hgen readings ms server).
Qed.

Definition ascii_runes : UnicodeRunes := {| wide_letter := λ _, None |}.

(** The key expires before the last request; its bucket is full again in process too. *)
Lemma redis_matches_local_witness :
  let _ := ascii_runes in
  let readings := [(1700000000000, 50); (1700000000001, 51); (1700000000000, 49); (1700000000002, 52);
                   (1700000000150, 200); (1700000400150, 400200)] in
  redis_run (example_policy "/a") "u" readings (New {|
    cfg_rps := 10%Q; cfg_burst := 3; CleanupInterval := 0; MaxAge := 0; ExemptPaths := None;
    KeyFunc := None; ScopeFunc := None; PolicyFunc := None; RedisClient := None;
    ServiceName := "api" |}) {| server_ms := 0; keys := ∅ |}
  = local_run (example_policy "/a") "u" readings (New example_config) ∧
  local_run (example_policy "/a") "u" readings (New example_config)
  = [true; true; true; false; true; true].
Proof.
  intros U readings. split; [|by vm_compute].
  apply (redis_matches_local (example_policy "/a") "u" 1700000000000 1700000400150).
  - repeat split; done.
  - by vm_compute.
  - by vm_compute.
  - repeat constructor; by vm_compute.
  - repeat split; first [by left; vm_compute|right; split; by vm_compute].
Defined.

(** Without the condition they differ: a slow bucket whose key expires is full
    again in Redis and still empty in process. *)
Example expiry_refills_early :
  let _ := ascii_runes in
  let slow := {| RequestsPerSecond := (1 # 1000)%Q; Burst := 1; Scope := "/a"; Exempt := false |} in
  let readings := [(0, 0); (400000, 400000)] in
  redis_run slow "u" readings (New {|
    cfg_rps := 10%Q; cfg_burst := 3; CleanupInterval := 0; MaxAge := 0; ExemptPaths := None;
    KeyFunc := None; ScopeFunc := None; PolicyFunc := None; RedisClient := None;
    ServiceName := "api" |}) {| server_ms := 0; keys := ∅ |} = [true; true] ∧
  local_run slow "u" readings (New example_config) = [true; false].
Proof. split; by vm_compute. Qed.

(** *** The middleware *)

Lemma bucket_for_settled (p : Policy Q) now e :
  let tb := bucket_for p now e in
  feqb (rate tb) (RequestsPerSecond p) = true ∧ burst tb = Burst p.
Proof.
  unfold bucket_for. destruct e as [e|]; cbn; [|by rewrite Qeq_bool_refl].
  destruct (Qeq_bool (rate (limiter e)) (RequestsPerSecond p)) eqn:E1; cbn;
    [|by rewrite Qeq_bool_refl].
  destruct (Z.eqb_spec (burst (limiter e)) (Burst p)); cbn; [done|by rewrite Qeq_bool_refl].
Qed.

(** Asking again finds the bucket the last decision left. *)
Lemma allowLocal_again {W} (p : Policy Q) key now t (l : Limiter Q W) :
  let tb := bucket_for p now (entries l !! localBucketKey (Scope p) key) in
  (allowLocal p key t (allowLocal p key now l).2).1 = (AllowAt t (AllowAt now tb).2).1.
Proof.
  cbn zeta. unfold allowLocal at 2.
  destruct (bucket_for_settled p now (entries l !! localBucketKey (Scope p) key)) as [Hr Hb].
  set (tb := bucket_for _ _ _) in *. pose proof (AllowAt_spec now tb) as Hs.
  destruct (AllowAt now tb) as [[ok wait] tb']. cbn [fst snd] in *.
  assert (rate tb' = rate tb ∧ burst tb' = burst tb) as [Hr' Hb']
    by (destruct Hs as [(_ & _ & ->)|(_ & _ & ->)]; done).
  unfold allowLocal. cbn [set_entries entries]. rewrite lookup_insert_eq.
  cbn [bucket_for limiter]. rewrite Hr', Hb', Hr, Hb, Z.eqb_refl. cbn [negb orb].
  by destruct (AllowAt t tb') as [[??]?].
Qed.

(** The advised whole seconds cover the wait. *)
Lemma retry_seconds_covers d : 0 ≤ d ≤ int64_max →
  1 ≤ retry_seconds (F := Q) d ∧ d ≤ retry_seconds (F := Q) d * Second.
Proof.
  intros Hd. unfold retry_seconds, f_to_int64, fceil. cbn [Q_float].
  assert (Qceiling (duration_seconds d) = Qceiling (seconds d)) as ->
    by (apply Qceiling_comp, Q_duration_seconds).
  set (k := Qceiling (seconds d)).
  assert (d ≤ k * Second) as Hk.
  { pose proof (Qle_ceiling (seconds d)) as Hc. fold k in Hc.
    unfold seconds in Hc. apply (Qmult_le_compat_r _ _ (inject_Z Second)) in Hc; [|done].
    rewrite <- inject_Z_mult in Hc.
    assert (inject_Z d / inject_Z Second * inject_Z Second == inject_Z d)%Q as Hq by (field; done).
    rewrite Hq, <- Zle_Qle in Hc. done. }
  assert (k ≤ int64_max) as Hk2.
  { unfold k. rewrite <- (Qceiling_Z int64_max). apply Qceiling_resp_le. unfold seconds.
    apply Qle_shift_div_r; [done|]. rewrite <- inject_Z_mult, <- Zle_Qle.
    unfold int64_max, Second in *. lia. }
  unfold Q_to_int64, Qtrunc; cbn [Qnum Qden inject_Z]. rewrite Z.quot_1_r.
  rewrite (proj2 (andb_true_iff _ _)).
  - destruct (Z.ltb_spec k 1); unfold Second in *; lia.
  - unfold int64_min, Second in *. split; apply Z.leb_le; lia.
Qed.

(** A limited request is told truthfully when to come back.  The middleware
    of a limiter with in-process buckets that refuses a request answers 429 with
    the fixed body, does not run the handler, and sends a Retry-After of [n >= 1]
    seconds such that the same request, repeated [n] seconds later or more, is
    granted. *)
Theorem limited_request_can_retry `{Routing W} {V} `{UnicodeRunes} (next : Handler V) now (l : Limiter Q W)
  r rw w v :
  let p := policyForRequest l r w in
  let key := request_key l r in
  let tb := bucket_for p now (entries l !! localBucketKey (Scope p) key) in
  fresh rw → RedisClient (cfg l) = None → Exempt p = false →
  (0 < rate tb)%Q → 1 ≤ burst tb → lastTime tb ≤ now →
  (needed (refill now tb) <= inject_Z int64_max)%Q →
  (allowLocal p key now l).1.1 = false →
  let '(o, rw', v', l', w', _) := Middleware next now l r rw w v in
  o = Returned ∧ v' = v ∧ w' = w ∧ responds (Some 429) limited_body rw' ∧
  ∃ n, 1 ≤ n ∧ header_get (rw_header rw') "Retry-After" = FormatInt n ∧
  ∀ t, now + n * Second ≤ t → (allowLocal p key t l').1.1 = true.
Proof.
  intros p key tb Hf Hrc Hex Hr Hb Hl Hneed Hden.
  unfold Middleware. fold p. rewrite Hex. unfold allowWithRetry. rewrite Hrc. fold key.
  pose proof (λ t, allowLocal_again p key now t l) as Hag.
  assert ((allowLocal p key now l).1 = (AllowAt now tb).1) as Hd
    by (unfold allowLocal; fold tb; by destruct (AllowAt now tb) as [[??]?]).
  pose proof (denied_wait now tb Hr Hneed) as Hw. rewrite <- Hd in Hw. specialize (Hw Hden).
  destruct (allowLocal p key now l) as [[ok wait] l'] eqn:El. cbn [fst snd] in *. subst ok.
  cbn [negb]. split_and!; [done..| |].
  - unfold limited_response.
    apply (responds_header (header_set "Content-Type" "application/json")) in Hf.
    apply (responds_header (header_set "Retry-After" (FormatInt (retry_seconds (F := Q) wait)))) in Hf.
    apply (responds_write_header 429) in Hf; [|done].
    by apply (responds_write limited_body) in Hf.
  - pose proof (ceiling_int64 _ Hneed) as Hk.
    assert (0 ≤ wait ≤ int64_max) as Hwb by (rewrite Hw; unfold Millisecond, int64_max in *; lia).
    destruct (retry_seconds_covers wait Hwb) as [H1 H2].
    exists (retry_seconds (F := Q) wait). split_and!; [done| |].
    + unfold limited_response. rewrite live_write, live_write_header. unfold set_header.
      by rewrite live_update, header_get_set.
    + intros t Ht. specialize (Hag t). cbn [snd] in Hag. fold tb in Hag.
      rewrite Hag. apply wait_suffices; [done..|by rewrite <- Hd|].
      rewrite AllowAt_lastTime, <- Hd, Z.max_r by done. cbn [fst snd]. lia.
Qed.

Definition drained : Limiter Q unit :=
  (allowLocal (example_policy "/orders") "10.0.0.9" 2
    (allowLocal (example_policy "/orders") "10.0.0.9" 1
      (allowLocal (example_policy "/orders") "10.0.0.9" 0 (New example_config)).2).2).2.

Lemma limited_request_can_retry_witness :
  let _ := ascii_runes in
  let m := Middleware created 3 drained example_request example_writer tt 0%nat in
  m.1.1.1.2 = 0%nat ∧ responds (Some 429) limited_body m.1.1.1.1.2.
Proof.
  intros U m. subst m.
  pose proof (limited_request_can_retry created 3 drained example_request example_writer tt 0%nat
    ltac:(done) eq_refl eq_refl ltac:(by vm_compute) ltac:(by vm_compute) ltac:(by vm_compute)
    ltac:(by vm_compute) ltac:(by vm_compute)) as H.
  destruct (Middleware created 3 drained example_request example_writer tt 0%nat)
    as [[[[[o rw'] v'] l'] w'] ev].
  destruct H as (_ & -> & _ & Hr & _). by split.
Defined.
