(* ===== verification/Lru.v ===== *)
(** * The LRU cache (src/identityclient/client.go, [lruCache])

    The cache is a map from keys to elements of a doubly linked list
    ([container/list]) whose elements point to entries.  The model keeps that
    shape: [items] maps keys to element addresses, [order] is the list of
    addresses from front to back, [store] holds the entry of each element.
    [Recency] is what the cache promises to its clients, on a list of entries
    from most to least recently used. *)

From S2P Require Import Prelude.
#[local] Open Scope Z_scope.

(** ** The abstract cache *)

Module Recency.
Section Ops.
Context {K V : Type} `{EqDecision K}.

Abbreviation t := (list (K * V)).

Definition lookup (k : K) (l : t) : option V := snd <$> find (λ kv, bool_decide (kv.1 = k)) l.

Definition remove (k : K) (l : t) : t := filter (λ kv, kv.1 ≠ k) l.

(** A hit moves the entry to the front. *)
Definition get (k : K) (l : t) : option V * t :=
  match lookup k l with
  | Some v => (Some v, (k, v) :: remove k l)
  | None => (None, l)
  end.

(** An insertion beyond the capacity drops the least recently used entry. *)
Definition put (max : Z) (k : K) (v : V) (l : t) : t :=
  match lookup k l with
  | Some _ => (k, v) :: remove k l
  | None =>
      let l' := (k, v) :: l in
      if max <? Z.of_nat (length l') then take (length l) l' else l'
  end.

Definition delete_func (fn : K → V → bool) (l : t) : t := filter (λ kv, fn kv.1 kv.2 = false) l.
End Ops.
End Recency.

(** The interface to the clients: a cache [C] with the operations of
    [lruCache], each equal on the view [entries] to the abstract one. *)
Class Cache (C K V : Type) `{EqDecision K} := {
  c_new : Z → C;
  c_get : K → C → option V * C;
  c_put : K → V → C → C;
  c_delete : K → C → C;
  c_delete_func : (K → V → bool) → C → C;
  c_max : C → Z;
  c_ok : C → Prop;
  c_entries : C → list (K * V);
  c_new_law max : 1 ≤ max → c_ok (c_new max) ∧ c_entries (c_new max) = [] ∧ c_max (c_new max) = max;
  c_get_law k c : c_ok c →
    c_ok (c_get k c).2 ∧ c_max (c_get k c).2 = c_max c ∧
    ((c_get k c).1, c_entries (c_get k c).2) = Recency.get k (c_entries c);
  c_put_law k v c : c_ok c →
    c_ok (c_put k v c) ∧ c_max (c_put k v c) = c_max c ∧
    c_entries (c_put k v c) = Recency.put (c_max c) k v (c_entries c);
  c_delete_law k c : c_ok c →
    c_ok (c_delete k c) ∧ c_max (c_delete k c) = c_max c ∧
    c_entries (c_delete k c) = Recency.remove k (c_entries c);
  c_delete_func_law fn c : c_ok c →
    c_ok (c_delete_func fn c) ∧ c_max (c_delete_func fn c) = c_max c ∧
    c_entries (c_delete_func fn c) = Recency.delete_func fn (c_entries c);
  c_ok_keys c : c_ok c → NoDup (c_entries c).*1;
  c_ok_bound c : c_ok c → Z.of_nat (length (c_entries c)) ≤ c_max c;
}.

(** ** The linked implementation *)

Definition ptr := nat.

Section Lru.
Context {K V : Type} `{Countable K}.

Record lruCache := {
  maxSize : Z;
  items : gmap K ptr;
  order : list ptr; (* front first *)
  store : gmap ptr (K * V);
  fresh_ptr : ptr; (* the address of the next element *)
}.

Definition newLRUCache (max : Z) : lruCache :=
  {| maxSize := max; items := ∅; order := []; store := ∅; fresh_ptr := 0%nat |}.

(** [order.Remove(elem)] and [order.MoveToFront(elem)]. *)
Definition list_remove (p : ptr) (l : list ptr) : list ptr := filter (λ q, q ≠ p) l.
Definition move_to_front (p : ptr) (l : list ptr) : list ptr := p :: list_remove p l.

Definition set_order (o : list ptr) (c : lruCache) : lruCache :=
  {| maxSize := maxSize c; items := items c; order := o; store := store c;
     fresh_ptr := fresh_ptr c |}.

Definition Get (k : K) (c : lruCache) : option V * lruCache :=
  match items c !! k with
  | None => (None, c)
  | Some elem =>
      let c := set_order (move_to_front elem (order c)) c in
      match store c !! elem with
      | Some entry => (Some entry.2, c)
      | None => (None, c)
      end
  end.

Definition Put (k : K) (v : V) (c : lruCache) : lruCache :=
  match items c !! k with
  | Some elem =>
      let key := match store c !! elem with Some entry => entry.1 | None => k end in
      {| maxSize := maxSize c; items := items c; order := move_to_front elem (order c);
         store := <[elem := (key, v)]> (store c); fresh_ptr := fresh_ptr c |}
  | None =>
      let elem := fresh_ptr c in
      let c := {| maxSize := maxSize c; items := <[k := elem]> (items c);
                  order := elem :: order c; store := <[elem := (k, v)]> (store c);
                  fresh_ptr := S elem |} in
      if maxSize c <? Z.of_nat (length (order c)) then
        match last (order c) with
        | Some back =>
            let items' := match store c !! back with
                          | Some evicted => delete evicted.1 (items c)
                          | None => items c
                          end in
            {| maxSize := maxSize c; items := items'; order := list_remove back (order c);
               store := store c; fresh_ptr := fresh_ptr c |}
        | None => c
        end
      else c
  end.

Definition Delete (k : K) (c : lruCache) : lruCache :=
  match items c !! k with
  | None => c
  | Some elem =>
      {| maxSize := maxSize c; items := delete k (items c); order := list_remove elem (order c);
         store := store c; fresh_ptr := fresh_ptr c |}
  end.

Definition Len (c : lruCache) : nat := length (order c).
Definition MaxSize (c : lruCache) : Z := maxSize c.

(** The loop of [DeleteFunc]: [todo] are the elements from the current one on,
    read before the current one may be removed. *)
Fixpoint delete_loop (fn : K → V → bool) (todo : list ptr) (c : lruCache) : lruCache :=
  match todo with
  | [] => c
  | elem :: next =>
      match store c !! elem with
      | None => delete_loop fn next c
      | Some entry =>
          if fn entry.1 entry.2 then
            delete_loop fn next
              {| maxSize := maxSize c; items := delete entry.1 (items c);
                 order := list_remove elem (order c); store := store c;
                 fresh_ptr := fresh_ptr c |}
          else delete_loop fn next c
      end
  end.

Definition DeleteFunc (fn : K → V → bool) (c : lruCache) : lruCache :=
  delete_loop fn (order c) c.

(** ** The invariant and the abstract view *)

(** The entries from front to back. *)
Definition view (st : gmap ptr (K * V)) (o : list ptr) : list (K * V) := omap (λ p, st !! p) o.
Definition abs (c : lruCache) : list (K * V) := view (store c) (order c).

Record wf (c : lruCache) : Prop := {
  wf_nodup : NoDup (order c);
  wf_alive p : p ∈ order c → ∃ kv, store c !! p = Some kv ∧ items c !! kv.1 = Some p;
  wf_items k p : items c !! k = Some p → p ∈ order c ∧ ∃ v, store c !! p = Some (k, v);
  wf_fresh p : p ∈ order c → (p < fresh_ptr c)%nat;
  wf_size : Z.of_nat (length (order c)) ≤ maxSize c;
}.

(** Element [p], and no other of [o], holds the key [k]. *)
Definition holds (st : gmap ptr (K * V)) (k : K) (p : ptr) (o : list ptr) : Prop :=
  ∀ q, q ∈ o → ∃ kv, st !! q = Some kv ∧ (kv.1 = k ↔ q = p).

Lemma holds_cons st k p q o :
  holds st k p (q :: o) ↔ (∃ kv, st !! q = Some kv ∧ (kv.1 = k ↔ q = p)) ∧ holds st k p o.
Proof. unfold holds. setoid_rewrite elem_of_cons. naive_solver. Qed.

Lemma wf_holds c k p : wf c → items c !! k = Some p → holds (store c) k p (order c).
Proof.
  intros Hwf Hk q Hq. destruct (wf_alive c Hwf q Hq) as ([k' v] & Hs & Hi).
  exists (k', v). split; [done|]. cbn in *. split; [congruence|].
  intros ->. destruct (wf_items c Hwf k p Hk) as [_ [v' Hv]]. congruence.
Qed.

Lemma view_remove st k p o :
  holds st k p o → view st (list_remove p o) = Recency.remove k (view st o).
Proof.
  unfold view, list_remove, Recency.remove.
  induction o as [|q o IH]; [done|]. rewrite holds_cons. intros [(kv & Hq & He) Ho].
  specialize (IH Ho). rewrite filter_cons. destruct (decide (q ≠ p)) as [Hne|Heq%dec_stable]; cbn.
  - rewrite Hq, IH, filter_cons_True; [done|]. naive_solver.
  - rewrite Hq, IH, filter_cons_False; [done|]. naive_solver.
Qed.

Lemma view_lookup st k p o :
  holds st k p o → p ∈ o → Recency.lookup k (view st o) = snd <$> st !! p.
Proof.
  unfold view, Recency.lookup. induction o as [|q o IH]; [set_solver|].
  rewrite holds_cons. intros [(kv & Hq & He) Ho] Hp. cbn. rewrite Hq. cbn.
  case_bool_decide as Hk; [apply He in Hk; subst; by rewrite Hq|].
  apply IH; [done|]. set_solver.
Qed.

(** A key absent from [items] is absent from the list. *)
Definition lacks (st : gmap ptr (K * V)) (k : K) (o : list ptr) : Prop :=
  ∀ q, q ∈ o → ∃ kv, st !! q = Some kv ∧ kv.1 ≠ k.

Lemma wf_lacks c k : wf c → items c !! k = None → lacks (store c) k (order c).
Proof.
  intros Hwf Hk q Hq. destruct (wf_alive c Hwf q Hq) as ([k' v] & Hs & Hi).
  exists (k', v). split; [done|]. cbn in *. congruence.
Qed.

Lemma view_lookup_None st k o : lacks st k o → Recency.lookup k (view st o) = None.
Proof.
  unfold view, Recency.lookup. induction o as [|q o IH]; [done|]. intros Hl. cbn.
  destruct (Hl q) as (kv & -> & Hne); [set_solver|]. cbn.
  rewrite bool_decide_false by done. apply IH. intros x Hx. apply Hl. set_solver.
Qed.

Lemma view_remove_None st k o : lacks st k o → Recency.remove k (view st o) = view st o.
Proof.
  unfold view, Recency.remove. induction o as [|q o IH]; [done|]. intros Hl. cbn.
  destruct (Hl q) as (kv & -> & Hne); [set_solver|]. rewrite filter_cons_True by done.
  f_equal. apply IH. intros x Hx. apply Hl. set_solver.
Qed.

Lemma view_length c : wf c → length (abs c) = length (order c).
Proof.
  intros Hwf. unfold abs, view. assert (∀ q, q ∈ order c → is_Some (store c !! q)) as Hs.
  { intros q Hq. destruct (wf_alive c Hwf q Hq) as (kv & -> & _). eauto. }
  induction (order c) as [|q o IH]; [done|]. cbn. destruct (Hs q) as [kv ->]; [set_solver|].
  cbn. f_equal. apply IH. intros x Hx. apply Hs. by right.
Qed.

Lemma view_ext st st' o : (∀ q, q ∈ o → st !! q = st' !! q) → view st o = view st' o.
Proof.
  intros He. unfold view. induction o as [|q o IH]; [done|]. cbn. rewrite <- He by (by left).
  rewrite IH; [done|]. intros x Hx. apply He. by right.
Qed.

Lemma abs_keys c : wf c → NoDup (abs c).*1.
Proof.
  intros Hwf. unfold abs, view. assert (∀ q, q ∈ order c → ∃ kv, store c !! q = Some kv ∧
    items c !! kv.1 = Some q) as Hs by (intros; by apply (wf_alive c Hwf)).
  pose proof (wf_nodup c Hwf) as Hnd.
  induction (order c) as [|q o IH]; [constructor|]. cbn.
  apply NoDup_cons in Hnd as [Hni Hnd]. destruct (Hs q) as (kv & -> & Hi); [set_solver|]. cbn.
  constructor; [|apply IH; [intros x Hx; apply Hs; by right|done]].
  intros Hin. apply list_elem_of_fmap in Hin as (kv' & He & Hin).
  apply list_elem_of_omap in Hin as (q' & Hq' & Hst).
  destruct (Hs q') as (kv2 & Hst' & Hi'); [by right|]. simplify_eq.
  rewrite He, Hi' in Hi. by simplify_eq.
Qed.

Lemma list_remove_elem p q l : q ∈ list_remove p l ↔ q ≠ p ∧ q ∈ l.
Proof. unfold list_remove. by rewrite list_elem_of_filter. Qed.

Lemma list_remove_length p l : p ∈ l → NoDup l → S (length (list_remove p l)) = length l.
Proof.
  unfold list_remove. induction l as [|q l IH]; [set_solver|]. intros Hp [Hni Hnd]%NoDup_cons.
  rewrite filter_cons. destruct (decide (q ≠ p)) as [Hne|Heq%dec_stable]; cbn.
  - f_equal. apply IH; [set_solver|done].
  - subst q. f_equal. clear -Hni. induction l as [|x l IH]; [done|].
    rewrite filter_cons_True by set_solver. cbn. f_equal. apply IH. set_solver.
Qed.

Lemma list_remove_nodup p l : NoDup l → NoDup (list_remove p l).
Proof. apply NoDup_filter. Qed.

Lemma move_to_front_elem p q l : p ∈ l → q ∈ move_to_front p l ↔ q ∈ l.
Proof.
  intros Hp. unfold move_to_front. rewrite elem_of_cons, list_remove_elem.
  destruct (decide (q = p)); naive_solver.
Qed.

Lemma move_to_front_nodup p l : NoDup l → NoDup (move_to_front p l).
Proof. intros Hl. constructor; [rewrite list_remove_elem; tauto|by apply list_remove_nodup]. Qed.

Lemma abs_lookup c k :
  wf c → Recency.lookup k (abs c) =
         match items c !! k with Some p => snd <$> store c !! p | None => None end.
Proof.
  intros Hwf. unfold abs. destruct (items c !! k) as [p|] eqn:Hk.
  - apply view_lookup; [by apply wf_holds|]. by apply (wf_items c Hwf k).
  - apply view_lookup_None. by apply wf_lacks.
Qed.

Lemma abs_remove c k p :
  wf c → items c !! k = Some p → Recency.remove k (abs c) = view (store c) (list_remove p (order c)).
Proof. intros Hwf Hk. symmetry. apply view_remove. by apply wf_holds. Qed.

(** ** Each operation refines the abstract one *)

Lemma new_refines max : 1 ≤ max → wf (newLRUCache max).
Proof.
  intros Hm. constructor; cbn; [constructor|set_solver| |set_solver|lia].
  intros k p Hk. by rewrite lookup_empty in Hk.
Qed.

Lemma set_order_wf p c : wf c → p ∈ order c → wf (set_order (move_to_front p (order c)) c).
Proof.
  intros [H1 H2 H3 H4 H5] Hp. constructor; cbn.
  - by apply move_to_front_nodup.
  - intros q. rewrite move_to_front_elem by done. apply H2.
  - intros k q Hk. rewrite move_to_front_elem by done. by apply H3.
  - intros q. rewrite move_to_front_elem by done. apply H4.
  - rewrite list_remove_length by done. done.
Qed.

Lemma Get_refines k c : wf c →
  wf (Get k c).2 ∧ maxSize (Get k c).2 = maxSize c ∧
  ((Get k c).1, abs (Get k c).2) = Recency.get k (abs c).
Proof.
  intros Hwf. unfold Get, Recency.get. rewrite abs_lookup by done.
  destruct (items c !! k) as [p|] eqn:Hk; [|by split_and!].
  destruct (wf_items c Hwf k p Hk) as [Hp [v Hv]].
  cbn. rewrite Hv. cbn. split_and!; [by apply set_order_wf|done|].
  rewrite (abs_remove c k p) by done. unfold abs, view. cbn. by rewrite Hv.
Qed.

Lemma Put_update_refines k v c p : wf c → items c !! k = Some p →
  wf (Put k v c) ∧ abs (Put k v c) = Recency.put (maxSize c) k v (abs c).
Proof.
  intros Hwf Hk. destruct (wf_items c Hwf k p Hk) as [Hp [v' Hv]].
  unfold Put. rewrite Hk, Hv. cbn [fst].
  destruct (set_order_wf p c Hwf Hp) as [H1 H2 H3 H4 H5]. split.
  - constructor; cbn; [done| | |done|done].
    + intros q Hq. destruct (decide (q = p)) as [->|Hne].
      * exists (k, v). by rewrite lookup_insert_eq.
      * rewrite lookup_insert_ne by done. by apply H2.
    + intros k' q Hk'. destruct (H3 k' q Hk') as [Hq [v2 Hv2]]. split; [done|].
      destruct (decide (q = p)) as [->|Hne]; [|rewrite lookup_insert_ne by done; by exists v2].
      cbn in Hv2. exists v. rewrite lookup_insert_eq. by simplify_eq.
  - unfold Recency.put. rewrite abs_lookup, Hk, Hv by done. cbn [fmap option_fmap option_map].
    rewrite (abs_remove c k p) by done.
    unfold abs, move_to_front. cbn. rewrite lookup_insert_eq. f_equal. apply view_ext. intros q [Hne _]%list_remove_elem. by rewrite lookup_insert_ne.
Qed.

(** The cache after an insertion, before the capacity is looked at. *)
Definition inserted (k : K) (v : V) (c : lruCache) : lruCache :=
  {| maxSize := maxSize c; items := <[k := fresh_ptr c]> (items c);
     order := fresh_ptr c :: order c; store := <[fresh_ptr c := (k, v)]> (store c);
     fresh_ptr := S (fresh_ptr c) |}.

(** The invariant without the bound on the size. *)
Record linked (c : lruCache) : Prop := {
  li_nodup : NoDup (order c);
  li_alive p : p ∈ order c → ∃ kv, store c !! p = Some kv ∧ items c !! kv.1 = Some p;
  li_items k p : items c !! k = Some p → p ∈ order c ∧ ∃ v, store c !! p = Some (k, v);
  li_fresh p : p ∈ order c → (p < fresh_ptr c)%nat;
}.

Lemma wf_linked c : wf c ↔ linked c ∧ Z.of_nat (length (order c)) ≤ maxSize c.
Proof.
  split; [intros []; split; [by constructor|done]|intros [[] ?]; by constructor].
Qed.

Lemma fresh_not_in c : linked c → fresh_ptr c ∉ order c.
Proof. intros Hl Hin%(li_fresh c Hl). lia. Qed.

Lemma inserted_linked k v c : linked c → items c !! k = None → linked (inserted k v c).
Proof.
  intros Hl Hk. pose proof (fresh_not_in c Hl) as Hf. destruct Hl as [H1 H2 H3 H4].
  constructor; cbn.
  - by constructor.
  - intros q [->|Hq]%elem_of_cons.
    + exists (k, v). cbn. by rewrite !lookup_insert_eq.
    + destruct (H2 q Hq) as (kv & Hs & Hi). exists kv.
      rewrite !lookup_insert_ne; [done| |]; [congruence|set_solver].
  - intros k' q. destruct (decide (k' = k)) as [->|Hne].
    + rewrite lookup_insert_eq. intros [= <-]. split; [set_solver|]. exists v. by rewrite lookup_insert_eq.
    + rewrite lookup_insert_ne by done. intros Hq. destruct (H3 k' q Hq) as [Hin [v' Hv']].
      split; [set_solver|]. exists v'. rewrite lookup_insert_ne; [done|set_solver].
  - intros q [->|Hq]%elem_of_cons; [lia|]. specialize (H4 q Hq). lia.
Qed.

Lemma inserted_abs k v c : linked c → abs (inserted k v c) = (k, v) :: abs c.
Proof.
  intros Hl. unfold abs, view. cbn. rewrite lookup_insert_eq. f_equal.
  apply view_ext. intros q Hq. rewrite lookup_insert_ne; [done|].
  intros <-. by apply (fresh_not_in c Hl).
Qed.

(** Taking element [p] with key [k] out of the list and the map. *)
Definition unlink (k : K) (p : ptr) (c : lruCache) : lruCache :=
  {| maxSize := maxSize c; items := delete k (items c); order := list_remove p (order c);
     store := store c; fresh_ptr := fresh_ptr c |}.

Lemma unlink_linked k p c : linked c → items c !! k = Some p → linked (unlink k p c).
Proof.
  intros [H1 H2 H3 H4] Hk. constructor; cbn.
  - by apply list_remove_nodup.
  - intros q [Hne Hq]%list_remove_elem. destruct (H2 q Hq) as (kv & Hs & Hi).
    exists kv. rewrite lookup_delete_ne; [done|]. congruence.
  - intros k' q. destruct (decide (k = k')) as [->|Hne]; [by rewrite lookup_delete_eq|].
    rewrite lookup_delete_ne by done. intros Hq. destruct (H3 k' q Hq) as [Hin [v Hv]].
    split; [|by exists v]. apply list_remove_elem. split; [|done]. intros ->.
    destruct (H3 k p Hk) as [_ [v' Hv']]. congruence.
  - intros q [_ Hq]%list_remove_elem. by apply H4.
Qed.

Lemma unlink_size k p c : (length (order (unlink k p c)) ≤ length (order c))%nat.
Proof. cbn. apply length_filter. Qed.

Lemma unlink_wf k p c : wf c → items c !! k = Some p → wf (unlink k p c).
Proof.
  intros [Hl Hs]%wf_linked Hk. apply wf_linked. split; [by apply unlink_linked|].
  pose proof (unlink_size k p c). cbn [maxSize unlink] in *. lia.
Qed.

(** Removing the last element of a list without duplicates. *)
Lemma list_remove_last b l : NoDup l → last l = Some b → list_remove b l = take (length l - 1) l.
Proof.
  intros Hnd (l' & ->)%last_Some. rewrite length_app. cbn.
  replace (length l' + 1 - 1)%nat with (length l') by lia. rewrite take_app_length.
  unfold list_remove. rewrite filter_app. apply NoDup_app in Hnd as (_ & Hni & _).
  rewrite filter_cons_False by tauto. rewrite filter_nil, app_nil_r.
  clear -Hni. induction l' as [|x l' IH]; [done|].
  rewrite filter_cons_True by (intros ->; apply (Hni b); by left).
  f_equal. apply IH. intros y Hy. apply Hni. by right.
Qed.

Lemma view_take st o n : (∀ q, q ∈ o → is_Some (st !! q)) → view st (take n o) = take n (view st o).
Proof.
  unfold view. revert n. induction o as [|q o IH]; intros [|n] Hs; try done. cbn.
  destruct (Hs q) as [kv ->]; [by left|]. cbn. f_equal. apply IH. intros x Hx. apply Hs. by right.
Qed.

Lemma Put_insert_refines k v c : wf c → items c !! k = None →
  wf (Put k v c) ∧ abs (Put k v c) = Recency.put (maxSize c) k v (abs c).
Proof.
  intros Hwf Hk. pose proof Hwf as [Hl Hsz]%wf_linked.
  pose proof (inserted_linked k v c Hl Hk) as Hil.
  unfold Put, Recency.put. rewrite Hk, abs_lookup, Hk by done. cbn zeta.
  fold (inserted k v c).
  assert (length ((k, v) :: abs c) = length (order (inserted k v c))) as Hlen
    by (cbn; by rewrite view_length). rewrite Hlen.
  destruct (Z.ltb_spec (maxSize c) (Z.of_nat (length (order (inserted k v c))))) as [Hgt|Hle].
  - cbn [maxSize inserted]. rewrite (proj2 (Z.ltb_lt _ _)) by done.
    destruct (last (order (inserted k v c))) as [b|] eqn:Hb; [|by apply last_None in Hb].
    assert (b ∈ order (inserted k v c)) as Hbin by (by apply last_Some_elem_of).
    destruct (li_alive _ Hil b Hbin) as ([kb vb] & Hsb & Hib). rewrite Hsb. cbn [fst].
    change {| maxSize := _; items := _; order := _; store := _; fresh_ptr := _ |}
      with (unlink kb b (inserted k v c)).
    pose proof (list_remove_last b _ (li_nodup _ Hil) Hb) as Hrm.
    split.
    + apply wf_linked. split; [by apply unlink_linked|].
      change (order (unlink kb b (inserted k v c))) with (list_remove b (order (inserted k v c))).
      rewrite Hrm, length_take. cbn. lia.
    + rewrite <- (inserted_abs k v c) by done. 
      change (abs (unlink kb b (inserted k v c)))
        with (view (store (inserted k v c)) (list_remove b (order (inserted k v c)))).
      rewrite Hrm, view_take.
      * unfold abs at 2. f_equal. rewrite view_length by done. cbn. lia.
      * intros q Hq. destruct (li_alive _ Hil q Hq) as (kv & -> & _). eauto.
  - cbn [maxSize inserted]. rewrite (proj2 (Z.ltb_ge _ _)) by done.
    split; [apply wf_linked; by split|]. by apply inserted_abs.
Qed.

Lemma Put_refines k v c : wf c →
  wf (Put k v c) ∧ maxSize (Put k v c) = maxSize c ∧
  abs (Put k v c) = Recency.put (maxSize c) k v (abs c).
Proof.
  intros Hwf. assert (maxSize (Put k v c) = maxSize c) as Hm
    by (unfold Put; cbn zeta; repeat case_match; done).
  destruct (items c !! k) as [p|] eqn:Hk.
  - destruct (Put_update_refines k v c p Hwf Hk). auto.
  - destruct (Put_insert_refines k v c Hwf Hk). auto.
Qed.

Lemma Delete_unlink k c p : items c !! k = Some p → Delete k c = unlink k p c.
Proof. intros Hk. unfold Delete. by rewrite Hk. Qed.

Lemma Delete_refines k c : wf c →
  wf (Delete k c) ∧ maxSize (Delete k c) = maxSize c ∧
  abs (Delete k c) = Recency.remove k (abs c).
Proof.
  intros Hwf. destruct (items c !! k) as [p|] eqn:Hk.
  - rewrite (Delete_unlink k c p Hk). split_and!; [by apply unlink_wf|done|].
    by rewrite (abs_remove c k p).
  - unfold Delete. rewrite Hk. split_and!; [done..|]. symmetry.
    apply view_remove_None. by apply wf_lacks.
Qed.

(** Does [DeleteFunc] keep the element? *)
Definition kept (fn : K → V → bool) (st : gmap ptr (K * V)) (p : ptr) : Prop :=
  match st !! p with Some kv => fn kv.1 kv.2 = false | None => True end.
#[local] Instance kept_dec fn st p : Decision (kept fn st p).
Proof. unfold kept. destruct (st !! p); apply _. Defined.

Lemma list_remove_middle p (l k : list ptr) : NoDup (l ++ p :: k) → list_remove p (l ++ p :: k) = l ++ k.
Proof.
  intros Hnd. unfold list_remove. rewrite filter_app, filter_cons_False by tauto.
  apply NoDup_app in Hnd as (_ & Hl & [Hk _]%NoDup_cons).
  assert (∀ m : list ptr, p ∉ m → filter (λ q, q ≠ p) m = m) as Hid.
  { induction m as [|x m IH]; [done|]. intros Hp. rewrite filter_cons_True by set_solver.
    f_equal. apply IH. set_solver. }
  rewrite !Hid; [done|done|]. intros Hp. apply (Hl p Hp). by left.
Qed.

Lemma delete_loop_spec fn todo d c : wf c → order c = d ++ todo →
  let c' := delete_loop fn todo c in
  wf c' ∧ maxSize c' = maxSize c ∧ store c' = store c ∧
  order c' = d ++ filter (kept fn (store c)) todo.
Proof.
  revert d c. induction todo as [|p todo IH]; intros d c Hwf Ho; cbn zeta.
  - cbn. by rewrite Ho.
  - assert (p ∈ order c) as Hp by (rewrite Ho; set_solver).
    destruct (wf_alive c Hwf p Hp) as ([k v] & Hs & Hi).
    cbn [delete_loop]. rewrite Hs. cbn [fst snd] in *. destruct (fn k v) eqn:Hf.
    + change {| maxSize := _; items := _; order := _; store := _; fresh_ptr := _ |}
        with (unlink k p c).
      destruct (IH d (unlink k p c)) as (Hw & Hm & Hst & Hor).
      * by apply unlink_wf.
      * cbn. rewrite Ho. apply list_remove_middle. rewrite <- Ho. apply (wf_nodup c Hwf).
      * split_and!; [done..|]. rewrite Hor. cbn [unlink store].
        rewrite filter_cons_False; [done|]. unfold kept. rewrite Hs. cbn. congruence.
    + destruct (IH (d ++ [p]) c) as (Hw & Hm & Hst & Hor); [done|by rewrite <- app_assoc|].
      split_and!; [done..|]. rewrite Hor, <- app_assoc.
      rewrite filter_cons_True; [done|]. unfold kept. by rewrite Hs.
Qed.

Lemma view_kept fn st o :
  view st (filter (kept fn st) o) = Recency.delete_func fn (view st o).
Proof.
  unfold view, Recency.delete_func. induction o as [|q o IH]; [done|].
  destruct (st !! q) as [kv|] eqn:E.
  - destruct (fn kv.1 kv.2) eqn:Hf.
    + rewrite filter_cons_False by (unfold kept; rewrite E; congruence).
      cbn [omap list_omap]. rewrite E, filter_cons_False by congruence. exact IH.
    + rewrite filter_cons_True by (unfold kept; by rewrite E).
      cbn [omap list_omap]. rewrite E, filter_cons_True by done. by f_equal.
  - rewrite filter_cons_True by (unfold kept; by rewrite E).
    cbn [omap list_omap]. by rewrite E.
Qed.

Lemma DeleteFunc_refines fn c : wf c →
  wf (DeleteFunc fn c) ∧ maxSize (DeleteFunc fn c) = maxSize c ∧
  abs (DeleteFunc fn c) = Recency.delete_func fn (abs c).
Proof.
  intros Hwf. unfold DeleteFunc.
  destruct (delete_loop_spec fn (order c) [] c Hwf eq_refl) as (Hw & Hm & Hst & Hor).
  split_and!; [done..|]. unfold abs. rewrite Hst, Hor. apply view_kept.
Qed.

#[export, refine] Instance lru_cache : Cache lruCache K V := {|
  c_new := newLRUCache;
  c_get := Get;
  c_put := Put;
  c_delete := Delete;
  c_delete_func := DeleteFunc;
  c_max := maxSize;
  c_ok := wf;
  c_entries := abs;
|}.
Proof.
  - intros max Hm. split_and!; [by apply new_refines|done..].
  - intros. by apply Get_refines.
  - intros. by apply Put_refines.
  - intros. by apply Delete_refines.
  - intros. by apply DeleteFunc_refines.
  - apply abs_keys.
  - intros c Hwf. rewrite view_length by done. apply (wf_size c Hwf).
Defined.
End Lru.
Arguments lruCache K V {_ _}.

(** ** Properties *)

Section Histories.
Context {K V : Type} `{Countable K}.

Inductive cache_op := OGet (k : K) | OPut (k : K) (v : V) | ODelete (k : K) | ODeleteFunc (fn : K → V → bool).

Fixpoint run_cache (ops : list cache_op) (c : lruCache K V) : list (option V) * lruCache K V :=
  match ops with
  | [] => ([], c)
  | op :: ops' =>
      match op with
      | OGet k =>
          let '(r, c1) := Get k c in let '(rs, c2) := run_cache ops' c1 in (r :: rs, c2)
      | OPut k v => run_cache ops' (Put k v c)
      | ODelete k => run_cache ops' (Delete k c)
      | ODeleteFunc fn => run_cache ops' (DeleteFunc fn c)
      end
  end.

Fixpoint run_recency (max : Z) (ops : list cache_op) (l : list (K * V)) : list (option V) * list (K * V) :=
  match ops with
  | [] => ([], l)
  | op :: ops' =>
      match op with
      | OGet k =>
          let '(r, l1) := Recency.get k l in let '(rs, l2) := run_recency max ops' l1 in (r :: rs, l2)
      | OPut k v => run_recency max ops' (Recency.put max k v l)
      | ODelete k => run_recency max ops' (Recency.remove k l)
      | ODeleteFunc fn => run_recency max ops' (Recency.delete_func fn l)
      end
  end.

Lemma run_refines ops c : wf c →
  wf (run_cache ops c).2 ∧ maxSize (run_cache ops c).2 = maxSize c ∧
  ((run_cache ops c).1, abs (run_cache ops c).2) = run_recency (maxSize c) ops (abs c).
Proof.
  revert c. induction ops as [|[k|k v|k|fn] ops IH]; intros c Hwf; cbn.
  - done.
  - destruct (Get_refines k c Hwf) as (Hw & Hm & He). destruct (Get k c) as [r c1].
    cbn in Hw, Hm, He. rewrite <- He. destruct (IH c1 Hw) as (Hw2 & Hm2 & He2).
    rewrite <- Hm, <- He2. destruct (run_cache ops c1). cbn in *. split_and!; [done|congruence|done].
  - destruct (Put_refines k v c Hwf) as (Hw & Hm & He). rewrite <- He, <- Hm. by apply IH.
  - destruct (Delete_refines k c Hwf) as (Hw & Hm & He). rewrite <- He, <- Hm. by apply IH.
  - destruct (DeleteFunc_refines fn c Hwf) as (Hw & Hm & He). rewrite <- He, <- Hm. by apply IH.
Qed.
End Histories.
Arguments cache_op : clear implicits.

(** C12: the linked cache is an LRU cache.  Over any sequence of operations on a
    new cache, every lookup answers as the abstract recency list does, the
    contents in list order are that list, no key is stored twice, and the cache
    never holds more than its capacity. *)
Theorem lru_refines_recency {K V} `{Countable K} max (ops : list (cache_op K V)) :
  1 ≤ max →
  let '(answers, c) := run_cache ops (newLRUCache max) in
  (answers, abs c) = run_recency max ops [] ∧
  NoDup (abs c).*1 ∧ Z.of_nat (Len c) ≤ max.
Proof.
  intros Hm. destruct (run_refines ops (newLRUCache max) (new_refines max Hm)) as (Hw & Hmx & He).
  destruct (run_cache ops (newLRUCache max)) as [answers c]. cbn in *.
  split_and!; [done|by apply abs_keys|]. unfold Len. pose proof (wf_size c Hw). lia.
Qed.

Lemma lru_refines_recency_witness :
  let '(answers, c) := run_cache [OPut 1 "a"; OPut 2 "b"; OGet 1; OPut 3 "c"; OGet 2; OGet 1]
                         (newLRUCache 2) in
  answers = [Some "a"; None; Some "a"] ∧ abs c = [(1, "a"); (3, "c")] ∧ Z.of_nat (Len c) ≤ 2.
Proof.
  pose proof (lru_refines_recency 2
    [OPut 1 "a"; OPut 2 "b"; OGet 1; OPut 3 "c"; OGet 2; OGet 1] ltac:(done)) as H.
  destruct (run_cache _ _) as [answers c]. destruct H as (He & _ & Hl).
  vm_compute in He. by simplify_eq.
Defined.
