(* ===== verification/IdentityClient.v ===== *)
(** * The identity client (src/identityclient/client.go)

    Token introspection with a cache that answers only while the identity
    service is unavailable, and service tokens with a cache keyed by
    organization, service and scopes.  The two caches are used through the
    interface [Cache] of Lru.v.  The HTTP client, and the decoding of protobuf
    JSON and of JSON into Go structs, are operations of [IdentityIO]. *)

From S2P Require Import Prelude GoStrings GoErrors GoFloat Json Http RtErrors Lru.
From Stdlib Require Import QArith.
#[local] Open Scope Z_scope.

Definition ErrIdentityNotConfigured :=
  ErrNew "identityclient.ErrIdentityNotConfigured" "identity_not_configured".
Definition ErrIdentityUnavailable :=
  ErrNew "identityclient.ErrIdentityUnavailable" "identity_unavailable".
Definition ErrInvalidToken := ErrNew "identityclient.ErrInvalidToken" "invalid_token".
Definition ErrInactiveToken := ErrNew "identityclient.ErrInactiveToken" "inactive_token".
Definition ErrServiceTokensNotConfigured :=
  ErrNew "identityclient.ErrServiceTokensNotConfigured" "identity_service_tokens_not_configured".

(** The fields of identityv1.IntrospectResponse the client reads. *)
Record IntrospectResponse := {
  Active : bool;
  AgentType : string;
  Capabilities : list string;
  ir_OrganizationId : string;
  RunId : string;
  ir_Scopes : list string;
  ir_Service : string;
  ir_Subject : string;
  Surface : string;
  ir_TokenType : string;
  ir_UserSubject : string;
}.

Record IntrospectionResult := {
  res_Active : bool;
  res_AgentType : string;
  res_Capabilities : list string;
  res_OrganizationID : string;
  res_RunID : string;
  res_Scopes : list string;
  res_Service : string;
  res_Subject : string;
  res_Surface : string;
  res_TokenType : string;
  res_UserSubject : string;
}.

Definition introspectionResultFromProto (r : IntrospectResponse) : IntrospectionResult :=
  {| res_Active := Active r; res_AgentType := AgentType r; res_Capabilities := Capabilities r;
     res_OrganizationID := ir_OrganizationId r; res_RunID := RunId r; res_Scopes := ir_Scopes r;
     res_Service := ir_Service r; res_Subject := ir_Subject r; res_Surface := Surface r;
     res_TokenType := ir_TokenType r; res_UserSubject := ir_UserSubject r |}.

Record cachedIntrospection := { ci_expiresAt : time; ci_result : IntrospectResponse }.

Record serviceTokenCacheKey := {
  k_organizationID : string;
  k_service : string;
  k_scopes : string;
}.

#[export] Instance cache_key_eq_dec : EqDecision serviceTokenCacheKey.
Proof. solve_decision. Defined.
#[export] Instance cache_key_countable : Countable serviceTokenCacheKey.
Proof.
  refine (inj_countable' (λ k, (k_organizationID k, k_service k, k_scopes k))
    (λ p, {| k_organizationID := p.1.1; k_service := p.1.2; k_scopes := p.2 |}) _).
  by intros [].
Defined.

Record cachedServiceToken := { ct_expiresAt : time; ct_token : string }.

(** A decoded token response; [Claims] is its expiry when there are claims. *)
Record ServiceTokenResponse := {
  st_Token : string;
  st_ExpiresAt : time;
  st_Claims : option time;
}.

Definition expiryTime (r : ServiceTokenResponse) : option time :=
  if negb (is_zero_time (st_ExpiresAt r)) then Some (st_ExpiresAt r)
  else match st_Claims r with
       | Some t => if negb (is_zero_time t) then Some t else None
       | None => None
       end.

Record IssueServiceTokenRequest := {
  req_Service : string;
  req_OrganizationId : string;
  req_Scopes : list string;
  TtlSeconds : Z;
}.

Record http_request := { hr_url : string; hr_authorization : option string; hr_body : string }.
Record http_response := { resp_status : Z; resp_body : result error string }.

Class IdentityIO (W : Type) := {
  build_request : string → option error; (* http.NewRequestWithContext on a URL *)
  do_request : http_request → W → result error http_response * W;
  decode_introspect : string → result error IntrospectResponse;
  encode_issue : IssueServiceTokenRequest → result error string;
  decode_issue : string → result error ServiceTokenResponse;
}.

Definition clampToInt32 (v : Z) : Z :=
  if int32_max <? v then int32_max else if v <? 0 then 0 else v.

(** [cacheScopesKey]: trimmed, without blanks, sorted, without repetitions. *)
Fixpoint dedupe (last_kept : option string) (l : list string) : list string :=
  match l with
  | [] => []
  | s :: l' =>
      if decide (last_kept = Some s) then dedupe last_kept l' else s :: dedupe (Some s) l'
  end.

Definition normalized (scopes : list string) : list string :=
  filter (λ s, s ≠ "") (TrimSpace <$> scopes).

Definition nul : string := String (Ascii.ascii_of_nat 0) "".

Definition cacheScopesKey (scopes : list string) : string :=
  Join (dedupe None (SortStrings (normalized scopes))) nul.

(** ** The client *)

Section Client.
Context {F : Type} `{!Float64 F}.
Context {CI CT : Type}.
Context `{!Cache CI string cachedIntrospection}.
Context `{!Cache CT serviceTokenCacheKey cachedServiceToken}.
Context {W : Type} `{!IdentityIO W}.

Record Config := {
  IntrospectURL : string;
  ServiceTokensURL : string;
  BootstrapKey : string;
  CacheTTL : duration;
  MaxCacheSize : Z;
  UsesMTLSCert : bool; (* httpClientUsesMTLSCertificate of its HTTP client *)
}.

Record Client := {
  introspectURL : string;
  serviceTokensURL : string;
  bootstrapKey : string;
  cacheTTL : duration;
  usesMTLSCert : bool;
  introspection : CI;
  serviceTokens : CT;
}.

Definition New (c : Config) : Client :=
  let maxSize := if MaxCacheSize c <=? 0 then 10000 else MaxCacheSize c in
  {| introspectURL := IntrospectURL c; serviceTokensURL := ServiceTokensURL c;
     bootstrapKey := BootstrapKey c; cacheTTL := CacheTTL c; usesMTLSCert := UsesMTLSCert c;
     introspection := c_new maxSize; serviceTokens := c_new maxSize |}.

Definition set_introspection (i : CI) (c : Client) : Client :=
  {| introspectURL := introspectURL c; serviceTokensURL := serviceTokensURL c;
     bootstrapKey := bootstrapKey c; cacheTTL := cacheTTL c; usesMTLSCert := usesMTLSCert c;
     introspection := i; serviceTokens := serviceTokens c |}.

Definition set_serviceTokens (s : CT) (c : Client) : Client :=
  {| introspectURL := introspectURL c; serviceTokensURL := serviceTokensURL c;
     bootstrapKey := bootstrapKey c; cacheTTL := cacheTTL c; usesMTLSCert := usesMTLSCert c;
     introspection := introspection c; serviceTokens := s |}.

Definition Configured (c : Client) : bool := bool_decide (introspectURL c ≠ "").

Definition ServiceTokensConfigured (c : Client) : bool :=
  bool_decide (serviceTokensURL c ≠ "")
  && (bool_decide (TrimSpace (bootstrapKey c) ≠ "") || usesMTLSCert c).

(** [cachedIntrospection]: [now] is the clock reading of the expiry test. *)
Definition cachedIntrospection_ (now : time) (token : string) (c : Client)
  : option IntrospectResponse * Client :=
  if (cacheTTL c <=? 0) || bool_decide (token = "") then (None, c)
  else
    let '(found, cache) := c_get token (introspection c) in
    match found with
    | None => (None, set_introspection cache c)
    | Some cached =>
        if time_after now (ci_expiresAt cached)
        then (None, set_introspection (c_delete token cache) c)
        else (Some (ci_result cached), set_introspection cache c)
    end.

Definition pruneExpiredLocked (now : time) (cache : CI) : CI :=
  c_delete_func (λ _ cached, time_after now (ci_expiresAt cached)) cache.

Definition storeIntrospection (now : time) (token : string) (r : IntrospectResponse) (c : Client)
  : Client :=
  if (cacheTTL c <=? 0) || bool_decide (token = "") then c
  else
    let cache := pruneExpiredLocked now (introspection c) in
    set_introspection
      (c_put token {| ci_expiresAt := time_add now (cacheTTL c); ci_result := r |} cache) c.

Definition evictIntrospection (token : string) (c : Client) : Client :=
  if decide (token = "") then c
  else set_introspection (c_delete token (introspection c)) c.

Definition unavailable (text : string) : error := ErrWrap "" ErrIdentityUnavailable text.

(** [IntrospectProto]; [t0] and [t1] are the clock readings of the cache test
    and of the store. *)
Definition IntrospectProto (t0 t1 : time) (token : string) (c : Client) (w : W)
  : result error IntrospectResponse * Client * W :=
  if negb (Configured c) then (Err ErrIdentityNotConfigured, c, w)
  else
    let '(cached, c) := cachedIntrospection_ t0 token c in
    let fallback e := match cached with Some r => Ok r | None => Err e end in
    match build_request (introspectURL c) with
    | Some e => (Err (ErrWrap "build_request: " e ""), c, w)
    | None =>
        let '(resp, w) :=
          do_request {| hr_url := introspectURL c;
                        hr_authorization := Some ("Bearer " +:+ token); hr_body := "{}" |} w in
        match resp with
        | Err e => (fallback (unavailable (": identity_request: " +:+ Error_ e)), c, w)
        | Ok resp =>
            let st := resp_status resp in
            if (st =? 408) || (st =? 429) then
              (fallback (unavailable (": status_" +:+ FormatInt st)), c, w)
            else if negb (st =? 200) then
              if 500 <=? st then (fallback (unavailable (": status_" +:+ FormatInt st)), c, w)
              else (Err ErrInvalidToken, evictIntrospection token c, w)
            else
              match resp_body resp with
              | Err e => (fallback (unavailable (": read_response: " +:+ Error_ e)), c, w)
              | Ok body =>
                  match decode_introspect body with
                  | Err e => (fallback (unavailable (": decode_response: " +:+ Error_ e)), c, w)
                  | Ok r =>
                      if negb (Active r)
                      then (Err ErrInactiveToken, evictIntrospection token c, w)
                      else (Ok r, storeIntrospection t1 token r c, w)
                  end
              end
        end
    end.

Definition Introspect (t0 t1 : time) (token : string) (c : Client) (w : W)
  : result error IntrospectionResult * Client * W :=
  let '(r, c, w) := IntrospectProto t0 t1 token c w in
  (match r with Ok r => Ok (introspectionResultFromProto r) | Err e => Err e end, c, w).

Definition ttl_seconds (ttl : duration) : Z :=
  clampToInt32 (Z.max (f_to_int64 (duration_seconds (F := F) ttl)) 1).

Definition IssueServiceToken (organizationID service : string) (scopes : list string)
  (ttl : duration) (c : Client) (w : W) : result error ServiceTokenResponse * W :=
  if negb (ServiceTokensConfigured c) then (Err ErrServiceTokensNotConfigured, w)
  else
    match encode_issue {| req_Service := service; req_OrganizationId := organizationID;
                          req_Scopes := scopes; TtlSeconds := ttl_seconds ttl |} with
    | Err e => (Err (ErrWrap "encode_request: " e ""), w)
    | Ok body =>
        match build_request (serviceTokensURL c) with
        | Some e => (Err (ErrWrap "build_request: " e ""), w)
        | None =>
            let auth := if decide (TrimSpace (bootstrapKey c) ≠ "")
                        then Some ("Bearer " +:+ bootstrapKey c) else None in
            let '(resp, w) :=
              do_request {| hr_url := serviceTokensURL c; hr_authorization := auth;
                            hr_body := body |} w in
            match resp with
            | Err e => (Err (ErrWrap "identity_request: " e ""), w)
            | Ok resp =>
                if negb (resp_status resp =? 201) then
                  (Err (ErrFmt ("issue_service_token: unexpected_status_"
                                +:+ FormatInt (resp_status resp))), w)
                else
                  match resp_body resp with
                  | Err e => (Err (ErrWrap "read_response: " e ""), w)
                  | Ok body =>
                      match decode_issue body with
                      | Err e => (Err (ErrWrap "decode_response: " e ""), w)
                      | Ok r =>
                          if decide (TrimSpace (st_Token r) = "")
                          then (Err (ErrNew "" "missing_service_token"), w)
                          else (Ok r, w)
                      end
                  end
            end
        end
    end.

(** [expiringSoon], at the clock reading [now]. *)
Definition expiringSoon (now : time) (t : cachedServiceToken) : bool :=
  time_after (time_add now (10 * Second)) (ct_expiresAt t).

Definition token_key (organizationID service : string) (scopes : list string)
  : serviceTokenCacheKey :=
  {| k_organizationID := TrimSpace organizationID; k_service := TrimSpace service;
     k_scopes := cacheScopesKey scopes |}.

Definition ResolveServiceToken (now : time) (organizationID service : string)
  (scopes : list string) (ttl : duration) (c : Client) (w : W)
  : result error string * Client * W :=
  if negb (ServiceTokensConfigured c) then (Err ErrServiceTokensNotConfigured, c, w)
  else
    let key := token_key organizationID service scopes in
    let '(found, cache) := c_get key (serviceTokens c) in
    let c := set_serviceTokens cache c in
    let issue :=
      match IssueServiceToken (k_organizationID key) (k_service key) scopes ttl c w with
      | (Err e, w) => (Err e, c, w)
      | (Ok issued, w) =>
          match expiryTime issued with
          | None => (Err (ErrNew "" "missing_service_token_expiry"), c, w)
          | Some expiresAt =>
              let cache := c_put key {| ct_expiresAt := expiresAt; ct_token := st_Token issued |}
                             (serviceTokens c) in
              (Ok (st_Token issued), set_serviceTokens cache c, w)
          end
      end in
    match found with
    | Some cached => if negb (expiringSoon now cached) then (Ok (ct_token cached), c, w) else issue
    | None => issue
    end.

(** ** What the identity service said

    The verdict of one call, read off the service's reply: it granted the token,
    it rejected it, or it gave no usable answer. *)
Inductive verdict := Granted (r : IntrospectResponse) | Rejected | NoAnswer.

Definition service_verdict (token : string) (c : Client) (w : W) : verdict :=
  match (do_request {| hr_url := introspectURL c;
                       hr_authorization := Some ("Bearer " +:+ token); hr_body := "{}" |} w).1 with
  | Err _ => NoAnswer
  | Ok resp =>
      let st := resp_status resp in
      if st =? 200 then
        match resp_body resp with
        | Err _ => NoAnswer
        | Ok body =>
            match decode_introspect body with
            | Err _ => NoAnswer
            | Ok r => if Active r then Granted r else Rejected
            end
        end
      else if (st =? 408) || (st =? 429) || (500 <=? st) then NoAnswer
      else Rejected
  end.

(** [IntrospectProto] by verdict. *)
Lemma IntrospectProto_by_verdict t0 t1 token c w :
  Configured c = true → build_request (introspectURL c) = None →
  let '(cached, c1) := cachedIntrospection_ t0 token c in
  let '(r, c2, w') := IntrospectProto t0 t1 token c w in
  match service_verdict token c w with
  | Granted res => r = Ok res ∧ Active res = true ∧ c2 = storeIntrospection t1 token res c1
  | Rejected => (r = Err ErrInvalidToken ∨ r = Err ErrInactiveToken) ∧ c2 = evictIntrospection token c1
  | NoAnswer => c2 = c1 ∧ match cached with
                          | Some res => r = Ok res
                          | None => ∃ text, r = Err (unavailable text)
                          end
  end.
Proof.
  intros Hc Hb. unfold IntrospectProto, service_verdict. rewrite Hc. cbn [negb].
  assert (introspectURL (cachedIntrospection_ t0 token c).2 = introspectURL c) as Hu
    by (unfold cachedIntrospection_; repeat (case_match; simplify_eq/=); done).
  destruct (cachedIntrospection_ t0 token c) as [cached c1]. cbn in Hu. rewrite Hu, Hb.
  destruct (do_request _ w) as [[resp|e] w']; cbn;
    [|destruct cached; eauto].
  destruct (Z.eqb_spec (resp_status resp) 408) as [->|]; [destruct cached; cbn; eauto|].
  destruct (Z.eqb_spec (resp_status resp) 429) as [->|]; [destruct cached; cbn; eauto|].
  destruct (Z.eqb_spec (resp_status resp) 200) as [->|]; cbn.
  - destruct (resp_body resp) as [body|e]; [|destruct cached; eauto].
    destruct (decode_introspect body) as [r|e]; [|destruct cached; eauto].
    destruct (Active r) eqn:Ha; cbn; eauto.
  - destruct (500 <=? resp_status resp); [destruct cached; eauto|eauto].
Qed.

(** ** The cache and what justifies it *)

(** The service granted [g_token] with answer [g_result] at [g_time]. *)
Record grant := { g_token : string; g_result : IntrospectResponse; g_time : time }.

(** Every cached answer is an active one the service gave for that token, kept
    for no longer than the time to live. *)
Definition justified (log : list grant) (c : Client) : Prop :=
  c_ok (introspection c) ∧
  ∀ token ci, (token, ci) ∈ c_entries (introspection c) →
    ∃ g, g ∈ log ∧ g_token g = token ∧ g_result g = ci_result ci ∧
         Active (g_result g) = true ∧ ci_expiresAt ci = time_add (g_time g) (cacheTTL c).

Lemma lookup_elem {K V} `{EqDecision K} (k : K) (l : list (K * V)) v :
  Recency.lookup k l = Some v → (k, v) ∈ l.
Proof.
  unfold Recency.lookup. induction l as [|[k' v'] l IH]; [done|]. cbn.
  case_bool_decide as Hk; cbn in *; [|set_solver]. intros [= ->]. subst. by left.
Qed.

Lemma get_elem {K V} `{EqDecision K} (k : K) (l : list (K * V)) kv :
  kv ∈ (Recency.get k l).2 → kv ∈ l.
Proof.
  unfold Recency.get. destruct (Recency.lookup k l) as [v|] eqn:E; [|done]. cbn.
  intros [->|Hin]%elem_of_cons; [by apply lookup_elem|].
  by apply list_elem_of_filter in Hin as [_ ?].
Qed.

Lemma put_elem {K V} `{EqDecision K} max (k : K) (v : V) l kv :
  kv ∈ Recency.put max k v l → kv = (k, v) ∨ kv ∈ l.
Proof.
  unfold Recency.put. destruct (Recency.lookup k l).
  - intros [->|Hin]%elem_of_cons; [by left|]. right. by apply list_elem_of_filter in Hin as [_ ?].
  - cbn zeta. destruct (max <? _); intros Hin.
    + apply elem_of_take in Hin as (i & Hi & _). apply list_elem_of_lookup_2 in Hi. set_solver.
    + set_solver.
Qed.

Lemma set_introspection_justified log i c :
  justified log c → c_ok i → (∀ kv, kv ∈ c_entries i → kv ∈ c_entries (introspection c)) →
  justified log (set_introspection i c).
Proof. intros [_ Hj] Hok Hsub. split; [done|]. cbn. intros token ci Hin. by apply Hj, Hsub. Qed.

Lemma c_get_sub k (i : CI) kv : c_ok i → kv ∈ c_entries (c_get k i).2 → kv ∈ c_entries i.
Proof.
  intros Hok. destruct (c_get_law k i Hok) as (_ & _ & He). intros Hin. apply (get_elem k).
  by rewrite <- He.
Qed.

Lemma c_delete_sub k (i : CI) kv : c_ok i → kv ∈ c_entries (c_delete k i) → kv ∈ c_entries i.
Proof.
  intros Hok. destruct (c_delete_law k i Hok) as (_ & _ & ->).
  by intros [_ ?]%list_elem_of_filter.
Qed.

Lemma cachedIntrospection_justified log t0 token c :
  justified log c →
  let '(cached, c1) := cachedIntrospection_ t0 token c in
  justified log c1 ∧ cacheTTL c1 = cacheTTL c ∧
  ∀ res, cached = Some res → ∃ g, g ∈ log ∧ g_token g = token ∧ g_result g = res ∧
    Active res = true ∧ t0 ≤ g_time g + cacheTTL c.
Proof.
  intros Hj. pose proof Hj as [Hok Hent]. unfold cachedIntrospection_.
  destruct (_ || _); [done|].
  destruct (c_get_law token (introspection c) Hok) as (Hok1 & _ & He).
  pose proof (λ kv, c_get_sub token (introspection c) kv Hok) as Hsub.
  destruct (c_get token (introspection c)) as [found cache]. cbn [fst snd] in *.
  destruct found as [ci|]; [|split_and!; [by apply set_introspection_justified|done|done]].
  assert (Recency.lookup token (c_entries (introspection c)) = Some ci) as Hlk.
  { unfold Recency.get in He. destruct (Recency.lookup _ _); by simplify_eq. }
  destruct (time_after t0 (ci_expiresAt ci)) eqn:Ht; cbn.
  - split_and!; [|done|done]. apply set_introspection_justified; [done| |].
    + by apply c_delete_law.
    + intros kv Hin. by apply Hsub, (c_delete_sub token).
  - split_and!; [by apply set_introspection_justified|done|]. intros res [= <-].
    destruct (Hent token ci) as (g & Hg & Hgt & Hgr & Hga & Hge); [by apply lookup_elem|].
    exists g. split_and!; [done..|congruence|].
    unfold time_after, time_add in *. breflect. lia.
Qed.

Lemma store_justified log t1 token res c :
  justified log c → Active res = true →
  justified ({| g_token := token; g_result := res; g_time := t1 |} :: log)
    (storeIntrospection t1 token res c).
Proof.
  intros [Hok Hent] Ha. unfold storeIntrospection. set (g := {| g_token := token |}).
  assert (∀ tok ci, (tok, ci) ∈ c_entries (introspection c) → ∃ g0, g0 ∈ g :: log ∧
    g_token g0 = tok ∧ g_result g0 = ci_result ci ∧ Active (g_result g0) = true ∧
    ci_expiresAt ci = time_add (g_time g0) (cacheTTL c)) as Hent'.
  { intros tok ci Hin. destruct (Hent tok ci Hin) as (g0 & ? & ?). exists g0. set_solver. }
  destruct (_ || _); [done|]. unfold pruneExpiredLocked.
  destruct (c_delete_func_law (λ (_ : string) (ci : cachedIntrospection), time_after t1 (ci_expiresAt ci))
    (introspection c) Hok) as (Hok1 & _ & He1).
  set (cache := c_delete_func _ _) in *.
  destruct (c_put_law token {| ci_expiresAt := time_add t1 (cacheTTL c); ci_result := res |} cache Hok1)
    as (Hok2 & _ & He2).
  split; [done|]. cbn. intros tok ci Hin. rewrite He2 in Hin.
  apply put_elem in Hin as [[= -> ->]|Hin]; [exists g; split; [by left|done]|].
  rewrite He1 in Hin. apply list_elem_of_filter in Hin as [_ Hin]. by apply Hent'.
Qed.

Lemma evict_justified log token c : justified log c → justified log (evictIntrospection token c).
Proof.
  intros Hj. unfold evictIntrospection. case_decide; [done|]. pose proof Hj as [Hok _].
  apply set_introspection_justified; [done|by apply c_delete_law|].
  intros kv. by apply c_delete_sub.
Qed.

Lemma evict_absent token c :
  token ≠ "" → c_ok (introspection c) →
  token ∉ (c_entries (introspection (evictIntrospection token c))).*1.
Proof.
  intros Hne Hok. unfold evictIntrospection. rewrite decide_False by done. cbn.
  destruct (c_delete_law token (introspection c) Hok) as (_ & _ & ->).
  intros ([k v] & -> & Hin)%list_elem_of_fmap. by apply list_elem_of_filter in Hin as [? _].
Qed.

(** Histories of calls on a new client, with what the service granted. *)
Inductive history (cfg : Config) : Client → list grant → Prop :=
| hist_new : history cfg (New cfg) []
| hist_call c log t0 t1 token w r c' w' :
    history cfg c log → IntrospectProto t0 t1 token c w = (r, c', w') →
    history cfg c'
      (match service_verdict token c w with
       | Granted res => [{| g_token := token; g_result := res; g_time := t1 |}]
       | _ => []
       end ++ log).

Lemma step_justified log t0 t1 token c w r c' w' :
  justified log c → IntrospectProto t0 t1 token c w = (r, c', w') →
  justified (match service_verdict token c w with
             | Granted res => [{| g_token := token; g_result := res; g_time := t1 |}]
             | _ => []
             end ++ log) c'.
Proof.
  intros Hj He.
  assert (∀ gs, justified log c' → justified (gs ++ log) c') as Hweak.
  { intros gs [Hok Hent]. split; [done|]. intros tok ci Hin.
    destruct (Hent tok ci Hin) as (g & Hg & Hrest). exists g. set_solver. }
  pose proof (cachedIntrospection_justified log t0 token c Hj) as Hc.
  destruct (Configured c) eqn:Hcf;
    [|unfold IntrospectProto in He; rewrite Hcf in He; cbn in He; simplify_eq; by apply Hweak].
  destruct (build_request (introspectURL c)) as [e|] eqn:Hb.
  { unfold IntrospectProto in He. rewrite Hcf in He. cbn in He.
    assert (introspectURL (cachedIntrospection_ t0 token c).2 = introspectURL c) as Hu
      by (unfold cachedIntrospection_; repeat (case_match; simplify_eq/=); done).
    destruct (cachedIntrospection_ t0 token c) as [cached c1]. cbn in Hu.
    rewrite Hu, Hb in He. simplify_eq. apply Hweak. tauto. }
  pose proof (IntrospectProto_by_verdict t0 t1 token c w Hcf Hb) as Hv.
  rewrite He in Hv. destruct (cachedIntrospection_ t0 token c) as [cached c1].
  destruct Hc as (Hj1 & Httl & _). destruct (service_verdict token c w) as [res| |].
  - destruct Hv as (_ & Ha & ->). by apply store_justified.
  - destruct Hv as (_ & ->). by apply evict_justified.
  - destruct Hv as (-> & _). done.
Qed.

Lemma history_justified cfg c log : history cfg c log → justified log c.
Proof.
  induction 1 as [|c log t0 t1 token w r c' w' _ IH He]; [|by eapply step_justified].
  unfold New. destruct (c_new_law (C := CI) (if MaxCacheSize cfg <=? 0 then 10000 else MaxCacheSize cfg))
    as (Hok & He & _); [destruct (Z.leb_spec (MaxCacheSize cfg) 0); lia|].
  split; [done|]. cbn. rewrite He. set_solver.
Qed.

Lemma lookup_absent {K V} `{EqDecision K} (k : K) (l : list (K * V)) :
  k ∉ l.*1 → Recency.lookup k l = None.
Proof.
  destruct (Recency.lookup k l) as [v|] eqn:E; [|done]. intros Hni. exfalso. apply Hni.
  apply lookup_elem in E. by apply (list_elem_of_fmap_2 fst) in E.
Qed.

Lemma cached_absent t0 token c :
  c_ok (introspection c) → token ∉ (c_entries (introspection c)).*1 →
  (cachedIntrospection_ t0 token c).1 = None.
Proof.
  intros Hok Hni. unfold cachedIntrospection_. destruct (_ || _); [done|].
  destruct (c_get_law token (introspection c) Hok) as (_ & _ & He).
  unfold Recency.get in He. rewrite lookup_absent in He by done.
  destruct (c_get token (introspection c)) as [found cache]. cbn in He. by simplify_eq.
Qed.

(** ** The service token cache *)

Lemma get_hit {K V} `{EqDecision K} (k : K) (v : V) l : (Recency.get k ((k, v) :: l)).1 = Some v.
Proof. unfold Recency.get, Recency.lookup. cbn. by rewrite bool_decide_true. Qed.

Lemma put_front {K V} `{EqDecision K} max (k : K) (v : V) l :
  1 ≤ max → ∃ l', Recency.put max k v l = (k, v) :: l'.
Proof.
  intros Hm. unfold Recency.put. destruct (Recency.lookup k l); [by eexists|].
  cbn zeta. destruct (Z.ltb_spec max (Z.of_nat (length ((k, v) :: l)))) as [Hlt|]; [|by eexists].
  cbn in Hlt. destruct l as [|x l]; cbn in *; [lia|by eexists].
Qed.

(** A lookup right after an insertion, or after another hit, finds the value. *)
Lemma c_get_put (k : serviceTokenCacheKey) v (cache : CT) :
  c_ok cache → 1 ≤ c_max cache → (c_get k (c_put k v cache)).1 = Some v.
Proof.
  intros Hok Hm. destruct (c_put_law k v cache Hok) as (Hok' & _ & He).
  destruct (c_get_law k (c_put k v cache) Hok') as (_ & _ & Hg).
  destruct (put_front (c_max cache) k v (c_entries cache) Hm) as [l' Hl]. rewrite He, Hl in Hg.
  pose proof (get_hit k v l') as Hh. rewrite <- Hg in Hh. exact Hh.
Qed.

Lemma c_get_again (k : serviceTokenCacheKey) (cache : CT) v :
  c_ok cache → (c_get k cache).1 = Some v → (c_get k (c_get k cache).2).1 = Some v.
Proof.
  intros Hok Hv. destruct (c_get_law k cache Hok) as (Hok' & _ & He).
  destruct (c_get_law k (c_get k cache).2 Hok') as (_ & _ & Hg).
  unfold Recency.get in He.
  destruct (Recency.lookup k (c_entries cache)) as [v'|]; injection He as H1 H2; [|congruence].
  rewrite Hv in H1. injection H1 as <-. rewrite H2 in Hg.
  pose proof (get_hit k v (Recency.remove k (c_entries cache))) as Hh.
  rewrite <- Hg in Hh. exact Hh.
Qed.
End Client.
Arguments Client : clear implicits.

(** ** The scopes key *)

Lemma dedupe_spec last l :
  StronglySorted string_le l → Forall (λ s, ∀ x, last = Some x → string_le x s) l →
  (∀ s, s ∈ dedupe last l ↔ s ∈ l ∧ last ≠ Some s) ∧
  NoDup (dedupe last l) ∧ Sorted string_le (dedupe last l).
Proof.
  revert last. induction l as [|s l IH]; intros last Hs Hl; [by split; [set_solver|repeat constructor]|].
  apply StronglySorted_inv in Hs as [Hs Hsl]. apply Forall_cons in Hl as [Hls Hl].
  cbn. case_decide as Hd.
  - subst last. destruct (IH (Some s) Hs) as (Hin & Hnd & Hso).
    { eapply Forall_impl; [exact Hsl|]. intros ? ? ? [= <-]. done. }
    split_and!; [|done..]. intros x. rewrite Hin. set_solver.
  - destruct (IH (Some s) Hs) as (Hin & Hnd & Hso).
    { eapply Forall_impl; [exact Hsl|]. intros ? ? ? [= <-]. done. }
    split_and!.
    + intros x. rewrite elem_of_cons, Hin, elem_of_cons. destruct (decide (x = s)) as [->|Hne].
      * tauto.
      * split; [|naive_solver]. intros [->|[Hx _]]; [done|]. split; [by right|].
        intros ->. specialize (Hls x eq_refl).
        assert (string_le s x) by (by rewrite Forall_forall in Hsl; apply Hsl).
        apply Hne. by apply (anti_symm string_le).
    + constructor; [|done]. rewrite Hin. naive_solver.
    + constructor; [done|]. destruct (dedupe (Some s) l) as [|y k] eqn:E; [constructor|].
      constructor. rewrite Forall_forall in Hsl. apply Hsl.
      assert (y ∈ y :: k) as Hy by (by left). apply Hin in Hy. tauto.
Qed.

Lemma scopes_key_list scopes :
  let l := dedupe None (SortStrings (normalized scopes)) in
  (∀ s, s ∈ l ↔ s ∈ normalized scopes) ∧ NoDup l ∧ Sorted string_le l.
Proof.
  destruct (dedupe_spec None (SortStrings (normalized scopes))) as (Hin & Hnd & Hso).
  - apply SortStrings_sorted.
  - apply Forall_forall. done.
  - split_and!; [|done..]. intros s. rewrite Hin, SortStrings_perm. naive_solver.
Qed.

Definition nul_free (scopes : list string) : Prop :=
  Forall (λ s, Ascii.ascii_of_nat 0 ∉ bytes_of s) (normalized scopes).

(** The set of scopes a list asks for, as the service will read it. *)
Definition same_scopes (a b : list string) : Prop :=
  ∀ s, s ∈ normalized a ↔ s ∈ normalized b.

Lemma same_scopes_key a b : same_scopes a b → cacheScopesKey a = cacheScopesKey b.
Proof.
  intros Hab. unfold cacheScopesKey. f_equal.
  destruct (scopes_key_list a) as (Ha & Hna & Hsa), (scopes_key_list b) as (Hb & Hnb & Hsb).
  apply (Sorted_unique string_le); [done..|]. apply NoDup_Permutation; [done..|].
  intros s. by rewrite Ha, Hb.
Qed.

Lemma scopes_key_same a b :
  nul_free a → nul_free b → cacheScopesKey a = cacheScopesKey b → same_scopes a b.
Proof.
  intros Hfa Hfb He. unfold cacheScopesKey, nul in He.
  assert (∀ x, nul_free x → Forall (λ s, Ascii.ascii_of_nat 0 ∉ bytes_of s ∧ s ≠ "")
    (dedupe None (SortStrings (normalized x)))) as Hf.
  { intros x Hx. apply Forall_forall. intros s Hs. apply (scopes_key_list x) in Hs.
    unfold nul_free in Hx. rewrite Forall_forall in Hx. split; [by apply Hx|].
    unfold normalized in Hs. by apply list_elem_of_filter in Hs as [? _]. }
  apply Join_inj in He; [|by apply Hf..].
  intros s. destruct (scopes_key_list a) as (Ha & _), (scopes_key_list b) as (Hb & _).
  by rewrite <- Ha, <- Hb, He.
Qed.

(** ** Properties *)

Section Properties.
Context {F : Type} `{!Float64 F}.
Context {CI CT : Type}.
Context `{!Cache CI string cachedIntrospection}.
Context `{!Cache CT serviceTokenCacheKey cachedServiceToken}.
Context {W : Type} `{!IdentityIO W}.

(** C10: an accepted token was granted by the identity service.  In any history
    of calls, whenever introspection succeeds, the result is active, and it is
    either the service's answer to this very call, or the service gave no usable
    answer now and granted exactly this result for exactly this token no longer
    ago than the cache's time to live. *)
Theorem accepted_tokens_were_granted cfg (c : Client CI CT) log t0 t1 token w r c' w' :
  history (W := W) cfg c log →
  IntrospectProto t0 t1 token c w = (Ok r, c', w') →
  Active r = true ∧
  (service_verdict token c w = Granted r ∨
   service_verdict token c w = NoAnswer ∧
   ∃ g, g ∈ log ∧ g_token g = token ∧ g_result g = r ∧ t0 ≤ g_time g + cacheTTL c).
Proof.
  intros Hh He. pose proof (history_justified cfg c log Hh) as Hj.
  pose proof (cachedIntrospection_justified log t0 token c Hj) as Hc.
  destruct (Configured c) eqn:Hcf; [|unfold IntrospectProto in He; by rewrite Hcf in He].
  destruct (build_request (introspectURL c)) as [e|] eqn:Hb.
  { exfalso. unfold IntrospectProto in He. rewrite Hcf in He. cbn in He.
    assert (introspectURL (cachedIntrospection_ t0 token c).2 = introspectURL c) as Hu
      by (unfold cachedIntrospection_; repeat (case_match; simplify_eq/=); done).
    destruct (cachedIntrospection_ t0 token c) as [cached c1]. cbn in Hu. by rewrite Hu, Hb in He. }
  pose proof (IntrospectProto_by_verdict t0 t1 token c w Hcf Hb) as Hv. rewrite He in Hv.
  destruct (cachedIntrospection_ t0 token c) as [cached c1]. destruct Hc as (_ & _ & Hcached).
  destruct (service_verdict token c w) as [res| |].
  - destruct Hv as ([= ->] & Ha & _). auto.
  - by destruct Hv as [[?|?] _].
  - destruct Hv as [_ Hv]. destruct cached as [res|]; [|by destruct Hv as [text ?]].
    injection Hv as ->. destruct (Hcached res eq_refl) as (g & ? & ? & ? & Ha & ?).
    split; [done|]. right. split; [done|]. by exists g.
Qed.

(** A rejected token stays rejected through outages.  When the service
    rejects a token (a client-error status other than 408 and 429, or an answer
    that says inactive), the call fails and the token is dropped from the cache:
    the next call in which the service gives no answer fails too. *)
Theorem rejected_tokens_are_forgotten cfg (c : Client CI CT) log t0 t1 t2 t3 token w w2 :
  history (W := W) cfg c log → token ≠ "" → Configured c = true →
  build_request (introspectURL c) = None →
  service_verdict token c w = Rejected →
  let '(r, c', _) := IntrospectProto t0 t1 token c w in
  is_ok r = false ∧
  (service_verdict token c' w2 = NoAnswer → is_ok (IntrospectProto t2 t3 token c' w2).1.1 = false).
Proof.
  intros Hh Htok Hcf Hb Hrej. pose proof (history_justified cfg c log Hh) as Hj.
  pose proof (IntrospectProto_by_verdict t0 t1 token c w Hcf Hb) as Hv.
  pose proof (cachedIntrospection_justified log t0 token c Hj) as Hc.
  assert (introspectURL (cachedIntrospection_ t0 token c).2 = introspectURL c) as Hu
    by (unfold cachedIntrospection_; repeat (case_match; simplify_eq/=); done).
  rewrite Hrej in Hv. destruct (cachedIntrospection_ t0 token c) as [cached c1]. cbn in Hu.
  destruct (IntrospectProto t0 t1 token c w) as [[r c'] w'].
  destruct Hv as [Hr ->]. destruct Hc as ([Hok _] & _ & _). split; [by destruct Hr as [-> | ->]|].
  intros Hna. set (c' := evictIntrospection token c1) in *.
  assert (introspectURL c' = introspectURL c) as Hu'
    by (unfold c', evictIntrospection; by case_decide).
  assert (c_ok (introspection c')) as Hok'
    by (unfold c', evictIntrospection; case_decide; [done|by apply c_delete_law]).
  pose proof (cached_absent t2 token c' Hok' (evict_absent token c1 Htok Hok)) as Habs.
  pose proof (IntrospectProto_by_verdict t2 t3 token c' w2) as Hv2.
  unfold Configured in *. rewrite Hu' in Hv2. specialize (Hv2 Hcf Hb). rewrite Hna in Hv2.
  destruct (cachedIntrospection_ t2 token c') as [cached2 c2]. cbn in Habs. subst cached2.
  destruct (IntrospectProto t2 t3 token c' w2) as [[r2 ?] ?].
  destruct Hv2 as (_ & text & ->). done.
Qed.

(** Service tokens are reused until they are about to expire.  After a
    token was issued with expiry [e], every later request for the same
    organization, service and set of scopes, in whatever order, spelling or
    repetition, until 10 seconds before [e], gets that token without contacting
    the identity service. *)
Theorem issued_token_is_reused (c : Client CI CT) now org svc scopes ttl w issued w1 e
  now2 org2 svc2 scopes2 ttl2 w2 :
  c_ok (serviceTokens c) → 1 ≤ c_max (serviceTokens c) →
  ServiceTokensConfigured c = true →
  match (c_get (token_key org svc scopes) (serviceTokens c)).1 with
  | Some t => expiringSoon now t = true
  | None => True
  end →
  IssueServiceToken (F := F) (TrimSpace org) (TrimSpace svc) scopes ttl c w = (Ok issued, w1) →
  expiryTime issued = Some e →
  TrimSpace org2 = TrimSpace org → TrimSpace svc2 = TrimSpace svc → same_scopes scopes2 scopes →
  now2 + 10 * Second ≤ e →
  let '(r, c', w') := ResolveServiceToken (F := F) now org svc scopes ttl c w in
  r = Ok (st_Token issued) ∧ w' = w1 ∧
  (ResolveServiceToken (F := F) now2 org2 svc2 scopes2 ttl2 c' w2).1.1 = Ok (st_Token issued) ∧
  (ResolveServiceToken (F := F) now2 org2 svc2 scopes2 ttl2 c' w2).2 = w2.
Proof.
  intros Hok Hmax Hcf Hmiss Hiss Hexp Ho Hs Hsc Hnow.
  assert (token_key org2 svc2 scopes2 = token_key org svc scopes) as Hkey
    by (unfold token_key; by rewrite Ho, Hs, (same_scopes_key _ _ Hsc)).
  unfold ResolveServiceToken at 1. rewrite Hcf. cbn [negb].
  set (key := token_key org svc scopes) in *.
  destruct (c_get_law key (serviceTokens c) Hok) as (Hok1 & Hm1 & _).
  destruct (c_get key (serviceTokens c)) as [found cache]. cbn [fst snd] in *.
  change (IssueServiceToken (k_organizationID key) (k_service key) scopes ttl
    (set_serviceTokens cache c) w) with
    (IssueServiceToken (F := F) (TrimSpace org) (TrimSpace svc) scopes ttl c w).
  assert (match found with Some t => negb (expiringSoon now t) | None => false end = false) as Hf
    by (destruct found; [by rewrite Hmiss|done]).
  rewrite Hiss, Hexp.
  set (res := (Ok (st_Token issued), _, w1)).
  assert (match found with Some cached => if negb (expiringSoon now cached)
            then (Ok (ct_token cached), set_serviceTokens cache c, w) else res | None => res end = res)
    as -> by (destruct found; [by rewrite Hf|done]).
  subst res. cbn [set_serviceTokens serviceTokens].
  split; [done|]. split; [done|].
  unfold ResolveServiceToken. rewrite Hkey.
  assert (ServiceTokensConfigured (set_serviceTokens (c_put key
    {| ct_expiresAt := e; ct_token := st_Token issued |} cache) (set_serviceTokens cache c))
    = true) as -> by exact Hcf. cbn [negb set_serviceTokens serviceTokens].
  pose proof (c_get_put key {| ct_expiresAt := e; ct_token := st_Token issued |} cache Hok1
    ltac:(by rewrite Hm1)) as Hg.
  destruct (c_get key (c_put key _ cache)) as [found2 cache2]. cbn in Hg. subst found2.
  assert (expiringSoon now2 {| ct_expiresAt := e; ct_token := st_Token issued |} = false) as ->.
  { unfold expiringSoon, time_after, time_add. cbn. apply Z.ltb_ge. lia. }
  by cbn.
Qed.

(** The scopes part of the cache key identifies the set of scopes.  For
    scopes without NUL bytes, two lists have the same key exactly when they hold
    the same scopes up to order, repetition, surrounding white space and blanks:
    a token is never reused for a different set of scopes. *)
Theorem scopes_key_identifies_set a b :
  nul_free a → nul_free b → cacheScopesKey a = cacheScopesKey b ↔ same_scopes a b.
Proof. intros Ha Hb. split; [by apply scopes_key_same|apply same_scopes_key]. Qed.
End Properties.

(** ** Witnesses

    A scripted identity service: the world is the list of its next replies. *)

Definition script := list (result error http_response).

Definition active_user : IntrospectResponse :=
  {| Active := true; AgentType := ""; Capabilities := []; ir_OrganizationId := "org-1";
     RunId := ""; ir_Scopes := ["read"]; ir_Service := ""; ir_Subject := "user-1";
     Surface := ""; ir_TokenType := "user"; ir_UserSubject := "" |}.

#[local] Instance script_io : IdentityIO script := {
  build_request _ := None;
  do_request _ w :=
    match w with
    | [] => (Err (ErrForeign 1 "connection refused"), [])
    | r :: w' => (r, w')
    end;
  decode_introspect b :=
    if decide (b = "active") then Ok active_user else Err (ErrForeign 2 "bad JSON");
  encode_issue _ := Ok "{}";
  decode_issue b :=
    Ok {| st_Token := b; st_ExpiresAt := 1000 * Second; st_Claims := None |};
}.

Definition client_type : Type :=
  Client (lruCache string cachedIntrospection) (lruCache serviceTokenCacheKey cachedServiceToken).

Definition example_config : Config :=
  {| IntrospectURL := "http://identity/introspect"; ServiceTokensURL := "http://identity/tokens";
     BootstrapKey := "boot"; CacheTTL := 60 * Second; MaxCacheSize := 2; UsesMTLSCert := false |}.

Definition granted_reply : script := [Ok {| resp_status := 200; resp_body := Ok "active" |}].
Definition rejected_reply : script := [Ok {| resp_status := 401; resp_body := Ok "" |}].

(** The client after one successful introspection of token [t] at time 100. *)
Definition warm_client : client_type := (IntrospectProto 0 100 "t" (New example_config) granted_reply).1.2.

Lemma warm_history :
  history example_config warm_client [{| g_token := "t"; g_result := active_user; g_time := 100 |}].
Proof.
  exact (hist_call example_config (New example_config) [] 0 100 "t" granted_reply
    (Ok active_user) warm_client [] (hist_new example_config) eq_refl).
Qed.

Lemma accepted_tokens_were_granted_witness :
  (IntrospectProto 200 300 "t" warm_client []).1.1 = Ok active_user ∧ Active active_user = true.
Proof.
  split; [reflexivity|].
  exact (proj1 (accepted_tokens_were_granted example_config warm_client _ 200 300 "t" []
    active_user _ _ warm_history eq_refl)).
Defined.

Lemma rejected_tokens_are_forgotten_witness :
  let '(r, c', _) := IntrospectProto 200 300 "t" warm_client rejected_reply in
  is_ok r = false ∧ is_ok (IntrospectProto 400 500 "t" c' ([] : script)).1.1 = false.
Proof.
  pose proof (rejected_tokens_are_forgotten example_config warm_client _ 200 300 400 500 "t"
    rejected_reply ([] : script) warm_history ltac:(done) eq_refl eq_refl eq_refl) as H.
  exact (conj (proj1 H) (proj2 H eq_refl)).
Defined.

Definition issued_reply : script := [Ok {| resp_status := 201; resp_body := Ok "tok-1" |}].

Lemma issued_token_is_reused_witness :
  let c : client_type := New example_config in
  let '(r, c', _) := ResolveServiceToken (F := Q) 0 " org" "svc" ["b"; "a"; "a "] Minute c issued_reply in
  r = Ok "tok-1" ∧
  (ResolveServiceToken (F := Q) (990 * Second) "org" "svc" ["a"; "b"] Minute c' ([] : script)).1.1
    = Ok "tok-1".
Proof.
  pose proof (issued_token_is_reused (F := Q) (New example_config : client_type) 0 " org" "svc"
    ["b"; "a"; "a "] Minute issued_reply
    {| st_Token := "tok-1"; st_ExpiresAt := 1000 * Second; st_Claims := None |} [] (1000 * Second)
    (990 * Second) "org" "svc" ["a"; "b"] Minute ([] : script)) as H.
  refine (let H' := H _ _ _ _ _ _ _ _ _ _ in conj (proj1 H') (proj1 (proj2 (proj2 H')))).
  - by apply new_refines.
  - by vm_compute.
  - reflexivity.
  - done.
  - by vm_compute.
  - reflexivity.
  - reflexivity.
  - reflexivity.
  - intros s. change (normalized ["a"; "b"]) with ["a"; "b"].
    change (normalized ["b"; "a"; "a "]) with ["b"; "a"; "a"]. rewrite !elem_of_cons. tauto.
  - by vm_compute.
Defined.

Lemma scopes_key_identifies_set_witness :
  cacheScopesKey ["write"; " read"; ""; "read"] = cacheScopesKey ["read"; "write"] ↔
  same_scopes ["write"; " read"; ""; "read"] ["read"; "write"].
Proof.
  apply scopes_key_identifies_set; apply (bool_decide_unpack _); by vm_compute.
Defined.
