(* ===== verification/AuthMW.v ===== *)
(** * Authentication middleware and principals (src/authmw)

    The token verifier and the API key validator are interfaces; here they are
    operations on a world [W].  An actor's attributes are a Go map: the model
    lists them in the order one iteration of the map visits them. *)

From S2P Require Import Prelude GoStrings GoErrors Json Http RtErrors HttpKit.
From Stdlib Require Import Ascii.
#[local] Open Scope Z_scope.

Definition errMissingScopes := ErrNew "authmw.errMissingScopes" "missing_required_scopes".
Definition errTokenVerifierUnavailable :=
  ErrNew "authmw.errTokenVerifierUnavailable" "token_verifier_not_configured".
Definition errAPIKeyValidatorUnavailable :=
  ErrNew "authmw.errAPIKeyValidatorUnavailable" "api_key_validator_not_configured".

Record VerifiedToken := { vt_Actor : Actor; vt_Scopes : list string }.
Record ValidatedAPIKey := { key_ID : string; key_OrganizationID : string; key_Scopes : list string }.

(** ** Tokens and scopes *)

Definition BearerToken (h : string) : string * bool :=
  match CutByte " "%char h with
  | None => ("", false)
  | Some (scheme, rest) =>
      if negb (EqualFold scheme "Bearer") then ("", false)
      else let token := TrimSpace rest in (token, bool_decide (token ≠ ""))
  end.

Definition HasScope (available : list string) (required : string) : bool :=
  bool_decide (required ≠ "") && bool_decide (required ∈ available).

Fixpoint HasAllScopes (available required : list string) : bool :=
  match required with
  | [] => true
  | r :: required' => if negb (HasScope available r) then false else HasAllScopes available required'
  end.

(** ** Principals *)

Definition isHumanActorType `{Unicode} (actorType : string) : bool :=
  bool_decide (ToLower (TrimSpace actorType) ∈ ["human"; "user"]).

(** The field an attribute key names. *)
Inductive attribute := AWorkspace | AAgent | AUserSubject | AService | ATokenType | AIsHuman.
#[export] Instance attribute_eq_dec : EqDecision attribute.
Proof. solve_decision. Defined.

Definition attribute_of `{Unicode} (key : string) : option attribute :=
  let k := ToLower (TrimSpace key) in
  if bool_decide (k ∈ ["workspace_id"; "workspace"]) then Some AWorkspace
  else if bool_decide (k ∈ ["agent_id"; "agent"]) then Some AAgent
  else if bool_decide (k = "user_subject") then Some AUserSubject
  else if bool_decide (k = "service") then Some AService
  else if bool_decide (k = "token_type") then Some ATokenType
  else if bool_decide (k = "is_human") then Some AIsHuman
  else None.

Definition set_attribute (a : attribute) (v : string) (p : Principal) : Principal :=
  {| p_OrganizationID := p_OrganizationID p;
     WorkspaceID := match a with AWorkspace => v | _ => WorkspaceID p end;
     Subject := Subject p;
     UserSubject := match a with AUserSubject => v | _ => UserSubject p end;
     Service := match a with AService => v | _ => Service p end;
     TokenType := match a with ATokenType => v | _ => TokenType p end;
     Scopes := Scopes p;
     AgentID := match a with AAgent => v | _ => AgentID p end;
     IsHuman := match a with AIsHuman => IsHuman p || EqualFold v "true" | _ => IsHuman p end |}.

Definition apply_attribute `{Unicode} (p : Principal) (kv : string * string) : Principal :=
  match attribute_of kv.1 with
  | Some a => set_attribute a (TrimSpace kv.2) p
  | None => p
  end.

Definition base_principal `{Unicode} (actor : Actor) (scopes : list string) : Principal :=
  {| p_OrganizationID := TrimSpace (OrganizationID actor);
     WorkspaceID := "";
     Subject := TrimSpace (ID actor);
     UserSubject := "";
     Service := if decide (TrimSpace (Type_ actor) = "service") then TrimSpace (ID actor) else "";
     TokenType := TrimSpace (Type_ actor);
     Scopes := scopes;
     AgentID := "";
     IsHuman := isHumanActorType (Type_ actor) |}.

Definition PrincipalFromActor `{Unicode} (actor : Actor) (scopes : list string) : Principal :=
  foldl apply_attribute (base_principal actor scopes) (Attributes actor).

Definition ContextWithPrincipal (p : Principal) (c : context) : context :=
  {| ctx_request_id := ctx_request_id c; ctx_route := ctx_route c; ctx_actor := ctx_actor c;
     ctx_principal := Some p; ctx_state := ctx_state c |}.

Definition PrincipalFromContext (c : context) : option Principal := ctx_principal c.
Definition ActorFromContext (c : context) : option Actor := ctx_actor c.

Definition with_actor (a : Actor) (c : context) : context :=
  {| ctx_request_id := ctx_request_id c; ctx_route := ctx_route c; ctx_actor := Some a;
     ctx_principal := ctx_principal c; ctx_state := ctx_state c |}.

(** ** Requirements; [None] is nil *)

Definition RequireOrganization (p : Principal) (id : string) : option error :=
  let target := TrimSpace id in
  if decide (target = "")
  then Some (ErrConnect CodeInvalidArgument (ErrNew "" "organization_id is required"))
  else if decide (TrimSpace (p_OrganizationID p) ≠ target)
  then Some (ErrConnect CodePermissionDenied (ErrFmt ("organization " +:+ target +:+ " not authorized")))
  else None.

Definition RequireWorkspace (p : Principal) (id : string) : option error :=
  let target := TrimSpace id in
  if decide (target = "")
  then Some (ErrConnect CodeInvalidArgument (ErrNew "" "workspace_id is required"))
  else if decide (TrimSpace (WorkspaceID p) ≠ target)
  then Some (ErrConnect CodePermissionDenied (ErrFmt ("workspace " +:+ target +:+ " not authorized")))
  else None.

(** [quote] is the rendering of [%q]. *)
Definition RequireScope (quote : string → string) (p : Principal) (scope : string) : option error :=
  let scope := TrimSpace scope in
  if bool_decide (scope = "") || bool_decide (scope ∈ Scopes p) then None
  else Some (ErrConnect CodePermissionDenied (ErrFmt ("missing scope " +:+ quote scope))).

Definition RequireHuman `{Unicode} (p : Principal) : option error :=
  if IsHuman p || isHumanActorType (TokenType p) then None
  else Some (ErrConnect CodePermissionDenied (ErrNew "" "human principal required")).

Definition RejectSelfApproval (p : Principal) (agentID : string) : option error :=
  let agentID := TrimSpace agentID in
  if decide (agentID = "") then None
  else if existsb (λ c, bool_decide (TrimSpace c = agentID)) [AgentID p; Subject p; UserSubject p]
  then Some (ErrConnect CodePermissionDenied
               (ErrNew "" "principal cannot approve its own request"))
  else None.

(** ** The middleware *)

Section Middleware.
Context `{Unicode} {W : Type}.

Record Middleware := {
  tokenVerifier : option (string → list string → W → result error VerifiedToken * W);
  apiKeyValidator : option (string → W → result error ValidatedAPIKey * W);
  isForbiddenError : option (error → bool);
}.

Definition authenticateAPIKey (m : Middleware) (token : string) (scopes : list string) (w : W)
  : result error (Actor * list string) * W :=
  match apiKeyValidator m with
  | None => (Err errAPIKeyValidatorUnavailable, w)
  | Some validate =>
      match validate token w with
      | (Err e, w) => (Err e, w)
      | (Ok key, w) =>
          if negb (HasAllScopes (key_Scopes key) scopes) then (Err errMissingScopes, w)
          else (Ok ({| Type_ := "api_key"; ID := key_ID key;
                       OrganizationID := key_OrganizationID key; Attributes := [] |},
                    key_Scopes key), w)
      end
  end.

Definition authenticateToken (m : Middleware) (token : string) (scopes : list string) (w : W)
  : result error (Actor * list string) * W :=
  match tokenVerifier m with
  | None => (Err errTokenVerifierUnavailable, w)
  | Some verify =>
      match verify token scopes w with
      | (Err e, w) => (Err e, w)
      | (Ok v, w) => (Ok (vt_Actor v, vt_Scopes v), w)
      end
  end.

Definition authenticate (m : Middleware) (token : string) (scopes : list string) (w : W)
  : result error (Actor * list string) * W :=
  if HasPrefix token "pk_" then authenticateAPIKey m token scopes w
  else authenticateToken m token scopes w.

(** [err == errMissingScopes]. *)
Definition is_missing_scopes (e : error) : bool :=
  match e with ErrNew n _ => bool_decide (n = "authmw.errMissingScopes") | _ => false end.

Definition isForbidden (m : Middleware) (e : error) : bool :=
  match isForbiddenError m with
  | Some f => f e
  | None => is_missing_scopes e
  end.

(** [WithAuth]; the handler's world is [V]. *)
Definition WithAuth {V} (m : Middleware) (scopes : list string) (next : Handler V)
  (r : Request) (rw : RW) (w : W) (v : V) : outcome * RW * V * W :=
  let '(token, ok) := BearerToken (header_get (Header r) "Authorization") in
  if negb ok then
    (Returned, WriteError 401 "missing_authorization" "Authorization bearer token is required" rw, v, w)
  else
    match authenticate m token scopes w with
    | (Err e, w) =>
        let status := if isForbidden m e then 403 else 401 in
        (Returned, WriteError status "authorization_failed" (Error_ e) rw, v, w)
    | (Ok (actor, available), w) =>
        let ctx := with_actor actor (Ctx r) in
        let ctx := ContextWithPrincipal (PrincipalFromActor actor available) ctx in
        let '(o, rw', v') := next (with_ctx ctx r) rw v in (o, rw', v', w)
    end.
End Middleware.
Arguments Middleware : clear implicits.

(** ** Lemmas *)

Lemma HasAllScopes_spec available required :
  HasAllScopes available required = true ↔ ∀ s, s ∈ required → s ≠ "" ∧ s ∈ available.
Proof.
  induction required as [|r required IH]; cbn; [set_solver|].
  unfold HasScope. repeat case_bool_decide; cbn; rewrite ?IH; set_solver.
Qed.

(** Assignments to different fields commute. *)
Lemma set_attribute_comm a b v w p :
  a ≠ b → set_attribute a v (set_attribute b w p) = set_attribute b w (set_attribute a v p).
Proof. destruct a, b; done. Qed.

Definition disjoint_targets `{Unicode} (kv kv' : string * string) : Prop :=
  attribute_of kv.1 = None ∨ attribute_of kv'.1 = None ∨ attribute_of kv.1 ≠ attribute_of kv'.1.

Lemma apply_attribute_comm `{Unicode} p kv kv' :
  disjoint_targets kv kv' →
  apply_attribute (apply_attribute p kv) kv' = apply_attribute (apply_attribute p kv') kv.
Proof.
  unfold disjoint_targets, apply_attribute. intros Hd.
  destruct (attribute_of kv.1) as [a|], (attribute_of kv'.1) as [b|]; try done.
  apply set_attribute_comm. naive_solver.
Qed.

Definition targets `{Unicode} (attrs : list (string * string)) : list attribute :=
  omap (λ kv, attribute_of kv.1) attrs.

Lemma attributes_permutation `{Unicode} attrs attrs' p :
  attrs ≡ₚ attrs' → NoDup (targets attrs) →
  foldl apply_attribute p attrs = foldl apply_attribute p attrs'.
Proof.
  intros Hp. revert p. induction Hp as [|x l l' Hp IH|x y l|l1 l2 l3 Hp1 IH1 Hp2 IH2]; intros p Hnd.
  - done.
  - cbn. apply IH. unfold targets in Hnd. cbn in Hnd.
    destruct (attribute_of x.1); [by apply NoDup_cons in Hnd as [_ ?]|done].
  - cbn. f_equal. apply apply_attribute_comm. unfold targets, disjoint_targets in *. cbn in Hnd.
    destruct (attribute_of y.1) as [b|]; [|tauto].
    destruct (attribute_of x.1) as [a|]; [|tauto].
    right. right. apply NoDup_cons in Hnd as [Hni _]. intros [= ->]. set_solver.
  - rewrite IH1 by done. apply IH2. unfold targets in *. by rewrite <- Hp1.
Qed.

(** ** Properties *)


Definition example_auth : Middleware nat :=
  {| tokenVerifier := None;
     apiKeyValidator := Some (λ t w, (Ok {| key_ID := "k1"; key_OrganizationID := "org-1";
                                            key_Scopes := ["read"] |}, S w));
     isForbiddenError := None |}.

Definition bearer_request (token : string) : Request :=
  {| Method := "GET"; Path := "/a"; Query := [];
     Header := {["Authorization" := ["bearer " +:+ token]]}; RemoteAddr := "";
     ReqBody := NoBody; ContentLength := 0; TransferEncoding := []; Ctx := Ctx example_request |}.


(** The principal does not depend on the order in which Go iterates over an
    actor's attribute map, as long as no two of its keys name the same field. *)
Theorem principal_ignores_map_order `{Unicode} (a a' : Actor) scopes :
  Type_ a = Type_ a' → ID a = ID a' → OrganizationID a = OrganizationID a' →
  Attributes a ≡ₚ Attributes a' → NoDup (targets (Attributes a)) →
  PrincipalFromActor a scopes = PrincipalFromActor a' scopes.
Proof.
  intros Ht Hi Ho Hp Hnd. unfold PrincipalFromActor, base_principal. rewrite Ht, Hi, Ho.
  by apply attributes_permutation.
Qed.

Definition example_actor (attrs : list (string * string)) : Actor :=
  {| Type_ := "service"; ID := "svc"; OrganizationID := "org-1"; Attributes := attrs |}.

Lemma principal_ignores_map_order_witness :
  let _ := ascii_unicode in
  PrincipalFromActor (example_actor [("agent", "a1"); ("Workspace_ID", "w1")]) [] =
  PrincipalFromActor (example_actor [("Workspace_ID", "w1"); ("agent", "a1")]) [].
Proof.
  intros U. apply principal_ignores_map_order; try reflexivity.
  - apply Permutation_swap.
  - apply (bool_decide_unpack _). by vm_compute.
Defined.

(** With two keys for one field the result does depend on the order. *)
Lemma principal_depends_on_map_order :
  let _ := ascii_unicode in
  WorkspaceID (PrincipalFromActor (example_actor [("workspace", "w1"); ("workspace_id", "w2")]) [])
    = "w2" ∧
  WorkspaceID (PrincipalFromActor (example_actor [("workspace_id", "w2"); ("workspace", "w1")]) [])
    = "w1".
Proof. split; reflexivity. Qed.
