(* ===== verification/Idempotency.v ===== *)
(** * Idempotency keys (src/idempotency/idempotency.go)

    The Postgres store over a model of its table, and the HTTP middleware.  The
    table is the list of its rows; whether it has a unique constraint on (scope,
    idempotency_key) is a property of the schema, which is not part of the
    repository: it is the parameter [unique] of the database.  Every statement
    sent to the database may fail, without effect or after taking effect. *)

From S2P Require Import Prelude GoStrings GoErrors Json Http RtErrors HttpKit AuthMW Sha256.
#[local] Open Scope Z_scope.

Definition DefaultTTL : duration := 24 * Hour.
Definition DefaultCleanupInterval : duration := 5 * Minute.

Definition ErrConflict := ErrNew "idempotency.ErrConflict" "idempotency_conflict".
Definition ErrPending := ErrNew "idempotency.ErrPending" "idempotency_pending".
Definition ErrScopeUnavailable := ErrNew "idempotency.ErrScopeUnavailable" "idempotency_scope_unavailable".

Record ReplayResult := { rr_StatusCode : Z; rr_ContentType : string; rr_Body : string }.

(** A row; NULL columns are [None]. *)
Record row := {
  scope : string;
  idempotency_key : string;
  request_hash : string;
  response_code : option Z;
  response_body : string; (* NULL reads as no bytes *)
  content_type : option string;
  expires_at : time;
}.

(** ** The database *)

(** The fate of one statement. *)
Inductive fault :=
| NoFault
| Fails (e : error)      (* without effect *)
| FailsAfter (e : error). (* with effect: the reply was lost *)

Record db := {
  rows : list row;
  unique : bool;
  faults : list fault; (* of the next statements; none beyond the list *)
}.

Definition set_rows (rs : list row) (d : db) : db :=
  {| rows := rs; unique := unique d; faults := faults d |}.

Definition next_fault (d : db) : fault * db :=
  match faults d with
  | [] => (NoFault, d)
  | f :: fs => (f, {| rows := rows d; unique := unique d; faults := fs |})
  end.

(** A statement with effect [eff] on the rows. *)
Definition exec (eff : list row → list row) (d : db) : option error * db :=
  let '(f, d) := next_fault d in
  match f with
  | NoFault => (None, set_rows (eff (rows d)) d)
  | Fails e => (Some e, d)
  | FailsAfter e => (Some e, set_rows (eff (rows d)) d)
  end.

Definition matches (sc key : string) (r : row) : bool :=
  bool_decide (scope r = sc) && bool_decide (idempotency_key r = key).

Definition lookup_key (sc key : string) (rs : list row) : option row := find (matches sc key) rs.

(** The violation of the unique constraint. *)
Definition unique_violation : error := ErrForeign 23505 "duplicate key value violates unique constraint".

(** ** The store *)

(** [Cleanup]: delete from api_idempotency_keys where expires_at <= now. *)
Definition Cleanup (now : time) (d : db) : option error * db :=
  exec (filter (λ r, now < expires_at r)) d.

Definition new_row (sc key hash : string) (ttl : duration) (now : time) : row :=
  {| scope := sc; idempotency_key := key; request_hash := hash; response_code := None;
     response_body := ""; content_type := None; expires_at := time_add now ttl |}.

(** [Begin] is a transaction of a select and, for a new key, an insert.  Between the
    two, other connections can change the table, so the two halves are definitions of
    their own.  What an uncommitted transaction wrote is rolled back.

    The first half: the answer, or [None] when the key has no row. *)
Definition begin_lookup (sc key hash : string) (d : db) : option (result error (option ReplayResult)) * db :=
  match exec (λ rs, rs) d with (* begin *)
  | (Some e, d) => (Some (Err e), d)
  | (None, d) =>
      match exec (λ rs, rs) d with (* select *)
      | (Some e, d) => (Some (Err e), d)
      | (None, d) =>
          match lookup_key sc key (rows d) with
          | None => (None, d)
          | Some r =>
              if decide (request_hash r ≠ hash) then (Some (Err ErrConflict), d)
              else
                match response_code r with
                | None => (Some (Err ErrPending), d)
                | Some code =>
                    match exec (λ rs, rs) d with (* commit *)
                    | (Some e, d) => (Some (Err e), d)
                    | (None, d) =>
                        (Some (Ok (Some {| rr_StatusCode := code;
                                           rr_ContentType := default "" (content_type r);
                                           rr_Body := response_body r |})), d)
                    end
                end
          end
      end
  end.

(** The second half: the insert, which the constraint may refuse (a second insert of a
    key waits for the transaction of the first one), and the commit that makes the row
    visible. *)
Definition begin_claim (sc key hash : string) (ttl : duration) (now : time) (d : db)
  : result error (option ReplayResult) * db :=
  match exec (λ rs, rs) d with (* insert *)
  | (Some e, d) => (Err e, d)
  | (None, d) =>
      match unique d, lookup_key sc key (rows d) with
      | true, Some _ => (Err unique_violation, d)
      | _, _ =>
          match exec (λ rs, new_row sc key hash ttl now :: rs) d with (* commit *)
          | (Some e, d) => (Err e, d)
          | (None, d) => (Ok None, d)
          end
      end
  end.

Definition Begin (sc key hash : string) (ttl : duration) (now : time) (d : db)
  : result error (option ReplayResult) * db :=
  match begin_lookup sc key hash d with
  | (Some answer, d) => (answer, d)
  | (None, d) => begin_claim sc key hash ttl now d
  end.

Definition complete_row (res : ReplayResult) (r : row) : row :=
  {| scope := scope r; idempotency_key := idempotency_key r; request_hash := request_hash r;
     response_code := Some (rr_StatusCode res); response_body := rr_Body res;
     content_type := Some (rr_ContentType res); expires_at := expires_at r |}.

(** [Complete]: update ... where scope = $5 and idempotency_key = $6. *)
Definition Complete (sc key : string) (res : ReplayResult) (d : db) : option error * db :=
  exec (map (λ r, if matches sc key r then complete_row res r else r)) d.

(** ** The middleware *)

Definition DefaultScope (r : Request) : result error string :=
  match ActorFromContext (Ctx r) with
  | Some actor =>
      if decide (TrimSpace (OrganizationID actor) = "") then Err ErrScopeUnavailable
      else Ok (OrganizationID actor +:+ ":" +:+ Method r +:+ ":" +:+ Path r)
  | None => Err ErrScopeUnavailable
  end.

Definition RequestHash (method path body : string) : string :=
  sha256_hex (method +:+ ":" +:+ path +:+ ":" +:+ body).

Record Options := {
  TTL : duration;
  CleanupInterval : duration;
  ScopeFunc : option (Request → result error string);
}.

Definition withDefaults (o : Options) : Options :=
  {| TTL := if TTL o <=? 0 then DefaultTTL else TTL o;
     CleanupInterval := if CleanupInterval o <=? 0 then DefaultCleanupInterval else CleanupInterval o;
     ScopeFunc := match ScopeFunc o with None => Some DefaultScope | f => f end |}.

(** The state the middleware keeps: the time of its last cleanup, the database. *)
Record state := { lastCleanup : time; store : db }.

Definition replay_response (res : ReplayResult) (rw : RW) : RW :=
  let rw := if decide (rr_ContentType res ≠ "")
            then set_header "Content-Type" (rr_ContentType res) rw else rw in
  let rw := set_header "X-Idempotent-Replay" "true" rw in
  let rw := WriteHeader (rr_StatusCode res) rw in
  Write_ (rr_Body res) rw.

(** What [Complete] is given after the handler returned. *)
Definition recorded (recorder : RW) : ReplayResult :=
  let ct := header_get (rw_header recorder) "Content-Type" in
  {| rr_StatusCode := StatusCode recorder;
     rr_ContentType := if decide (ct = "") then "application/json" else ct;
     rr_Body := BodyBytes recorder |}.

(** [io.ReadAll(request.Body)]; [None] is the panic on a nil body. *)
Definition ReadAll (b : body) : option (result error string) :=
  match b with
  | BodyNil => None
  | NoBody => Some (Ok "")
  | Body c => Some c
  end.

(** The cleanup that may precede a request; its error is only logged. *)
Definition maybe_cleanup (o : Options) (now : time) (s : state) : state :=
  if is_zero_time (lastCleanup s) || (CleanupInterval o <=? time_sub now (lastCleanup s))
  then {| lastCleanup := now; store := (Cleanup now (store s)).2 |}
  else s.

Definition set_store (d : db) (s : state) : state :=
  {| lastCleanup := lastCleanup s; store := d |}.

Definition MiddlewareWithOptions {V} (opts : Options) (next : Handler V) (now : time)
  (s : state) (r : Request) (rw : RW) (v : V) : outcome * RW * V * state :=
  let opts := withDefaults opts in
  let key := TrimSpace (header_get (Header r) "Idempotency-Key") in
  if decide (key = "") then
    (Returned, WriteError 400 "missing_idempotency_key" "Idempotency-Key header is required" rw, v, s)
  else
    match match ScopeFunc opts with Some f => f r | None => Err ErrScopeUnavailable end with
    | Err e => (Returned, WriteError 500 "idempotency_scope_failed" (Error_ e) rw, v, s)
    | Ok sc =>
        match ReadAll (ReqBody r) with
        | None => (Panicked "runtime error: invalid memory address or nil pointer dereference", rw, v, s)
        | Some (Err _) =>
            (Returned, WriteError 400 "invalid_body" "unable to read request body" rw, v, s)
        | Some (Ok body) =>
            let r := with_body (Body (Ok body)) r in
            let s := maybe_cleanup opts now s in
            let hash := RequestHash (Method r) (Path r) body in
            let '(begun, d) := Begin sc key hash (TTL opts) now (store s) in
            let s := set_store d s in
            match begun with
            | Err e =>
                if IsVar "idempotency.ErrConflict" e then
                  (Returned, WriteError 409 "idempotency_conflict"
                     "Idempotency key already exists for a different request" rw, v, s)
                else if IsVar "idempotency.ErrPending" e then
                  (Returned, WriteError 409 "idempotency_in_progress"
                     "A matching request is still in progress" rw, v, s)
                else (Returned, WriteError 500 "idempotency_failed" (Error_ e) rw, v, s)
            | Ok (Some res) => (Returned, replay_response res rw, v, s)
            | Ok None =>
                let '(o, recorder, v') := next r (NewCaptureResponseWriter rw) v in
                match o with
                | Panicked _ => (o, unwrap recorder, v', s)
                | Returned =>
                    let '(_, d) := Complete sc key (recorded recorder) (store s) in
                    (Returned, unwrap recorder, v', set_store d s)
                end
            end
        end
    end.

Definition Middleware {V} (ttl : duration) (next : Handler V) :=
  MiddlewareWithOptions {| TTL := ttl; CleanupInterval := 0; ScopeFunc := None |} next.

(** ** Lemmas on the store *)

Lemma exec_ok eff d : faults d = [] → exec eff d = (None, set_rows (eff (rows d)) d).
Proof. intros Hf. unfold exec, next_fault. by rewrite Hf. Qed.

Lemma exec_cases eff d :
  ∃ f d', next_fault d = (f, d') ∧ rows d' = rows d ∧ unique d' = unique d ∧
  exec eff d = match f with
               | NoFault => (None, set_rows (eff (rows d)) d')
               | Fails e => (Some e, d')
               | FailsAfter e => (Some e, set_rows (eff (rows d)) d')
               end.
Proof.
  unfold exec, next_fault. destruct (faults d) as [|f fs] eqn:E; [by exists NoFault, d|].
  eexists f, _. split; [done|]. split; [done|]. split; [done|]. by destruct f.
Qed.

(** A read-only statement leaves the rows alone. *)
Lemma exec_id d : rows (exec (λ rs, rs) d).2 = rows d.
Proof.
  destruct (exec_cases (λ rs, rs) d) as (f & d' & _ & Hr & _ & ->). by destruct f.
Qed.

Lemma set_rows_same d : set_rows (rows d) d = d.
Proof. by destruct d. Qed.

Lemma lookup_matches sc key rs r : lookup_key sc key rs = Some r → matches sc key r = true.
Proof. intros Hf. unfold lookup_key in Hf. by apply find_some in Hf as [_ ?]. Qed.

(** The key of a row survives its completion. *)
Lemma lookup_complete sc key sc' key' res rs :
  lookup_key sc key (map (λ r, if matches sc' key' r then complete_row res r else r) rs) =
  (λ r, if matches sc' key' r then complete_row res r else r) <$> lookup_key sc key rs.
Proof.
  unfold lookup_key. induction rs as [|r rs IH]; [done|]. cbn.
  assert (matches sc key (if matches sc' key' r then complete_row res r else r)
          = matches sc key r) as -> by (by destruct (matches sc' key' r)).
  by destruct (matches sc key r).
Qed.

Lemma lookup_complete_is_Some sc key sc' key' res rs :
  is_Some (lookup_key sc key rs) →
  is_Some (lookup_key sc key (map (λ r, if matches sc' key' r then complete_row res r else r) rs)).
Proof. intros [r Hr]. rewrite lookup_complete, Hr. by eexists. Qed.

(** A key that has not expired survives a cleanup; the row found may be another
    one of the same key that expires later. *)
Definition live_key (sc key : string) (t : time) (rs : list row) : Prop :=
  ∃ r, r ∈ rs ∧ matches sc key r = true ∧ t ≤ expires_at r.

Lemma live_key_lookup sc key t rs : live_key sc key t rs → is_Some (lookup_key sc key rs).
Proof.
  intros (r & Hin & Hm & _). unfold lookup_key.
  destruct (find (matches sc key) rs) as [r'|] eqn:E; [by exists r'|].
  pose proof (find_none _ _ E r) as Hn. rewrite <- list_elem_of_In in Hn. rewrite Hn in Hm; done.
Qed.

Lemma live_key_filter sc key t now rs :
  now < t → live_key sc key t rs → live_key sc key t (filter (λ r, now < expires_at r) rs).
Proof.
  intros Hnow (r & Hin & Hm & Ht). exists r. split_and!; [|done..].
  apply list_elem_of_filter. split; [lia|done].
Qed.

Lemma live_key_complete sc key t sc' key' res rs :
  live_key sc key t rs →
  live_key sc key t (map (λ r, if matches sc' key' r then complete_row res r else r) rs).
Proof.
  intros (r & Hin & Hm & Ht). exists (if matches sc' key' r then complete_row res r else r).
  split_and!; [by apply (list_elem_of_fmap_2 (λ r, if matches sc' key' r then complete_row res r else r))|..];
    by destruct (matches sc' key' r).
Qed.

Lemma exec_id_unique d : unique (exec (λ rs, rs) d).2 = unique d.
Proof. destruct (exec_cases (λ rs, rs) d) as (f & d' & _ & _ & Hu & ->). by destruct f. Qed.

(** The first half reads; it leaves the second one only keys without a row. *)
Lemma begin_lookup_reads sc key hash d :
  rows (begin_lookup sc key hash d).2 = rows d ∧ unique (begin_lookup sc key hash d).2 = unique d ∧
  ((begin_lookup sc key hash d).1 = None → lookup_key sc key (rows d) = None) ∧
  (begin_lookup sc key hash d).1 ≠ Some (Ok None).
Proof.
  unfold begin_lookup.
  pose proof (exec_id d) as H1. pose proof (exec_id_unique d) as U1.
  destruct (exec (λ rs, rs) d) as [[e|] d1]; cbn in H1, U1; [by split_and!|].
  pose proof (exec_id d1) as H2. pose proof (exec_id_unique d1) as U2.
  destruct (exec (λ rs, rs) d1) as [[e|] d2]; cbn in H2, U2; [split_and!; cbn; congruence|].
  rewrite H2, H1. destruct (lookup_key sc key (rows d)) as [r|] eqn:El; [|split_and!; cbn; congruence].
  case_decide; [split_and!; cbn; congruence|]. destruct (response_code r); [|split_and!; cbn; congruence].
  pose proof (exec_id d2) as H3. pose proof (exec_id_unique d2) as U3.
  destruct (exec (λ rs, rs) d2) as [[e|] d3]; cbn in *; split_and!; cbn; congruence.
Qed.

(** The second half writes the row of its key or nothing; with the constraint, only for a
    key that has no row; and it succeeds only by writing. *)
Lemma begin_claim_writes sc key hash ttl now d :
  unique (begin_claim sc key hash ttl now d).2 = unique d ∧
  (rows (begin_claim sc key hash ttl now d).2 = rows d ∧ (begin_claim sc key hash ttl now d).1 ≠ Ok None ∨
   (unique d = true → lookup_key sc key (rows d) = None) ∧
   rows (begin_claim sc key hash ttl now d).2 = new_row sc key hash ttl now :: rows d).
Proof.
  unfold begin_claim. pose proof (exec_id d) as H1. pose proof (exec_id_unique d) as U1.
  destruct (exec (λ rs, rs) d) as [[e|] d1]; cbn in H1, U1; [split; [done|by left]|]. rewrite U1, H1.
  destruct (exec_cases (λ rs, new_row sc key hash ttl now :: rs) d1) as (f & d2 & _ & Hr & Hu & ->).
  destruct (unique d) eqn:Eu, (lookup_key sc key (rows d)) as [r|] eqn:El; cbn;
    [split; [done|left; by split]|..]; destruct f; cbn; (split; [congruence|]);
    first [left; split; [congruence|done]|right; split; [congruence|congruence]].
Qed.

(** What [Begin] leaves in the table. *)
Lemma Begin_rows sc key hash ttl now d :
  rows (Begin sc key hash ttl now d).2 = rows d ∨
  lookup_key sc key (rows d) = None ∧
  rows (Begin sc key hash ttl now d).2 = new_row sc key hash ttl now :: rows d.
Proof.
  unfold Begin. destruct (begin_lookup_reads sc key hash d) as (Hr & _ & Hn & _).
  destruct (begin_lookup sc key hash d) as [[answer|] d1]; cbn in *; [by left|].
  destruct (begin_claim_writes sc key hash ttl now d1) as [_ [[-> _]|[_ ->]]]; rewrite Hr; [by left|right; auto].
Qed.

(** [Begin] lets a request run only by writing a row for a key that had none. *)
Lemma Begin_reserves sc key hash ttl now d :
  (Begin sc key hash ttl now d).1 = Ok None →
  lookup_key sc key (rows d) = None ∧
  rows (Begin sc key hash ttl now d).2 = new_row sc key hash ttl now :: rows d.
Proof.
  unfold Begin. destruct (begin_lookup_reads sc key hash d) as (Hr & _ & Hn & Ho).
  destruct (begin_lookup sc key hash d) as [[answer|] d1]; cbn in *; [congruence|]. intros Hb.
  destruct (begin_claim_writes sc key hash ttl now d1) as [_ [[_ ?]|[_ ->]]]; [done|]. rewrite Hr. auto.
Qed.

Lemma Begin_occupied sc key hash ttl now d :
  is_Some (lookup_key sc key (rows d)) → (Begin sc key hash ttl now d).1 ≠ Ok None.
Proof. intros [r Hr] Hb. apply Begin_reserves in Hb as [Hn _]. congruence. Qed.

Lemma new_row_live sc key hash ttl now rs t :
  t ≤ now + ttl → live_key sc key t (new_row sc key hash ttl now :: rs).
Proof.
  intros Ht. exists (new_row sc key hash ttl now). split_and!; [by left| |done].
  unfold matches. cbn. by rewrite !bool_decide_true.
Qed.

Lemma cleanup_live sc key t opts now s :
  now < t → live_key sc key t (rows (store s)) →
  live_key sc key t (rows (store (maybe_cleanup opts now s))).
Proof.
  intros Hn Hl. unfold maybe_cleanup. destruct (_ || _); [|done]. cbn. unfold Cleanup.
  destruct (exec_cases (filter (λ r, now < expires_at r)) (store s)) as (f & d' & _ & Hr & _ & ->).
  destruct f; cbn; rewrite ?Hr; [by apply live_key_filter|done|by apply live_key_filter].
Qed.

(** ** The middleware, for a request it can act on *)

Record acts_on (opts : Options) (r : Request) (key sc body : string) : Prop := {
  ao_key : TrimSpace (header_get (Header r) "Idempotency-Key") = key;
  ao_nonempty : key ≠ "";
  ao_scope : match ScopeFunc (withDefaults opts) with
             | Some f => f r | None => Err ErrScopeUnavailable end = Ok sc;
  ao_body : ReadAll (ReqBody r) = Some (Ok body);
}.

Definition begin_of (opts : Options) (now : time) (s : state) (r : Request) (key sc body : string) :=
  Begin sc key (RequestHash (Method r) (Path r) body) (TTL (withDefaults opts)) now
    (store (maybe_cleanup (withDefaults opts) now s)).

(** The handler's run and what is stored about it. *)
Definition run_handler {V} (next : Handler V) (r : Request) (key sc body : string)
  (s : state) (rw : RW) (v : V) : outcome * RW * V * state :=
  let '(o, recorder, v') := next (with_body (Body (Ok body)) r) (NewCaptureResponseWriter rw) v in
  match o with
  | Panicked _ => (o, unwrap recorder, v', s)
  | Returned => (Returned, unwrap recorder, v', set_store (Complete sc key (recorded recorder) (store s)).2 s)
  end.

Definition refusal (e : error) (rw : RW) : RW :=
  if IsVar "idempotency.ErrConflict" e then
    WriteError 409 "idempotency_conflict" "Idempotency key already exists for a different request" rw
  else if IsVar "idempotency.ErrPending" e then
    WriteError 409 "idempotency_in_progress" "A matching request is still in progress" rw
  else WriteError 500 "idempotency_failed" (Error_ e) rw.

Lemma middleware_acts {V} opts (next : Handler V) now s r rw v key sc body :
  acts_on opts r key sc body →
  let s1 := set_store (begin_of opts now s r key sc body).2 (maybe_cleanup (withDefaults opts) now s) in
  MiddlewareWithOptions opts next now s r rw v =
  match (begin_of opts now s r key sc body).1 with
  | Err e => (Returned, refusal e rw, v, s1)
  | Ok (Some res) => (Returned, replay_response res rw, v, s1)
  | Ok None => run_handler next r key sc body s1 rw v
  end.
Proof.
  intros [Hk Hne Hs Hb]. cbn zeta. unfold MiddlewareWithOptions.
  rewrite Hk, decide_False, Hs, Hb by done. cbn [with_body Method Path].
  fold (begin_of opts now s r key sc body).
  destruct (begin_of opts now s r key sc body) as [[[res|]|e] d]; cbn [fst snd].
  - done.
  - unfold run_handler. destruct (next _ _ v) as [[o recorder] v']. destruct o; [|done].
    by destruct (Complete _ _ _ _) as [??].
  - unfold refusal. by repeat case_match.
Qed.

(** After a request that ran, its key is taken until it expires. *)
Lemma run_reserves {V} opts (next : Handler V) now s r rw v key sc body t :
  acts_on opts r key sc body → (begin_of opts now s r key sc body).1 = Ok None →
  t ≤ now + TTL (withDefaults opts) →
  live_key sc key t (rows (store (MiddlewareWithOptions opts next now s r rw v).2)).
Proof.
  intros Ha Hb Ht. rewrite (middleware_acts opts next now s r rw v key sc body Ha), Hb.
  destruct (Begin_reserves _ _ _ _ _ _ Hb) as [_ Hr]. unfold run_handler.
  fold (begin_of opts now s r key sc body) in Hr.
  destruct (next _ _ v) as [[o recorder] v']. destruct o; cbn.
  - unfold Complete. set (d := (begin_of opts now s r key sc body).2) in *.
    destruct (exec_cases (map (λ r, if matches sc key r then complete_row (recorded recorder) r else r)) d)
      as (f & d' & _ & Hd & _ & ->).
    pose proof (new_row_live sc key (RequestHash (Method r) (Path r) body) _ now
      (rows (store (maybe_cleanup (withDefaults opts) now s))) t Ht) as Hlive.
    rewrite <- Hr in Hlive. destruct f; cbn; rewrite ?Hd; [by apply live_key_complete|done|by apply live_key_complete].
  - rewrite Hr. by apply new_row_live.
Qed.

(** The key, scope and body of a request the middleware acts on. *)
Definition request_parts (opts : Options) (r : Request) : option (string * string * string) :=
  let key := TrimSpace (header_get (Header r) "Idempotency-Key") in
  if decide (key = "") then None
  else match match ScopeFunc (withDefaults opts) with
             | Some f => f r | None => Err ErrScopeUnavailable end with
       | Err _ => None
       | Ok sc =>
           match ReadAll (ReqBody r) with
           | Some (Ok body) => Some (key, sc, body)
           | _ => None
           end
       end.

Lemma request_parts_acts opts r key sc body :
  request_parts opts r = Some (key, sc, body) ↔ acts_on opts r key sc body.
Proof.
  unfold request_parts. split.
  - case_decide; [done|]. destruct (match ScopeFunc _ with Some f => _ | None => _ end) eqn:Hs; [|done].
    destruct (ReadAll (ReqBody r)) as [[b|e]|] eqn:Hb; [|done..]. intros [= <- <- <-].
    by constructor.
  - intros [Hk Hne Hs Hb]. by rewrite Hk, decide_False, Hs, Hb by done.
Qed.

Lemma middleware_idle {V} opts (next : Handler V) now s r rw v :
  request_parts opts r = None → (MiddlewareWithOptions opts next now s r rw v).2 = s.
Proof.
  unfold request_parts, MiddlewareWithOptions. case_decide; [done|].
  destruct (match ScopeFunc _ with Some f => _ | None => _ end); [|done].
  by destruct (ReadAll (ReqBody r)) as [[b|e]|].
Qed.

Lemma middleware_keeps_live {V} opts (next : Handler V) now s r rw v sc key t :
  now < t → live_key sc key t (rows (store s)) →
  live_key sc key t (rows (store (MiddlewareWithOptions opts next now s r rw v).2)).
Proof.
  intros Hn Hl. destruct (request_parts opts r) as [[[k sc'] body]|] eqn:Hp;
    [|by rewrite middleware_idle].
  apply request_parts_acts in Hp. rewrite (middleware_acts opts next now s r rw v k sc' body Hp).
  apply (cleanup_live sc key t (withDefaults opts) now s) in Hl; [|done].
  assert (live_key sc key t (rows (begin_of opts now s r k sc' body).2)) as Hb.
  { unfold begin_of. destruct (Begin_rows sc' k (RequestHash (Method r) (Path r) body)
      (TTL (withDefaults opts)) now (store (maybe_cleanup (withDefaults opts) now s))) as [-> |[_ ->]];
      [done|]. destruct Hl as (x & Hx & ?). exists x. split; [by right|done]. }
  destruct (begin_of opts now s r k sc' body) as [[[res|]|e] d]; cbn in *; [done| |done].
  unfold run_handler. destruct (next _ _ v) as [[[] recorder] v']; cbn; [|done].
  unfold Complete.
  destruct (exec_cases (map (λ r, if matches sc' k r then complete_row (recorded recorder) r else r)) d)
    as (f & d' & _ & Hd & _ & ->).
  destruct f; cbn; rewrite ?Hd; [by apply live_key_complete|done|by apply live_key_complete].
Qed.

(** Requests in the order the middleware handles them, with the time of each. *)
Definition arrival : Type := time * Request * RW.

(** The handler, counting its runs. *)
Definition counting {V} (next : Handler V) : Handler (V * nat) := λ r rw '(v, n),
  let '(o, rw, v) := next r rw v in (o, rw, (v, S n)).

(** Does the request carry this scope and key? *)
Definition carries_key (opts : Options) (sc key : string) (r : Request) : bool :=
  match request_parts opts r with
  | Some (key', sc', _) => bool_decide (sc' = sc) && bool_decide (key' = key)
  | None => false
  end.

(** How often the handler runs for the requests that carry a scope and key. *)
Fixpoint executions {V} (opts : Options) (next : Handler V) (sc key : string)
  (l : list arrival) (s : state) (v : V) : nat :=
  match l with
  | [] => 0
  | (now, r, rw) :: l' =>
      let '(_, _, (v', n), s') := MiddlewareWithOptions opts (counting next) now s r rw (v, 0%nat) in
      (if carries_key opts sc key r then n else 0) + executions opts next sc key l' s' v'
  end.

Lemma carries_key_acts opts sc key r :
  carries_key opts sc key r = true → ∃ body, acts_on opts r key sc body.
Proof.
  unfold carries_key. destruct (request_parts opts r) as [[[k sc'] body]|] eqn:Hp; [|done].
  intros [->%bool_decide_eq_true ->%bool_decide_eq_true]%andb_true_iff. exists body. by apply request_parts_acts.
Qed.

(** A request runs the handler once, when [Begin] says so, and otherwise not at all. *)
Lemma runs_counted {V} opts (next : Handler V) now s r rw v key sc body :
  acts_on opts r key sc body →
  (MiddlewareWithOptions opts (counting next) now s r rw (v, 0%nat)).1.2.2 =
  match (begin_of opts now s r key sc body).1 with Ok None => 1%nat | _ => 0%nat end.
Proof.
  intros Ha. rewrite (middleware_acts opts (counting next) now s r rw (v, 0%nat) key sc body Ha).
  destruct (begin_of opts now s r key sc body) as [[[res|]|e] d]; [done| |done]. cbn [fst snd].
  unfold run_handler, counting. by destruct (next _ _ v) as [[[] recorder] v'].
Qed.

Lemma occupied_not_counted {V} opts (next : Handler V) sc key now s r rw v t :
  now < t → live_key sc key t (rows (store s)) → carries_key opts sc key r = true →
  (MiddlewareWithOptions opts (counting next) now s r rw (v, 0%nat)).1.2.2 = 0%nat.
Proof.
  intros Hn Hl (body & Ha)%carries_key_acts. rewrite (runs_counted opts next now s r rw v key sc body Ha).
  pose proof (Begin_occupied sc key (RequestHash (Method r) (Path r) body) (TTL (withDefaults opts)) now
    (store (maybe_cleanup (withDefaults opts) now s))) as Ho. fold (begin_of opts now s r key sc body) in Ho.
  destruct (begin_of opts now s r key sc body).1 as [[res|]|e]; [done| |done].
  exfalso. apply Ho; [|done]. eapply live_key_lookup, cleanup_live; [exact Hn|exact Hl].
Qed.

Lemma executions_live {V} opts (next : Handler V) sc key l s v t :
  Forall (λ a, a.1.1 < t) l → live_key sc key t (rows (store s)) →
  executions opts next sc key l s v = 0%nat.
Proof.
  intros Hl. revert s v. induction Hl as [|[[now r] rw] l Hn _ IH]; intros s v Hlive; [done|].
  cbn in Hn |- *. pose proof (occupied_not_counted opts next sc key now s r rw v t Hn Hlive) as Hc.
  pose proof (middleware_keeps_live opts (counting next) now s r rw (v, 0%nat) sc key t Hn Hlive) as Hk.
  destruct (MiddlewareWithOptions opts (counting next) now s r rw (v, 0%nat)) as [[[o rw'] [v' n]] s']. cbn in *.
  rewrite (IH s' v' Hk). destruct (carries_key opts sc key r); [|done]. by rewrite (Hc eq_refl).
Qed.

(** ** Properties *)


Definition example_options : Options :=
  {| TTL := 0; CleanupInterval := 0; ScopeFunc := Some (λ r, Ok ("org-1:" +:+ Path r)) |}.

Definition keyed_request (key content : string) : Request :=
  {| Method := "POST"; Path := "/orders"; Query := [];
     Header := {["Idempotency-Key" := [key]]}; RemoteAddr := "";
     ReqBody := Body (Ok content); ContentLength := 2; TransferEncoding := [];
     Ctx := Ctx example_request |}.

Definition empty_state : state :=
  {| lastCleanup := 0; store := {| rows := []; unique := true; faults := [] |} |}.

Definition example_arrivals : list arrival :=
  [(10, keyed_request "k" "{}", example_writer); (20, keyed_request "k" "{}", example_writer);
   (30, keyed_request " k" "other", example_writer)].


(** *** Replays *)

Lemma lookup_head sc key r rs : matches sc key r = true → lookup_key sc key (r :: rs) = Some r.
Proof. intros Hm. unfold lookup_key. cbn. by rewrite Hm. Qed.

Lemma new_row_matches sc key hash ttl now : matches sc key (new_row sc key hash ttl now) = true.
Proof. unfold matches. cbn. by rewrite !bool_decide_true. Qed.

Lemma Begin_existing sc key hash ttl now d r :
  faults d = [] → lookup_key sc key (rows d) = Some r → request_hash r = hash →
  Begin sc key hash ttl now d =
  (match response_code r with
   | None => Err ErrPending
   | Some code => Ok (Some {| rr_StatusCode := code; rr_ContentType := default "" (content_type r);
                              rr_Body := response_body r |})
   end, d).
Proof.
  intros Hf Hl Hh. unfold Begin, begin_lookup. rewrite !exec_ok, !set_rows_same by done. cbn.
  rewrite Hl, decide_False by tauto. by destruct (response_code r).
Qed.

Lemma Begin_faults sc key hash ttl now d :
  faults d = [] → faults (Begin sc key hash ttl now d).2 = [].
Proof.
  intros Hf. unfold Begin, begin_lookup, begin_claim. rewrite !exec_ok, !set_rows_same by done.
  destruct (lookup_key sc key (rows d)) as [r|] eqn:El.
  - case_decide; [done|]. by destruct (response_code r).
  - rewrite exec_ok, set_rows_same by done. rewrite El. destruct (unique d); by rewrite exec_ok.
Qed.

Lemma maybe_cleanup_head opts now s r rs :
  faults (store s) = [] → rows (store s) = r :: rs → now < expires_at r →
  faults (store (maybe_cleanup opts now s)) = [] ∧
  ∃ rs', rows (store (maybe_cleanup opts now s)) = r :: rs'.
Proof.
  intros Hf Hr Hn. unfold maybe_cleanup. destruct (_ || _); [|eauto].
  unfold Cleanup. rewrite exec_ok by done. cbn. rewrite Hr, filter_cons_True by done. eauto.
Qed.

Lemma maybe_cleanup_faults opts now s :
  faults (store s) = [] → faults (store (maybe_cleanup opts now s)) = [].
Proof.
  intros Hf. unfold maybe_cleanup. destruct (_ || _); [|done]. unfold Cleanup. by rewrite exec_ok.
Qed.

(** A request that ran leaves its row in front. *)
Lemma begin_new_row opts now s r key sc body :
  faults (store s) = [] → (begin_of opts now s r key sc body).1 = Ok None →
  let d := (begin_of opts now s r key sc body).2 in
  faults d = [] ∧ ∃ rs, rows d = new_row sc key (RequestHash (Method r) (Path r) body)
                                   (TTL (withDefaults opts)) now :: rs.
Proof.
  intros Hf Hb. cbn zeta. split.
  - by apply Begin_faults, maybe_cleanup_faults.
  - destruct (Begin_reserves _ _ _ _ _ _ Hb) as [_ Hr]. eauto.
Qed.

Lemma replay_responds res rw :
  informational (rr_StatusCode res) = false → fresh rw →
  responds (Some (rr_StatusCode res)) (rr_Body res) (replay_response res rw) ∧
  header_get (rw_header (replay_response res rw)) "X-Idempotent-Replay" = "true" ∧
  (rr_ContentType res ≠ "" →
   header_get (rw_header (replay_response res rw)) "Content-Type" = rr_ContentType res).
Proof.
  intros Hs Hf. unfold replay_response. set (rw1 := if decide _ then _ else _).
  assert (fresh rw1) as Hf1 by (unfold rw1; case_decide; [by apply responds_header|done]).
  apply (responds_header (header_set "X-Idempotent-Replay" "true")) in Hf1.
  apply (responds_write_header (rr_StatusCode res)) in Hf1; [|done].
  apply (responds_write (rr_Body res)) in Hf1. split_and!; [done|..].
  - rewrite live_write, live_write_header. unfold set_header. by rewrite live_update, header_get_set.
  - intros Hct. rewrite live_write, live_write_header. unfold set_header at 1.
    rewrite live_update, header_get_set_ne by done. unfold rw1. rewrite decide_True by done.
    unfold set_header. by rewrite live_update, header_get_set.
Qed.

Lemma matches_new_row sc key sc' key' hash ttl now :
  matches sc key (new_row sc' key' hash ttl now) = bool_decide ((sc', key') = (sc, key)).
Proof. unfold matches. cbn. repeat case_bool_decide; naive_solver. Qed.

Lemma lookup_cons sc key r rs :
  lookup_key sc key (r :: rs) = if matches sc key r then Some r else lookup_key sc key rs.
Proof. done. Qed.

(** The state after requests that the middleware handles one after the other. *)
Fixpoint serve {V} (opts : Options) (next : Handler V) (l : list arrival) (s : state) (v : V) : state * V :=
  match l with
  | [] => (s, v)
  | (now, r, rw) :: l' =>
      let '(_, _, v', s') := MiddlewareWithOptions opts next now s r rw v in serve opts next l' s' v'
  end.

(** The database answers, and the key has the row [row0]. *)
Definition stored (sc key : string) (row0 : row) (s : state) : Prop :=
  faults (store s) = [] ∧ lookup_key sc key (rows (store s)) = Some row0.

Lemma lookup_filter_kept sc key (P : row → Prop) `{!∀ r, Decision (P r)} rs r :
  lookup_key sc key rs = Some r → P r → lookup_key sc key (filter P rs) = Some r.
Proof.
  intros Hl HP. induction rs as [|x rs IH]; [done|]. rewrite lookup_cons in Hl.
  destruct (matches sc key x) eqn:Ex.
  - simplify_eq. rewrite filter_cons_True by done. by rewrite lookup_cons, Ex.
  - destruct (decide (P x)); [rewrite filter_cons_True, lookup_cons, Ex by done|rewrite filter_cons_False by done]; by apply IH.
Qed.

Lemma stored_cleanup sc key row0 opts now s :
  now < expires_at row0 → stored sc key row0 s → stored sc key row0 (maybe_cleanup opts now s).
Proof.
  intros Hn [Hf Hl]. unfold maybe_cleanup. destruct (_ || _); [|by split]. unfold Cleanup.
  rewrite exec_ok by done. split; [done|]. cbn. by apply lookup_filter_kept.
Qed.

(** Whatever other requests do, the row stays as it is until it expires. *)
Lemma stored_kept {V} opts (next : Handler V) now s r rw v sc key row0 :
  now < expires_at row0 → stored sc key row0 s →
  stored sc key row0 (MiddlewareWithOptions opts next now s r rw v).2.
Proof.
  intros Hn Hs. destruct (request_parts opts r) as [[[k sc'] body]|] eqn:Hp; [|by rewrite middleware_idle].
  apply request_parts_acts in Hp. rewrite (middleware_acts opts next now s r rw v k sc' body Hp).
  destruct (stored_cleanup sc key row0 (withDefaults opts) now s Hn Hs) as [Hf Hl].
  set (s1 := maybe_cleanup _ now s) in *.
  assert (faults (begin_of opts now s r k sc' body).2 = []) as Hbf by by apply Begin_faults.
  destruct (decide ((sc', k) = (sc, key))) as [[= -> ->]|Hne].
  - assert ((begin_of opts now s r key sc body).1 ≠ Ok None) as Hno by (apply Begin_occupied; by eexists).
    assert (rows (begin_of opts now s r key sc body).2 = rows (store s1)) as Hr.
    { destruct (Begin_rows sc key (RequestHash (Method r) (Path r) body) (TTL (withDefaults opts)) now (store s1))
        as [Hr|[Hno' _]]; [exact Hr|congruence]. }
    assert (stored sc key row0 (set_store (begin_of opts now s r key sc body).2 s1)) as Hst
      by (split; [done|cbn; by rewrite Hr]).
    by destruct (begin_of opts now s r key sc body).1 as [[res|]|e].
  - assert (lookup_key sc key (rows (begin_of opts now s r k sc' body).2) = Some row0) as Hbl.
    { destruct (Begin_rows sc' k (RequestHash (Method r) (Path r) body) (TTL (withDefaults opts)) now (store s1))
        as [Hr|[_ Hr]]; unfold begin_of; fold s1; rewrite Hr; [done|].
      by rewrite lookup_cons, matches_new_row, bool_decide_false. }
    destruct (begin_of opts now s r k sc' body) as [[[res|]|e] d]; cbn [fst snd] in *; [by split| |by split].
    unfold run_handler. destruct (next _ _ v) as [[[] recorder] v']; [|by split]. cbn [snd]. unfold Complete.
    rewrite exec_ok by done. split; [done|]. cbn [snd store set_store rows set_rows].
    rewrite lookup_complete, Hbl. cbn [fmap option_fmap option_map].
    assert (matches sc' k row0 = false) as ->; [|done]. apply not_true_is_false. intros Hm. apply Hne.
    apply lookup_matches in Hbl. unfold matches in *.
    apply andb_true_iff in Hm as [<-%bool_decide_eq_true <-%bool_decide_eq_true].
    by apply andb_true_iff in Hbl as [->%bool_decide_eq_true ->%bool_decide_eq_true].
Qed.

Lemma stored_served {V} opts (next : Handler V) l s v sc key row0 :
  Forall (λ a, a.1.1 < expires_at row0) l → stored sc key row0 s → stored sc key row0 (serve opts next l s v).1.
Proof.
  intros Hl. revert s v. induction Hl as [|[[now r] rw] l Hn _ IH]; intros s v Hs; [done|]. cbn in Hn |- *.
  pose proof (stored_kept opts next now s r rw v sc key row0 Hn Hs) as Hk.
  destruct (MiddlewareWithOptions opts next now s r rw v) as [[[o rw'] v'] s']. by apply IH.
Qed.

(** C15: a repeated request gets the first response again.  Suppose that no statement
    to the database fails, that writers are passed in before anything was sent, that a
    request ran, and that its handler returned having used
    its writer for final statuses and bodies only (no informational status and no
    flush).  Then, whatever requests (of this key or others) the middleware handles in
    between, a later request with the same scope, key, method, path and body, before the
    key expires, is answered with the status and body that the first client got and the
    stored Content-Type, marked as a replay, without running the handler. *)
Theorem repeated_request_is_replayed {V V2 V3} opts (next : Handler V) (next2 : Handler V2) (next3 : Handler V3)
  now s r rw v key sc body between v3 now2 r2 rw2 v2 :
  answers_plainly next → fresh rw → fresh rw2 → faults (store s) = [] →
  acts_on opts r key sc body → (begin_of opts now s r key sc body).1 = Ok None →
  acts_on opts r2 key sc body → Method r2 = Method r → Path r2 = Path r →
  Forall (λ a, a.1.1 < now + TTL (withDefaults opts)) between → now2 < now + TTL (withDefaults opts) →
  let '(o, rw', v', s') := MiddlewareWithOptions opts next now s r rw v in
  o = Returned →
  let s'' := (serve opts next3 between s' v3).1 in
  let '(o2, rw2', v2', _) := MiddlewareWithOptions opts next2 now2 s'' r2 rw2 v2 in
  o2 = Returned ∧ v2' = v2 ∧
  ∃ st b ct, responds st b rw' ∧ responds (Some (default 200 st)) b rw2' ∧
    header_get (rw_header rw2') "X-Idempotent-Replay" = "true" ∧
    header_get (rw_header rw2') "Content-Type" = ct ∧
    ct = (if decide (header_get (rw_header rw') "Content-Type" = "") then "application/json"
          else header_get (rw_header rw') "Content-Type").
Proof.
  intros Hu Hf1 Hf2 Hnf Ha Hb Ha2 Hm Hp Hbt Hnow.
  rewrite (middleware_acts opts next now s r rw v key sc body Ha), Hb.
  destruct (begin_new_row opts now s r key sc body Hnf Hb) as [Hdf [rs Hrows]].
  unfold run_handler.
  pose proof (capture_faithful rw _ Hf1 (Hu (with_body (Body (Ok body)) r)
    (NewCaptureResponseWriter rw) v)) as (st & Hresp & Hst & Hfin).
  pose proof (same_shape_steps _ _ (plain_steps _ _ (Hu (with_body (Body (Ok body)) r)
    (NewCaptureResponseWriter rw) v))) as Hshape.
  destruct (next (with_body (Body (Ok body)) r) (NewCaptureResponseWriter rw) v) as [[o rec] v'].
  destruct o as [|msg]; [intros _|intros ?; done]. cbn [fst snd] in *.
  set (d := (begin_of opts now s r key sc body).2) in *.
  set (row0 := new_row sc key (RequestHash (Method r) (Path r) body) (TTL (withDefaults opts)) now) in *.
  set (res := recorded rec) in *. cbn [store set_store]. unfold Complete.
  rewrite exec_ok by done. cbn [snd]. rewrite Hrows. cbn [map].
  assert (matches sc key row0 = true) as -> by apply new_row_matches.
  set (s' := set_store _ _).
  assert (stored sc key (complete_row res row0) (serve opts next3 between s' v3).1) as Hs''.
  { apply stored_served; [exact Hbt|]. split; [done|]. cbn. apply lookup_head. cbn. apply new_row_matches. }
  set (s'' := (serve opts next3 between s' v3).1) in *. cbn zeta.
  rewrite (middleware_acts opts next2 now2 _ r2 rw2 v2 key sc body Ha2). cbn zeta.
  apply (stored_cleanup sc key (complete_row res row0) (withDefaults opts) now2) in Hs'' as [Hf' Hl']; [|exact Hnow].
  assert (begin_of opts now2 s'' r2 key sc body =
    (Ok (Some res), store (maybe_cleanup (withDefaults opts) now2 s''))) as ->.
  { unfold begin_of. rewrite (Begin_existing _ _ _ _ _ _ (complete_row res row0)); [by destruct res|done|done|].
    cbn. by rewrite Hm, Hp. }
  cbn. split; [done|]. split; [done|].
  destruct rec as [|sc0 wh b0 inner|]; [done| |done]. cbn in Hresp, Hst.
  assert (informational (rr_StatusCode res) = false) as Hinf.
  { cbn. rewrite Hst. destruct st as [s0|]; [by apply Hfin|done]. }
  destruct (replay_responds res rw2 Hinf Hf2) as (H1 & H2 & H3).
  exists st, b0, (rr_ContentType res). split_and!; [done| |done| |done].
  - by rewrite <- Hst.
  - apply H3. cbn. by case_decide.
Qed.

Lemma repeated_request_is_replayed_witness :
  let r := keyed_request "k" "{}" in
  let between := [(15, keyed_request "k" "{}", example_writer); (16, keyed_request "other" "{}", example_writer)] in
  let s1 := (MiddlewareWithOptions example_options created 10 empty_state r example_writer 0%nat).2 in
  let s2 := (serve example_options created between s1 0%nat).1 in
  (MiddlewareWithOptions example_options panicking 20 s2 r example_writer 7%nat).1.1.1 = Returned ∧
  (MiddlewareWithOptions example_options panicking 20 s2 r example_writer 7%nat).1.2 = 7%nat.
Proof.
  assert (acts_on example_options (keyed_request "k" "{}") "k" "org-1:/orders" "{}") as Ha
    by (by apply request_parts_acts).
  intros r between s1.
  pose proof (repeated_request_is_replayed example_options created panicking created 10 empty_state
    (keyed_request "k" "{}") example_writer 0%nat "k" "org-1:/orders" "{}" between 0%nat 20
    (keyed_request "k" "{}") example_writer 7%nat created_plain ltac:(done) ltac:(done) eq_refl
    Ha ltac:(by vm_compute) Ha eq_refl eq_refl ltac:(repeat constructor; by vm_compute) ltac:(by vm_compute)) as H.
  fold r in H.
  destruct (MiddlewareWithOptions example_options created 10 empty_state r example_writer 0%nat)
    as [[[o rw'] v'] s'] eqn:E.
  assert (o = Returned) as Ho.
  { assert ((MiddlewareWithOptions example_options created 10 empty_state r
      example_writer 0%nat).1.1.1 = Returned) as Hr by (by vm_compute). by rewrite E in Hr. }
  assert (s1 = s') as Hs by (unfold s1; first [done|by rewrite E]).
  specialize (H Ho). intros s2. unfold s2. rewrite Hs. cbn zeta in H.
  destruct (MiddlewareWithOptions example_options panicking 20 _ r example_writer 7%nat)
    as [[[o2 rw2'] v2'] s3]. by destruct H as (-> & -> & _).
Defined.

(** A handler that panics locks its key.  The key stays pending: every
    repetition of the request before the key expires is refused as still in
    progress, although nothing is running. *)
Theorem panic_locks_key {V V2} opts (next : Handler V) (next2 : Handler V2)
  now s r rw v key sc body now2 r2 rw2 v2 msg :
  fresh rw2 → faults (store s) = [] →
  acts_on opts r key sc body → (begin_of opts now s r key sc body).1 = Ok None →
  (MiddlewareWithOptions opts next now s r rw v).1.1.1 = Panicked msg →
  acts_on opts r2 key sc body → Method r2 = Method r → Path r2 = Path r →
  now2 < now + TTL (withDefaults opts) →
  let s' := (MiddlewareWithOptions opts next now s r rw v).2 in
  let '(o2, rw2', v2', _) := MiddlewareWithOptions opts next2 now2 s' r2 rw2 v2 in
  o2 = Returned ∧ v2' = v2 ∧
  responds (Some 409) (error_body "idempotency_in_progress" "A matching request is still in progress") rw2'.
Proof.
  intros Hf2 Hnf Ha Hb Hpanic Ha2 Hm Hp Hnow. cbn zeta.
  rewrite (middleware_acts opts next now s r rw v key sc body Ha), Hb in Hpanic |- *.
  destruct (begin_new_row opts now s r key sc body Hnf Hb) as [Hdf [rs Hrows]].
  unfold run_handler in *. destruct (next _ _ v) as [[[|m] rec] v']; [done|]. cbn [snd].
  rewrite (middleware_acts opts next2 now2 _ r2 rw2 v2 key sc body Ha2).
  set (d := (begin_of opts now s r key sc body).2) in *.
  set (row0 := new_row sc key (RequestHash (Method r) (Path r) body) (TTL (withDefaults opts)) now) in *.
  set (s' := set_store d _).
  assert (begin_of opts now2 s' r2 key sc body =
    (Err ErrPending, store (maybe_cleanup (withDefaults opts) now2 s'))) as ->.
  { destruct (maybe_cleanup_head (withDefaults opts) now2 s' row0 rs) as [Hf' [rs' Hr']];
      [done|done|exact Hnow|].
    unfold begin_of. rewrite (Begin_existing _ _ _ _ _ _ row0); [done|done| |].
    - rewrite Hr'. apply lookup_head, new_row_matches.
    - cbn. by rewrite Hm, Hp. }
  cbn [fst snd]. split_and!; [done|done|]. by apply WriteError_responds.
Qed.

Lemma panic_locks_key_witness :
  let r := keyed_request "k" "{}" in
  let s' := (MiddlewareWithOptions example_options panicking 10 empty_state r example_writer 0%nat).2 in
  (MiddlewareWithOptions example_options created 20 s' r example_writer 7%nat).1.2 = 7%nat.
Proof.
  assert (acts_on example_options (keyed_request "k" "{}") "k" "org-1:/orders" "{}") as Ha
    by (by apply request_parts_acts).
  pose proof (panic_locks_key example_options panicking created 10 empty_state
    (keyed_request "k" "{}") example_writer 0%nat "k" "org-1:/orders" "{}" 20
    (keyed_request "k" "{}") example_writer 7%nat "boom" ltac:(done) eq_refl
    Ha ltac:(by vm_compute) ltac:(by vm_compute) Ha eq_refl eq_refl ltac:(by vm_compute)) as H.
  cbn zeta in *.
  destruct (MiddlewareWithOptions example_options created 20 _ _ example_writer 7%nat)
    as [[[o2 rw2'] v2'] s2]. by destruct H as (_ & -> & _).
Defined.

(** *** Concurrent requests

    Requests of several goroutines and processes interleave between the database calls
    of the middleware: the two halves of [Begin], [Complete] and the cleanups.  A thread
    is a request that the middleware acts on, with what it has done so far; a thread whose
    second half answered [Ok None] runs the handler.  Statements fail as the faults of the
    shared database say. *)

Inductive phase := Looking | Claiming | Running | Ended (ran : bool).

Record thread := { th_now : time; th_request : Request; th_parts : string * string * string; th_phase : phase }.

Definition at_phase (ph : phase) (t : thread) : thread :=
  {| th_now := th_now t; th_request := th_request t; th_parts := th_parts t; th_phase := ph |}.

Record shared := { sh_db : db; threads : list thread }.

(** The arguments of [Begin] for a thread: the key and scope, and the hash. *)
Definition th_key (t : thread) : string := (th_parts t).1.1.
Definition th_scope (t : thread) : string := (th_parts t).1.2.
Definition th_hash (t : thread) : string := RequestHash (Method (th_request t)) (Path (th_request t)) (th_parts t).2.

(** All clock readings lie in the window [[t0, t0 + TTL)]. *)
Inductive sh_step (opts : Options) (t0 : time) : shared → shared → Prop :=
| sh_arrive sh now r parts :
    t0 ≤ now → request_parts opts r = Some parts →
    sh_step opts t0 sh
      {| sh_db := sh_db sh;
         threads := threads sh ++ [{| th_now := now; th_request := r; th_parts := parts; th_phase := Looking |}] |}
| sh_cleanup sh now :
    now < t0 + TTL (withDefaults opts) →
    sh_step opts t0 sh {| sh_db := (Cleanup now (sh_db sh)).2; threads := threads sh |}
| sh_lookup sh i t answer d :
    threads sh !! i = Some t → th_phase t = Looking →
    begin_lookup (th_scope t) (th_key t) (th_hash t) (sh_db sh) = (answer, d) →
    sh_step opts t0 sh
      {| sh_db := d;
         threads := <[i := at_phase (match answer with None => Claiming | Some _ => Ended false end) t]> (threads sh) |}
| sh_claim sh i t answer d :
    threads sh !! i = Some t → th_phase t = Claiming →
    begin_claim (th_scope t) (th_key t) (th_hash t) (TTL (withDefaults opts)) (th_now t) (sh_db sh) = (answer, d) →
    sh_step opts t0 sh
      {| sh_db := d;
         threads := <[i := at_phase (match answer with Ok None => Running | _ => Ended false end) t]> (threads sh) |}
| sh_complete sh i t res :
    threads sh !! i = Some t → th_phase t = Running →
    sh_step opts t0 sh
      {| sh_db := (Complete (th_scope t) (th_key t) res (sh_db sh)).2;
         threads := <[i := at_phase (Ended true) t]> (threads sh) |}
| sh_panic sh i t :
    threads sh !! i = Some t → th_phase t = Running →
    sh_step opts t0 sh {| sh_db := sh_db sh; threads := <[i := at_phase (Ended true) t]> (threads sh) |}.

(** Did the thread run the handler, for this scope and key? *)
Definition ran (sc key : string) (t : thread) : Prop :=
  th_scope t = sc ∧ th_key t = key ∧ match th_phase t with Running | Ended true => True | _ => False end.
#[export] Instance ran_dec sc key t : Decision (ran sc key t).
Proof. unfold ran. destruct (th_phase t) as [| | |[]]; apply _. Defined.

Definition runs (sh : shared) (sc key : string) : nat := length (filter (ran sc key) (threads sh)).

Definition sh_init (d : db) : shared := {| sh_db := d; threads := [] |}.

(** Replacing a thread changes the count by that thread. *)
Lemma runs_insert sc key (l : list thread) i t t' :
  l !! i = Some t →
  (length (filter (ran sc key) (<[i := t']> l)) + (if decide (ran sc key t) then 1 else 0) =
   length (filter (ran sc key) l) + (if decide (ran sc key t') then 1 else 0))%nat.
Proof.
  revert i. induction l as [|x l IH]; intros [|i] Hi; [done|done| |]; cbn in Hi.
  - simplify_eq. cbn [insert list_insert]. rewrite !filter_cons. repeat case_decide; cbn; lia.
  - specialize (IH i Hi). change (<[S i := t']> (x :: l)) with (x :: <[i := t']> l). rewrite !filter_cons.
    destruct (decide (ran sc key x)); cbn [length]; lia.
Qed.

(** With the constraint a key whose handler ran is taken to the end of the window. *)
Definition reserved (opts : Options) (t0 : time) (sh : shared) : Prop :=
  unique (sh_db sh) = true ∧ Forall (λ t, t0 ≤ th_now t) (threads sh) ∧
  ∀ sc key, (runs sh sc key ≤ 1)%nat ∧
    (runs sh sc key ≠ 0%nat → live_key sc key (t0 + TTL (withDefaults opts)) (rows (sh_db sh))).

Lemma runs_same sh sh' sc key i t ph :
  threads sh !! i = Some t → threads sh' = <[i := at_phase ph t]> (threads sh) →
  (ran sc key (at_phase ph t) ↔ ran sc key t) → runs sh' sc key = runs sh sc key.
Proof.
  intros Hi Ht Hr. unfold runs. rewrite Ht. pose proof (runs_insert sc key (threads sh) i t (at_phase ph t) Hi) as Hc.
  destruct (decide (ran sc key t)), (decide (ran sc key (at_phase ph t))); naive_solver lia.
Qed.

(** A step that keeps the counts and every live key keeps the invariant. *)
Lemma reserved_same opts t0 sh sh' :
  reserved opts t0 sh → unique (sh_db sh') = unique (sh_db sh) →
  Forall (λ t, t0 ≤ th_now t) (threads sh') →
  (∀ sc key, runs sh' sc key = runs sh sc key) →
  (∀ sc key, live_key sc key (t0 + TTL (withDefaults opts)) (rows (sh_db sh)) →
             live_key sc key (t0 + TTL (withDefaults opts)) (rows (sh_db sh'))) →
  reserved opts t0 sh'.
Proof.
  intros (Hu & _ & Hr) Hu' Hn Hruns Hlive. split_and!; [congruence|done|]. intros sc key.
  rewrite Hruns. destruct (Hr sc key). auto.
Qed.

Lemma Forall_at_phase t0 l i t ph :
  l !! i = Some t → Forall (λ t, t0 ≤ th_now t) l → Forall (λ t, t0 ≤ th_now t) (<[i := at_phase ph t]> l).
Proof. intros Hi Hl. apply Forall_insert; [done|]. exact (proj1 (Forall_lookup _ _) Hl i t Hi). Qed.

Lemma exec_unique eff d : unique (exec eff d).2 = unique d.
Proof. destruct (exec_cases eff d) as (f & d' & _ & _ & Hu & ->). by destruct f. Qed.

Lemma reserved_claim opts t0 sh i t answer d :
  threads sh !! i = Some t → th_phase t = Claiming →
  begin_claim (th_scope t) (th_key t) (th_hash t) (TTL (withDefaults opts)) (th_now t) (sh_db sh) = (answer, d) →
  reserved opts t0 sh →
  reserved opts t0 {| sh_db := d;
    threads := <[i := at_phase (match answer with Ok None => Running | _ => Ended false end) t]> (threads sh) |}.
Proof.
  intros Hi Hph Hb (Hu & Hn & Hr). pose proof (proj1 (Forall_lookup _ _) Hn i t Hi) as Hnow. cbn in Hnow.
  pose proof (begin_claim_writes (th_scope t) (th_key t) (th_hash t) (TTL (withDefaults opts)) (th_now t) (sh_db sh)) as [Hu' Hw].
  rewrite Hb in Hu', Hw. cbn in Hu', Hw.
  assert (∀ sc key, ¬ ran sc key t) as Hnr by (unfold ran; rewrite Hph; tauto).
  split_and!; [cbn; congruence|by apply Forall_at_phase|].
  assert (∀ sc key, live_key sc key (t0 + TTL (withDefaults opts)) (rows (sh_db sh)) →
                    live_key sc key (t0 + TTL (withDefaults opts)) (rows d)) as Hl.
  { intros sc key Hk. destruct Hw as [[-> _]|[_ ->]]; [done|]. destruct Hk as (x & Hx & ?). exists x. split; [by right|done]. }
  intros sc key. destruct (Hr sc key) as [H1 H2]. unfold runs in *. cbn.
  pose proof (runs_insert sc key (threads sh) i t
    (at_phase (match answer with Ok None => Running | _ => Ended false end) t) Hi) as Hc.
  rewrite (decide_False _ _ (Hnr sc key)) in Hc. destruct (decide (ran sc key (at_phase _ t))) as [Hran|Hran].
  - destruct answer as [[res|]|e]; [by destruct Hran as (_ & _ & [])| |by destruct Hran as (_ & _ & [])].
    destruct Hran as (Hsc & Hkey & _). change (th_scope t = sc) in Hsc. change (th_key t = key) in Hkey.
    destruct Hw as [[_ ?]|[Hnone Hrows]]; [done|]. specialize (Hnone Hu). rewrite Hsc, Hkey in Hnone, Hrows.
    assert (length (filter (ran sc key) (threads sh)) = 0%nat) as H0.
    { destruct (decide (length (filter (ran sc key) (threads sh)) = 0%nat)) as [|Hne]; [done|].
      destruct (live_key_lookup _ _ _ _ (H2 Hne)). congruence. }
    split; [lia|]. intros _. rewrite Hrows. apply new_row_live. lia.
  - split; [lia|]. intros Hne. apply Hl, H2. lia.
Qed.

Lemma reserved_step opts t0 sh sh' : sh_step opts t0 sh sh' → reserved opts t0 sh → reserved opts t0 sh'.
Proof.
  intros Hs Hr. pose proof Hr as (Hu & Hn & _).
  destruct Hs as [sh now r parts Hnow Hp|sh now Hnow|sh i t answer d Hi Hph Hb|sh i t answer d Hi Hph Hb|sh i t res Hi Hph|sh i t Hi Hph].
  - eapply reserved_same; [exact Hr|done|apply Forall_app; by split; [|constructor]| |done].
    intros sc key. unfold runs. cbn. rewrite filter_app, filter_cons_False by (unfold ran; cbn; tauto).
    by rewrite app_nil_r.
  - eapply reserved_same; [exact Hr|apply exec_unique|done|done|]. intros sc key Hl. cbn. unfold Cleanup.
    destruct (exec_cases (filter (λ r, now < expires_at r)) (sh_db sh)) as (f & d' & _ & Hd & _ & ->).
    destruct f; cbn; rewrite ?Hd; [by apply live_key_filter|done|by apply live_key_filter].
  - destruct (begin_lookup_reads (th_scope t) (th_key t) (th_hash t) (sh_db sh)) as (Hd & Hu' & _). rewrite Hb in Hd, Hu'. cbn in Hd, Hu'.
    eapply reserved_same; [exact Hr|done|by apply Forall_at_phase| |cbn; by rewrite Hd].
    intros sc key. eapply runs_same; [exact Hi|done|]. unfold ran. rewrite Hph. by destruct answer.
  - by eapply reserved_claim.
  - eapply reserved_same; [exact Hr|apply exec_unique|by apply Forall_at_phase| |].
    + intros sc key. eapply runs_same; [exact Hi|done|]. unfold ran. by rewrite Hph.
    + intros sc key Hl. cbn. unfold Complete.
      destruct (exec_cases (map (λ r, if matches (th_scope t) (th_key t) r then complete_row res r else r)) (sh_db sh))
        as (f & d' & _ & Hd & _ & ->).
      destruct f; cbn; rewrite ?Hd; [by apply live_key_complete|done|by apply live_key_complete].
  - eapply reserved_same; [exact Hr|done|by apply Forall_at_phase| |done].
    intros sc key. eapply runs_same; [exact Hi|done|]. unfold ran. by rewrite Hph.
Qed.

Definition two_threads : db := {| rows := []; unique := false; faults := [] |}.

(** *** The middleware is such a thread *)

Lemma insert_last {X} (l : list X) x y : <[length l := y]> (l ++ [x]) = l ++ [y].
Proof. rewrite insert_app_r_alt by done. by rewrite Nat.sub_diag. Qed.

Lemma lookup_last {X} (l : list X) x : (l ++ [x]) !! length l = Some x.
Proof. by apply list_lookup_middle. Qed.

(** [Begin] alone: the two halves, one after the other. *)
Lemma begin_steps opts t0 l t d :
  th_phase t = Looking →
  let b := Begin (th_scope t) (th_key t) (th_hash t) (TTL (withDefaults opts)) (th_now t) d in
  rtc (sh_step opts t0) {| sh_db := d; threads := l ++ [t] |}
    {| sh_db := b.2; threads := l ++ [at_phase (match b.1 with Ok None => Running | _ => Ended false end) t] |}.
Proof.
  intros Hph b. unfold b, Begin. destruct (begin_lookup (th_scope t) (th_key t) (th_hash t) d) as [answer d1] eqn:El.
  eapply rtc_l; [eapply (sh_lookup _ _ _ (length l) t); [apply lookup_last|done|exact El]|]. cbn [threads].
  rewrite insert_last. destruct answer as [answer|].
  - assert (answer ≠ Ok None) as Hne.
    { intros ->. unfold begin_lookup in El. by repeat case_match; simplify_eq. }
    cbn [fst snd]. destruct answer as [[res|]|e]; [apply rtc_refl|done|apply rtc_refl].
  - destruct (begin_claim _ _ _ _ _ d1) as [answer d2] eqn:Ec. apply rtc_once. cbn [fst snd].
    pose proof (sh_claim opts t0 {| sh_db := d1; threads := l ++ [at_phase Claiming t] |} (length l)
      (at_phase Claiming t) answer d2 (lookup_last _ _) eq_refl Ec) as Hs.
    cbn [threads] in Hs. rewrite insert_last in Hs. exact Hs.
Qed.

(** A whole run of the middleware is the steps of one thread, whose handler runs when the
    handler given to the middleware does. *)
Lemma middleware_steps {V} opts t0 (next : Handler V) now s r rw v parts l :
  request_parts opts r = Some parts → t0 ≤ now < t0 + TTL (withDefaults opts) →
  let run := MiddlewareWithOptions opts (counting next) now s r rw (v, 0%nat) in
  ∃ ran : bool, run.1.2.2 = (if ran then 1 else 0)%nat ∧
  rtc (sh_step opts t0) {| sh_db := store s; threads := l |}
    {| sh_db := store run.2;
       threads := l ++ [{| th_now := now; th_request := r; th_parts := parts; th_phase := Ended ran |}] |}.
Proof.
  intros Hp Hnow. destruct parts as [[key sc] body]. pose proof (proj1 (request_parts_acts _ _ _ _ _) Hp) as Ha.
  set (t ph := {| th_now := now; th_request := r; th_parts := (key, sc, body); th_phase := ph |}).
  set (s0 := maybe_cleanup (withDefaults opts) now s).
  assert (rtc (sh_step opts t0) {| sh_db := store s; threads := l |} {| sh_db := store s0; threads := l ++ [t Looking] |}) as Hstart.
  { eapply rtc_r; [|eapply (sh_arrive _ _ {| sh_db := store s0; threads := l |} now r); [lia|exact Hp]].
    unfold s0, maybe_cleanup. destruct (_ || _); [|apply rtc_refl]. apply rtc_once. cbn [store].
    exact (sh_cleanup opts t0 {| sh_db := store s; threads := l |} now ltac:(lia)). }
  pose proof (begin_steps opts t0 l (t Looking) (store s0) eq_refl) as Hb. cbn zeta in Hb.
  change (Begin _ _ _ _ _ _) with (begin_of opts now s r key sc body) in Hb.
  pose proof (transitivity Hstart Hb) as Hs. clear Hstart Hb. cbn zeta.
  rewrite (middleware_acts opts (counting next) now s r rw (v, 0%nat) key sc body Ha). fold s0.
  destruct (begin_of opts now s r key sc body) as [[[res|]|e] d]; cbn [fst snd] in *.
  - by exists false.
  - exists true. unfold run_handler, counting. destruct (next _ _ v) as [[o recorder] v'].
    assert (∀ w, rtc (sh_step opts t0) {| sh_db := d; threads := l ++ [t Running] |} {| sh_db := w; threads := l ++ [t (Ended true)] |} →
      rtc (sh_step opts t0) {| sh_db := store s; threads := l |} {| sh_db := w; threads := l ++ [t (Ended true)] |}) as Hend
      by (intros w Hw; etrans; [exact Hs|exact Hw]).
    destruct o as [|m]; cbn; (split; [done|]); apply Hend, rtc_once.
    + pose proof (sh_complete opts t0 {| sh_db := d; threads := l ++ [t Running] |} (length l) (t Running) (recorded recorder)
        (lookup_last _ _) eq_refl) as Hc. cbn [threads] in Hc. rewrite insert_last in Hc. exact Hc.
    + pose proof (sh_panic opts t0 {| sh_db := d; threads := l ++ [t Running] |} (length l) (t Running)
        (lookup_last _ _) eq_refl) as Hc. cbn [threads] in Hc. rewrite insert_last in Hc. exact Hc.
  - by exists false.
Qed.

(** C16: under concurrency, the unique constraint is what keeps the promise.
    With a unique constraint on (scope, idempotency_key), however the halves of [Begin],
    completions, panics and cleanups of any number of requests interleave, and whichever
    statements fail, no key's handler runs twice while the clock readings are within one
    time to live.  Without it, two concurrent requests can both run.  The threads that
    interleave are the middleware's: a run of it that nothing interrupts is the steps of
    one thread, with the same database and the same number of runs of the handler. *)
Theorem concurrent_requests_run_once {V} opts t0 :
  (∀ d sh sc key, unique d = true → rtc (sh_step opts t0) (sh_init d) sh → (runs sh sc key ≤ 1)%nat) ∧
  (∀ r key sc body, request_parts opts r = Some (key, sc, body) →
   ∃ sh, rtc (sh_step opts t0) (sh_init two_threads) sh ∧ runs sh sc key = 2%nat) ∧
  (∀ (next : Handler V) now s r rw v parts l,
   request_parts opts r = Some parts → t0 ≤ now < t0 + TTL (withDefaults opts) →
   let '(_, _, (_, n), s') := MiddlewareWithOptions opts (counting next) now s r rw (v, 0%nat) in
   ∃ ran : bool, n = (if ran then 1 else 0)%nat ∧
   rtc (sh_step opts t0) {| sh_db := store s; threads := l |}
     {| sh_db := store s';
        threads := l ++ [{| th_now := now; th_request := r; th_parts := parts; th_phase := Ended ran |}] |}).
Proof.
  split_and!.
  - intros d sh sc key Hu Hs.
    assert (reserved opts t0 (sh_init d)) as Hr by (split_and!; [done|constructor|intros ??; split; [cbn; lia|done]]).
    assert (reserved opts t0 sh) as (_ & _ & Hk); [|apply Hk].
    induction Hs as [|x y z Hxy _ IH]; [done|]. by apply IH, (reserved_step _ _ _ _ Hxy).
  - intros r key sc body Hp. eexists. split.
    + eapply rtc_l; [apply (sh_arrive _ _ _ t0 r); [lia|exact Hp]|]. eapply rtc_l; [apply (sh_arrive _ _ _ t0 r); [lia|exact Hp]|].
      eapply rtc_l; [by eapply (sh_lookup _ _ _ 0%nat)|]. eapply rtc_l; [by eapply (sh_lookup _ _ _ 1%nat)|].
      eapply rtc_l; [by eapply (sh_claim _ _ _ 0%nat)|]. eapply rtc_l; [by eapply (sh_claim _ _ _ 1%nat)|]. apply rtc_refl.
    + unfold runs. cbn -[filter]. rewrite !filter_cons_True by by unfold ran, th_scope, th_key. done.
  - intros next now s r rw v parts l Hp Hnow. pose proof (middleware_steps opts t0 next now s r rw v parts l Hp Hnow) as Hm.
    by destruct (MiddlewareWithOptions opts (counting next) now s r rw (v, 0%nat)) as [[[o rw'] [v' n]] s'].
Qed.

Lemma concurrent_requests_run_once_witness :
  ∃ sh, rtc (sh_step example_options 0) (sh_init two_threads) sh ∧ runs sh "org-1:/orders" "k" = 2%nat.
Proof.
  apply (proj1 (proj2 (concurrent_requests_run_once (V := nat) example_options 0)) (keyed_request "k" "{}") "k" "org-1:/orders" "{}").
  by vm_compute.
Defined.
