(* ===== verification/FeatureFlags.v ===== *)
(** * Feature flags (src/featureflags/file_store.go)

    A store of flags read from a file, refreshed lazily.  The file system and
    the protobuf JSON decoder are operations of [FlagFiles]; cloning a protobuf
    message is the identity on values.  The store is not nil. *)

From S2P Require Import Prelude GoStrings GoErrors.
#[local] Open Scope Z_scope.

Definition DefaultPollInterval : duration := 5 * Second.

(** The fields of configv1.FeatureFlag the store reads. *)
Record FeatureFlag := { Key : string; FlagEnabled : bool; RolloutPercent : Z }.

(** A snapshot is its list of flags; nil entries are [None]. *)
Definition snapshot_flags := list (option FeatureFlag).

Class FlagFiles (W : Type) := {
  stat_file : string → W → result error time * W; (* the modification time *)
  read_file : string → W → result error string * W;
  decode_snapshot : string → result error snapshot_flags;
}.

(** ** Rollout *)

Definition effectiveRolloutPercent (v : Z) : Z :=
  if v =? 0 then 100 else if 100 <? v then 100 else v.

(** [hash/fnv] 32-bit FNV-1a. *)
Definition fnv_step (h : Z) (b : Ascii.ascii) : Z := wrap32u (Z.lxor h (code b) * 16777619).
Definition fnv32a (s : string) : Z := foldl fnv_step 2166136261 (bytes_of s).

Definition rolloutBucket (key subject : string) : Z :=
  fnv32a (TrimSpace key +:+ ":" +:+ TrimSpace subject) mod 100.

(** [EnabledFor], given the flag that was looked up. *)
Definition enabled_for (flag : option FeatureFlag) (key subject : string) : bool :=
  match flag with
  | None => false
  | Some f =>
      if negb (FlagEnabled f) then false
      else
        let percent := effectiveRolloutPercent (RolloutPercent f) in
        if 100 <=? percent then true
        else if decide (TrimSpace subject = "") then false
        else rolloutBucket key (TrimSpace subject) <? percent
  end.

(** ** The store *)

Record FileStore := {
  path : string;
  pollInterval : duration;
  flags : gmap string FeatureFlag;
  lastChecked : time;
  lastModTime : time;
  snapshot : option snapshot_flags;
}.

Section Store.
Context {W : Type} `{!FlagFiles W}.

(** The loop that builds the map: a later flag replaces an earlier one. *)
Definition add_flag (m : gmap string FeatureFlag) (f : option FeatureFlag) : gmap string FeatureFlag :=
  match f with
  | None => m
  | Some f =>
      let key := TrimSpace (Key f) in
      if decide (key = "") then m else <[key := f]> m
  end.

Definition index_flags (l : snapshot_flags) : gmap string FeatureFlag := foldl add_flag ∅ l.

Definition reload (st : FileStore) (w : W) : option error * FileStore * W :=
  match stat_file (path st) w with
  | (Err e, w) => (Some (ErrWrap "stat_feature_flags: " e ""), st, w)
  | (Ok modTime, w) =>
      if negb (is_zero_time (lastModTime st)) && negb (time_after modTime (lastModTime st))
      then (None, st, w)
      else
        match read_file (path st) w with
        | (Err e, w) => (Some (ErrWrap "read_feature_flags: " e ""), st, w)
        | (Ok contents, w) =>
            match decode_snapshot contents with
            | Err e => (Some (ErrWrap "unmarshal_feature_flags: " e ""), st, w)
            | Ok snap =>
                (None,
                 {| path := path st; pollInterval := pollInterval st; flags := index_flags snap;
                    lastChecked := lastChecked st; lastModTime := modTime;
                    snapshot := Some snap |}, w)
            end
        end
  end.

Definition NewFileStore (p : string) (poll : duration) (w : W) : result error FileStore * W :=
  let p := TrimSpace p in
  if decide (p = "") then (Err (ErrFmt "feature_flags_path_required"), w)
  else
    let st := {| path := p; pollInterval := if poll <=? 0 then DefaultPollInterval else poll;
                 flags := ∅; lastChecked := zero_time; lastModTime := zero_time;
                 snapshot := None |} in
    match reload st w with
    | (Some e, _, w) => (Err e, w)
    | (None, st, w) => (Ok st, w)
    end.

Definition set_lastChecked (t : time) (st : FileStore) : FileStore :=
  {| path := path st; pollInterval := pollInterval st; flags := flags st; lastChecked := t;
     lastModTime := lastModTime st; snapshot := snapshot st |}.

Definition refresh_due (now : time) (st : FileStore) : bool :=
  is_zero_time (lastChecked st) || (pollInterval st <=? time_sub now (lastChecked st)).

(** [refreshIfNeeded] at the clock reading [now], by a caller that no other one
    overtakes between its two tests, which then agree; a failed reload is
    logged. *)
Definition refreshIfNeeded (now : time) (st : FileStore) (w : W) : FileStore * W * option error :=
  if negb (refresh_due now st) then (st, w, None)
  else
    let '(err, st, w) := reload (set_lastChecked now st) w in (st, w, err).

Definition Lookup (now : time) (key : string) (st : FileStore) (w : W)
  : option FeatureFlag * FileStore * W :=
  let '(st, w, _) := refreshIfNeeded now st w in (flags st !! TrimSpace key, st, w).

Definition Enabled (now : time) (key : string) (st : FileStore) (w : W) : bool * FileStore * W :=
  let '(f, st, w) := Lookup now key st w in
  (match f with Some f => FlagEnabled f | None => false end, st, w).

Definition EnabledFor (now : time) (key subject : string) (st : FileStore) (w : W)
  : bool * FileStore * W :=
  let '(f, st, w) := Lookup now key st w in (enabled_for f key subject, st, w).

Definition HasExplicitRollout (now : time) (key : string) (st : FileStore) (w : W)
  : bool * FileStore * W :=
  let '(f, st, w) := Lookup now key st w in
  (match f with Some f => 0 <? RolloutPercent f | None => false end, st, w).

Definition Snapshot (now : time) (st : FileStore) (w : W) : snapshot_flags * FileStore * W :=
  let '(st, w, _) := refreshIfNeeded now st w in (default [] (snapshot st), st, w).

(** ** Lemmas *)

(** The last flag of the list with a given key. *)
Fixpoint last_flag (key : string) (l : snapshot_flags) : option FeatureFlag :=
  match l with
  | [] => None
  | f :: l' =>
      match last_flag key l' with
      | Some g => Some g
      | None => match f with
                | Some g => if decide (TrimSpace (Key g) = key) then Some g else None
                | None => None
                end
      end
  end.

Lemma index_flags_from l m key :
  key ≠ "" →
  foldl add_flag m l !! key = match last_flag key l with Some f => Some f | None => m !! key end.
Proof.
  intros Hk. revert m. induction l as [|f l IH]; intros m; [done|]. cbn. rewrite IH.
  destruct (last_flag key l); [done|]. destruct f as [f|]; [|done]. cbn.
  repeat case_decide; subst; try done.
  - by rewrite lookup_insert_eq.
  - by rewrite lookup_insert_ne.
Qed.

Lemma index_flags_lookup l key : key ≠ "" → index_flags l !! key = last_flag key l.
Proof.
  intros Hk. unfold index_flags. rewrite index_flags_from by done. by destruct (last_flag key l).
Qed.

(** What the store shows: a snapshot and its index. *)
Definition consistent (st : FileStore) : Prop :=
  flags st = index_flags (default [] (snapshot st)).
End Store.

(** ** Properties *)

(** Gradual rollout is monotone.  Raising a flag's rollout percentage never
    takes the flag away from a subject that had it; a percentage of 0 (unset) or
    at least 100 gives it to everyone; below that it is never given to a blank
    subject; white space around the subject does not matter. *)
Theorem rollout_is_monotone key subject subject' f g :
  FlagEnabled f = true → FlagEnabled g = true →
  effectiveRolloutPercent (RolloutPercent f) ≤ effectiveRolloutPercent (RolloutPercent g) →
  TrimSpace subject = TrimSpace subject' →
  (enabled_for (Some f) key subject = true → enabled_for (Some g) key subject' = true) ∧
  (100 ≤ effectiveRolloutPercent (RolloutPercent g) → enabled_for (Some g) key subject' = true) ∧
  (effectiveRolloutPercent (RolloutPercent g) < 100 → TrimSpace subject' = "" →
   enabled_for (Some g) key subject' = false).
Proof.
  intros Hf Hg Hle Hs. unfold enabled_for. rewrite Hf, Hg, Hs. cbn [negb].
  destruct (Z.leb_spec 100 (effectiveRolloutPercent (RolloutPercent g))) as [Hg100|Hg100].
  { split; [done|]. split; [done|lia]. }
  rewrite (proj2 (Z.leb_gt _ _)) by lia. split_and!; [|lia|].
  - case_decide; [done|]. intros Hb%Z.ltb_lt. apply Z.ltb_lt. lia.
  - intros _ Hblank. by rewrite decide_True.
Qed.

Lemma rollout_is_monotone_witness :
  let f := {| Key := "beta"; FlagEnabled := true; RolloutPercent := 40 |} in
  let g := {| Key := "beta"; FlagEnabled := true; RolloutPercent := 90 |} in
  enabled_for (Some f) "beta" "user-3" = true ∧ enabled_for (Some g) "beta" " user-3" = true.
Proof.
  assert (enabled_for (Some {| Key := "beta"; FlagEnabled := true; RolloutPercent := 40 |})
    "beta" "user-3" = true) as H by (by vm_compute).
  split; [exact H|]. revert H. apply rollout_is_monotone; reflexivity || by vm_compute.
Defined.

(** A bad file never takes the flags away.  A lookup answers from the flags
    the store already had, unchanged, unless the poll interval has passed and
    the file was seen, is newer, could be read and decoded; then it answers from
    exactly that file, the last entry of a key winning. *)
Theorem lookup_uses_last_good_file {W} `{!FlagFiles W} now key st (w : W) :
  TrimSpace key ≠ "" →
  let '(f, st', w') := Lookup now key st w in
  (flags st' = flags st ∧ snapshot st' = snapshot st ∧ f = flags st !! TrimSpace key) ∨
  refresh_due now st = true ∧
  ∃ modTime contents snap,
    (stat_file (path st) w).1 = Ok modTime ∧
    (lastModTime st = 0 ∨ lastModTime st < modTime) ∧
    (read_file (path st) (stat_file (path st) w).2).1 = Ok contents ∧
    decode_snapshot contents = Ok snap ∧
    snapshot st' = Some snap ∧ lastModTime st' = modTime ∧ f = last_flag (TrimSpace key) snap.
Proof.
  intros Hk. unfold Lookup, refreshIfNeeded. destruct (refresh_due now st) eqn:Hd; cbn [negb];
    [|by left].
  unfold reload. cbn [path set_lastChecked lastModTime].
  destruct (stat_file (path st) w) as [[modTime|e] w1] eqn:Hst; [|by left].
  destruct (negb (is_zero_time (lastModTime st)) && negb (time_after modTime (lastModTime st))) eqn:Hm;
    [by left|].
  destruct (read_file (path st) w1) as [[contents|e] w2] eqn:Hr; [|by left].
  destruct (decode_snapshot contents) as [snap|e] eqn:Hdec; [|by left].
  right. split; [done|]. exists modTime, contents, snap. split_and!; try done.
  - unfold is_zero_time, time_after in Hm. apply andb_false_iff in Hm as [Hm|Hm];
      apply negb_false_iff in Hm; breflect; [by left|by right].
  - cbn. by rewrite Hr.
  - by apply index_flags_lookup.
Qed.

(** A file system with one file: its time and its contents. *)
#[local] Instance one_file : FlagFiles (result error (time * string)) := {
  stat_file _ w := (match w with Ok (t, _) => Ok t | Err e => Err e end, w);
  read_file _ w := (match w with Ok (_, c) => Ok c | Err e => Err e end, w);
  decode_snapshot c :=
    if decide (c = "on") then Ok [Some {| Key := " beta"; FlagEnabled := true; RolloutPercent := 0 |}]
    else Err (ErrForeign 1 "syntax error");
}.

Definition file_with (c : string) : result error (time * string) := Ok (11, c).

Definition example_store : FileStore :=
  {| path := "flags.json"; pollInterval := 5 * Second; flags := ∅; lastChecked := 1;
     lastModTime := 10; snapshot := Some [] |}.

Lemma lookup_uses_last_good_file_witness :
  (Lookup (6 * Second) "beta" example_store (file_with "on")).1.1
    = Some {| Key := " beta"; FlagEnabled := true; RolloutPercent := 0 |} ∧
  flags (Lookup (6 * Second) "beta" example_store (file_with "garbage")).1.2 = ∅.
Proof.
  split; [reflexivity|].
  pose proof (lookup_uses_last_good_file (6 * Second) "beta" example_store
    (file_with "garbage") ltac:(done)) as H.
  destruct (Lookup (6 * Second) "beta" example_store (file_with "garbage")) as [[f st'] w']. cbn [fst snd].
  destruct H as [(-> & _)|(_ & m & c & sn & _ & _ & [= <-] & Hd & _)]; [done|]. by vm_compute in Hd.
Defined.
