(* ===== verification/Health.v ===== *)
(** * Readiness checks (src/health)

    A checker runs its checks concurrently and may answer from a recent report.
    What each check answers, and how long it takes, is the environment's; the
    order in which the goroutines store their results is a schedule. *)

From S2P Require Import Prelude GoStrings GoErrors Json Http RtErrors.
#[local] Open Scope Z_scope.

Record Status := { Name : string; StHealthy : bool; Latency : Z; ErrorText : string }.
Record Report := { RepHealthy : bool; Checks : list Status; Duration : Z }.

Definition DefaultTimeout : duration := 2 * Second.
Definition DefaultCacheTTL : duration := 5 * Second.

Definition zero_status : Status := {| Name := ""; StHealthy := false; Latency := 0; ErrorText := "" |}.
Definition zero_report : Report := {| RepHealthy := false; Checks := []; Duration := 0 |}.

(** [detach]; a nil context is [None]. *)
Definition detach (ctx : option CallCtx) : CallCtx :=
  match ctx with None => Background | Some ctx => WithoutCancel ctx end.

(** A check is known by its name and the answer it gives to a context in a world
    [W]. *)
Section Checker.
Context {W : Type}.

Definition CheckFunc := CallCtx → W → option error.
Record namedCheck := { nc_name : string; nc_fn : CheckFunc }.

Record Checker := {
  checks : list namedCheck;
  cachedReport : Report;
  cacheUntil : time;
}.

Definition New : Checker := {| checks := []; cachedReport := zero_report; cacheUntil := zero_time |}.

Definition Add (name : string) (fn : CheckFunc) (c : Checker) : Checker :=
  {| checks := checks c ++ [{| nc_name := name; nc_fn := fn |}];
     cachedReport := zero_report; cacheUntil := zero_time |}.

Definition ms (d : duration) : Z := milliseconds d.

(** What one goroutine stores. *)
Definition status_of (ctx : CallCtx) (w : W) (latency : duration) (chk : namedCheck) : Status :=
  let err := nc_fn chk ctx w in
  {| Name := nc_name chk;
     StHealthy := match err with None => true | Some _ => false end;
     Latency := ms latency;
     ErrorText := match err with None => "" | Some e => Error_ e end |}.

(** The slice of results after the goroutines have stored theirs in the order
    of [schedule]. *)
Definition store_results (statuses : list Status) (schedule : list nat) : list Status :=
  foldl (λ rs i, match statuses !! i with Some s => <[i := s]> rs | None => rs end)
        (replicate (length statuses) zero_status) schedule.

(** [Check] of a snapshot of the checks; [latencies] and [elapsed] are measured
    times, [schedule] the order of completion. *)
Definition run_checks (snapshot : list namedCheck) (ctx : CallCtx) (timeout : duration) (w : W) (latencies : list duration)
  (elapsed : duration) (schedule : list nat) : Report :=
  if decide (length snapshot = 0%nat)
  then {| RepHealthy := true; Checks := []; Duration := ms elapsed |}
  else
    let ctx := WithTimeout ctx timeout in
    let statuses := zip_with (λ d chk, status_of ctx w d chk) latencies snapshot in
    let results := store_results statuses schedule in
    {| RepHealthy := forallb StHealthy results; Checks := results; Duration := ms elapsed |}.

Definition Check (c : Checker) := run_checks (checks c).

Definition cached (now : time) (c : Checker) : option Report :=
  if is_zero_time (cacheUntil c) || time_after now (cacheUntil c) then None
  else Some (cachedReport c).

Definition store_report (now : time) (ttl : duration) (r : Report) (c : Checker) : Checker :=
  {| checks := checks c; cachedReport := r; cacheUntil := time_add now ttl |}.

(** [CachedCheck] by one caller.  [c0] at [now0] is the checker at the first cache
    test; the caller may then wait for the lock, and finds the checker [c] at
    [now1] under it; [later] is the time when it stores the report. *)
Definition CachedCheck (ctx : CallCtx) (timeout ttl : duration) (c0 : Checker) (now0 now1 later : time)
  (w : W) (latencies : list duration) (elapsed : duration) (schedule : list nat) (c : Checker)
  : Report * Checker :=
  if ttl <=? 0 then (Check c ctx timeout w latencies elapsed schedule, c)
  else
    match cached now0 c0 with
    | Some r => (r, c)
    | None =>
        match cached now1 c with
        | Some r => (r, c)
        | None =>
            let r := Check c (detach (Some ctx)) timeout w latencies elapsed schedule in
            (r, store_report later ttl r c)
        end
    end.

Definition json_status (s : Status) : json :=
  JObject ([("name", JString (Name s)); ("healthy", JBool (StHealthy s)); ("latency_ms", JInt (Latency s))]
           ++ if decide (ErrorText s = "") then [] else [("error", JString (ErrorText s))]).

Definition json_report (r : Report) : json :=
  JObject [("healthy", JBool (RepHealthy r)); ("checks", JArray (json_status <$> Checks r));
           ("duration_ms", JInt (Duration r))].

(** The response of [Handler] and [CachedHandler] for a report. *)
Definition write_report (r : Report) (rw : RW) : RW :=
  let rw := set_header "Content-Type" "application/json" rw in
  let rw := if negb (RepHealthy r) then WriteHeader 503 rw else rw in
  EncodeJSON (json_report r) rw.

Definition Handler_ (timeout : duration) (c : Checker) (ctx : CallCtx) (w : W) (latencies : list duration)
  (elapsed : duration) (schedule : list nat) (rw : RW) : RW :=
  write_report (Check c ctx timeout w latencies elapsed schedule) rw.

Definition CachedHandler (timeout ttl : duration) (ctx : CallCtx) (c0 : Checker) (now0 now1 later : time)
  (w : W) (latencies : list duration) (elapsed : duration) (schedule : list nat) (c : Checker) (rw : RW)
  : RW * Checker :=
  let '(r, c) := CachedCheck ctx timeout ttl c0 now0 now1 later w latencies elapsed schedule c in
  (write_report r rw, c).

Definition ReadyzHandler := CachedHandler DefaultTimeout DefaultCacheTTL.

(** Checks for dependencies; a missing dependency is [None]. *)
Definition PingCheck (p : option CheckFunc) : CheckFunc := λ ctx w,
  match p with None => Some (ErrNew "" "dependency_not_configured") | Some ping => ping ctx w end.

Definition PostgresCheck (p : option CheckFunc) : CheckFunc := λ ctx w,
  match p with None => Some (ErrNew "" "postgres_not_configured") | Some ping => ping ctx w end.

(** [get] builds and sends the request, and gives the status or an error. *)
Definition HTTPCheck (get : string → CallCtx → W → result error Z) (url : string) : CheckFunc := λ ctx w,
  if decide (url = "") then Some (ErrNew "" "http_url_required")
  else match get url ctx w with
       | Err e => Some e
       | Ok st =>
           if (st <? 200) || (300 <=? st)
           then Some (ErrFmt ("unexpected_status: " +:+ FormatInt st)) else None
       end.

(** [dial] opens a connection and [close] closes it. *)
Definition TCPCheck {conn : Type} (dial : string → CallCtx → W → result error conn)
  (close : conn → option error) (addr : string) : CheckFunc := λ ctx w,
  match dial addr ctx w with Err e => Some e | Ok cn => close cn end.

(** src/health/natscheck: [status] reads the status of a connection and its name. *)
Definition NatsCheck (status : option (W → bool * string)) : CheckFunc := λ _ w,
  match status with
  | None => Some (ErrNew "" "nats_not_configured")
  | Some st => let '(connected, text) := st w in
               if connected then None else Some (ErrFmt ("nats_not_ready: " +:+ text))
  end.

(** src/health/redischeck. *)
Definition RedisCheck (ping : option CheckFunc) : CheckFunc := λ ctx w,
  match ping with None => Some (ErrNew "" "redis_not_configured") | Some p => p ctx w end.

(** ** Lemmas *)

Lemma store_results_partial statuses schedule i :
  (i < length statuses)%nat → Forall (λ j, j < length statuses)%nat schedule →
  store_results statuses schedule !! i =
  if decide (i ∈ schedule) then statuses !! i else Some zero_status.
Proof.
  intros Hi. unfold store_results.
  assert (∀ rs : list Status, length rs = length statuses →
    Forall (λ j, j < length statuses)%nat schedule →
    foldl (λ rs j, match statuses !! j with Some s => <[j := s]> rs | None => rs end) rs schedule !! i =
    if decide (i ∈ schedule) then statuses !! i else rs !! i) as Hgen.
  { induction schedule as [|j schedule IH]; intros rs Hlen Hf.
    - rewrite decide_False by (apply not_elem_of_nil). done.
    - apply Forall_cons in Hf as [Hj Hf]. cbn. destruct (lookup_lt_is_Some_2 statuses j Hj) as [s Hs].
      rewrite Hs, IH; [|by rewrite length_insert|done]. destruct (decide (i = j)) as [->|Hne].
      + rewrite list_lookup_insert_eq by lia.
        rewrite Hs. rewrite (decide_True (P := j ∈ j :: schedule)) by (by left). by case_decide.
      + rewrite list_lookup_insert_ne by done. repeat case_decide; try done; set_solver. }
  intros Hf. rewrite Hgen; [|by rewrite length_replicate|done].
  case_decide; [done|]. by apply lookup_replicate_2.
Qed.

Lemma store_results_length statuses schedule : length (store_results statuses schedule) = length statuses.
Proof.
  unfold store_results. rewrite <- (length_replicate (length statuses) zero_status) at 2.
  generalize (replicate (length statuses) zero_status).
  induction schedule as [|j schedule IH]; intros rs; [done|]. cbn. rewrite IH.
  destruct (statuses !! j); [apply length_insert|done].
Qed.

(** The order of completion does not matter. *)
Lemma store_results_all statuses schedule :
  schedule ≡ₚ seq 0 (length statuses) → store_results statuses schedule = statuses.
Proof.
  intros Hp. apply list_eq_same_length with (length statuses); [done|apply store_results_length|].
  intros i x y Hi Hx Hy.
  rewrite store_results_partial in Hx; [|done|].
  - rewrite decide_True in Hx by (rewrite Hp; apply elem_of_seq; lia). congruence.
  - rewrite Hp. apply Forall_forall. intros j Hj%elem_of_seq. lia.
Qed.

(** What the statuses of a list of checks say. *)
Section Statuses.
Context (ctx : CallCtx) (w : W).

Lemma statuses_names latencies snapshot :
  length latencies = length snapshot →
  Name <$> zip_with (λ d chk, status_of ctx w d chk) latencies snapshot = nc_name <$> snapshot.
Proof.
  revert latencies. induction snapshot as [|chk l IH]; intros [|d ds] Hl; try done.
  cbn. f_equal. apply IH. by injection Hl.
Qed.

Lemma statuses_errors latencies snapshot :
  length latencies = length snapshot →
  ErrorText <$> zip_with (λ d chk, status_of ctx w d chk) latencies snapshot =
  (λ chk, from_option Error_ "" (nc_fn chk ctx w)) <$> snapshot.
Proof.
  revert latencies. induction snapshot as [|chk l IH]; intros [|d ds] Hl; try done.
  cbn. f_equal. apply IH. by injection Hl.
Qed.

Lemma statuses_healthy latencies snapshot :
  length latencies = length snapshot →
  forallb StHealthy (zip_with (λ d chk, status_of ctx w d chk) latencies snapshot) = true ↔
  Forall (λ chk, nc_fn chk ctx w = None) snapshot.
Proof.
  revert latencies. induction snapshot as [|chk l IH]; intros [|d ds] Hl; try done; cbn.
  injection Hl as Hl. rewrite andb_true_iff, IH, Forall_cons by done. destruct (nc_fn chk ctx w); naive_solver.
Qed.
End Statuses.

Lemma Check_statuses c ctx timeout w latencies elapsed schedule :
  length latencies = length (checks c) → schedule ≡ₚ seq 0 (length (checks c)) →
  let r := Check c ctx timeout w latencies elapsed schedule in
  Checks r = zip_with (λ d chk, status_of (WithTimeout ctx timeout) w d chk) latencies (checks c) ∧
  RepHealthy r = forallb StHealthy (Checks r).
Proof.
  intros Hlen Hp. cbn zeta. unfold Check, run_checks. case_decide as H0.
  - apply nil_length_inv in H0. by rewrite H0, zip_with_nil_r.
  - cbn. rewrite store_results_all; [done|].
    by rewrite length_zip_with, Hlen, Nat.min_id.
Qed.
End Checker.
Arguments CheckFunc : clear implicits.
Arguments namedCheck : clear implicits.
Arguments Checker : clear implicits.

(** ** Properties *)

(** C40: a readiness report says exactly what the checks said.  In whatever order
    the concurrent checks finish, the report lists one status per check in the
    order of registration, with the error's text for a failed one, is healthy
    exactly when every check passed, and the endpoint answers 200 or 503
    accordingly. *)
Theorem readiness_report_is_exact {W} (c : Checker W) ctx timeout w latencies elapsed schedule rw :
  length latencies = length (checks c) →
  schedule ≡ₚ seq 0 (length (checks c)) → fresh rw →
  let r := Check c ctx timeout w latencies elapsed schedule in
  let answer chk := nc_fn chk (WithTimeout ctx timeout) w in
  Name <$> Checks r = nc_name <$> checks c ∧
  ErrorText <$> Checks r = (λ chk, from_option Error_ "" (answer chk)) <$> checks c ∧
  (RepHealthy r = true ↔ Forall (λ chk, answer chk = None) (checks c)) ∧
  responds (Some (if RepHealthy r then 200 else 503)) (Marshal (json_report r) +:+ newline)
    (Handler_ timeout c ctx w latencies elapsed schedule rw).
Proof.
  intros Hlen Hp Hf. cbn zeta.
  destruct (Check_statuses c ctx timeout w latencies elapsed schedule Hlen Hp) as [Hc Hh].
  split_and!.
  - by rewrite Hc, statuses_names.
  - by rewrite Hc, statuses_errors.
  - by rewrite Hh, Hc, statuses_healthy.
  - unfold Handler_, write_report. set (r := Check _ _ _ _ _ _ _).
    apply (responds_header (header_set "Content-Type" "application/json")) in Hf.
    destruct (RepHealthy r); cbn [negb].
    + by apply (responds_write (Marshal (json_report r) +:+ newline)) in Hf.
    + apply (responds_write_header 503) in Hf; [|done].
      by apply (responds_write (Marshal (json_report r) +:+ newline)) in Hf.
Qed.

Definition example_checker : Checker unit :=
  Add "redis" (λ _ _, Some (ErrFmt "refused")) (Add "db" (λ _ _, None) New).

Lemma readiness_report_is_exact_witness :
  let r := Check example_checker Background DefaultTimeout tt [1000000; 7000000] 9000000 [1%nat; 0%nat] in
  Name <$> Checks r = ["db"; "redis"] ∧ RepHealthy r = false.
Proof.
  destruct (readiness_report_is_exact example_checker Background DefaultTimeout tt [1000000; 7000000]
    9000000 [1%nat; 0%nat] example_writer) as (Hn & _ & _); [done|constructor|done|].
  split; [exact Hn|reflexivity].
Defined.

(** A caller that has gone away cannot make the cached report unhealthy: the
    report it stores is the one any other caller would have stored. *)
Lemma cached_report_ignores_caller {W} ctx ctx' timeout ttl (c0 c : Checker W) now0 now1 later w
    latencies elapsed schedule :
  0 < ttl →
  CachedCheck ctx timeout ttl c0 now0 now1 later w latencies elapsed schedule c =
  CachedCheck ctx' timeout ttl c0 now0 now1 later w latencies elapsed schedule c.
Proof. intros Ht. unfold CachedCheck. by rewrite (proj2 (Z.leb_gt _ _)) by lia. Qed.

(** A report computed before a check is registered and stored after it is served
    until it expires: [Add] empties the cache, but a [CachedCheck] that is under
    way fills it again with a report that lacks the new check. *)
Lemma late_report_hides_new_check {W} name fn (c : Checker W) ctx timeout w latencies elapsed schedule
    ttl later now :
  later ≠ 0 → 0 < ttl → 0 ≤ later → later ≤ now ≤ later + ttl →
  let r := Check c ctx timeout w latencies elapsed schedule in
  cached now (store_report later ttl r (Add name fn c)) = Some r.
Proof.
  intros Hl Ht H0 Hn. cbn zeta. unfold cached, store_report, time_add, is_zero_time, time_after. cbn.
  rewrite (proj2 (Z.eqb_neq _ _)), (proj2 (Z.ltb_ge _ _)) by lia. done.
Qed.
