(* ===== verification/Startup.v ===== *)
(** * Startup (src/startup/retry.go, src/startup/lifecycle.go)

    Retrying an operation at startup with a fixed delay, and the shutdown hooks
    of what was started.  Waiting for a timer or the context is the operation
    [wait] of the world, as in Retry.v. *)

From S2P Require Import Prelude GoStrings GoErrors Retry.
#[local] Open Scope Z_scope.

Definition DefaultMaxAttempts : Z := 30.
Definition DefaultDelay : duration := 2 * Second.

Record Config := { MaxAttempts : Z; Delay : duration }.

Definition withDefaults (c : Config) : Config :=
  {| MaxAttempts := if MaxAttempts c <? 1 then DefaultMaxAttempts else MaxAttempts c;
     Delay := if Delay c <? 0 then 0 else Delay c |}.

Definition failed_after (n : Z) (e : error) : error :=
  ErrWrap ("startup failed after " +:+ FormatInt n +:+ " attempts: ") e "".

Section Do.
Context {W : Type} `{!RetryWorld W}.

(** The loop, with [n] iterations left; [attempt] counts from 1. *)
Fixpoint do_loop (c : Config) (op : W → option error * W) (n : nat) (attempt : Z)
  (lastErr : option error) (w : W) : option error * W :=
  match n with
  | O => (option_map (failed_after (MaxAttempts c)) lastErr, w)
  | S n' =>
      match op w with
      | (None, w) => (None, w)
      | (Some e, w) =>
          if attempt =? MaxAttempts c then (Some (failed_after (MaxAttempts c) e), w)
          else
            match wait (Delay c) w with
            | (Some ctxErr, w) => (Some (ErrWrap "startup interrupted: " ctxErr ""), w)
            | (None, w) => do_loop c op n' (attempt + 1) (Some e) w
            end
      end
  end.

Definition Do (c : Config) (op : W → option error * W) (w : W) : option error * W :=
  let c := withDefaults c in do_loop c op (Z.to_nat (MaxAttempts c)) 1 None w.

(** [failures c op k w w']: the first [k] attempts from [w] failed and each wait
    after them ran to its end, leaving [w']. *)
Inductive failures (c : Config) (op : W → option error * W) : Z → W → W → Prop :=
| failures_none w : failures c op 0 w w
| failures_more k w e w1 w2 w' :
    op w = (Some e, w1) → wait (Delay c) w1 = (None, w2) → failures c op k w2 w' →
    failures c op (k + 1) w w'.

Lemma failures_nonneg c op k w w' : failures c op k w w' → 0 ≤ k.
Proof. induction 1; lia. Qed.

Lemma do_loop_skips c op k w w' n attempt lastErr :
  failures c op k w w' → attempt + k ≤ MaxAttempts c → Z.of_nat n = MaxAttempts c - attempt + 1 →
  ∃ lastErr', do_loop c op n attempt lastErr w =
              do_loop c op (n - Z.to_nat k) (attempt + k) lastErr' w'.
Proof.
  intros Hf. revert n attempt lastErr. induction Hf as [w|k w e w1 w2 w' Ho Hw Hf IH];
    intros n attempt lastErr Hb Hn.
  - exists lastErr. by rewrite Nat.sub_0_r, Z.add_0_r.
  - pose proof (failures_nonneg _ _ _ _ _ Hf). destruct n as [|n]; [lia|]. cbn.
    rewrite Ho, (proj2 (Z.eqb_neq _ _)), Hw by lia.
    destruct (IH n (attempt + 1) (Some e)) as [l' ->]; [lia..|]. exists l'. f_equal; lia.
Qed.

(** What holds before the attempts, and is kept by waits and failed attempts, holds
    at the end of a failed run and before the attempt that ended a successful one. *)
Lemma do_loop_outcome (P : W → Prop) c op n attempt lastErr w :
  (∀ d w, P w → P (wait d w).2) → (∀ w e w', P w → op w = (Some e, w') → P w') →
  (n = O → lastErr ≠ None) → P w →
  match do_loop c op n attempt lastErr w with
  | (None, w') => ∃ w1, P w1 ∧ op w1 = (None, w')
  | (Some _, w') => P w'
  end.
Proof.
  intros Hwait Hop. revert attempt lastErr w. induction n as [|n IH]; intros attempt lastErr w Hn Hw; cbn [do_loop].
  - destruct lastErr; [done|by destruct (Hn eq_refl)].
  - destruct (op w) as [[e|] w1] eqn:Ho; [|eauto]. apply Hop in Ho; [|done].
    destruct (attempt =? MaxAttempts c); [done|]. specialize (Hwait (Delay c) w1 Ho).
    destruct (wait (Delay c) w1) as [[ce|] w2]; [done|]. by apply IH.
Qed.

Lemma Do_outcome (P : W → Prop) c op w :
  (∀ d w, P w → P (wait d w).2) → (∀ w e w', P w → op w = (Some e, w') → P w') → P w →
  match Do c op w with
  | (None, w') => ∃ w1, P w1 ∧ op w1 = (None, w')
  | (Some _, w') => P w'
  end.
Proof.
  intros Hwait Hop Hw. unfold Do. apply do_loop_outcome; [done..| |done].
  unfold withDefaults, DefaultMaxAttempts. cbn. destruct (Z.ltb_spec (MaxAttempts c) 1); lia.
Qed.
End Do.

(** [Value]: the closure assigns the captured variable. *)
Definition Value {W T} `{!RetryWorld W} (zero : T) (c : Config) (op : W → result error T * W) (w : W)
  : result error T * W :=
  let closure '(w, v) :=
    match op w with
    | (Ok x, w') => (None, (w', x))
    | (Err e, w') => (Some e, (w', v))
    end in
  let '(err, (w1, v)) := Do c closure (w, zero) in
  match err with
  | Some e => (Err e, w1)
  | None => (Ok v, w1)
  end.

(** A value was produced by an attempt. *)
Lemma Value_outcome {W T} `{!RetryWorld W} (P : W → Prop) (zero : T) c op w :
  (∀ d w, P w → P (wait d w).2) → (∀ w e w', P w → op w = (Err e, w') → P w') → P w →
  match Value zero c op w with
  | (Ok x, w') => ∃ w1, P w1 ∧ op w1 = (Ok x, w')
  | (Err _, w') => P w'
  end.
Proof.
  intros Hwait Hop Hw. unfold Value. set (closure := λ '(w, v), _ : option error * (W * T)).
  assert (match Do c closure (w, zero) with
          | (None, w') => ∃ w1, P w1.1 ∧ closure w1 = (None, w')
          | (Some _, w') => P w'.1
          end) as Hd.
  { apply (Do_outcome (λ wv, P wv.1)); [| |done].
    - intros d [w2 v2] H2. cbn. specialize (Hwait d w2 H2). by destruct (wait d w2).
    - intros [w2 v2] e2 [w3 v3] H2 Hc. cbn in Hc. destruct (op w2) as [[x|e3] w4] eqn:Ho; simplify_eq. by eapply Hop. }
  destruct (Do c closure (w, zero)) as [[e|] [w1 v]]; [done|].
  destruct Hd as ([w2 v2] & H2 & Hc). exists w2. split; [done|]. cbn in Hc.
  destruct (op w2) as [[x|e3] w4] eqn:Ho; by simplify_eq.
Qed.

(** ** Lifecycle *)

Section Lifecycle.
Context {W : Type}.

Record shutdownHook := { hook_name : string; hook_fn : W → option error * W }.
Record Lifecycle := { hooks : list shutdownHook }.

Definition NewLifecycle : Lifecycle := {| hooks := [] |}.

Definition OnShutdown (name : string) (fn : option (W → option error * W)) (l : Lifecycle) : Lifecycle :=
  match fn with
  | None => l
  | Some f =>
      let name := TrimSpace name in
      let name := if decide (name = "") then "shutdown hook" else name in
      {| hooks := hooks l ++ [{| hook_name := name; hook_fn := f |}] |}
  end.

(** The loop over the hooks, from the last to the first. *)
Fixpoint run_hooks (hs : list shutdownHook) (w : W) : list error * W :=
  match hs with
  | [] => ([], w)
  | h :: hs' =>
      let '(r, w) := hook_fn h w in
      let '(errs, w) := run_hooks hs' w in
      (match r with Some e => ErrWrap (hook_name h +:+ ": ") e "" :: errs | None => errs end, w)
  end.

Definition Shutdown (l : Lifecycle) (w : W) : option error * Lifecycle * W :=
  let '(errs, w) := run_hooks (rev (hooks l)) w in
  (match errs with [] => None | _ => Some (ErrJoin errs) end, {| hooks := [] |}, w).
End Lifecycle.
Arguments Lifecycle : clear implicits.
Arguments shutdownHook : clear implicits.

(** ** Properties *)

(** Startup retries until the first success.  After [k] failed attempts
    below the limit, an attempt that succeeds ends the loop with success, and
    one that fails as the last of the allowed attempts ends it with that error;
    nothing runs after either.  A limit below 1 stands for 30. *)
Theorem startup_stops_at_first_success {W} `{!RetryWorld W} c (op : W → option error * W) k w w1 r w2 :
  failures (withDefaults c) op k w w1 → k < MaxAttempts (withDefaults c) → op w1 = (r, w2) →
  (r = None → Do c op w = (None, w2)) ∧
  (∀ e, r = Some e → k = MaxAttempts (withDefaults c) - 1 →
    Do c op w = (Some (failed_after (MaxAttempts (withDefaults c)) e), w2)).
Proof.
  intros Hf Hk Ho. pose proof (failures_nonneg _ _ _ _ _ Hf) as Hk0. unfold Do.
  destruct (do_loop_skips (withDefaults c) op k w w1
    (Z.to_nat (MaxAttempts (withDefaults c))) 1 None Hf) as [l' ->]; [lia..|].
  destruct (Z.to_nat (MaxAttempts (withDefaults c)) - Z.to_nat k)%nat as [|n] eqn:En; [lia|].
  cbn [do_loop]. rewrite Ho. split; [by intros ->|]. intros e -> ->.
  by rewrite (proj2 (Z.eqb_eq _ _)) by lia.
Qed.

(** The world counts attempts; the third one succeeds. *)
#[local] Instance counting_world : RetryWorld Z := {
  wait _ w := (None, w);
  rand_int64n _ w := (0, w);
}.

Definition third_time (w : Z) : option error * Z :=
  (if w =? 2 then None else Some (ErrFmt "not yet"), w + 1).

Lemma startup_stops_at_first_success_witness :
  Do {| MaxAttempts := 5; Delay := 0 |} third_time 0 = (None, 3).
Proof.
  apply (startup_stops_at_first_success {| MaxAttempts := 5; Delay := 0 |} third_time 2 0 2 None 3);
    [|done|reflexivity|reflexivity].
  apply (failures_more _ _ 1 0 (ErrFmt "not yet") 1 1 2); [reflexivity..|].
  apply (failures_more _ _ 0 1 (ErrFmt "not yet") 2 2 2); [reflexivity..|]. constructor.
Defined.

Definition registered {W} (regs : list (string * (W → option error * W))) : Lifecycle W :=
  foldl (λ l r, OnShutdown r.1 (Some r.2) l) NewLifecycle regs.

Lemma registered_hooks {W} (regs : list (string * (W → option error * W))) :
  hook_fn <$> hooks (registered regs) = regs.*2.
Proof.
  unfold registered. cut (∀ l, hook_fn <$> hooks (foldl (λ l r, OnShutdown r.1 (Some r.2) l) l regs)
    = (hook_fn <$> hooks l) ++ regs.*2); [intros H; by rewrite H|].
  induction regs as [|[n f] regs IH]; intros l; cbn; [by rewrite app_nil_r|].
  rewrite IH. cbn. by rewrite fmap_app, <- app_assoc.
Qed.

(** Run functions one after another, keeping their errors. *)
Fixpoint run_all {W} (fs : list (W → option error * W)) (w : W) : list error * W :=
  match fs with
  | [] => ([], w)
  | f :: fs' =>
      let '(r, w) := f w in
      let '(errs, w) := run_all fs' w in
      (match r with Some e => e :: errs | None => errs end, w)
  end.

(** The error inside a hook's wrapping. *)
Definition inner_error (e : error) : error := match e with ErrWrap _ i _ => i | _ => e end.

Lemma run_hooks_all {W} (hs : list (shutdownHook W)) w :
  (run_hooks hs w).2 = (run_all (hook_fn <$> hs) w).2 ∧
  inner_error <$> (run_hooks hs w).1 = (run_all (hook_fn <$> hs) w).1.
Proof.
  revert w. induction hs as [|h hs IH]; intros w; [done|]. cbn.
  destruct (hook_fn h w) as [r w1]. specialize (IH w1).
  destruct (run_hooks hs w1) as [errs w2], (run_all (hook_fn <$> hs) w1) as [errs' w2'].
  cbn in *. destruct IH as [-> IH]. split; [done|]. destruct r; cbn; by rewrite IH.
Qed.

(** Shutdown is complete and runs once.  Shutting down runs every registered
    function exactly once, in the reverse order of registration, also after one
    of them fails; the returned error joins exactly their errors in that order,
    and is nil when none failed; a second shutdown runs nothing. *)
Theorem shutdown_runs_all_in_reverse {W} (regs : list (string * (W → option error * W))) w :
  let '(err, l', w') := Shutdown (registered regs) w in
  let '(errs, we) := run_all (rev regs.*2) w in
  w' = we ∧
  match err with
  | None => errs = []
  | Some e => errs ≠ [] ∧ ∃ es, e = ErrJoin es ∧ inner_error <$> es = errs
  end ∧
  Shutdown l' w' = (None, l', w').
Proof.
  unfold Shutdown at 1. destruct (run_hooks_all (rev (hooks (registered regs))) w) as [Hw He].
  assert (hook_fn <$> rev (hooks (registered regs)) = rev regs.*2) as Hr
    by (rewrite <- registered_hooks; apply map_rev).
  rewrite Hr in Hw, He.
  destruct (run_hooks (rev (hooks (registered regs))) w) as [es w1].
  destruct (run_all (rev regs.*2) w) as [errs we]. cbn in Hw, He. subst w1.
  split; [done|]. split; [|done].
  destruct es as [|e es]; [by rewrite <- He|]. rewrite <- He. split; [done|]. eauto.
Qed.
