(* ===== verification/Async.v ===== *)
(** * Bounded background work (src/async/async.go)

    A [Runner] launches goroutines and bounds them with a buffered channel used
    as a semaphore.  The runner, its goroutines and the log form a transition
    system: callers call [TryGo] at any time, and each goroutine runs its task to
    some end (success, an error, a panic) and then gives its token back. *)

From S2P Require Import Prelude GoStrings GoErrors.
#[local] Open Scope Z_scope.

(** The buffered channel: its capacity and how many values it holds. *)
Record Runner := { sem_cap : Z; sem_len : Z }.

Inductive log_entry :=
| Rejected (op : string)
| TaskFailed (op : string) (e : error)
| TaskPanicked (op value : string).

Definition NewRunner (maxInFlight : Z) : Runner :=
  {| sem_cap := if maxInFlight <=? 0 then 1 else maxInFlight; sem_len := 0 |}.

Section Async.
(** A task, as the code that runs in the goroutine. *)
Context {Task : Type}.

(** A goroutine: its operation's name, its task, the context it was given, and
    whether the task has ended. *)
Record goroutine := { g_op : string; g_task : Task; g_ctx : CallCtx; g_ended : bool }.

(** [TryGo]: the answer, the runner, what is logged, and the goroutine launched.
    A nil runner or task is [None]. *)
Definition TryGo (r : option Runner) (ctx : CallCtx) (op : string) (task : option Task)
  : bool * option Runner * list log_entry * option goroutine :=
  match r, task with
  | Some r, Some task =>
      if sem_len r <? sem_cap r
      then
        let r := {| sem_cap := sem_cap r; sem_len := sem_len r + 1 |} in
        let bgCtx := WithoutCancel ctx in
        (true, Some r, [], Some {| g_op := op; g_task := task; g_ctx := bgCtx; g_ended := false |})
      else (false, Some r, [Rejected op], None)
  | _, _ => (false, r, [], None)
  end.

(** How a task can end. *)
Inductive outcome := Returned (err : option error) | Panicked (value : string).

(** What is logged when the task ends: by the goroutine's body for an error, by
    its deferred function for a panic. *)
Definition log_outcome (op : string) (o : outcome) : list log_entry :=
  match o with
  | Returned None => []
  | Returned (Some e) => [TaskFailed op e]
  | Panicked v => [TaskPanicked op v]
  end.

(** [<-r.sem] at the end of the deferred function; on an empty channel it would
    block. *)
Definition release (r : Runner) : option Runner :=
  if 0 <? sem_len r then Some {| sem_cap := sem_cap r; sem_len := sem_len r - 1 |} else None.

(** [FireAndForget] launches without a bound. *)
Definition FireAndForget (ctx : CallCtx) (op : string) (task : Task) : goroutine :=
  {| g_op := op; g_task := task; g_ctx := WithoutCancel ctx; g_ended := false |}.

(** ** The system *)

Record system := { runner : Runner; goroutines : list goroutine; log : list log_entry }.

Definition end_task (g : goroutine) : goroutine :=
  {| g_op := g_op g; g_task := g_task g; g_ctx := g_ctx g; g_ended := true |}.

Inductive step : system → system → Prop :=
| step_try_go s ctx op task ok r entries launched :
    TryGo (Some (runner s)) ctx op task = (ok, Some r, entries, launched) →
    step s {| runner := r; goroutines := goroutines s ++ option_list launched;
              log := log s ++ entries |}
| step_task_ends s l1 g l2 o :
    goroutines s = l1 ++ g :: l2 → g_ended g = false →
    step s {| runner := runner s; goroutines := l1 ++ end_task g :: l2;
              log := log s ++ log_outcome (g_op g) o |}
| step_release s l1 g l2 r :
    goroutines s = l1 ++ g :: l2 → g_ended g = true → release (runner s) = Some r →
    step s {| runner := r; goroutines := l1 ++ l2; log := log s |}.

Definition initial (maxInFlight : Z) : system :=
  {| runner := NewRunner maxInFlight; goroutines := []; log := [] |}.

Definition in_flight (s : system) : Z := Z.of_nat (length (goroutines s)).

(** One token per goroutine that has not given it back. *)
Definition runner_inv (n : Z) (s : system) : Prop :=
  sem_cap (runner s) = Z.max 1 n ∧ sem_len (runner s) = in_flight s ∧
  in_flight s ≤ sem_cap (runner s) ∧
  Forall (λ g, g_ctx g = Background) (goroutines s).

Lemma runner_inv_initial n : runner_inv n (initial n).
Proof.
  unfold runner_inv, initial, NewRunner, in_flight. cbn. split_and!; [|done| |constructor];
    destruct (Z.leb_spec n 0); lia.
Qed.

Lemma TryGo_inv n s ctx op task ok r entries launched :
  TryGo (Some (runner s)) ctx op task = (ok, Some r, entries, launched) → runner_inv n s →
  runner_inv n {| runner := r; goroutines := goroutines s ++ option_list launched;
                  log := log s ++ entries |}.
Proof.
  intros HT (Hc & Hl & Hb & Hf). unfold TryGo in HT. unfold runner_inv, in_flight in *. cbn.
  rewrite length_app. destruct task as [task|]; [destruct (Z.ltb_spec (sem_len (runner s)) (sem_cap (runner s)))|];
    simplify_eq; cbn; rewrite ?app_nil_r; split_and!; try done; try lia.
  apply Forall_app. split; [done|]. by repeat constructor.
Qed.

Lemma runner_inv_step n s s' : step s s' → runner_inv n s → runner_inv n s'.
Proof.
  destruct 1 as [s ctx op task ok r entries launched HT|s l1 g l2 o Hg He|s l1 g l2 r Hg He Hr].
  - by apply (TryGo_inv n s ctx op task ok).
  - intros (Hc & Hl & Hb & Hf). unfold runner_inv, in_flight in *. cbn. rewrite Hg in *.
    rewrite length_app in *. cbn in *. split_and!; [done..|].
    rewrite Forall_app, Forall_cons in *. by destruct Hf as (? & ? & ?).
  - intros (Hc & Hl & Hb & Hf). unfold runner_inv, in_flight, release in *. cbn. rewrite Hg in *.
    rewrite length_app in *. cbn in *. destruct (Z.ltb_spec 0 (sem_len (runner s))); simplify_eq; cbn.
    split_and!; [done|lia..|]. apply Forall_app in Hf as [? [_ ?]%Forall_cons]. by apply Forall_app.
Qed.

Lemma runner_inv_reachable n s : rtc step (initial n) s → runner_inv n s.
Proof.
  intros H. pose proof (runner_inv_initial n) as Hi.
  induction H as [s|s1 s2 s3 Hs _ IH]; eauto using runner_inv_step.
Qed.

(** A goroutine at the head of the list ends and gives its token back, whatever
    its outcome. *)
Lemma finish_first n s g l (o : outcome) :
  runner_inv n s → goroutines s = g :: l →
  ∃ s', rtc step s s' ∧ goroutines s' = l.
Proof.
  intros (Hc & Hl & Hb & Hf) Hg.
  assert (∃ r, release (runner s) = Some r) as [r Hr].
  { unfold release, in_flight in *. rewrite Hg in Hl. cbn in Hl.
    rewrite (proj2 (Z.ltb_lt _ _)) by lia. eauto. }
  destruct (g_ended g) eqn:He.
  - exists {| runner := r; goroutines := l; log := log s |}. split; [|done].
    apply rtc_once. by apply (step_release s [] g l r).
  - exists {| runner := r; goroutines := l; log := log s ++ log_outcome (g_op g) o |}. split; [|done].
    eapply rtc_l; [by apply (step_task_ends s [] g l o)|].
    apply rtc_once. by apply (step_release {| runner := runner s; goroutines := end_task g :: l;
      log := log s ++ log_outcome (g_op g) o |} [] (end_task g) l r).
Qed.

(** Whatever the tasks' outcomes, the system can run empty. *)
Lemma runner_drains n s : runner_inv n s → ∃ s', rtc step s s' ∧ goroutines s' = [].
Proof.
  remember (goroutines s) as l eqn:El. revert s El. induction l as [|g l IH]; intros s El Hi.
  - exists s. split; [constructor|done].
  - destruct (finish_first n s g l (Panicked "") Hi (eq_sym El)) as (s1 & H1 & Hg1).
    destruct (IH s1 (eq_sym Hg1)) as (s2 & H2 & Hg2).
    { clear -Hi H1. induction H1; eauto using runner_inv_step. }
    exists s2. split; [by etrans|done].
Qed.
End Async.
Arguments goroutine : clear implicits.
Arguments system : clear implicits.

(** [CloneProto]; [clone] is proto.Clone followed by the type assertion. *)
Definition CloneProto {T} (clone : T → option T) (zero : T) (msg : T) : T :=
  from_option id zero (clone msg).

(** ** Properties *)

(** C39: background work is bounded.  However the calls and the goroutines
    interleave, at most [maxInFlight] tasks (at least one) are in flight;
    [TryGo] launches exactly when fewer are, with a context detached from the
    caller's; and the token of a task always comes back, also when the task
    fails or panics, so the runner can always run empty again. *)
Theorem runner_bounds_in_flight {Task} maxInFlight (s : system Task) :
  rtc step (initial maxInFlight) s →
  in_flight s ≤ Z.max 1 maxInFlight ∧
  (∀ ctx op (task : Task),
    let '(ok, _, entries, launched) := TryGo (Some (runner s)) ctx op (Some task) in
    (ok = true ↔ in_flight s < Z.max 1 maxInFlight) ∧
    (ok = true → entries = [] ∧
      ∃ g, launched = Some g ∧ g_task g = task ∧ Cancelled (g_ctx g) = false) ∧
    (ok = false → entries = [Rejected op] ∧ launched = None)) ∧
  Forall (λ g, Cancelled (g_ctx g) = false) (goroutines s) ∧
  ∃ s', rtc step s s' ∧ in_flight s' = 0.
Proof.
  intros Hr. apply runner_inv_reachable in Hr as Hi. pose proof Hi as (Hc & Hl & Hb & Hf).
  split_and!; [lia| | |].
  - intros ctx op task. unfold TryGo. rewrite Hl, Hc in *.
    destruct (Z.ltb_spec (in_flight s) (Z.max 1 maxInFlight)); naive_solver lia.
  - eapply Forall_impl; [exact Hf|]. by intros g ->.
  - destruct (runner_drains maxInFlight s Hi) as (s' & Hs & Hg). exists s'. split; [done|].
    unfold in_flight. by rewrite Hg.
Qed.

(** A runner of capacity 2 with two tasks refuses a third. *)
Definition busy_system : system nat :=
  {| runner := {| sem_cap := 2; sem_len := 2 |};
     goroutines := [FireAndForget Background "a" 1%nat; FireAndForget Background "b" 2%nat];
     log := [] |}.

Lemma runner_bounds_in_flight_witness :
  (TryGo (Some (runner busy_system)) Background "c" (Some 3%nat)).1.1.1 = false ∧
  in_flight busy_system ≤ 2.
Proof.
  split; [reflexivity|]. apply (runner_bounds_in_flight 2 busy_system).
  eapply rtc_l; [eapply (step_try_go (initial 2) Background "a" (Some 1%nat)); reflexivity|].
  eapply rtc_l; [eapply (step_try_go _ Background "b" (Some 2%nat)); reflexivity|]. constructor.
Defined.
