(* ===== verification/ChangeJournal.v ===== *)
(** * The change journal (src/changejournal/changejournal.go)

    A mutation is written as two SQL statements, an audit entry and a journal
    record, and a record converts to and from the shared events message.

    The database, protojson, structpb and encoding/json are parameters: the class
    [DBTX] is the interface of the same name, [Codec] what is used of the
    encoders. *)

From S2P Require Import Prelude GoStrings GoTime GoErrors.
From Stdlib Require Import Ascii.
#[local] Open Scope Z_scope.

Inductive PlaceholderStyle := PlaceholderUnset | PlaceholderDollar | PlaceholderQuestion.

#[export] Instance PlaceholderStyle_eq_dec : EqDecision PlaceholderStyle.
Proof. solve_decision. Defined.

Record Actor := { ActorKind : string; ActorIdent : string; ActorOrg : string }.

(** A raw JSON message: [None] is the nil slice. *)
Definition RawMessage := option string.

Record Change := {
  Sequence : Z;
  OrganizationID : string;
  AggregateType : string;
  AggregateID : string;
  Operation : string;
  ActorType : string;
  ActorID : string;
  AggregateVersion : Z;
  RecordedAt : time;
  Payload : RawMessage;
}.

Record AuditEntry := {
  AeID : string;
  AeOrganizationID : string;
  AeActorType : string;
  AeActorID : string;
  AeAction : string;
  AeResourceType : string;
  AeResourceID : string;
  AeMetadata : string;
  AeCreatedAt : time;
}.

Record SQLTemplates := { InsertAuditEntry : string; InsertChangeJournal : string }.

(** An argument of a statement. *)
Inductive sql_arg := SNull | SText (s : string) | SInt (z : Z) | STime (t : time).

(** ** SQL text *)

Definition normalizedPlaceholderStyle (style : PlaceholderStyle) : PlaceholderStyle :=
  if decide (style = PlaceholderQuestion) then PlaceholderQuestion else PlaceholderDollar.

Definition placeholder (style : PlaceholderStyle) (index : nat) : string :=
  match style with
  | PlaceholderQuestion => "?"
  | _ => "$" +:+ FormatInt (Z.of_nat index + 1)
  end.

Definition joinPlaceholders (style : PlaceholderStyle) (count : nat) : string :=
  Join (placeholder style <$> seq 0 count) ", ".

Definition newline_char : ascii := ascii_of_nat 10.
Definition tab_char : ascii := ascii_of_nat 9.
(** A line break followed by [n] tabs. *)
Definition line (n : nat) : string :=
  String newline_char (of_bytes (replicate n tab_char)).

Definition Templates (style : PlaceholderStyle) : SQLTemplates :=
  let style := normalizedPlaceholderStyle style in
  {| InsertAuditEntry :=
       line 2 +:+ "insert into audit_entries (id, organization_id, actor_type, actor_id, action, resource_type, resource_id, metadata, created_at)"
       +:+ line 2 +:+ "values (" +:+ joinPlaceholders style 9 +:+ ")" +:+ line 1;
     InsertChangeJournal :=
       line 2 +:+ "insert into change_journal ("
       +:+ line 3 +:+ "organization_id, aggregate_type, aggregate_id, operation, actor_type, actor_id, aggregate_version, recorded_at, payload"
       +:+ line 2 +:+ ") values (" +:+ joinPlaceholders style 9 +:+ ")"
       +:+ line 2 +:+ "returning seq" +:+ line 1 |}.

Definition nullableString (value : string) : sql_arg :=
  if decide (TrimSpace value = "") then SNull else SText value.

Definition defaultAuditAction (resourceType operation : string) : string :=
  let resourceType := TrimSpace resourceType in
  let operation := TrimSpace operation in
  if decide (resourceType = "") then operation
  else if decide (operation = "") then resourceType
  else resourceType +:+ "." +:+ operation.

(** The arguments of the two statements. *)
Definition audit_args (a : AuditEntry) : list sql_arg :=
  [SText (AeID a); SText (AeOrganizationID a); SText (AeActorType a); nullableString (AeActorID a);
   SText (AeAction a); SText (AeResourceType a); nullableString (AeResourceID a);
   SText (AeMetadata a); STime (AeCreatedAt a)].

Definition change_args (c : Change) : list sql_arg :=
  [SText (OrganizationID c); SText (AggregateType c); nullableString (AggregateID c);
   SText (Operation c); SText (ActorType c); nullableString (ActorID c); SInt (AggregateVersion c);
   STime (RecordedAt c); SText (from_option id "" (Payload c))].

(** ** Writing a mutation *)

(** The database a statement runs in, and the clock and the identifiers of the
    process, in a world [W]. *)
Class DBTX (W : Type) := {
  ExecContext : string → list sql_arg → W → option error * W;
  QueryRowContext : string → list sql_arg → W → result error Z * W;
  time_Now : W → time * W;
  uuid_NewString : W → string * W;
}.

(** The encoders: values encoding/json accepts, protobuf messages, [anypb.Any]
    and [structpb.Struct]. *)
Class Codec (V M A S : Type) := {
  json_Marshal : V → result error string;
  (** [json.Unmarshal] into [any], with the fields when it is an object *)
  json_Unmarshal : string → result error (option V);
  NewStruct : V → result error S;
  protojson_Struct : S → result error string;
  anypb_New : M → result error A;
  protojson_Any : A → result error string;
}.

Section Journal.
Context {W V M A S : Type} `{!DBTX W, !Codec V M A S}.

(** The payload: what it is to the type switch, and its version if it has one. *)
Inductive payload_value := PAny (a : A) | PMessage (m : M) | POther (v : V).
Record payload := { pl_value : payload_value; pl_version : option Z }.

Record WriteOptions := {
  Style : PlaceholderStyle;
  AuditAction : string;
  Now : option (W → time * W);
  NewID : option (W → string * W);
}.

Definition no_options : WriteOptions :=
  {| Style := PlaceholderUnset; AuditAction := ""; Now := None; NewID := None |}.

Definition withDefaults (opts : WriteOptions) (resourceType operation : string) : WriteOptions :=
  {| Style := if decide (Style opts = PlaceholderUnset) then PlaceholderDollar else Style opts;
     AuditAction := if decide (AuditAction opts = "") then defaultAuditAction resourceType operation
                    else AuditAction opts;
     Now := Some (from_option id time_Now (Now opts));
     NewID := Some (from_option id uuid_NewString (NewID opts)) |}.

Definition aggregateVersion (p : payload) : Z := from_option id 1 (pl_version p).

Definition marshalPayload (p : payload) : result error string :=
  match pl_value p with
  | PAny a => protojson_Any a
  | PMessage m =>
      match anypb_New m with
      | Err e => Err e
      | Ok a => protojson_Any a
      end
  | POther v => json_Marshal v
  end.

(** The two records of a mutation. *)
Definition audit_entry (actor : Actor) (resourceType resourceID : string) (opts : WriteOptions)
  (id auditMetadata : string) (now : time) : AuditEntry :=
  {| AeID := id; AeOrganizationID := ActorOrg actor; AeActorType := ActorKind actor;
     AeActorID := ActorIdent actor; AeAction := AuditAction opts; AeResourceType := resourceType;
     AeResourceID := resourceID; AeMetadata := auditMetadata; AeCreatedAt := now |}.

Definition change_record (actor : Actor) (resourceType resourceID operation : string) (p : payload)
  (payloadJSON : string) (now : time) : Change :=
  {| Sequence := 0; OrganizationID := ActorOrg actor; AggregateType := resourceType;
     AggregateID := resourceID; Operation := operation; ActorType := ActorKind actor;
     ActorID := ActorIdent actor; AggregateVersion := aggregateVersion p; RecordedAt := now;
     Payload := Some payloadJSON |}.

Definition WriteMutationWithOptions (actor : Actor) (resourceType resourceID operation : string)
  (p : payload) (metadata : V) (opts : WriteOptions) (w : W) : result error Z * W :=
  let opts := withDefaults opts resourceType operation in
  let '(now, w) := from_option id time_Now (Now opts) w in
  let templates := Templates (Style opts) in
  match json_Marshal metadata with
  | Err e => (Err (ErrWrap "marshal_audit_metadata: " e ""), w)
  | Ok auditMetadata =>
  match marshalPayload p with
  | Err e => (Err (ErrWrap "marshal_change_payload: " e ""), w)
  | Ok payloadJSON =>
      let '(id, w) := from_option Datatypes.id uuid_NewString (NewID opts) w in
      let auditEntry := audit_entry actor resourceType resourceID opts id auditMetadata now in
      match ExecContext (InsertAuditEntry templates) (audit_args auditEntry) w with
      | (Some e, w) => (Err (ErrWrap "insert_audit_entry: " e ""), w)
      | (None, w) =>
          let change := change_record actor resourceType resourceID operation p payloadJSON now in
          match QueryRowContext (InsertChangeJournal templates) (change_args change) w with
          | (Err e, w) => (Err (ErrWrap "insert_change_journal: " e ""), w)
          | (Ok seq, w) => (Ok seq, w)
          end
      end
  end end.

Definition WriteMutation (actor : Actor) (resourceType resourceID operation : string)
  (p : payload) (metadata : V) (w : W) : result error Z * W :=
  WriteMutationWithOptions actor resourceType resourceID operation p metadata no_options w.

(** ** The shared message *)

Record ProtoChange := {
  PSeq : Z;
  POrganizationId : string;
  PAggregateType : string;
  PAggregateId : string;
  POperation : string;
  PActorType : string;
  PActorId : string;
  PAggregateVersion : Z;
  PRecordedAt : option Timestamp;
  PPayload : option S;
}.

Definition changePayloadToStruct (payload : RawMessage) : result error (option S) :=
  let trimmed := TrimSpace (from_option id "" payload) in
  if decide (trimmed = "" ∨ trimmed = "null") then Ok None
  else
    match json_Unmarshal trimmed with
    | Err e => Err (ErrWrap "unmarshal_change_payload: " e "")
    | Ok None => Err (ErrFmt "change_payload_not_object")
    | Ok (Some fields) =>
        match NewStruct fields with
        | Err e => Err (ErrWrap "encode_change_payload: " e "")
        | Ok message => Ok (Some message)
        end
    end.

Definition structToChangePayload (payload : option S) : result error RawMessage :=
  match payload with
  | None => Ok None
  | Some s =>
      match protojson_Struct s with
      | Err e => Err (ErrWrap "marshal_change_payload_struct: " e "")
      | Ok data => Ok (Some data)
      end
  end.

Definition ToProto (change : Change) : result error ProtoChange :=
  match changePayloadToStruct (Payload change) with
  | Err e => Err e
  | Ok payload =>
      Ok {| PSeq := Sequence change; POrganizationId := OrganizationID change;
            PAggregateType := AggregateType change; PAggregateId := AggregateID change;
            POperation := Operation change; PActorType := ActorType change;
            PActorId := ActorID change; PAggregateVersion := AggregateVersion change;
            PRecordedAt := if is_zero_time (RecordedAt change) then None
                           else Some (timestamppb_New (RecordedAt change));
            PPayload := payload |}
  end.

Definition zero_change : Change :=
  {| Sequence := 0; OrganizationID := ""; AggregateType := ""; AggregateID := ""; Operation := "";
     ActorType := ""; ActorID := ""; AggregateVersion := 0; RecordedAt := zero_time; Payload := None |}.

Definition ChangeFromProto (change : option ProtoChange) : result error Change :=
  match change with
  | None => Ok zero_change
  | Some change =>
      match structToChangePayload (PPayload change) with
      | Err e => Err e
      | Ok payload =>
          Ok {| Sequence := PSeq change; OrganizationID := POrganizationId change;
                AggregateType := PAggregateType change; AggregateID := PAggregateId change;
                Operation := POperation change; ActorType := PActorType change;
                ActorID := PActorId change; AggregateVersion := PAggregateVersion change;
                RecordedAt := from_option AsTime zero_time (PRecordedAt change);
                Payload := payload |}
      end
  end.

(** Options that leave the clock and the identifiers to the process. *)
Definition process_clock (opts : WriteOptions) : Prop := Now opts = None ∧ NewID opts = None.

Lemma WriteMutationWithOptions_unfold actor rt rid op p metadata opts w meta body :
  process_clock opts → json_Marshal metadata = Ok meta → marshalPayload p = Ok body →
  let now := (time_Now w).1 in
  let id := (uuid_NewString (time_Now w).2).1 in
  let w1 := (uuid_NewString (time_Now w).2).2 in
  let o := withDefaults opts rt op in
  let audit := audit_args (audit_entry actor rt rid o id meta now) in
  let change := change_args (change_record actor rt rid op p body now) in
  WriteMutationWithOptions actor rt rid op p metadata opts w =
  match ExecContext (InsertAuditEntry (Templates (Style o))) audit w1 with
  | (Some e, w2) => (Err (ErrWrap "insert_audit_entry: " e ""), w2)
  | (None, w2) =>
      match QueryRowContext (InsertChangeJournal (Templates (Style o))) change w2 with
      | (Err e, w3) => (Err (ErrWrap "insert_change_journal: " e ""), w3)
      | (Ok seq, w3) => (Ok seq, w3)
      end
  end.
Proof.
  intros [Hn Hi] Hm Hp. cbn zeta. unfold WriteMutationWithOptions. rewrite Hm, Hp.
  assert (Now (withDefaults opts rt op) = Some time_Now ∧ NewID (withDefaults opts rt op) = Some uuid_NewString) as [-> ->]
    by (unfold withDefaults; rewrite Hn, Hi; done).
  cbn -[Templates withDefaults].
  destruct (time_Now w) as [now w0]. cbn -[Templates withDefaults]. by destruct (uuid_NewString w0) as [id w1].
Qed.
End Journal.
Arguments payload : clear implicits.
Arguments payload_value : clear implicits.
Arguments ProtoChange : clear implicits.

(** The number of placeholders is the number of arguments, in both styles. *)
Lemma statements_have_their_arguments a c :
  length (audit_args a) = 9%nat ∧ length (change_args c) = 9%nat ∧
  joinPlaceholders PlaceholderDollar 9 = "$1, $2, $3, $4, $5, $6, $7, $8, $9" ∧
  joinPlaceholders PlaceholderQuestion 9 = "?, ?, ?, ?, ?, ?, ?, ?, ?".
Proof. done. Qed.

(** ** Databases

    A row is its values by the names of their columns.  [insert_row] reads an insert
    statement: the table, the columns and the values its placeholders stand for. *)
Abbreviation row := (gmap string sql_arg).

(** The text before the next [open] parenthesis, what is inside, and what follows. *)
Definition parens (l : list ascii) : option (string * list string * list ascii) :=
  '(before, l) ← cut_byte "("%char l;
  '(inside, l) ← cut_byte ")"%char l;
  Some (TrimSpace (of_bytes before), TrimSpace <$> SplitByte ","%char (of_bytes inside), l).

Definition bound_arg (args : list sql_arg) (position : nat) (placeholder : string) : option sql_arg :=
  match bytes_of placeholder with
  | ["?"%char] => args !! position
  | "$"%char :: digits => n ← ParseInt (of_bytes digits); if 0 <? n then args !! Z.to_nat (n - 1) else None
  | _ => None
  end.

Definition insert_values (text : string) (args : list sql_arg) : option (string * list (string * sql_arg)) :=
  '(into, columns, l) ← parens (bytes_of text);
  '(kw, placeholders, l) ← parens l;
  table ← strip_prefix (bytes_of "insert into ") (bytes_of into);
  values ← mapM (λ x, bound_arg args x.1 x.2) (imap pair placeholders);
  if bool_decide (kw = "values") && bool_decide (TrimSpace (of_bytes l) ∈ [""; "returning seq"])
     && (length columns =? length values)%nat && bool_decide (NoDup columns)
  then Some (of_bytes table, zip columns values) else None.

Definition insert_row (text : string) (args : list sql_arg) : option (string * row) :=
  '(table, values) ← insert_values text args; Some (table, list_to_map values).

(** The rows of the two statements. *)
Definition audit_row (a : AuditEntry) : row :=
  list_to_map
    [("id", SText (AeID a)); ("organization_id", SText (AeOrganizationID a)); ("actor_type", SText (AeActorType a));
     ("actor_id", nullableString (AeActorID a)); ("action", SText (AeAction a));
     ("resource_type", SText (AeResourceType a)); ("resource_id", nullableString (AeResourceID a));
     ("metadata", SText (AeMetadata a)); ("created_at", STime (AeCreatedAt a))].

Definition journal_row (c : Change) : row :=
  list_to_map
    [("organization_id", SText (OrganizationID c)); ("aggregate_type", SText (AggregateType c));
     ("aggregate_id", nullableString (AggregateID c)); ("operation", SText (Operation c));
     ("actor_type", SText (ActorType c)); ("actor_id", nullableString (ActorID c));
     ("aggregate_version", SInt (AggregateVersion c)); ("recorded_at", STime (RecordedAt c));
     ("payload", SText (from_option id "" (Payload c)))].

(** The statements insert those rows, in both placeholder styles. *)
Lemma insert_row_audit style a :
  insert_row (InsertAuditEntry (Templates style)) (audit_args a) = Some ("audit_entries", audit_row a).
Proof.
  assert (∀ x1 x2 x3 x4 x5 x6 x7 x8 x9,
    insert_values (InsertAuditEntry (Templates style)) [x1; x2; x3; x4; x5; x6; x7; x8; x9]
    = Some ("audit_entries", [("id", x1); ("organization_id", x2); ("actor_type", x3); ("actor_id", x4); ("action", x5);
                              ("resource_type", x6); ("resource_id", x7); ("metadata", x8); ("created_at", x9)])) as Hv
    by (intros; destruct style; vm_compute; reflexivity).
  unfold insert_row, audit_args. by rewrite Hv.
Qed.

Lemma insert_row_change style c :
  insert_row (InsertChangeJournal (Templates style)) (change_args c) = Some ("change_journal", journal_row c).
Proof.
  assert (∀ x1 x2 x3 x4 x5 x6 x7 x8 x9,
    insert_values (InsertChangeJournal (Templates style)) [x1; x2; x3; x4; x5; x6; x7; x8; x9]
    = Some ("change_journal", [("organization_id", x1); ("aggregate_type", x2); ("aggregate_id", x3); ("operation", x4);
                               ("actor_type", x5); ("actor_id", x6); ("aggregate_version", x7); ("recorded_at", x8);
                               ("payload", x9)])) as Hv
    by (intros; destruct style; vm_compute; reflexivity).
  unfold insert_row, change_args. by rewrite Hv.
Qed.

(** What the tables of a database hold, and what an insert does to them: when it
    succeeds it adds its row; when the client sees an error it has added the row or not,
    since the reply can be lost.  Reading the clock or making an identifier changes no
    table. *)
Definition add_row (table : string) (r : row) (tables : string → list row) : string → list row :=
  λ t, if decide (t = table) then tables t ++ [r] else tables t.

Definition inserts (text : string) (args : list sql_arg) (before after : string → list row) (succeeded : bool) : Prop :=
  ∀ table r, insert_row text args = Some (table, r) →
  (∀ t, after t = add_row table r before t) ∨ (succeeded = false ∧ ∀ t, after t = before t).

Class JournalDB (W : Type) `{!DBTX W} := {
  rows_of : W → string → list row;
  clock_tables w t : rows_of (time_Now w).2 t = rows_of w t;
  ident_tables w t : rows_of (uuid_NewString w).2 t = rows_of w t;
  exec_insert text args w :
    let '(r, w') := ExecContext text args w in
    inserts text args (rows_of w) (rows_of w') (match r with None => true | Some _ => false end);
  query_insert text args w :
    let '(r, w') := QueryRowContext text args w in
    inserts text args (rows_of w) (rows_of w') (match r with Ok _ => true | Err _ => false end);
}.

(** An audit row and a journal row tell of the same mutation: organisation, actor,
    resource and time. *)
Definition same_mutation (a c : row) : Prop :=
  a !! "organization_id" = c !! "organization_id" ∧ a !! "actor_type" = c !! "actor_type" ∧
  a !! "actor_id" = c !! "actor_id" ∧ a !! "resource_type" = c !! "aggregate_type" ∧
  a !! "resource_id" = c !! "aggregate_id" ∧ a !! "created_at" = c !! "recorded_at".

(** What the two tables gained, and nothing else. *)
Definition gained {W} `{!DBTX W, !JournalDB W} (w w' : W) (audit journal : list row) : Prop :=
  rows_of w' "audit_entries" = rows_of w "audit_entries" ++ audit ∧
  rows_of w' "change_journal" = rows_of w "change_journal" ++ journal ∧
  ∀ t, t ≠ "audit_entries" → t ≠ "change_journal" → rows_of w' t = rows_of w t.

Section Statements.
Context {W : Type} `{!DBTX W, !JournalDB W}.

Lemma exec_audit style a (w0 w : W) : (∀ t, rows_of w t = rows_of w0 t) →
  match ExecContext (InsertAuditEntry (Templates style)) (audit_args a) w with
  | (None, w') => gained w0 w' [audit_row a] []
  | (Some _, w') => gained w0 w' [] [] ∨ gained w0 w' [audit_row a] []
  end.
Proof.
  intros Hw. pose proof (exec_insert (InsertAuditEntry (Templates style)) (audit_args a) w) as He.
  destruct (ExecContext _ _ w) as [r w']. specialize (He _ _ (insert_row_audit style a)).
  assert ((∀ t, rows_of w' t = add_row "audit_entries" (audit_row a) (rows_of w) t) → gained w0 w' [audit_row a] []) as Hg.
  { intros Ht. unfold gained. rewrite app_nil_r. split_and!; intros; rewrite Ht; unfold add_row; rewrite Hw; by case_decide. }
  destruct He as [He|[Hf He]]; [destruct r; auto|]. destruct r; [|done]. left.
  unfold gained. rewrite !app_nil_r. split_and!; intros; by rewrite He, Hw.
Qed.

Lemma query_journal style c (w0 w : W) x : gained w0 w x [] →
  match QueryRowContext (InsertChangeJournal (Templates style)) (change_args c) w with
  | (Ok _, w') => gained w0 w' x [journal_row c]
  | (Err _, w') => gained w0 w' x [] ∨ gained w0 w' x [journal_row c]
  end.
Proof.
  intros (Ga & Gj & Go). pose proof (query_insert (InsertChangeJournal (Templates style)) (change_args c) w) as He.
  destruct (QueryRowContext _ _ w) as [r w']. specialize (He _ _ (insert_row_change style c)).
  assert ((∀ t, rows_of w' t = add_row "change_journal" (journal_row c) (rows_of w) t) → gained w0 w' x [journal_row c]) as Hg.
  { intros Ht. rewrite app_nil_r in Gj. unfold gained. split_and!; intros; rewrite Ht; unfold add_row; case_decide; try done.
    - by rewrite Gj.
    - by apply Go. }
  destruct He as [He|[Hf He]]; [destruct r; auto|]. destruct r; [done|]. left.
  unfold gained. split_and!; intros; rewrite He; auto.
Qed.
End Statements.

(** ** Properties *)


(** A database in memory, whose journal can be full, and can lose the reply to an
    insert. *)
Record memory_db := {
  mem_tables : gmap string (list row);
  mem_limit : nat;
  mem_lost : bool;
  mem_clock : Z;
}.

Definition mem_rows (w : memory_db) (t : string) : list row := default [] (mem_tables w !! t).
Definition mem_insert (text : string) (args : list sql_arg) (w : memory_db) : memory_db :=
  match insert_row text args with
  | Some (t, r) => {| mem_tables := <[t := mem_rows w t ++ [r]]> (mem_tables w); mem_limit := mem_limit w;
                      mem_lost := mem_lost w; mem_clock := mem_clock w |}
  | None => w
  end.
Definition mem_tick (w : memory_db) : memory_db :=
  {| mem_tables := mem_tables w; mem_limit := mem_limit w; mem_lost := mem_lost w; mem_clock := mem_clock w + 1 |}.

#[export] Instance memory_dbtx : DBTX memory_db := {
  ExecContext text args w := (None, mem_insert text args w);
  QueryRowContext text args w :=
    if (length (mem_rows w "change_journal") <? mem_limit w)%nat
    then (if mem_lost w then Err (ErrForeign 8006 "connection lost") else Ok (Z.of_nat (length (mem_rows w "change_journal")) + 1),
          mem_insert text args w)
    else (Err (ErrForeign 53100 "disk full"), w);
  time_Now w := (mem_clock w, mem_tick w);
  uuid_NewString w := (FormatInt (mem_clock w), mem_tick w);
}.

Lemma mem_insert_rows text args w t r : insert_row text args = Some (t, r) →
  ∀ t', mem_rows (mem_insert text args w) t' = add_row t r (mem_rows w) t'.
Proof.
  intros Hi t'. unfold mem_insert, add_row. rewrite Hi. unfold mem_rows at 1. cbn. case_decide as Ht.
  - subst t'. by rewrite lookup_insert_eq.
  - by rewrite lookup_insert_ne by done.
Qed.

#[export] Instance memory_journal : JournalDB memory_db.
Proof.
  refine {| rows_of := mem_rows |}.
  - done.
  - done.
  - intros text args w t r Hi. left. by apply mem_insert_rows.
  - intros text args w. unfold QueryRowContext, memory_dbtx.
    destruct (length _ <? mem_limit w)%nat; [|by right].
    intros t r Hi. left. by apply mem_insert_rows.
Defined.

(** A codec for tests: a document is the text between its braces. *)
Definition in_braces (s : string) : string := "{" +:+ s +:+ "}".

#[export] Instance braces_codec : Codec string string string string := {
  json_Marshal v := Ok (in_braces v);
  json_Unmarshal s :=
    Ok (l ← strip_suffix ["}"%char] (bytes_of s);
        d ← strip_prefix ["{"%char] l;
        Some (of_bytes d));
  NewStruct v := Ok v;
  protojson_Struct s := Ok (in_braces s);
  anypb_New m := Ok m;
  protojson_Any a := Ok (in_braces a);
}.

Definition example_actor : Actor := {| ActorKind := "user"; ActorIdent := "u1"; ActorOrg := "o1" |}.
Definition example_db (limit : nat) (lost : bool) : memory_db :=
  {| mem_tables := ∅; mem_limit := limit; mem_lost := lost; mem_clock := 5 |}.
Definition example_write (limit : nat) (lost : bool) : result error Z * memory_db :=
  WriteMutation example_actor "prompt" "p1" "create" {| pl_value := POther "x"; pl_version := None |} "m"
    (example_db limit lost).


(** Without a transaction around the two statements, a failed write leaves its
    audit entry behind; when only the reply is lost, both rows. *)
Lemma failed_mutation_leaves_audit_entry :
  is_ok (example_write 0 false).1 = false ∧ length (mem_rows (example_write 0 false).2 "audit_entries") = 1%nat ∧
  mem_rows (example_write 0 false).2 "change_journal" = [] ∧
  is_ok (example_write 10 true).1 = false ∧ length (mem_rows (example_write 10 true).2 "change_journal") = 1%nat.
Proof. split_and!; by vm_compute. Qed.

(** What the encoders promise for structs: the JSON of a struct is an object
    without surrounding space, and reading it gives the struct back. *)
Definition struct_codec {V M A S} `{!Codec V M A S} : Prop :=
  ∀ s : S, ∃ data fields, protojson_Struct s = Ok data ∧ trimmed data ∧ data ≠ "" ∧ data ≠ "null" ∧
    json_Unmarshal data = Ok (Some fields) ∧ NewStruct fields = Ok s.

(** C37: journal records survive the shared message.  Whatever record converts to
    a message, the message converts back to the same record up to the spelling of
    its payload, and that record converts to the same message again: the
    timestamp, absent or to the nanosecond, and every other field are kept. *)
Theorem change_round_trip {V M A S} `{!Codec V M A S} (c : Change) (m : ProtoChange S) :
  struct_codec → ToProto c = Ok m →
  ∃ c', ChangeFromProto (Some m) = Ok c' ∧ ToProto c' = Ok m ∧
    Sequence c' = Sequence c ∧ OrganizationID c' = OrganizationID c ∧
    AggregateType c' = AggregateType c ∧ AggregateID c' = AggregateID c ∧
    Operation c' = Operation c ∧ ActorType c' = ActorType c ∧ ActorID c' = ActorID c ∧
    AggregateVersion c' = AggregateVersion c ∧ RecordedAt c' = RecordedAt c.
Proof.
  intros Hcodec H. unfold ToProto in H.
  destruct (changePayloadToStruct (Payload c)) as [ps|e]; [|done]. injection H as <-.
  assert (∃ raw, structToChangePayload ps = Ok raw ∧ changePayloadToStruct raw = Ok ps) as (raw & Hs & Hc).
  { destruct ps as [s|]; [|by exists None].
    destruct (Hcodec s) as (data & fields & Hp & Ht & H0 & Hn & Hu & Hf).
    exists (Some data). unfold structToChangePayload, changePayloadToStruct. cbn [from_option].
    unfold trimmed, id in *.
    rewrite Hp, Ht, decide_False by naive_solver. by rewrite Hu, Hf. }
  assert (from_option AsTime zero_time (if is_zero_time (RecordedAt c) then None
    else Some (timestamppb_New (RecordedAt c))) = RecordedAt c) as Ht.
  { unfold is_zero_time. destruct (Z.eqb_spec (RecordedAt c) 0) as [->|]; [done|]. apply AsTime_New. }
  unfold ChangeFromProto. cbn. rewrite Hs. eexists. split; [done|].
  split; [|by rewrite Ht]. unfold ToProto. cbn. by rewrite Hc, Ht.
Qed.

Lemma braces_struct_codec : struct_codec (V := string).
Proof.
  intros s. exists (in_braces s), s.
  assert (bytes_of (in_braces s) = "{"%char :: bytes_of s ++ ["}"%char]) as Hb.
  { unfold in_braces. by rewrite !bytes_of_app. }
  split_and!; try done.
  - eapply (TrimSpace_solid _ "{"%char _ "}"%char ("{"%char :: bytes_of s)); [done|by rewrite Hb|done..].
  - cbn. rewrite Hb, (proj2 (strip_suffix_Some _ _ ("{"%char :: bytes_of s))) by done.
    cbn. by rewrite of_bytes_bytes_of.
Qed.

Definition example_change : Change :=
  {| Sequence := 4; OrganizationID := "o1"; AggregateType := "prompt"; AggregateID := "p1";
     Operation := "create"; ActorType := "user"; ActorID := "u1"; AggregateVersion := 2;
     RecordedAt := 63900000000123456789; Payload := Some " {a}" |}.

Lemma change_round_trip_witness :
  ∃ m c', ToProto (V := string) example_change = Ok m ∧ ChangeFromProto (Some m) = Ok c' ∧
    RecordedAt c' = 63900000000123456789.
Proof.
  eexists. destruct (change_round_trip (V := string) example_change _ braces_struct_codec eq_refl)
    as (c' & Hc & _ & _ & _ & _ & _ & _ & _ & _ & _ & Hr).
  exists c'. split; [reflexivity|]. split; [exact Hc|exact Hr].
Defined.
