(* ===== verification/NatsBus.v ===== *)
(** * The event bus: envelopes, wire formats and the publisher
      (src/natsbus/natsbus.go, src/natsbus/propagation.go)

    A domain change becomes an envelope, the envelope a NATS message in one of
    three formats, and a consumer decodes the message without knowing the format.
    The trace context of the publisher travels in the headers and the envelope.

    Protobuf and protojson encoders, NATS and OpenTelemetry are classes: [Codec]
    for the encoders, [Telemetry] for contexts and the configured propagator,
    [Bus] for the connection, the clock and identifiers. *)

From S2P Require Import Prelude GoStrings GoTime GoErrors Json.
From Stdlib Require Import Ascii.
#[local] Open Scope Z_scope.

Definition DefaultMaxAge : duration := 7 * 24 * Hour.

(** ** Data *)

(** [WireFormat] is a string type. *)
Definition WireFormatJSON : string := "json".
Definition WireFormatProto : string := "proto".
Definition WireFormatProtoHeaders : string := "proto-headers".

Definition ErrPublisherNil : error := ErrNew "ErrPublisherNil" "publisher_nil".
Definition errNATSURLRequired : error := ErrNew "errNATSURLRequired" "nats_url_required".
Definition errStreamNameRequired : error := ErrNew "errStreamNameRequired" "stream_name_required".
Definition errSubjectPrefixRequired : error := ErrNew "errSubjectPrefixRequired" "subject_prefix_required".
Definition errPayloadMessageNil : error := ErrNew "errPayloadMessageNil" "payload_message_nil".
Definition errPayloadTargetNil : error := ErrNew "errPayloadTargetNil" "payload_target_nil".
Definition errEnvelopeEmpty : error := ErrNew "errEnvelopeEmpty" "envelope_empty".
Definition errWireFormatInvalid : error := ErrNew "errWireFormatInvalid" "wire_format_invalid".
Definition errMessageNil : error := ErrNew "errMessageNil" "message_nil".

(** Errors of encoding/json and time, by their text. *)
Definition json_error : error := ErrForeign 1 "json: invalid input".
Definition time_error : error := ErrForeign 2 "parsing time: invalid value".

Definition headerSpecVersion := "ce-specversion".
Definition headerID := "ce-id".
Definition headerType := "ce-type".
Definition headerSource := "ce-source".
Definition headerTime := "ce-time".
Definition headerDataContentType := "content-type".
Definition headerTenantID := "ce-tenantid".
Definition headerTraceParent := "traceparent".
Definition headerTraceState := "tracestate".
Definition headerBaggage := "baggage".

(** [nats.Header]; [None] is the nil map.  Keys are case-sensitive. *)
Definition NatsHeader : Type := option (gmap string (list string)).

Definition HeaderGet (key : string) (h : NatsHeader) : string :=
  match h with
  | None => ""
  | Some m => match m !! key with Some (v :: _) => v | _ => "" end
  end.

Definition HeaderSet (key value : string) (m : gmap string (list string)) : gmap string (list string) :=
  <[key := [value]]> m.

Record Msg := { Subject : string; Reply : string; Header : NatsHeader; Data : string }.

Definition NewMsg (subject data : string) : Msg :=
  {| Subject := subject; Reply := ""; Header := None; Data := data |}.

(** [anypb.Any] is [A]. *)
Record Change (A : Type) := {
  Sequence : Z;
  TenantID : string;
  AggregateType : string;
  AggregateID : string;
  Operation : string;
  AggregateVersion : Z;
  RecordedAt : time;
  Payload : option A;
}.
Arguments Sequence {A} _.
Arguments TenantID {A} _.
Arguments AggregateType {A} _.
Arguments AggregateID {A} _.
Arguments Operation {A} _.
Arguments AggregateVersion {A} _.
Arguments RecordedAt {A} _.
Arguments Payload {A} _.

Record Envelope (A : Type) := {
  SpecVersion : string;
  ID : string;
  Type_ : string;
  Source : string;
  Time : time;
  DataContentType : string;
  EnvTenantID : string;
  TraceParent : string;
  TraceState : string;
  Baggage : string;
  EnvPayload : option A;
  WireFormat : string;
}.
Arguments SpecVersion {A} _.
Arguments ID {A} _.
Arguments Type_ {A} _.
Arguments Source {A} _.
Arguments Time {A} _.
Arguments DataContentType {A} _.
Arguments EnvTenantID {A} _.
Arguments TraceParent {A} _.
Arguments TraceState {A} _.
Arguments Baggage {A} _.
Arguments EnvPayload {A} _.
Arguments WireFormat {A} _.

(** The generated message natsbusv1.EventEnvelope. *)
Record EventEnvelope (A : Type) := {
  ee_SpecVersion : string;
  ee_Id : string;
  ee_Type : string;
  ee_Source : string;
  ee_Time : option Timestamp;
  ee_DataContentType : string;
  ee_TenantId : string;
  ee_Data : option A;
  ee_TraceParent : string;
  ee_TraceState : string;
  ee_Baggage : string;
}.
Arguments ee_SpecVersion {A} _.
Arguments ee_Id {A} _.
Arguments ee_Type {A} _.
Arguments ee_Source {A} _.
Arguments ee_Time {A} _.
Arguments ee_DataContentType {A} _.
Arguments ee_TenantId {A} _.
Arguments ee_Data {A} _.
Arguments ee_TraceParent {A} _.
Arguments ee_TraceState {A} _.
Arguments ee_Baggage {A} _.

(** ** What the package calls *)

Class Codec (A : Type) := {
  envelope_Marshal : EventEnvelope A → result error string;  (* proto.Marshal *)
  envelope_Unmarshal : string → result error (EventEnvelope A);
  any_Marshal : A → result error string;
  any_Unmarshal : string → result error A;
  protojson_Marshal : A → result error string;  (* UseProtoNames *)
  protojson_Unmarshal : string → result error A;
}.

(** A span context: identifiers in hexadecimal, the flags byte, the state. *)
Record SpanContext := { TraceID : string; SpanID : string; TraceFlags : Z; ScTraceState : string }.

Definition zero_id (n : nat) : string := of_bytes (replicate n "0"%char).

Definition IsValid (sc : SpanContext) : bool :=
  bool_decide (TraceID sc ≠ zero_id 32) && bool_decide (SpanID sc ≠ zero_id 16).

(** Contexts [C] carry a span context.  [Inject] is the global propagator writing to
    an empty map carrier, [Extract] the same propagator reading from a carrier
    through its [Get]; [TraceContextExtract] is propagation.TraceContext{}. *)
Class Telemetry (C : Type) := {
  Background_ : C;
  SpanContextFromContext : C → SpanContext;
  StartSpan : C → C;
  Inject : C → gmap string string;
  Extract : C → (string → string) → C;
  TraceContextExtract : C → (string → string) → C;
}.

Section Envelopes.
Context {A : Type} `{!Codec A}.

(** ** From a change to an envelope *)

Definition subject (change : Change A) (prefix : string) : string :=
  TrimSuffix prefix "." +:+ "." +:+ AggregateType change +:+ "." +:+ Operation change.

Definition eventSource (subjectPrefix : string) : string :=
  let trimmed := TrimSuffix (TrimSpace subjectPrefix) "." in
  if HasSuffix trimmed ".changes" then TrimSuffix trimmed ".changes" else trimmed.

(** [toCloudEvent] with the identifier and, for a change without a time, the clock. *)
Definition toCloudEvent (change : Change A) (subject source id : string) (now : time) : Envelope A :=
  let recordedAt := RecordedAt change in
  let recordedAt := if is_zero_time recordedAt then now else recordedAt in
  {| SpecVersion := "1.0"; ID := id; Type_ := subject; Source := source; Time := recordedAt;
     DataContentType := "application/protobuf"; EnvTenantID := TenantID change; TraceParent := "";
     TraceState := ""; Baggage := ""; EnvPayload := Payload change; WireFormat := "" |}.

(** ** Encoding *)

Definition normalizedWireFormat (f : string) : string :=
  if decide (f = "" ∨ f = WireFormatJSON) then WireFormatJSON
  else if decide (f = WireFormatProto) then WireFormatProto
  else if decide (f = WireFormatProtoHeaders) then WireFormatProtoHeaders
  else "".

Definition marshalPayloadJSON (payload : option A) : result error string :=
  match payload with
  | None => Ok "null"
  | Some a => protojson_Marshal a
  end.

Definition omitempty (name value : string) : list (string * string) :=
  if decide (value = "") then [] else [(name, Marshal (JString value))].

(** [json.Marshal] of the CloudEvent; an invalid raw message is an error. *)
Definition marshalEnvelopeJSON (e : Envelope A) : result error string :=
  match marshalPayloadJSON (EnvPayload e) with
  | Err err => Err err
  | Ok data =>
      match parse_json data with
      | None => Err json_error
      | Some _ =>
          Ok (marshal_members
            ([("specversion", Marshal (JString (SpecVersion e)));
              ("id", Marshal (JString (ID e)));
              ("type", Marshal (JString (Type_ e)));
              ("source", Marshal (JString (Source e)));
              ("time", Marshal (JString (FormatRFC3339 (Time e))));
              ("datacontenttype", Marshal (JString "application/json"));
              ("tenant_id", Marshal (JString (EnvTenantID e)))]
             ++ omitempty "traceparent" (TraceParent e)
             ++ omitempty "tracestate" (TraceState e)
             ++ omitempty "baggage" (Baggage e)
             ++ [("data", compact data)]))
      end
  end.

Definition proto_message (e : Envelope A) : EventEnvelope A :=
  {| ee_SpecVersion := SpecVersion e; ee_Id := ID e; ee_Type := Type_ e; ee_Source := Source e;
     ee_Time := Some (timestamppb_New (Time e)); ee_DataContentType := "application/protobuf";
     ee_TenantId := EnvTenantID e; ee_Data := EnvPayload e; ee_TraceParent := TraceParent e;
     ee_TraceState := TraceState e; ee_Baggage := Baggage e |}.

Definition marshalEnvelopeProto (e : Envelope A) : result error string :=
  envelope_Marshal (proto_message e).

Definition marshalEnvelope (e : Envelope A) (f : string) : result error string :=
  if decide (f = WireFormatJSON) then marshalEnvelopeJSON e
  else if decide (f = WireFormatProto) then marshalEnvelopeProto e
  else Err errWireFormatInvalid.

Definition set_if (b : bool) (key value : string) (m : gmap string (list string)) : gmap string (list string) :=
  if b then HeaderSet key value m else m.

(** The headers of an envelope. *)
Definition envelope_headers (e : Envelope A) : gmap string (list string) :=
  let m := HeaderSet headerSpecVersion (SpecVersion e) ∅ in
  let m := HeaderSet headerID (ID e) m in
  let m := HeaderSet headerType (Type_ e) m in
  let m := HeaderSet headerSource (Source e) m in
  let m := set_if (negb (is_zero_time (Time e))) headerTime (FormatRFC3339 (Time e)) m in
  let m := set_if (bool_decide (EnvTenantID e ≠ "")) headerTenantID (EnvTenantID e) m in
  let m := set_if (bool_decide (TraceParent e ≠ "")) headerTraceParent (TraceParent e) m in
  let m := set_if (bool_decide (TraceState e ≠ "")) headerTraceState (TraceState e) m in
  let m := set_if (bool_decide (Baggage e ≠ "")) headerBaggage (Baggage e) m in
  let dataContentType := TrimSpace (DataContentType e) in
  let dataContentType := if decide (dataContentType = "") then "application/protobuf" else dataContentType in
  HeaderSet headerDataContentType dataContentType m.

Definition marshalEnvelopeProtoHeaders (subject : string) (e : Envelope A) : result error Msg :=
  let message := {| Subject := subject; Reply := ""; Header := Some (envelope_headers e); Data := "" |} in
  match EnvPayload e with
  | None => Ok message
  | Some a =>
      match any_Marshal a with
      | Err err => Err err
      | Ok payload =>
          Ok {| Subject := subject; Reply := ""; Header := Some (envelope_headers e); Data := payload |}
      end
  end.

Definition marshalEnvelopeMessage (subject : string) (e : Envelope A) (f : string) : result error Msg :=
  if decide (f = WireFormatJSON ∨ f = WireFormatProto) then
    match marshalEnvelope e f with
    | Err err => Err err
    | Ok payload => Ok (NewMsg subject payload)
    end
  else if decide (f = WireFormatProtoHeaders) then marshalEnvelopeProtoHeaders subject e
  else Err errWireFormatInvalid.

(** ** Decoding *)

Definition unmarshalPayloadJSON (data : option string) : result error (option A) :=
  let trimmed := TrimSpace (default "" data) in
  if decide (trimmed = "" ∨ trimmed = "null") then Ok None
  else match protojson_Unmarshal trimmed with Err err => Err err | Ok a => Ok (Some a) end.

(** [json.Unmarshal] into a CloudEvent: its string fields, in order, and the data. *)
Definition cloud_event (data : string) : option (list string * option string) :=
  ms ← struct_members data;
  fields ← mapM (λ name, string_field name ms)
    ["specversion"; "id"; "type"; "source"; "time"; "datacontenttype"; "tenant_id"; "traceparent";
     "tracestate"; "baggage"];
  Some (fields, raw_field "data" ms).

Definition unmarshalEnvelopeJSON (data : string) : result error (Envelope A) :=
  match cloud_event data with
  | Some ([spec; id; typ; source; tm; contentType; tenant; parent; state; baggage], raw) =>
      match ParseRFC3339 tm with
      | None => Err time_error
      | Some recordedAt =>
          match unmarshalPayloadJSON raw with
          | Err err => Err err
          | Ok payload =>
              Ok {| SpecVersion := spec; ID := id; Type_ := typ; Source := source; Time := recordedAt;
                    DataContentType := contentType; EnvTenantID := tenant; TraceParent := parent;
                    TraceState := state; Baggage := baggage; EnvPayload := payload;
                    WireFormat := WireFormatJSON |}
          end
      end
  | _ => Err json_error
  end.

Definition unmarshalEnvelopeProto (data : string) : result error (Envelope A) :=
  match envelope_Unmarshal data with
  | Err err => Err err
  | Ok m =>
      Ok {| SpecVersion := ee_SpecVersion m; ID := ee_Id m; Type_ := ee_Type m; Source := ee_Source m;
            Time := from_option AsTime zero_time (ee_Time m); DataContentType := ee_DataContentType m;
            EnvTenantID := ee_TenantId m; TraceParent := ee_TraceParent m;
            TraceState := ee_TraceState m; Baggage := ee_Baggage m; EnvPayload := ee_Data m;
            WireFormat := WireFormatProto |}
  end.

Definition detectWireFormat (data : list ascii) : string :=
  match data with
  | [] => ""
  | a :: _ => if code a =? 123 then WireFormatJSON else WireFormatProto
  end.

(** The data without leading JSON white space, and whether there was some. *)
Definition trimLeadingJSONWhitespace (data : list ascii) : list ascii * bool :=
  match skip_space data with
  | [] => ([], false)
  | l => (l, (length l <? length data)%nat)
  end.

Definition UnmarshalEnvelope (data : string) : result error (Envelope A) :=
  if decide (data = "") then Err errEnvelopeEmpty
  else
    let '(trimmed, isTrimmed) := trimLeadingJSONWhitespace (bytes_of data) in
    match trimmed with
    | [] => Err errEnvelopeEmpty
    | _ =>
        let f := detectWireFormat trimmed in
        if decide (f = WireFormatJSON) then
          match unmarshalEnvelopeJSON (of_bytes trimmed) with
          | Ok e => Ok e
          | Err err =>
              if isTrimmed then
                match unmarshalEnvelopeProto data with Ok e => Ok e | Err _ => Err err end
              else Err err
          end
        else if decide (f = WireFormatProto) then unmarshalEnvelopeProto data
        else Err errWireFormatInvalid
    end.

Definition hasCloudEventHeaders (h : NatsHeader) : bool :=
  match h with
  | None => false
  | Some m =>
      bool_decide (m ≠ ∅)
      && bool_decide (TrimSpace (HeaderGet headerSpecVersion h) ≠ "")
      && bool_decide (TrimSpace (HeaderGet headerID h) ≠ "")
      && bool_decide (TrimSpace (HeaderGet headerType h) ≠ "")
      && bool_decide (TrimSpace (HeaderGet headerSource h) ≠ "")
  end.

Context `{!Unicode}.

Definition unmarshalHeaderPayload (contentType data : string) : result error (option A) :=
  if decide (TrimSpace data = "") then Ok None
  else if Contains (ToLower contentType) "application/json" then unmarshalPayloadJSON (Some data)
  else match any_Unmarshal data with Err err => Err err | Ok a => Ok (Some a) end.

Definition unmarshalEnvelopeProtoHeaders (m : Msg) : result error (Envelope A) :=
  let get key := TrimSpace (HeaderGet key (Header m)) in
  let rawTime := get headerTime in
  match (if decide (rawTime = "") then Some zero_time else ParseRFC3339 rawTime) with
  | None => Err time_error
  | Some recordedAt =>
      match unmarshalHeaderPayload (HeaderGet headerDataContentType (Header m)) (Data m) with
      | Err err => Err err
      | Ok payload =>
          Ok {| SpecVersion := get headerSpecVersion; ID := get headerID; Type_ := get headerType;
                Source := get headerSource; Time := recordedAt;
                DataContentType := get headerDataContentType; EnvTenantID := get headerTenantID;
                TraceParent := get headerTraceParent; TraceState := get headerTraceState;
                Baggage := get headerBaggage; EnvPayload := payload;
                WireFormat := WireFormatProtoHeaders |}
      end
  end.

Definition UnmarshalMessage (m : option Msg) : result error (Envelope A) :=
  match m with
  | None => Err errMessageNil
  | Some m =>
      if hasCloudEventHeaders (Header m) then unmarshalEnvelopeProtoHeaders m
      else UnmarshalEnvelope (Data m)
  end.
End Envelopes.

(** ** Payloads *)

Section Payloads.
(** Messages [M] and what anypb makes of them. *)
Context {A M : Type} (anypb_New : M → result error A) (UnmarshalTo : A → M → result error M).

Definition NewPayload (message : option M) : result error A :=
  match message with None => Err errPayloadMessageNil | Some m => anypb_New m end.

(** [MustPayload]: [None] is the panic. *)
Definition MustPayload (message : option M) : option A :=
  match NewPayload message with Ok a => Some a | Err _ => None end.

(** [UnmarshalPayload]: the target after the call. *)
Definition UnmarshalPayload (payload : option A) (target : option M) : result error (option M) :=
  match target with
  | None => Err errPayloadTargetNil
  | Some t =>
      match payload with
      | None => Ok (Some t)
      | Some a => match UnmarshalTo a t with Err err => Err err | Ok t => Ok (Some t) end
      end
  end.
End Payloads.

(** ** Trace context *)

Section Tracing.
Context {A C : Type} `{!Telemetry C}.

Definition hex2 (z : Z) : string := of_bytes [hex_digit (z / 16); hex_digit (z mod 16)].

(** The traceparent value the package writes itself: the sampled and random
    flags are kept. *)
Definition traceparent (sc : SpanContext) : string :=
  "00-" +:+ TraceID sc +:+ "-" +:+ SpanID sc +:+ "-" +:+ hex2 (Z.land (TraceFlags sc) 3).

Definition carrier_get (key : string) (carrier : gmap string string) : string := default "" (carrier !! key).

Definition set_trace (e : Envelope A) (parent state baggage : string) : Envelope A :=
  {| SpecVersion := SpecVersion e; ID := ID e; Type_ := Type_ e; Source := Source e; Time := Time e;
     DataContentType := DataContentType e; EnvTenantID := EnvTenantID e; TraceParent := parent;
     TraceState := state; Baggage := baggage; EnvPayload := EnvPayload e; WireFormat := WireFormat e |}.

Definition injectTraceContext (ctx : C) (e : Envelope A) : Envelope A :=
  let carrier := Inject ctx in
  let parent := TrimSpace (carrier_get headerTraceParent carrier) in
  let state := TrimSpace (carrier_get headerTraceState carrier) in
  let baggage := TrimSpace (carrier_get headerBaggage carrier) in
  if decide (parent ≠ "") then set_trace e parent state baggage
  else
    let spanContext := SpanContextFromContext ctx in
    if negb (IsValid spanContext) then set_trace e parent state baggage
    else set_trace e (traceparent spanContext) (TrimSpace (ScTraceState spanContext)) baggage.

(** What [injectMessageTraceContext] writes to the headers. *)
Definition propagated (ctx : C) : gmap string string :=
  let p := Inject ctx in
  let spanContext := SpanContextFromContext ctx in
  if decide (carrier_get headerTraceParent p = "") then
    if IsValid spanContext then
      let p := <[headerTraceParent := traceparent spanContext]> p in
      if decide (ScTraceState spanContext = "") then p
      else <[headerTraceState := ScTraceState spanContext]> p
    else p
  else p.

Definition set_header_map (h : NatsHeader) (m : Msg) : Msg :=
  {| Subject := Subject m; Reply := Reply m; Header := h; Data := Data m |}.

(** Every entry replaces the header of its key; a nil header becomes a map. *)
Definition injectMessageTraceContext (ctx : C) (m : Msg) : Msg :=
  let p := propagated ctx in
  if decide (p = ∅) then m
  else set_header_map (Some (((λ v, [v]) <$> p) ∪ default ∅ (Header m))) m.

Definition ExtractContext (ctx : C) (e : Envelope A) : C :=
  let set key value (c : gmap string string) := if decide (value = "") then c else <[key := value]> c in
  let carrier := set headerBaggage (Baggage e)
    (set headerTraceState (TraceState e) (set headerTraceParent (TraceParent e) ∅)) in
  if decide (carrier = ∅) then ctx
  else
    let get key := carrier_get key carrier in
    let ctx := Extract ctx get in
    if IsValid (SpanContextFromContext ctx) then ctx
    else if decide (TraceParent e ≠ "") then TraceContextExtract ctx get
    else ctx.

Definition headerTraceContextPresent (h : NatsHeader) : bool :=
  match h with None => false | Some _ => bool_decide (HeaderGet headerTraceParent h ≠ "") end.

Definition propagationFallbackExtract (ctx : C) (get : string → string) : C :=
  if decide (get headerTraceParent = "") then ctx else TraceContextExtract ctx get.

(** [newNATSHeaderCarrier] on the header of a message: a nil header becomes an
    empty map. *)
Definition newNATSHeaderCarrier (m : Msg) : Msg := set_header_map (Some (default ∅ (Header m))) m.

Context `{!Codec A, !Unicode}.

(** The context a message carries, and the message. *)
Definition extractMessageContext (m : option Msg) : C * option Msg :=
  match m with
  | None => (Background_, None)
  | Some m =>
      let m := newNATSHeaderCarrier m in
      let get key := HeaderGet key (Header m) in
      if headerTraceContextPresent (Header m) then
        let ctx := Extract Background_ get in
        if IsValid (SpanContextFromContext ctx) then (ctx, Some m)
        else (propagationFallbackExtract ctx get, Some m)
      else
        match UnmarshalMessage (A := A) (Some m) with
        | Err _ => (Background_, Some m)
        | Ok e => (ExtractContext Background_ e, Some m)
        end
  end.
End Tracing.

(** ** The publisher *)

(** The clock, identifiers and JetStream; [js] is the client of a publisher. *)
Class Bus (W C : Type) := {
  js : Type;
  time_Now : W → time * W;
  uuid_NewString : W → string * W;
  PublishMsg : js → C → Msg → W → option error * W;
}.

Section Publisher.
Context {A C W : Type} `{!Codec A, !Telemetry C, !Bus W C}.

Record Publisher := { pub_js : option js; subjectPrefix : string; pub_source : string; wireFormat : string }.

(** The client of a publisher that has one; nil publishers are [None]. *)
Definition client (p : option Publisher) : option (Publisher * js) :=
  p ← p; j ← pub_js p; Some (p, j).

(** [RecordedAt] or the clock. *)
Definition recorded_at (change : Change A) (w : W) : time * W :=
  if is_zero_time (RecordedAt change) then time_Now w else (RecordedAt change, w).

Definition buildMessage (p : option Publisher) (ctx : C) (change : Change A) (w : W) : result error Msg * W :=
  match client p with
  | None => (Err ErrPublisherNil, w)
  | Some (p, _) =>
      let subj := subject change (subjectPrefix p) in
      let '(now, w) := recorded_at change w in
      let '(id, w) := uuid_NewString w in
      let envelope := toCloudEvent change subj (pub_source p) id now in
      let envelope := injectTraceContext ctx envelope in
      match marshalEnvelopeMessage subj envelope (normalizedWireFormat (wireFormat p)) with
      | Err e => (Err (ErrWrap "marshal change event: " e ""), w)
      | Ok message => (Ok (injectMessageTraceContext ctx message), w)
      end
  end.

Definition Publish (p : option Publisher) (ctx : C) (change : Change A) (w : W) : option error * W :=
  match client p with
  | None => (Some ErrPublisherNil, w)
  | Some (_, j) =>
      let ctx := StartSpan ctx in
      match buildMessage p ctx change w with
      | (Err e, w) => (Some e, w)
      | (Ok message, w) =>
          match PublishMsg j ctx message w with
          | (Some e, w) => (Some (ErrWrap ("publish " +:+ Subject message +:+ ": ") e ""), w)
          | (None, w) => (None, w)
          end
      end
  end.

(** [PublishChange] only logs an error. *)
Definition PublishChange (p : option Publisher) (ctx : C) (change : Change A) (w : W) : W :=
  match client p with
  | None => w
  | Some _ => (Publish p ctx change w).2
  end.

Definition NoopPublish (ctx : C) (change : Change A) : option error := None.
End Publisher.
Arguments Publisher C W {_}.

(** ** Connecting *)

Record StreamConfig := {
  Name : string; Subjects : list string; Retention : Z; MaxAge : duration; Storage : Z
}.

Definition LimitsPolicy : Z := 0.
Definition FileStorage : Z := 0.

(** [nats.Option] values; [UserOption] is one the caller supplies. *)
Inductive NatsOption :=
| RetryOnFailedConnect (b : bool) | MaxReconnects (n : Z) | ReconnectWait (d : duration)
| NoCallbacksAfterClientClose | UserOption (id : Z).

Record Options := {
  optRetention : Z; optMaxAge : duration; optStorage : Z; optNATSOptions : list NatsOption; optWireFormat : string
}.

Definition withDefaults (o : Options) : Options :=
  {| optRetention := if optRetention o =? 0 then LimitsPolicy else optRetention o;
     optMaxAge := if optMaxAge o <=? 0 then DefaultMaxAge else optMaxAge o;
     optStorage := if optStorage o =? 0 then FileStorage else optStorage o;
     optNATSOptions := optNATSOptions o;
     optWireFormat := if decide (optWireFormat o = "") then WireFormatJSON else optWireFormat o |}.

Definition natsOptions (o : Options) : list NatsOption :=
  [RetryOnFailedConnect true; MaxReconnects 10; ReconnectWait (2 * Second)] ++ optNATSOptions o.

(** Connections of type [conn], and the JetStream client of one. *)
Class Connector (W C : Type) `{!Bus W C} := {
  conn : Type;
  connectNATS : string → list NatsOption → W → result error conn * W;
  newJetStream : conn → W → result error js * W;
  CreateOrUpdateStream : js → StreamConfig → W → option error * W;
  closeConnection : conn → W → W;
}.

Section Connect.
Context {C W : Type} `{!Bus W C, !Connector W C}.

(** The publisher and the connection its [closeFunc] closes. *)
Definition ConnectWithOptions (natsURL streamName prefix : string) (opts : Options) (w : W)
  : result error (Publisher C W * conn) * W :=
  let opts := withDefaults opts in
  let natsURL := TrimSpace natsURL in
  let streamName := TrimSpace streamName in
  let prefix := TrimSuffix (TrimSpace prefix) "." in
  if decide (natsURL = "") then (Err errNATSURLRequired, w)
  else if decide (streamName = "") then (Err errStreamNameRequired, w)
  else if decide (prefix = "") then (Err errSubjectPrefixRequired, w)
  else
    match connectNATS natsURL (natsOptions opts) w with
    | (Err e, w) => (Err (ErrWrap "nats_connect: " e ""), w)
    | (Ok connection, w) =>
        match newJetStream connection w with
        | (Err e, w) => (Err (ErrWrap "jetstream_connect: " e ""), closeConnection connection w)
        | (Ok j, w) =>
            match CreateOrUpdateStream j
                    {| Name := streamName; Subjects := [prefix +:+ ".>"]; Retention := optRetention opts;
                       MaxAge := optMaxAge opts; Storage := optStorage opts |} w with
            | (Some e, w) => (Err (ErrWrap "create_stream: " e ""), closeConnection connection w)
            | (None, w) =>
                (Ok ({| pub_js := Some j; subjectPrefix := prefix; pub_source := eventSource prefix;
                        wireFormat := optWireFormat opts |}, connection), w)
            end
        end
    end.

Definition Connect (natsURL streamName prefix : string) (w : W) :=
  ConnectWithOptions natsURL streamName prefix
    {| optRetention := 0; optMaxAge := 0; optStorage := 0; optNATSOptions := []; optWireFormat := "" |} w.

(** [Close] of a publisher; a nil one has nothing to close. *)
Definition Close (connection : option conn) (w : W) : W :=
  match connection with None => w | Some cn => closeConnection cn w end.
End Connect.

(** ** Round trips *)

(** What the encoders promise: decoding inverts encoding.  An envelope whose
    version is "1.0" starts with the tag of one of its eleven length-delimited
    fields, and the tag of field 1 is followed by the length of the version; the
    JSON of a payload is an object up to white space and the escapes of
    encoding/json. *)
Class CodecLaws (A : Type) `{!Codec A} := {
  envelope_Marshal_inv m b : envelope_Marshal m = Ok b → envelope_Unmarshal b = Ok m;
  envelope_Marshal_tag m b :
    envelope_Marshal m = Ok b → ee_SpecVersion m = "1.0" →
    ∃ t l, bytes_of b = t :: l ∧
      ((code t = 10 ∧ ∃ n l', l = n :: l' ∧ code n = 3) ∨ (∃ i, 2 ≤ i ≤ 11 ∧ code t = 8 * i + 2));
  any_Marshal_inv a b : any_Marshal a = Ok b → any_Unmarshal b = Ok a;
  protojson_Marshal_inv a t :
    protojson_Marshal a = Ok t →
    is_Some (parse_json t) ∧
    ∃ fs, json_ok (JObject fs) ∧ compact t = Marshal (JObject fs) ∧
          protojson_Unmarshal (Marshal (JObject fs)) = Ok a;
}.

Definition cloudevent_headers : list string :=
  [headerSpecVersion; headerID; headerType; headerSource; headerTime; headerDataContentType;
   headerTenantID].

(** A propagator writes values without surrounding white space, leaves the headers
    of CloudEvents alone, and a trace state only accompanies a trace parent. *)
Class PropagatorLaws (C : Type) `{!Telemetry C} := {
  Inject_value (ctx : C) k v : Inject ctx !! k = Some v → trimmed v ∧ v ≠ "";
  Inject_keys (ctx : C) k v : Inject ctx !! k = Some v → k ∉ cloudevent_headers;
  Inject_state (ctx : C) :
    carrier_get headerTraceParent (Inject ctx) = "" → Inject ctx !! headerTraceState = None;
}.

Lemma Marshal_object_bytes fs : ∃ r, bytes_of (Marshal (JObject fs)) = "{"%char :: r.
Proof.
  change (Marshal (JObject fs)) with ("{" +:+ Join (member_text <$> fs) "," +:+ "}").
  rewrite bytes_of_app. by eexists.
Qed.

Lemma TrimSpace_object fs : TrimSpace (Marshal (JObject fs)) = Marshal (JObject fs).
Proof.
  change (Marshal (JObject fs)) with ("{" +:+ Join (member_text <$> fs) "," +:+ "}").
  eapply (TrimSpace_solid _ "{"%char _ "}"%char); [| |done..].
  - by rewrite bytes_of_app.
  - rewrite !bytes_of_app. by rewrite app_assoc.
Qed.

Section RoundTrip.
Context {A C : Type} `{!Codec A, !Telemetry C, !Unicode, !CodecLaws A, !PropagatorLaws C}.

(** The envelope a consumer sees of [e] in format [f]: seconds in JSON and headers,
    the content type of the format, header values without surrounding white space. *)
Definition transmitted (f : string) (e : Envelope A) : Envelope A :=
  let strip s := if decide (f = WireFormatProtoHeaders) then TrimSpace s else s in
  {| SpecVersion := strip (SpecVersion e); ID := strip (ID e); Type_ := strip (Type_ e);
     Source := strip (Source e);
     Time := if decide (f = WireFormatProto) then Time e else truncate_second (Time e);
     DataContentType := if decide (f = WireFormatJSON) then "application/json" else "application/protobuf";
     EnvTenantID := strip (EnvTenantID e); TraceParent := TraceParent e; TraceState := TraceState e;
     Baggage := Baggage e; EnvPayload := EnvPayload e; WireFormat := f |}.

(** Envelopes as [toCloudEvent] and [injectTraceContext] make them, of strings and a
    time every format can carry. *)
Definition envelope_ok (e : Envelope A) : Prop :=
  SpecVersion e = "1.0" ∧ DataContentType e = "application/protobuf" ∧
  Forall utf8 [ID e; Type_ e; Source e; EnvTenantID e; TraceParent e; TraceState e; Baggage e] ∧
  Forall (λ s, blank s = false) [ID e; Type_ e; Source e] ∧
  in_calendar (Time e) ∧ Time e ≠ 0 ∧
  (∀ a b, EnvPayload e = Some a → any_Marshal a = Ok b → blank b = false).

(** *** JSON *)

Definition json_members (e : Envelope A) (data : json) : list (string * json) :=
  [("specversion", JString (SpecVersion e)); ("id", JString (ID e)); ("type", JString (Type_ e));
   ("source", JString (Source e)); ("time", JString (FormatRFC3339 (Time e)));
   ("datacontenttype", JString "application/json"); ("tenant_id", JString (EnvTenantID e))]
  ++ (if decide (TraceParent e = "") then [] else [("traceparent", JString (TraceParent e))])
  ++ (if decide (TraceState e = "") then [] else [("tracestate", JString (TraceState e))])
  ++ (if decide (Baggage e = "") then [] else [("baggage", JString (Baggage e))])
  ++ [("data", data)].

Lemma marshalEnvelopeJSON_object e b :
  marshalEnvelopeJSON e = Ok b →
  ∃ data, json_ok data ∧ b = Marshal (JObject (json_members e data)) ∧
    unmarshalPayloadJSON (Some (Marshal data)) = Ok (EnvPayload e).
Proof.
  unfold marshalEnvelopeJSON. intros Hm.
  assert (∃ t, marshalPayloadJSON (EnvPayload e) = Ok t ∧ ∃ data, json_ok data ∧ compact t = Marshal data ∧
    unmarshalPayloadJSON (Some (Marshal data)) = Ok (EnvPayload e)) as (t & Ht & data & Hok & Hc & Hu).
  { destruct (marshalPayloadJSON (EnvPayload e)) as [t|] eqn:E; [|done]. exists t; split; [done|].
    destruct (EnvPayload e) as [a|]; cbn in E.
    - apply protojson_Marshal_inv in E as (_ & fs & Hok & Hc & Hu). exists (JObject fs).
      split_and!; [done..|]. unfold unmarshalPayloadJSON. cbn [default from_option id].
      rewrite TrimSpace_object. rewrite decide_False by (by destruct 1). by rewrite Hu.
    - simplify_eq. exists JNull. split_and!; [constructor|by vm_compute..]. }
  rewrite Ht in Hm. destruct (parse_json t); [|done]. injection Hm as <-. exists data.
  split_and!; [done| |done]. rewrite <- marshal_members_json. f_equal.
  unfold json_members, omitempty. rewrite Hc.
  destruct (decide (TraceParent e = "")), (decide (TraceState e = "")), (decide (Baggage e = "")); done.
Qed.

Lemma json_members_ok e data :
  envelope_ok e → json_ok data → json_ok (JObject (json_members e data)).
Proof.
  intros (Hs & _ & Hu & _ & Ht & _) Hd. constructor. unfold json_members.
  repeat (apply Forall_cons in Hu as [? Hu]).
  pose proof (utf8_solid _ (FormatRFC3339_solid _ Ht)). rewrite Hs.
  repeat (apply Forall_app; split); repeat (apply Forall_cons; split); try apply Forall_nil;
    repeat case_decide; repeat (apply Forall_cons; split); try apply Forall_nil; cbn [fst snd];
    split; try done; by constructor.
Qed.

Lemma cloud_event_members e data :
  envelope_ok e → json_ok data →
  cloud_event (Marshal (JObject (json_members e data))) =
  Some ([SpecVersion e; ID e; Type_ e; Source e; FormatRFC3339 (Time e); "application/json";
         EnvTenantID e; TraceParent e; TraceState e; Baggage e], Some (Marshal data)).
Proof.
  intros He Hd. unfold cloud_event. rewrite struct_members_Marshal by by apply json_members_ok.
  cbn [mbind option_bind]. unfold json_members. destruct e as [sv i ty so tm ct te tp ts ba pl wf].
  cbn [SpecVersion ID Type_ Source Time EnvTenantID TraceParent TraceState Baggage].
  generalize (FormatRFC3339 tm). intros tx.
  destruct (decide (tp = "")) as [->|], (decide (ts = "")) as [->|], (decide (ba = "")) as [->|];
    cbn [app fmap list_fmap fst snd]; generalize (Marshal data); intros raw; vm_compute; reflexivity.
Qed.

Lemma UnmarshalEnvelope_json e b :
  envelope_ok e → marshalEnvelopeJSON e = Ok b →
  UnmarshalEnvelope b = Ok (transmitted WireFormatJSON e).
Proof.
  intros He (data & Hd & -> & Hp)%marshalEnvelopeJSON_object.
  destruct (Marshal_object_bytes (json_members e data)) as [r Hr].
  unfold UnmarshalEnvelope. rewrite decide_False by (intros E; by rewrite E in Hr).
  assert (trimLeadingJSONWhitespace (bytes_of (Marshal (JObject (json_members e data))))
          = (bytes_of (Marshal (JObject (json_members e data))), false)) as ->.
  { unfold trimLeadingJSONWhitespace. rewrite Hr.
    change (skip_space ("{"%char :: r)) with ("{"%char :: r). cbn iota.
    by rewrite Nat.ltb_irrefl. }
  rewrite Hr at 1. rewrite of_bytes_bytes_of, Hr.
  change (detectWireFormat ("{"%char :: r)) with WireFormatJSON. rewrite decide_True by done.
  unfold unmarshalEnvelopeJSON. rewrite cloud_event_members by done. cbn beta iota.
  destruct He as (_ & _ & _ & _ & Ht & _). rewrite ParseRFC3339_Format by done. by rewrite Hp.
Qed.

(** *** Protobuf *)

Lemma UnmarshalEnvelope_proto e b :
  envelope_ok e → marshalEnvelopeProto e = Ok b →
  UnmarshalEnvelope b = Ok (transmitted WireFormatProto e).
Proof.
  intros (Hs & _) Hb. unfold marshalEnvelopeProto in Hb.
  destruct (envelope_Marshal_tag _ _ Hb Hs) as (t & l & Hbl & Htag).
  assert (unmarshalEnvelopeProto b = Ok (transmitted WireFormatProto e)) as Hu.
  { unfold unmarshalEnvelopeProto. rewrite (envelope_Marshal_inv _ _ Hb). unfold transmitted. cbn.
    by rewrite AsTime_New. }
  unfold UnmarshalEnvelope. rewrite decide_False by (intros ->; done).
  assert (∃ a k z, trimLeadingJSONWhitespace (bytes_of b) = (a :: k, z) ∧ code a ≠ 123)
    as (a & k & z & -> & Ha).
  { unfold trimLeadingJSONWhitespace. rewrite Hbl. cbn [skip_space]. unfold json_space.
    destruct Htag as [(Ht & n & l' & -> & Hn)|(i & Hi & Ht)]; rewrite Ht.
    - cbn [skip_space]. unfold json_space. rewrite Hn. cbn. eexists _, _, _. split; [done|]. by rewrite Hn.
    - rewrite !(proj2 (Z.eqb_neq _ _)) by lia. cbn. eexists _, _, _. split; [done|]. lia. }
  unfold detectWireFormat. rewrite (proj2 (Z.eqb_neq _ _)) by done.
  rewrite decide_False, decide_True by done. done.
Qed.

(** *** Headers *)

Lemma HeaderGet_Set k k' v m :
  HeaderGet k (Some (HeaderSet k' v m)) = if decide (k = k') then v else HeaderGet k (Some m).
Proof.
  unfold HeaderGet, HeaderSet. case_decide as E.
  - subst k'. by rewrite lookup_insert_eq.
  - by rewrite lookup_insert_ne by done.
Qed.

Lemma HeaderGet_set_if b k k' v m :
  HeaderGet k (Some (set_if b k' v m)) =
  if b && bool_decide (k = k') then v else HeaderGet k (Some m).
Proof.
  destruct b; [|done]. cbn [set_if andb]. rewrite HeaderGet_Set. by case_bool_decide; case_decide.
Qed.

Lemma HeaderGet_inject ctx m k :
  HeaderGet k (Header (injectMessageTraceContext (C := C) ctx m)) =
  default (HeaderGet k (Header m)) (propagated ctx !! k).
Proof.
  unfold injectMessageTraceContext. case_decide as E.
  - by rewrite E, lookup_empty.
  - cbn [Header set_header_map HeaderGet]. destruct (propagated ctx !! k) as [v|] eqn:Ek.
    + by rewrite (lookup_union_Some_l _ _ k [v]) by (by rewrite lookup_fmap, Ek).
    + rewrite lookup_union_r by (by rewrite lookup_fmap, Ek). by destruct (Header m) as [h|].
Qed.

Lemma propagated_other ctx k :
  k ∈ cloudevent_headers → propagated (C := C) ctx !! k = None.
Proof.
  intros Hk. assert (Inject ctx !! k = None) as Hp
    by (destruct (Inject ctx !! k) eqn:E; [by apply Inject_keys in E|done]).
  assert (headerTraceParent ≠ k ∧ headerTraceState ≠ k) as [H1 H2]
    by (split; intros <-; vm_compute in Hk; repeat (apply elem_of_cons in Hk as [?|Hk]; [done|]);
        by apply elem_of_nil in Hk).
  unfold propagated. repeat (case_decide || case_match); by rewrite ?lookup_insert_ne.
Qed.

Lemma carrier_trimmed (ctx : C) k : TrimSpace (carrier_get k (Inject ctx)) = carrier_get k (Inject ctx).
Proof. unfold carrier_get. destruct (Inject ctx !! k) eqn:E; [by apply Inject_value in E as [? _]|done]. Qed.

Lemma carrier_default (ctx : C) k :
  TrimSpace (default (carrier_get k (Inject ctx)) (Inject ctx !! k)) = carrier_get k (Inject ctx).
Proof. rewrite <- (carrier_trimmed ctx k) at 2. unfold carrier_get. by destruct (Inject ctx !! k). Qed.

Lemma traceparent_trimmed sc : trimmed (traceparent sc).
Proof.
  unfold traceparent.
  eapply (TrimSpace_solid _ "0"%char _ (hex_digit (Z.land (TraceFlags sc) 3 mod 16))
    (bytes_of ("00-" +:+ TraceID sc +:+ "-" +:+ SpanID sc +:+ "-")
     ++ [hex_digit (Z.land (TraceFlags sc) 3 / 16)])).
  - by rewrite bytes_of_app.
  - unfold hex2. rewrite !bytes_of_app, bytes_of_of_bytes, <- !app_assoc. done.
  - done.
  - change 3 with (Z.ones 2). rewrite Z.land_ones by lia.
    pose proof (Z.mod_pos_bound (TraceFlags sc) (2 ^ 2) ltac:(lia)) as Hb.
    assert (∃ n, (TraceFlags sc) mod 2 ^ 2 = n ∧ (n = 0 ∨ n = 1 ∨ n = 2 ∨ n = 3)) as (n & -> & Hn)
      by (eexists; split; [done|cbn in Hb |- *; lia]).
    destruct Hn as [->|[->|[->| ->]]]; by vm_compute.
Qed.

(** The headers carry the trace fields of the envelope. *)
Lemma propagated_fields ctx (e0 : Envelope A) :
  let e := injectTraceContext ctx e0 in
  TrimSpace (default (TraceParent e) (propagated ctx !! headerTraceParent)) = TraceParent e ∧
  TrimSpace (default (TraceState e) (propagated ctx !! headerTraceState)) = TraceState e ∧
  TrimSpace (default (Baggage e) (propagated ctx !! headerBaggage)) = Baggage e.
Proof.
  unfold injectTraceContext, propagated. rewrite !carrier_trimmed.
  destruct (decide (carrier_get headerTraceParent (Inject ctx) = "")) as [Hp|Hp].
  2: { rewrite decide_True by done. cbn [set_trace TraceParent TraceState Baggage]. by rewrite !carrier_default. }
  rewrite decide_False by (by intros ?). destruct (IsValid _); cbn [negb].
  2: { cbn [set_trace TraceParent TraceState Baggage]. by rewrite !carrier_default. }
  cbn [set_trace TraceParent TraceState Baggage]. pose proof (Inject_state ctx Hp) as Hs.
  case_decide as E.
  - rewrite E, lookup_insert_eq, !lookup_insert_ne, Hs by done. cbn [default from_option id].
    by rewrite carrier_default, traceparent_trimmed.
  - rewrite lookup_insert_ne, lookup_insert_eq, lookup_insert_eq, !lookup_insert_ne by done.
    cbn [default from_option id]. by rewrite carrier_default, traceparent_trimmed.
Qed.

Lemma if_nonempty s : (if bool_decide (s ≠ "") then s else "") = s.
Proof. case_bool_decide as E; [done|]. by destruct (decide (s = "")). Qed.

Lemma envelope_headers_get (e : Envelope A) :
  DataContentType e = "application/protobuf" → Time e ≠ 0 →
  let get k := HeaderGet k (Some (envelope_headers e)) in
  get headerSpecVersion = SpecVersion e ∧ get headerID = ID e ∧ get headerType = Type_ e ∧
  get headerSource = Source e ∧ get headerTime = FormatRFC3339 (Time e) ∧
  get headerDataContentType = "application/protobuf" ∧ get headerTenantID = EnvTenantID e ∧
  get headerTraceParent = TraceParent e ∧ get headerTraceState = TraceState e ∧
  get headerBaggage = Baggage e.
Proof.
  intros Hc Ht. unfold envelope_headers. rewrite Hc. cbn zeta.
  rewrite !HeaderGet_Set, !HeaderGet_set_if, !HeaderGet_Set.
  unfold is_zero_time. rewrite (proj2 (Z.eqb_neq _ _)) by done.
  repeat match goal with
  | |- context [decide (?a = ?b)] =>
      first [rewrite (decide_True (P := a = b)) by done | rewrite (decide_False (P := a = b)) by done]
  | |- context [bool_decide (?a = ?b)] =>
      first [rewrite (bool_decide_eq_true_2 (a = b)) by done | rewrite (bool_decide_eq_false_2 (a = b)) by done]
  end.
  rewrite ?andb_true_r, ?andb_false_r. cbn [negb]. by rewrite ?if_nonempty.
Qed.

Ltac ce_key := by apply (bool_decide_unpack _).

Lemma no_cloudevent_headers ctx subj data :
  hasCloudEventHeaders (Header (injectMessageTraceContext (C := C) ctx (NewMsg subj data))) = false.
Proof.
  unfold hasCloudEventHeaders. destruct (Header _) as [h|] eqn:E; [|done]. rewrite <- E, HeaderGet_inject.
  rewrite propagated_other by ce_key. cbn [default from_option Header NewMsg HeaderGet].
  rewrite (bool_decide_eq_false_2 (TrimSpace "" ≠ "")) by (intros Hne; by apply Hne).
  by rewrite andb_false_r.
Qed.

Lemma Header_inject_Some ctx m h :
  Header m = Some h → is_Some (Header (injectMessageTraceContext (C := C) ctx m)).
Proof. intros E. unfold injectMessageTraceContext. case_decide; [by rewrite E|by eexists]. Qed.

Lemma marshalHeaders_payload subj e m :
  envelope_ok e → marshalEnvelopeProtoHeaders subj e = Ok m →
  Header m = Some (envelope_headers e) ∧
  unmarshalHeaderPayload "application/protobuf" (Data m) = Ok (EnvPayload e).
Proof.
  intros (_ & _ & _ & _ & _ & _ & Hb). unfold marshalEnvelopeProtoHeaders, unmarshalHeaderPayload.
  destruct (EnvPayload e) as [a|]; [|by intros [= <-]].
  destruct (any_Marshal a) as [b|] eqn:Ea; [|done]. intros [= <-]. cbn [Header Data]. split; [done|].
  specialize (Hb a b eq_refl Ea). unfold blank in Hb. breflect. rewrite decide_False by done.
  by rewrite (any_Marshal_inv _ _ Ea).
Qed.

Lemma UnmarshalMessage_headers subj ctx e0 m :
  let e := injectTraceContext ctx e0 in
  envelope_ok e → marshalEnvelopeProtoHeaders subj e = Ok m →
  UnmarshalMessage (Some (injectMessageTraceContext ctx m)) = Ok (transmitted WireFormatProtoHeaders e).
Proof.
  intros e He Hm. destruct (marshalHeaders_payload subj e m He Hm) as [Hh Hp].
  destruct He as (Hs & Hc & _ & Hb & Ht & Hz & _).
  destruct (envelope_headers_get e Hc Hz) as (G1 & G2 & G3 & G4 & G5 & G6 & G7 & G8 & G9 & G10).
  destruct (propagated_fields ctx e0) as (P1 & P2 & P3). fold e in P1, P2, P3.
  assert (Data (injectMessageTraceContext ctx m) = Data m) as HD
    by (unfold injectMessageTraceContext; by case_decide).
  assert (∀ k, HeaderGet k (Header (injectMessageTraceContext ctx m)) =
               default (HeaderGet k (Some (envelope_headers e))) (propagated ctx !! k)) as Hget
    by (intros k; by rewrite HeaderGet_inject, Hh).
  assert (∀ k, k ∈ cloudevent_headers →
    HeaderGet k (Header (injectMessageTraceContext ctx m)) = HeaderGet k (Some (envelope_headers e))) as Hce
    by (intros k Hk; by rewrite Hget, propagated_other).
  repeat (apply Forall_cons in Hb as [?Hb Hb]). unfold blank in *. breflect.
  destruct (Header_inject_Some ctx m _ Hh) as [h Hsome].
  assert (hasCloudEventHeaders (Header (injectMessageTraceContext ctx m)) = true) as Hhas.
  { unfold hasCloudEventHeaders. rewrite Hsome, <- Hsome, !Hce, G1, G2, G3, G4, Hs by ce_key.
    rewrite !bool_decide_eq_true_2; [done..|]. intros ->.
    assert (HeaderGet headerSpecVersion (Header (injectMessageTraceContext ctx m)) = "1.0") as Hv
      by (by rewrite Hce, G1 by ce_key).
    by rewrite Hsome in Hv. }
  unfold UnmarshalMessage. rewrite Hhas. unfold unmarshalEnvelopeProtoHeaders. rewrite HD.
  rewrite !Hce, G1, G2, G3, G4, G5, G6, G7 by ce_key.
  rewrite !Hget, G8, G9, G10, P1, P2, P3, Hp.
  rewrite (TrimSpace_all_solid (FormatRFC3339 (Time e))) by by apply FormatRFC3339_solid.
  rewrite decide_False by (intros E; pose proof (ParseRFC3339_Format _ Ht) as HP; by rewrite E in HP).
  by rewrite ParseRFC3339_Format.
Qed.

Lemma UnmarshalMessage_built f subj ctx e0 m :
  let e := injectTraceContext ctx e0 in
  envelope_ok e → marshalEnvelopeMessage subj e f = Ok m →
  UnmarshalMessage (Some (injectMessageTraceContext ctx m)) = Ok (transmitted f e).
Proof.
  intros e He. unfold marshalEnvelopeMessage.
  assert (∀ data, UnmarshalMessage (Some (injectMessageTraceContext ctx (NewMsg subj data)))
                  = UnmarshalEnvelope (A := A) data) as Hbody.
  { intros data. unfold UnmarshalMessage. rewrite no_cloudevent_headers.
    unfold injectMessageTraceContext. by case_decide. }
  case_decide as Hf.
  - destruct (marshalEnvelope e f) as [b|] eqn:Hb; [|done]. intros [= <-]. rewrite Hbody.
    unfold marshalEnvelope in Hb. destruct Hf as [->| ->].
    + rewrite decide_True in Hb by done. by apply UnmarshalEnvelope_json.
    + rewrite decide_False, decide_True in Hb by done. by apply UnmarshalEnvelope_proto.
  - case_decide; [|done]. subst f. by apply UnmarshalMessage_headers.
Qed.
End RoundTrip.

Lemma injectTraceContext_change `{!Codec A, !Telemetry C} (ctx : C) (e : Envelope A) :
  let e' := injectTraceContext ctx e in
  [ID e'; Type_ e'; Source e'; EnvTenantID e'] = [ID e; Type_ e; Source e; EnvTenantID e] ∧
  EnvPayload e' = EnvPayload e.
Proof. unfold injectTraceContext. cbn zeta. case_decide; [done|]. by destruct (negb _). Qed.

(** What the formats keep of a change. *)
Lemma transmitted_change `{!Codec A, !Telemetry C} (ctx : C) f (change : Change A) subj source id now :
  let e := injectTraceContext ctx (toCloudEvent change subj source id now) in
  let e' := transmitted f e in
  [TraceParent e'; TraceState e'; Baggage e'] = [TraceParent e; TraceState e; Baggage e] ∧
  EnvPayload e' = Payload change ∧
  (Forall (λ s, TrimSpace s = s) [id; subj; source; TenantID change] →
   [ID e'; Type_ e'; Source e'; EnvTenantID e'] = [id; subj; source; TenantID change]).
Proof.
  intros e e'. destruct (injectTraceContext_change ctx (toCloudEvent change subj source id now)) as [Hids Hp].
  fold e in Hids, Hp. injection Hids as H1 H2 H3 H4. cbn in H1, H2, H3, H4, Hp.
  split_and!; [done|by unfold e'; cbn; rewrite Hp|]. unfold e'. cbn. rewrite H1, H2, H3, H4.
  rewrite !Forall_cons. intros (E1 & E2 & E3 & E4 & _). case_decide; [|done]. by rewrite E1, E2, E3, E4.
Qed.

Section Delivery.
Context {A C W : Type} `{!Codec A, !Telemetry C, !Unicode, !Bus W C, !CodecLaws A, !PropagatorLaws C}.

(** C8: A consumer recovers the envelope of a message the publisher builds, in
    whichever of the three formats, without being told which.  This is for envelopes
    that every format can carry ([envelope_ok]: texts in UTF-8; an identifier, type
    and source that are not blank; a time of the calendar; a payload whose encoding
    is not blank).  What arrives is [transmitted]: the trace context and the payload
    of the change in every format; the time exact in protobuf, in whole seconds in
    JSON and headers; and the identifier, type, source and tenant exact in JSON and
    protobuf, and as header values without surrounding white space in the header
    format.  So when those four have none, all are those of the change. *)
Theorem envelope_survives_the_wire (p : Publisher C W) j ctx (change : Change A) w now w1 id w2 msg w' :
  pub_js p = Some j → recorded_at change w = (now, w1) → uuid_NewString w1 = (id, w2) →
  let e := injectTraceContext ctx
             (toCloudEvent change (subject change (subjectPrefix p)) (pub_source p) id now) in
  envelope_ok e → buildMessage (Some p) ctx change w = (Ok msg, w') →
  let e' := transmitted (normalizedWireFormat (wireFormat p)) e in
  UnmarshalMessage (Some msg) = Ok e' ∧
  [TraceParent e'; TraceState e'; Baggage e'] = [TraceParent e; TraceState e; Baggage e] ∧
  EnvPayload e' = Payload change ∧
  (Forall (λ s, TrimSpace s = s) [id; subject change (subjectPrefix p); pub_source p; TenantID change] →
   [ID e'; Type_ e'; Source e'; EnvTenantID e']
   = [id; subject change (subjectPrefix p); pub_source p; TenantID change]).
Proof.
  intros Hj Hnow Hid e He Hb e'. split; [revert Hb|by apply transmitted_change]. unfold buildMessage, client. cbn [mbind option_bind].
  rewrite Hj. cbn [mbind option_bind].
  rewrite Hnow, Hid. cbv zeta. fold e. destruct (marshalEnvelopeMessage _ e _) as [m|] eqn:E; [|done].
  intros [= <- _]. by apply UnmarshalMessage_built in E.
Qed.
End Delivery.

(** What the propagators promise: the configured one recovers the identifiers it
    injected or none, and any trace parent it writes is the one of version 00, which
    the TraceContext propagator reads. *)
Definition same_trace (a b : SpanContext) : Prop := TraceID a = TraceID b ∧ SpanID a = SpanID b.

Definition span_ok (sc : SpanContext) : Prop :=
  IsValid sc = true ∧ String.length (TraceID sc) = 32%nat ∧ String.length (SpanID sc) = 16%nat.

Class TracingLaws (C : Type) `{!Telemetry C} := {
  Inject_parent (ctx : C) :
    span_ok (SpanContextFromContext ctx) → carrier_get headerTraceParent (Inject ctx) ≠ "" →
    carrier_get headerTraceParent (Inject ctx) = traceparent (SpanContextFromContext ctx);
  Extract_Inject (ctx : C) get :
    span_ok (SpanContextFromContext ctx) → (∀ k v, Inject ctx !! k = Some v → get k = v) →
    IsValid (SpanContextFromContext (Extract Background_ get)) = true →
    same_trace (SpanContextFromContext (Extract Background_ get)) (SpanContextFromContext ctx);
  TraceContextExtract_parent (ctx : C) sc get :
    span_ok sc → get headerTraceParent = traceparent sc →
    same_trace (SpanContextFromContext (TraceContextExtract ctx get)) sc;
}.

Section Hops.
Context {A C : Type} `{!Codec A, !Telemetry C, !Unicode, !PropagatorLaws C, !TracingLaws C}.

Lemma propagated_parent (ctx : C) :
  span_ok (SpanContextFromContext ctx) →
  propagated ctx !! headerTraceParent = Some (traceparent (SpanContextFromContext ctx)).
Proof.
  intros Hs. unfold propagated. pose proof (Inject_parent ctx Hs) as Hp. case_decide as E.
  - rewrite (proj1 Hs). case_decide.
    + by rewrite lookup_insert_eq.
    + by rewrite lookup_insert_ne, lookup_insert_eq by done.
  - specialize (Hp E). rewrite <- Hp. unfold carrier_get in *. by destruct (Inject ctx !! headerTraceParent).
Qed.

Lemma propagated_Inject (ctx : C) k v : Inject ctx !! k = Some v → propagated ctx !! k = Some v.
Proof.
  intros Hk. unfold propagated. case_decide as E; [|done]. destruct (IsValid _); [|done].
  assert (k ≠ headerTraceParent) as Hp.
  { intros ->. unfold carrier_get in E. rewrite Hk in E. by apply Inject_value in Hk as [_ ?]. }
  assert (k ≠ headerTraceState) as Hs by (intros ->; by rewrite (Inject_state ctx E) in Hk).
  case_decide; by rewrite !lookup_insert_ne by done.
Qed.

(** C26: The trace of a publisher reaches its consumers: whatever propagator is
    configured, even none, the context extracted from a message that carries the
    trace of a valid span has the trace and span identifiers of that span. *)
Theorem trace_crosses_the_bus (ctx : C) (m : Msg) :
  span_ok (SpanContextFromContext ctx) →
  same_trace (SpanContextFromContext (extractMessageContext (A := A) (Some (injectMessageTraceContext ctx m))).1)
             (SpanContextFromContext ctx).
Proof.
  intros Hs. pose proof (propagated_parent ctx Hs) as Hp.
  set (m' := newNATSHeaderCarrier (injectMessageTraceContext ctx m)).
  assert (∀ k v, propagated ctx !! k = Some v → HeaderGet k (Header m') = v) as Hget.
  { intros k v Hk. transitivity (HeaderGet k (Header (injectMessageTraceContext ctx m))).
    - unfold m'. cbn [newNATSHeaderCarrier set_header_map Header]. by destruct (Header _).
    - by rewrite HeaderGet_inject, Hk. }
  unfold extractMessageContext. fold m'.
  assert (headerTraceContextPresent (Header m') = true) as ->.
  { unfold headerTraceContextPresent. unfold m' at 1. cbn [newNATSHeaderCarrier set_header_map Header].
    rewrite (Hget _ _ Hp). by apply bool_decide_eq_true_2. }
  destruct (IsValid _) eqn:E; cbn [fst].
  - apply Extract_Inject; [done| |done]. intros k v Hk. by apply Hget, propagated_Inject.
  - unfold propagationFallbackExtract. rewrite (Hget _ _ Hp), decide_False by done.
    by apply TraceContextExtract_parent; [|apply Hget].
Qed.
End Hops.

(** ** Instances

    A payload of one boolean, encoders for it, contexts that are span contexts with
    no propagator configured, and a bus whose clock and identifiers are fixed. *)

Module BoolBus.
Definition ok_or {X} (o : option X) : result error X :=
  match o with Some x => Ok x | None => Err (ErrForeign 3 "proto: cannot parse") end.

Definition envelope_tuple (m : EventEnvelope bool) :=
  (ee_SpecVersion m, ee_Id m, ee_Type m, ee_Source m, (λ t, (seconds t, nanos t)) <$> ee_Time m,
   ee_DataContentType m, (ee_TenantId m, ee_Data m, ee_TraceParent m, ee_TraceState m, ee_Baggage m)).

Definition tuple_envelope '(sv, i, ty, so, tm, ct, (te, da, tp, ts, ba)) : EventEnvelope bool :=
  {| ee_SpecVersion := sv; ee_Id := i; ee_Type := ty; ee_Source := so;
     ee_Time := (λ t, {| seconds := t.1; nanos := t.2 |}) <$> tm; ee_DataContentType := ct;
     ee_TenantId := te; ee_Data := da; ee_TraceParent := tp; ee_TraceState := ts; ee_Baggage := ba |}.

Lemma tuple_envelope_inv m : tuple_envelope (envelope_tuple m) = m.
Proof. destruct m as [? ? ? ? [[]|]]; done. Qed.

Fixpoint bits (p : positive) : list ascii :=
  match p with xH => [] | xO p => "0"%char :: bits p | xI p => "1"%char :: bits p end.
Fixpoint unbits (l : list ascii) : positive :=
  match l with
  | [] => xH
  | a :: l => if decide (a = "0"%char) then xO (unbits l) else xI (unbits l)
  end.

Lemma unbits_bits p : unbits (bits p) = p.
Proof. induction p as [p IH|p IH|]; cbn; by rewrite ?IH. Qed.

(** The tag and length of the version, then the fields. *)
Definition header_bytes : list ascii := [ascii_of_nat 10; ascii_of_nat 3].

Definition envelope_bytes (m : EventEnvelope bool) : string :=
  of_bytes (header_bytes ++ bits (encode (envelope_tuple m))).

#[export] Instance codec : Codec bool := {
  envelope_Marshal m := Ok (envelope_bytes m);
  envelope_Unmarshal b := ok_or (tuple_envelope <$> decode (unbits (drop 2 (bytes_of b))));
  any_Marshal (b : bool) := Ok (if b then "t" else "f");
  any_Unmarshal s := Ok (bool_decide (s = "t"));
  protojson_Marshal b := Ok ("{ " +:+ json_string "value" +:+ ": " +:+ Marshal (JBool b) +:+ "}");
  protojson_Unmarshal t := ok_or (j ← parse_json t;
    match j with JObject [(_, JBool b)] => Some b | _ => None end);
}.

#[export] Instance codec_laws : CodecLaws bool.
Proof.
  split.
  - intros m b Hb. assert (b = envelope_bytes m) as ->
      by (change (Ok (E := error) (envelope_bytes m) = Ok b) in Hb; congruence).
    cbn [envelope_Unmarshal codec]. unfold envelope_bytes. rewrite bytes_of_of_bytes.
    assert (∀ l, drop 2 (header_bytes ++ l) = l) as -> by done.
    rewrite unbits_bits, decode_encode. cbn [fmap option_fmap option_map ok_or]. by rewrite tuple_envelope_inv.
  - intros m b Hb _. assert (b = envelope_bytes m) as ->
      by (change (Ok (E := error) (envelope_bytes m) = Ok b) in Hb; congruence).
    unfold envelope_bytes. rewrite bytes_of_of_bytes. eexists _, _. split; [done|]. left. split; [done|]. by eexists _, _.
  - by intros [] b [= <-].
  - intros b t [= <-]. split; [destruct b; vm_compute; by eexists|]. exists [("value", JBool b)].
    split; [by repeat constructor|]. by destruct b; vm_compute.
Qed.

(** The identifiers of a version 00 trace parent. *)
Definition parse_parent (s : string) : SpanContext :=
  {| TraceID := String.substring 3 32 s; SpanID := String.substring 36 16 s; TraceFlags := 0; ScTraceState := "" |}.

Definition no_span : SpanContext :=
  {| TraceID := zero_id 32; SpanID := zero_id 16; TraceFlags := 0; ScTraceState := "" |}.

#[export] Instance telemetry : Telemetry SpanContext := {
  Background_ := no_span;
  SpanContextFromContext c := c;
  StartSpan c := c;
  Inject _ := ∅;
  Extract c _ := c;
  TraceContextExtract _ get := parse_parent (get headerTraceParent);
}.

#[export] Instance propagator_laws : PropagatorLaws SpanContext.
Proof. by split. Qed.

Lemma substring_app s t n : String.length s = n → String.substring 0 n (s +:+ t) = s.
Proof. intros <-. induction s as [|a s IH]; [by destruct t|]. rewrite append_cons. cbn. by f_equal. Qed.

Lemma substring_skip s t n k m :
  String.length s = n → String.substring (n + k) m (s +:+ t) = String.substring k m t.
Proof. intros <-. induction s as [|a s IH]; [done|]. rewrite append_cons. cbn. apply IH. Qed.

#[export] Instance tracing_laws : TracingLaws SpanContext.
Proof.
  split; [done|done|]. intros ctx sc get (_ & Ht & Hs) E. cbn [TraceContextExtract telemetry]. rewrite E.
  unfold traceparent, parse_parent. split; cbn [SpanContextFromContext telemetry TraceID SpanID].
  - rewrite (substring_skip "00-" _ 3 0) by done. by apply substring_app.
  - rewrite (substring_skip "00-" _ 3 33), (substring_skip (TraceID sc) _ 32 1) by done.
    rewrite (substring_skip "-" _ 1 0) by done. by apply substring_app.
Qed.

#[export] Instance bus : Bus Z SpanContext := {
  js := unit;
  time_Now w := (w, w + 1);
  uuid_NewString w := ("id-" +:+ FormatInt w, w + 1);
  PublishMsg _ _ _ w := (None, w);
}.

Definition span : SpanContext :=
  {| TraceID := "0af7651916cd43dd8448eb211c80319c"; SpanID := "b7ad6b7169203331"; TraceFlags := 1;
     ScTraceState := "k=v" |}.

Definition change : Change bool :=
  {| Sequence := 1; TenantID := "acme"; AggregateType := "user"; AggregateID := "u1"; Operation := "created";
     AggregateVersion := 1; RecordedAt := 63872000000500000000; Payload := Some true |}.

Definition publisher (f : string) : Publisher SpanContext Z :=
  {| pub_js := Some tt; subjectPrefix := "svc.changes"; pub_source := "svc"; wireFormat := f |}.

Definition built (f : string) : Msg :=
  match (buildMessage (Some (publisher f)) span change 7).1 with Ok m => m | Err _ => NewMsg "" "" end.
End BoolBus.
#[local] Existing Instances BoolBus.codec BoolBus.codec_laws BoolBus.telemetry BoolBus.propagator_laws
  BoolBus.tracing_laws BoolBus.bus ascii_unicode.

Lemma envelope_survives_the_wire_witness :
  let e := injectTraceContext BoolBus.span (toCloudEvent BoolBus.change "svc.changes.user.created" "svc" "id-7" 0) in
  Forall (λ f, UnmarshalMessage (Some (BoolBus.built f)) = Ok (transmitted f e) ∧
               [ID (transmitted f e); EnvTenantID (transmitted f e)] = ["id-7"; "acme"])
    [WireFormatJSON; WireFormatProto; WireFormatProtoHeaders].
Proof.
  intros e.
  assert (envelope_ok (e : Envelope bool)) as He.
  { split_and!; [done..|by repeat constructor|by repeat constructor|by vm_compute|done|].
    intros [] b _ [= <-]; by vm_compute. }
  assert (∀ f w', pub_js (BoolBus.publisher f) = Some tt →
    buildMessage (Some (BoolBus.publisher f)) BoolBus.span BoolBus.change 7 = (Ok (BoolBus.built f), w') →
    UnmarshalMessage (Some (BoolBus.built f)) = Ok (transmitted (normalizedWireFormat f) e) ∧
    [ID (transmitted (normalizedWireFormat f) e); EnvTenantID (transmitted (normalizedWireFormat f) e)]
    = ["id-7"; "acme"]) as Hall.
  { intros f w' Hj Hm. pose proof (envelope_survives_the_wire (BoolBus.publisher f) tt BoolBus.span BoolBus.change 7
      63872000000500000000 7 "id-7" 8 (BoolBus.built f) w' Hj eq_refl eq_refl He Hm) as (Hu & _ & _ & Hids).
    split; [exact Hu|]. specialize (Hids ltac:(repeat constructor; by vm_compute)).
    injection Hids as H1 _ _ H2. exact (f_equal2 (λ a b, [a; b]) H1 H2). }
  repeat apply Forall_cons_2; [eapply Hall; [done|vm_compute; reflexivity]..|apply Forall_nil_2].
Defined.

Lemma trace_crosses_the_bus_witness :
  same_trace (SpanContextFromContext (extractMessageContext (A := bool)
                (Some (injectMessageTraceContext BoolBus.span (NewMsg "s" "x")))).1)
             (SpanContextFromContext BoolBus.span).
Proof. apply (trace_crosses_the_bus (A := bool) BoolBus.span (NewMsg "s" "x")). by vm_compute. Defined.
