(* ===== verification/NatsReliable.v ===== *)
(** * Reliable publishing (src/natsbus/reliable.go)

    A publisher that retries behind a circuit breaker and keeps what could not be
    published as files of a dead-letter directory, replayed oldest first.

    The world is the environment of the bus with the entries of the directory.
    Every file operation can fail; [snapshots] records the directory after each
    operation that changes it, which is what a crash can leave.  Identifiers are
    UUIDs, so a file name is an entry of the directory. *)

From S2P Require Import Prelude GoStrings GoTime GoErrors Breaker GoFloat Retry Base64 Json RtErrors NatsBus.
From Stdlib Require Import Ascii.
#[local] Open Scope Z_scope.

Definition defaultReplayInterval : duration := 30 * Second.
Definition defaultReplayBatchSize : Z := 10.
Definition errDeadLetterDirRequired : error := ErrNew "errDeadLetterDirRequired" "dead_letter_dir_required".

(** ** The directory *)

Inductive node := FileNode (content : string) | DirNode.
Abbreviation Disk := (gmap string node).

(** Errors of file operations: whether the next one fails, how much of a failing
    write got through, the random part of a temporary name.  [Register] is
    prometheus registration. *)
Class Host (E : Type) := {
  fault : E → option error * E;
  written : string → E → string * E;
  random_part : E → string * E;
  Register : string → E → registration * E;
}.

Record World (E : Type) := { env : E; disk : Disk; snapshots : list Disk }.
Arguments env {E} _.
Arguments disk {E} _.
Arguments snapshots {E} _.

Definition not_exist : error := ErrForeign 4 "no such file or directory".
Definition file_exists : error := ErrForeign 5 "file exists".

Section Files.
Context {E : Type} `{!Host E}.

Definition set_env (e : E) (w : World E) : World E :=
  {| env := e; disk := disk w; snapshots := snapshots w |}.
Definition set_disk (d : Disk) (w : World E) : World E :=
  {| env := env w; disk := d; snapshots := snapshots w ++ [d] |}.

(** Run a file operation unless it fails. *)
Definition attempt {X} (op : World E → result error X * World E) (w : World E) : result error X * World E :=
  match fault (env w) with
  | (Some e, env) => (Err e, set_env env w)
  | (None, env) => op (set_env env w)
  end.

Definition MkdirAll : World E → result error unit * World E := attempt (λ w, (Ok tt, w)).

(** The names of the entries, and whether each is a directory. *)
Definition ReadDir : World E → result error (list (string * bool)) * World E :=
  attempt (λ w, (Ok ((λ x, (x.1, match x.2 with DirNode => true | FileNode _ => false end))
                       <$> map_to_list (disk w)), w)).

Definition ReadFile (name : string) : World E → result error string * World E :=
  attempt (λ w, match disk w !! name with Some (FileNode c) => (Ok c, w) | _ => (Err not_exist, w) end).

Definition CreateTemp (prefix suffix : string) : World E → result error string * World E :=
  attempt (λ w, let '(r, env) := random_part (env w) in
                let name := prefix +:+ r +:+ suffix in
                let w := set_env env w in
                match disk w !! name with
                | Some _ => (Err file_exists, w)
                | None => (Ok name, set_disk (<[name := FileNode ""]> (disk w)) w)
                end).

(** A failing write may leave part of the data. *)
Definition WriteFile (name data : string) (w : World E) : option error * World E :=
  match fault (env w) with
  | (None, env) => (None, set_disk (<[name := FileNode data]> (disk w)) (set_env env w))
  | (Some e, env) =>
      let '(part, env) := written data env in
      (Some e, set_disk (<[name := FileNode part]> (disk w)) (set_env env w))
  end.

Definition CloseFile : World E → result error unit * World E := attempt (λ w, (Ok tt, w)).

Definition Rename (old new : string) : World E → result error unit * World E :=
  attempt (λ w, match disk w !! old, disk w !! new with
                | Some n, Some (FileNode _) | Some n, None =>
                    (Ok tt, set_disk (<[new := n]> (delete old (disk w))) w)
                | _, _ => (Err not_exist, w)
                end).

Definition Remove (name : string) : World E → result error unit * World E :=
  attempt (λ w, match disk w !! name with
                | Some _ => (Ok tt, set_disk (delete name (disk w)) w)
                | None => (Err not_exist, w)
                end).
End Files.

(** ** Records *)

Record deadLetterRecord := {
  recID : string; CreatedAt : time; recSubject : string; recHeader : NatsHeader; recData : string; LastError : string
}.

Definition cloneMessageHeader (h : NatsHeader) : NatsHeader :=
  match h with None => None | Some m => Some ((λ values, [] ++ values) <$> m) end.

Definition cloneMessage (m : option Msg) : option Msg :=
  match m with
  | None => None
  | Some m => Some {| Subject := Subject m; Reply := Reply m; Header := cloneMessageHeader (Header m);
                      Data := "" +:+ Data m |}
  end.

(** [json.Marshal] of a header: keys in order, an empty slice is nil. *)
Definition slice_json (vs : list string) : json :=
  match vs with [] => JNull | _ => JArray (JString <$> vs) end.

Definition header_json (m : gmap string (list string)) : json :=
  JObject ((λ k, (k, slice_json (default [] (m !! k)))) <$> SortStrings ((map_to_list m).*1)).

Definition in_years (t : time) : bool :=
  let y := cYear (civil_of t) in (0 <=? y) && (y <=? 9999).

Definition record_json (r : deadLetterRecord) : json :=
  JObject ([("id", JString (recID r)); ("created_at", JString (FormatRFC3339Nano (CreatedAt r)));
            ("subject", JString (recSubject r))]
           ++ (match recHeader r with
               | Some m => if decide (m = ∅) then [] else [("header", header_json m)]
               | None => []
               end)
           ++ (if decide (recData r = "") then [] else [("data", JString (EncodeToString (recData r)))])
           ++ (if decide (LastError r = "") then [] else [("last_error", JString (LastError r))])).

(** [json.Marshal]: a time outside the years 0 to 9999 is an error. *)
Definition marshal_record (r : deadLetterRecord) : result error string :=
  if in_years (CreatedAt r) then Ok (Marshal (record_json r)) else Err json_error.

Definition json_strings (j : json) : option (list string) :=
  match j with
  | JNull => Some []
  | JArray l => mapM (λ v, match v with JString s => Some s | JNull => Some "" | _ => None end) l
  | _ => None
  end.

Definition assign_header (h : NatsHeader) (j : json) : option NatsHeader :=
  match j with
  | JNull => Some None
  | JObject fs =>
      kvs ← mapM (λ kv, vs ← json_strings kv.2; Some (kv.1, vs)) fs;
      Some (Some (foldl (λ m kv, <[kv.1 := kv.2]> m) (default ∅ h) kvs))
  | _ => None
  end.

Definition assign_data (d : string) (j : json) : option string :=
  match j with JNull => Some "" | JString s => DecodeString s | _ => None end.

Definition assign_time (t : time) (j : json) : option time :=
  match j with JNull => Some t | JString s => ParseRFC3339 s | _ => None end.

Definition unmarshal_record (s : string) : result error deadLetterRecord :=
  match
    ms ← struct_members s;
    id ← string_field "id" ms;
    at_ ← fold_field "created_at" assign_time zero_time ms;
    subj ← string_field "subject" ms;
    header ← fold_field "header" assign_header None ms;
    data ← fold_field "data" assign_data "" ms;
    last ← string_field "last_error" ms;
    Some {| recID := id; CreatedAt := at_; recSubject := subj; recHeader := header; recData := data;
            LastError := last |}
  with
  | Some r => Ok r
  | None => Err json_error
  end.

(** [storedDeadLetter] is a record with the name of its file. *)
Definition message (r : deadLetterRecord) : Msg :=
  {| Subject := recSubject r; Reply := ""; Header := cloneMessageHeader (recHeader r);
     Data := "" +:+ recData r |}.

(** ** The store *)

Record deadLetterStore := { baseDir : string; count : Z }.

Definition set_count (n : Z) (s : deadLetterStore) : deadLetterStore := {| baseDir := baseDir s; count := n |}.

Definition is_letter_name (name : string) : bool := HasSuffix name ".json".

Definition file_name (r : deadLetterRecord) : string :=
  FormatCompact (CreatedAt r) +:+ "-" +:+ recID r +:+ ".json".

Definition with_id (id : string) (r : deadLetterRecord) : deadLetterRecord :=
  {| recID := id; CreatedAt := CreatedAt r; recSubject := recSubject r; recHeader := recHeader r;
     recData := recData r; LastError := LastError r |}.
Definition with_time (t : time) (r : deadLetterRecord) : deadLetterRecord :=
  {| recID := recID r; CreatedAt := t; recSubject := recSubject r; recHeader := recHeader r;
     recData := recData r; LastError := LastError r |}.

Definition entry_le (a b : string * bool) : Prop := string_le a.1 b.1.
#[export] Instance entry_le_dec : RelDecision entry_le.
Proof. intros a b. unfold entry_le. apply _. Defined.
#[export] Instance entry_le_total : Total entry_le.
Proof. intros a b. apply string_le_total. Qed.
#[export] Instance entry_le_trans : Transitive entry_le.
Proof. intros a b c. apply string_le_trans. Qed.

Section Store.
Context {C E : Type} `{!Host E, !Bus E C}.
(** [Options.Clock]. *)
Context (clock : E → time * E).

Definition scanCount (w : World E) : result error Z * World E :=
  match ReadDir w with
  | (Err e, w) => (Err (ErrWrap "scan dead-letter dir: " e ""), w)
  | (Ok entries, w) =>
      (Ok (Z.of_nat (length (filter (λ x : string * bool, x.2 = false ∧ is_letter_name x.1 = true) entries))), w)
  end.

Definition newDeadLetterStore (dir : string) (w : World E) : result error deadLetterStore * World E :=
  let trimmed := TrimSpace dir in
  if decide (trimmed = "") then (Err errDeadLetterDirRequired, w)
  else
    match MkdirAll w with
    | (Err e, w) => (Err (ErrWrap "create dead-letter dir: " e ""), w)
    | (Ok _, w) =>
        match scanCount w with
        | (Err e, w) => (Err e, w)
        | (Ok n, w) => (Ok {| baseDir := trimmed; count := n |}, w)
        end
    end.

(** The deferred removal of the temporary file. *)
Definition cleanup (tmpName : string) (r : option error * deadLetterStore * World E)
  : option error * deadLetterStore * World E :=
  let '(err, s, w) := r in (err, s, (Remove tmpName w).2).

Definition Save (s : deadLetterStore) (record : deadLetterRecord) (w : World E)
  : option error * deadLetterStore * World E :=
  let '(record, w) :=
    if is_zero_time (CreatedAt record)
    then let '(t, e) := clock (env w) in (with_time t record, set_env e w) else (record, w) in
  let '(record, w) :=
    if blank (recID record)
    then let '(id, e) := uuid_NewString (env w) in (with_id id record, set_env e w) else (record, w) in
  match marshal_record record with
  | Err e => (Some (ErrWrap "marshal dead letter: " e ""), s, w)
  | Ok payload =>
      match CreateTemp "natsbus-dead-letter-" ".tmp" w with
      | (Err e, w) => (Some (ErrWrap "create dead-letter temp file: " e ""), s, w)
      | (Ok tmpName, w) =>
          cleanup tmpName
            match WriteFile tmpName payload w with
            | (Some e, w) => (Some (ErrWrap "write dead-letter temp file: " e ""), s, (CloseFile w).2)
            | (None, w) =>
                match CloseFile w with
                | (Err e, w) => (Some (ErrWrap "close dead-letter temp file: " e ""), s, w)
                | (Ok _, w) =>
                    match Rename tmpName (file_name record) w with
                    | (Err e, w) => (Some (ErrWrap "finalize dead-letter file: " e ""), s, w)
                    | (Ok _, w) => (None, set_count (wrap64 (count s + 1)) s, w)
                    end
                end
            end
      end
  end.

(** The loop of [List] over the sorted entries; [n] records are still wanted. *)
Fixpoint list_loop (s : deadLetterStore) (n : nat) (entries : list (string * bool)) (w : World E)
  : result error (list (string * deadLetterRecord)) * World E :=
  match entries with
  | [] => (Ok [], w)
  | (name, isDir) :: entries =>
      if isDir || negb (is_letter_name name) then list_loop s n entries w
      else
        let path := join_path (baseDir s) name in
        match ReadFile name w with
        | (Err e, w) => (Err (ErrWrap ("read dead letter " +:+ path +:+ ": ") e ""), w)
        | (Ok payload, w) =>
            match unmarshal_record payload with
            | Err e => (Err (ErrWrap ("decode dead letter " +:+ path +:+ ": ") e ""), w)
            | Ok record =>
                match n with
                | S (S n) =>
                    match list_loop s (S n) entries w with
                    | (Ok records, w) => (Ok ((name, record) :: records), w)
                    | (Err e, w) => (Err e, w)
                    end
                | _ => (Ok [(name, record)], w)
                end
            end
        end
  end.

(** Names are distinct, so sorting them sorts the entries. *)
Definition sort_entries (entries : list (string * bool)) : list (string * bool) :=
  merge_sort entry_le entries.

Definition List_ (s : deadLetterStore) (limit : Z) (w : World E)
  : result error (list (string * deadLetterRecord)) * World E :=
  match ReadDir w with
  | (Err e, w) => (Err (ErrWrap "list dead letters: " e ""), w)
  | (Ok entries, w) => list_loop s (Z.to_nat limit) (sort_entries entries) w
  end.

Definition Delete (s : deadLetterStore) (name : string) (w : World E)
  : option error * deadLetterStore * World E :=
  match Remove name w with
  | (Err e, w) => (Some (ErrWrap ("remove dead letter " +:+ join_path (baseDir s) name +:+ ": ") e ""), s, w)
  | (Ok _, w) => (None, set_count (wrap64 (count s - 1)) s, w)
  end.

Definition Count (s : deadLetterStore) : Z := count s.
End Store.

(** ** The publisher *)

Record ReliableOptions (F : Type) := {
  PublisherOptions : Options;
  RetryOptions : RetryConfig F;
  BreakerOptions : BreakerConfig;
  DeadLetterDir : string;
  ReplayInterval : duration;
  ReplayBatchSize : Z;
}.
Arguments PublisherOptions {F} _.
Arguments RetryOptions {F} _.
Arguments BreakerOptions {F} _.
Arguments DeadLetterDir {F} _.
Arguments ReplayInterval {F} _.
Arguments ReplayBatchSize {F} _.

(** The clock and the registerer are arguments; a missing one has its default. *)
Definition reliableDefaults {F} (o : ReliableOptions F) : ReliableOptions F :=
  {| PublisherOptions := PublisherOptions o; RetryOptions := RetryOptions o; BreakerOptions := BreakerOptions o;
     DeadLetterDir := DeadLetterDir o;
     ReplayInterval := if ReplayInterval o <=? 0 then defaultReplayInterval else ReplayInterval o;
     ReplayBatchSize := if ReplayBatchSize o <? 1 then defaultReplayBatchSize else ReplayBatchSize o |}.

Section Reliable.
Context {A C E F G : Type} `{!Codec A, !Telemetry C, !Bus E C, !Host E, !RetryWorld E, !Float64 F, !CallGuard G}.
Context (clock : E → time * E).

(** The two metrics: failures counted and the gauge. *)
Record reliableMetrics := { publishFailuresTotal : Z; deadLetterSize : Z }.

Definition recordPublishFailure (m : reliableMetrics) : reliableMetrics :=
  {| publishFailuresTotal := publishFailuresTotal m + 1; deadLetterSize := deadLetterSize m |}.
Definition setDeadLetterSize (n : Z) (m : reliableMetrics) : reliableMetrics :=
  {| publishFailuresTotal := publishFailuresTotal m; deadLetterSize := n |}.

(** [registerCounter] and [registerGauge]: a collector of the same type that is
    registered already is used instead. *)
Definition register (name : string) (w : World E) : option error * World E :=
  match Register name (env w) with
  | (Registered, e) => (None, set_env e w)
  | (AlreadyRegistered true _, e) => (None, set_env e w)
  | (AlreadyRegistered false err, e) => (Some err, set_env e w)
  | (RegisterFailed err, e) => (Some err, set_env e w)
  end.

Definition newReliableMetrics (w : World E) : result error reliableMetrics * World E :=
  match register "natsbus_publish_failures_total" w with
  | (Some e, w) => (Err e, w)
  | (None, w) =>
      match register "natsbus_dead_letter_size" w with
      | (Some e, w) => (Err e, w)
      | (None, w) => (Ok {| publishFailuresTotal := 0; deadLetterSize := 0 |}, w)
      end
  end.

Record ReliablePublisher := {
  inner : option (Publisher C E);
  retryCfg : RetryConfig F;
  breaker : G;
  deadLetters : deadLetterStore;
  metrics : reliableMetrics;
  replayInterval : duration;
  replayBatchSize : Z;
}.

Definition set_guard (g : G) (p : ReliablePublisher) : ReliablePublisher :=
  {| inner := inner p; retryCfg := retryCfg p; breaker := g; deadLetters := deadLetters p;
     metrics := metrics p; replayInterval := replayInterval p; replayBatchSize := replayBatchSize p |}.
Definition set_store (s : deadLetterStore) (p : ReliablePublisher) : ReliablePublisher :=
  {| inner := inner p; retryCfg := retryCfg p; breaker := breaker p; deadLetters := s;
     metrics := metrics p; replayInterval := replayInterval p; replayBatchSize := replayBatchSize p |}.
Definition set_metrics (m : reliableMetrics) (p : ReliablePublisher) : ReliablePublisher :=
  {| inner := inner p; retryCfg := retryCfg p; breaker := breaker p; deadLetters := deadLetters p;
     metrics := m; replayInterval := replayInterval p; replayBatchSize := replayBatchSize p |}.

(** [NewReliablePublisher]; [NewBreaker] is the constructor of the guard. *)
Definition NewReliablePublisher (NewBreaker : BreakerConfig → G) (publisher : option (Publisher C E))
  (opts : ReliableOptions F) (w : World E) : result error ReliablePublisher * World E :=
  let opts := reliableDefaults opts in
  if blank (DeadLetterDir opts) then (Err errDeadLetterDirRequired, w)
  else
    match client publisher with
    | None => (Err ErrPublisherNil, w)
    | Some _ =>
        match newDeadLetterStore (DeadLetterDir opts) w with
        | (Err e, w) => (Err e, w)
        | (Ok store, w) =>
            match newReliableMetrics w with
            | (Err e, w) => (Err e, w)
            | (Ok metrics, w) =>
                (Ok {| inner := publisher; retryCfg := RetryOptions opts;
                       breaker := NewBreaker (BreakerOptions opts); deadLetters := store;
                       metrics := setDeadLetterSize (Count store) metrics;
                       replayInterval := ReplayInterval opts; replayBatchSize := ReplayBatchSize opts |}, w)
            end
        end
    end.

Definition publishMessage (p : ReliablePublisher) (j : js) (ctx : C) (m : Msg) (w : World E)
  : option error * ReliablePublisher * World E :=
  let '(err, e, g) :=
    guard_do (λ e, Retry (retryCfg p) (λ e,
      match cloneMessage (Some m) with Some m => PublishMsg j ctx m e | None => (None, e) end) e)
      (breaker p) (env w) in
  (err, set_guard g p, set_env e w).

Definition refresh_size (p : ReliablePublisher) : ReliablePublisher :=
  set_metrics (setDeadLetterSize (Count (deadLetters p)) (metrics p)) p.

Definition handleDeadLetter (p : ReliablePublisher) (m : Msg) (publishErr : error) (w : World E)
  : error * ReliablePublisher * World E :=
  let p := set_metrics (recordPublishFailure (metrics p)) p in
  let '(id, e) := uuid_NewString (env w) in
  let '(now, e) := clock e in
  let record := {| recID := id; CreatedAt := now; recSubject := Subject m;
                   recHeader := cloneMessageHeader (Header m); recData := "" +:+ Data m;
                   LastError := Error_ publishErr |} in
  let '(err, s, w) := Save (C := C) clock (deadLetters p) record (set_env e w) in
  let p := set_store s p in
  match err with
  | Some err =>
      (ErrWrap ("publish " +:+ Subject m +:+ " failed: ") publishErr ("; persist dead letter: " +:+ Error_ err),
       p, w)
  | None =>
      (ErrWrap ("publish " +:+ Subject m +:+ " failed after retries and was dead-lettered: ") publishErr "",
       refresh_size p, w)
  end.

(** [Publish] through a publisher [p] that is not nil. *)
Definition PublishReliable (p : ReliablePublisher) (ctx : C) (change : Change A) (w : World E)
  : option error * ReliablePublisher * World E :=
  match client (inner p) with
  | None => (Some ErrPublisherNil, p, w)
  | Some (_, j) =>
      let ctx := StartSpan ctx in
      match buildMessage (inner p) ctx change (env w) with
      | (Err e, env) => (Some e, p, set_env env w)
      | (Ok m, env) =>
          match publishMessage p j ctx m (set_env env w) with
          | (Some err, p, w) => let '(err, p, w) := handleDeadLetter p m err w in (Some err, p, w)
          | (None, p, w) => (None, p, w)
          end
      end
  end.

(** [PublishChange] logs the error. *)
Definition PublishChangeReliable (p : ReliablePublisher) (ctx : C) (change : Change A) (w : World E)
  : ReliablePublisher * World E :=
  match client (inner p) with
  | None => (p, w)
  | Some _ => let '(_, p, w) := PublishReliable p ctx change w in (p, w)
  end.

(** The loop of [replayOnce] over the listed records. *)
Fixpoint replay_loop (p : ReliablePublisher) (j : js) (ctx : C) (records : list (string * deadLetterRecord))
  (w : World E) : option error * ReliablePublisher * World E :=
  match records with
  | [] => (None, p, w)
  | (name, record) :: records =>
      match publishMessage p j ctx (message record) w with
      | (Some e, p, w) => (Some (ErrWrap ("replay dead letter " +:+ name +:+ ": ") e ""), p, w)
      | (None, p, w) =>
          match Delete (deadLetters p) name w with
          | (Some e, s, w) => (Some e, set_store s p, w)
          | (None, s, w) => replay_loop (refresh_size (set_store s p)) j ctx records w
          end
      end
  end.

(** [replayOnce] and [ReplayPending] with the client [j] of the publisher. *)
Definition replayOnce (p : ReliablePublisher) (j : js) (ctx : C) (w : World E)
  : option error * ReliablePublisher * World E :=
  match List_ (deadLetters p) (replayBatchSize p) w with
  | (Err e, w) => (Some e, p, w)
  | (Ok records, w) => replay_loop p j ctx records w
  end.

Definition ReplayPending (p : option ReliablePublisher) (j : js) (ctx : C) (w : World E)
  : option error * option ReliablePublisher * World E :=
  match p with
  | None => (Some ErrPublisherNil, None, w)
  | Some p => let '(r, p, w) := replayOnce p j ctx w in (r, Some p, w)
  end.

(** [replayLoop] over [n] ticks of its timer; errors are logged. *)
Fixpoint replayLoop (n : nat) (p : ReliablePublisher) (j : js) (ctx : C) (w : World E)
  : ReliablePublisher * World E :=
  match n with
  | O => (p, w)
  | S n => let '(_, p, w) := replayOnce p j ctx w in replayLoop n p j ctx w
  end.
End Reliable.

(** ** Connecting *)

Section ConnectReliable.
Context {C E F G : Type} `{!Bus E C, !Connector E C, !Host E, !Float64 F}.

Definition ConnectReliable (NewBreaker : BreakerConfig → G) (natsURL streamName prefix : string)
  (opts : ReliableOptions F) (w : World E)
  : result error (ReliablePublisher (C := C) (E := E) (F := F) (G := G) * conn) * World E :=
  let opts := reliableDefaults opts in
  if blank (DeadLetterDir opts) then (Err errDeadLetterDirRequired, w)
  else
    match ConnectWithOptions natsURL streamName prefix (PublisherOptions opts) (env w) with
    | (Err e, env) => (Err e, set_env env w)
    | (Ok (publisher, connection), env) =>
        match NewReliablePublisher NewBreaker (Some publisher) opts (set_env env w) with
        | (Err e, w) => (Err e, set_env (Close (Some connection) (NatsReliable.env w)) w)
        | (Ok reliable, w) => (Ok (reliable, connection), w)
        end
    end.

(** [Close]: replay has stopped when the connection closes. *)
Definition CloseReliable (p : option (ReliablePublisher (C := C) (E := E) (F := F) (G := G) * conn)) (w : World E)
  : World E :=
  match p with None => w | Some (_, connection) => set_env (Close (Some connection) (env w)) w end.
End ConnectReliable.

(** ** Records are read back *)

Lemma foldl_insert_lookup {X} (f : string → X) ks (acc : gmap string X) i :
  foldl (λ m kv, <[kv.1 := kv.2]> m) acc ((λ k, (k, f k)) <$> ks) !! i =
  if decide (i ∈ ks) then Some (f i) else acc !! i.
Proof.
  revert acc. induction ks as [|k ks IH]; intros acc; [done|]. cbn [fmap list_fmap foldl fst snd]. rewrite IH.
  destruct (decide (i ∈ ks)) as [Hin|Hni].
  - by rewrite decide_True by by constructor.
  - destruct (decide (i = k)) as [->|Hne].
    + by rewrite lookup_insert_eq, decide_True by constructor.
    + rewrite lookup_insert_ne, decide_False by (done || set_solver). done.
Qed.

Lemma json_strings_slice vs : json_strings (slice_json vs) = Some vs.
Proof.
  destruct vs as [|v vs]; [done|]. cbn [slice_json json_strings].
  rewrite <- (list_fmap_id (v :: vs)) at 2.
  apply mapM_Some, Forall2_fmap, Forall_Forall2_diag, Forall_forall. done.
Qed.

Lemma assign_header_json m : assign_header None (header_json m) = Some (Some m).
Proof.
  unfold header_json, assign_header. set (ks := SortStrings _).
  assert (mapM (λ kv : string * json, vs ← json_strings kv.2; Some (kv.1, vs))
            ((λ k, (k, slice_json (default [] (m !! k)))) <$> ks)
          = Some ((λ k, (k, default [] (m !! k))) <$> ks)) as ->.
  { apply mapM_Some, Forall2_fmap, Forall_Forall2_diag, Forall_forall. intros k _. cbn [fst snd].
    by rewrite json_strings_slice. }
  cbn [mbind option_bind default from_option id]. do 2 f_equal. apply map_eq. intros i.
  rewrite foldl_insert_lookup. subst ks. destruct (m !! i) as [vs|] eqn:Ei.
  - rewrite decide_True; [done|]. rewrite SortStrings_perm. apply list_elem_of_fmap.
    exists (i, vs). split; [done|]. by apply elem_of_map_to_list.
  - rewrite decide_False, lookup_empty; [done|]. rewrite SortStrings_perm.
    intros ([k vs] & -> & Hin)%list_elem_of_fmap. apply elem_of_map_to_list in Hin. cbn in Ei. congruence.
Qed.

(** Records whose texts are valid UTF-8, at a time of the calendar. *)
Definition record_ok (r : deadLetterRecord) : Prop :=
  utf8 (recID r) ∧ utf8 (recSubject r) ∧ utf8 (LastError r) ∧ in_calendar (CreatedAt r) ∧
  (∀ m, recHeader r = Some m → map_Forall (λ k vs, utf8 k ∧ Forall utf8 vs) m).

(** An empty header is read back as nil. *)
Definition normal_header (h : NatsHeader) : NatsHeader :=
  match h with Some m => if decide (m = ∅) then None else Some m | None => None end.

Definition with_header (h : NatsHeader) (r : deadLetterRecord) : deadLetterRecord :=
  {| recID := recID r; CreatedAt := CreatedAt r; recSubject := recSubject r; recHeader := h;
     recData := recData r; LastError := LastError r |}.

Lemma header_json_ok m : map_Forall (λ k vs, utf8 k ∧ Forall utf8 vs) m → json_ok (header_json m).
Proof.
  intros Hm. constructor. apply Forall_fmap, Forall_forall. intros k Hk. cbn.
  rewrite SortStrings_perm in Hk. apply list_elem_of_fmap in Hk as ([k' vs] & -> & Hk).
  apply elem_of_map_to_list in Hk. cbn [fst]. destruct (Hm _ _ Hk) as [Hk' Hv]. split; [done|].
  rewrite Hk. cbn [default from_option id]. destruct vs as [|v vs]; [constructor|].
  constructor. apply Forall_fmap. eapply Forall_impl; [exact Hv|]. intros x Hx. by constructor.
Qed.

Lemma record_json_ok r : record_ok r → json_ok (record_json r).
Proof.
  intros (Hi & Hs & Hl & Ht & Hh). constructor.
  pose proof (utf8_solid _ (FormatRFC3339Nano_solid _ Ht)).
  pose proof (utf8_solid _ (EncodeToString_solid (recData r))).
  repeat (apply Forall_app; split); repeat (apply Forall_cons; split); try apply Forall_nil, I;
    repeat case_match; repeat (apply Forall_cons; split); try apply Forall_nil, I; cbn [fst snd];
    split; try done; first [by constructor | by eapply header_json_ok, Hh].
Qed.

(** Select the members of a literal list by name. *)
Ltac select_members :=
  repeat (rewrite fold_field_cons;
    match goal with |- context [EqualFold ?a ?b] =>
      let v := eval vm_compute in (EqualFold a b) in
      replace (EqualFold a b) with v by (vm_compute; reflexivity) end; cbn iota).

Lemma unmarshal_marshal_record r text :
  record_ok r → marshal_record r = Ok text →
  unmarshal_record text = Ok (with_header (normal_header (recHeader r)) r).
Proof.
  intros Hok Hm. assert (text = Marshal (record_json r)) as ->.
  { unfold marshal_record in Hm. destruct (in_years _); congruence. }
  pose proof (record_json_ok r Hok) as Hj. destruct Hok as (_ & _ & _ & Ht & _).
  unfold unmarshal_record, record_json in *. rewrite struct_members_Marshal by done.
  cbn [mbind option_bind]. rewrite !string_field_fold. generalize Marshal. intros raw_text.
  destruct r as [i t su h d le]. cbn [recID CreatedAt recSubject recHeader recData LastError] in *.
  clear Hj Hm. pose proof (ParseRFC3339_FormatNano t Ht) as HP. pose proof (DecodeString_Encode d) as HD.
  set (tx := FormatRFC3339Nano t) in *. set (dx := EncodeToString d) in *. clearbody tx dx.
  destruct h as [m|]; cbn [normal_header];
    [destruct (decide (m = ∅)); [|pose proof (assign_header_json m) as HH; set (hj := header_json m) in *; clearbody hj]|];
    destruct (decide (d = "")) as [->|], (decide (le = "")) as [->|];
    cbn [app fmap list_fmap fst snd]; select_members;
    cbn [mbind option_bind assign_time assign_data assign_string]; rewrite HP, ?HH, ?HD; done.
Qed.

(** ** What the directory holds *)

(** The dead letters: the files whose name ends in .json. *)
Definition file_content (n : node) : option string := match n with FileNode c => Some c | DirNode => None end.
Definition letters (d : Disk) : gmap string string :=
  omap file_content (filter (λ kv : string * node, is_letter_name kv.1 = true) d).

Lemma letters_lookup d k :
  letters d !! k = if is_letter_name k then d !! k ≫= file_content else None.
Proof.
  unfold letters. rewrite lookup_omap. set (f := filter _ d).
  assert (f !! k = if is_letter_name k then d !! k else None) as ->.
  { subst f. destruct (is_letter_name k) eqn:Hk; [destruct (d !! k) as [n|] eqn:E|].
    - by apply map_lookup_filter_Some_2.
    - apply map_lookup_filter_None_2. by left.
    - apply map_lookup_filter_None_2. right. intros n _. cbn. by rewrite Hk. }
  by destruct (is_letter_name k).
Qed.

Lemma letters_insert_other d k n : is_letter_name k = false → letters (<[k := n]> d) = letters d.
Proof.
  intros Hk. apply map_eq. intros i. rewrite !letters_lookup. destruct (decide (i = k)) as [->|].
  - by rewrite Hk.
  - by rewrite lookup_insert_ne by done.
Qed.

Lemma letters_insert d k c : is_letter_name k = true → letters (<[k := FileNode c]> d) = <[k := c]> (letters d).
Proof.
  intros Hk. apply map_eq. intros i. rewrite letters_lookup. destruct (decide (i = k)) as [->|].
  - by rewrite Hk, !lookup_insert_eq.
  - by rewrite !lookup_insert_ne, letters_lookup by done.
Qed.

Lemma letters_delete d k : letters (delete k d) = delete k (letters d).
Proof.
  apply map_eq. intros i. rewrite letters_lookup. destruct (decide (i = k)) as [->|].
  - rewrite !lookup_delete_eq. by destruct (is_letter_name k).
  - by rewrite !lookup_delete_ne, letters_lookup by done.
Qed.

Lemma letters_delete_other d k : is_letter_name k = false → letters (delete k d) = letters d.
Proof.
  intros Hk. rewrite letters_delete. apply delete_id. by rewrite letters_lookup, Hk.
Qed.

Lemma suffix_json s : is_letter_name (s +:+ ".json") = true.
Proof. apply HasSuffix_spec. by exists s. Qed.

Lemma suffix_tmp s : is_letter_name (s +:+ ".tmp") = false.
Proof.
  destruct (is_letter_name (s +:+ ".tmp")) eqn:E; [|done]. apply HasSuffix_spec in E as [r E].
  apply (f_equal bytes_of) in E. rewrite !bytes_of_app in E. apply (f_equal last) in E.
  change (bytes_of ".tmp") with ([".";"t";"m"] ++ ["p"])%char in E.
  change (bytes_of ".json") with ([".";"j";"s";"o"] ++ ["n"])%char in E.
  rewrite !app_assoc, !last_snoc in E. done.
Qed.

Lemma file_name_letter r : is_letter_name (file_name r) = true.
Proof.
  unfold file_name. assert (∀ a b c, a +:+ "-" +:+ b +:+ c = (a +:+ "-" +:+ b) +:+ c) as Happ.
  { intros a b c. apply bytes_of_inj. rewrite !bytes_of_app. by rewrite !app_assoc. }
  rewrite Happ. apply suffix_json.
Qed.

(** Every directory a run leaves, at its end or in a crash on the way, satisfies [P]. *)
Definition leaves {E} (P : Disk → Prop) (w w' : World E) : Prop :=
  P (disk w') ∧ ∃ l, snapshots w' = snapshots w ++ l ∧ Forall P l.

Section FileLemmas.
Context {E : Type} `{!Host E}.
Implicit Types w : World E.

Lemma leaves_refl P w : P (disk w) → leaves P w w.
Proof. intros Hp. split; [done|]. exists []. by rewrite app_nil_r. Qed.

Lemma leaves_env P w w' e : leaves P w w' → leaves P w (set_env e w').
Proof. done. Qed.

Lemma leaves_from_env P w w' e : leaves P (set_env e w) w' → leaves P w w'.
Proof. done. Qed.

Lemma leaves_disk P w w' d : leaves P w w' → P d → leaves P w (set_disk d w').
Proof.
  intros [_ (l & Hl & Hf)] Hd. split; [done|]. exists (l ++ [d]). cbn. rewrite Hl, app_assoc.
  split; [done|]. by apply Forall_app_2; [|constructor].
Qed.

Lemma leaves_trans P w1 w2 w3 : leaves P w1 w2 → leaves P w2 w3 → leaves P w1 w3.
Proof.
  intros [_ (l1 & H1 & F1)] [Hp (l2 & H2 & F2)]. split; [done|]. exists (l1 ++ l2).
  rewrite H2, H1, app_assoc. split; [done|]. by apply Forall_app_2.
Qed.

Lemma leaves_impl (P Q : Disk → Prop) w w' : (∀ d, P d → Q d) → leaves P w w' → leaves Q w w'.
Proof. intros HPQ [Hp (l & Hl & Hf)]. split; [auto|]. exists l. split; [done|]. by eapply Forall_impl. Qed.

(** What each operation does to the directory. *)
Lemma attempt_cases {X} (op : World E → result error X * World E) w r w' :
  attempt op w = (r, w') →
  (∃ e env, r = Err e ∧ w' = set_env env w) ∨ (∃ env, op (set_env env w) = (r, w')).
Proof. unfold attempt. destruct (fault (env w)) as [[e|] env]; intros Hop; simplify_eq; eauto. Qed.

Lemma Remove_disk name w r w' :
  Remove name w = (r, w') →
  (is_ok r = false ∧ disk w' = disk w ∧ snapshots w' = snapshots w) ∨
  (r = Ok tt ∧ is_Some (disk w !! name) ∧ disk w' = delete name (disk w) ∧
   snapshots w' = snapshots w ++ [delete name (disk w)]).
Proof.
  intros [(e & env & -> & ->)|(env & Hop)]%attempt_cases; [by left|]. cbn in Hop.
  destruct (disk w !! name) eqn:Ed; simplify_eq; cbn; [right|left]; eauto.
Qed.

Lemma cleanup_leaves P name (w : World E) :
  is_letter_name name = false → (∀ d d', letters d = letters d' → P d → P d') → P (disk w) →
  leaves P w (Remove name w).2.
Proof.
  intros Hn HP Hw. destruct (Remove name w) as [r w'] eqn:Er. cbn [snd].
  apply Remove_disk in Er as [(_ & Hd & Hs)|(_ & _ & Hd & Hs)].
  - split; [by rewrite Hd|]. exists []. by rewrite app_nil_r.
  - assert (P (delete name (disk w))) by (eapply HP; [|done]; by rewrite letters_delete_other).
    split; [by rewrite Hd|]. exists [delete name (disk w)]. split; [done|]. by constructor.
Qed.
End FileLemmas.

(** ** Saving is atomic *)

Section SaveLemmas.
Context {C E : Type} `{!Host E, !Bus E C}.
Context (clock : E → time * E).
Implicit Types w : World E.

Definition same_letters w (d : Disk) : Prop := letters d = letters (disk w).

(** Changing the environment leaves the directory as it is. *)
Ltac stay := repeat apply leaves_env; by apply leaves_refl.

Lemma CreateTemp_spec w r w1 :
  CreateTemp "natsbus-dead-letter-" ".tmp" w = (r, w1) →
  match r with
  | Err _ => leaves (same_letters w) w w1
  | Ok tmp => is_letter_name tmp = false ∧ leaves (same_letters w) w w1
  end.
Proof.
  intros [(e & env & -> & ->)|(env & Hop)]%attempt_cases; [stay|].
  cbn in Hop. destruct (random_part env) as [rnd env'].
  set (name := "natsbus-dead-letter-" +:+ rnd +:+ ".tmp") in *.
  assert (is_letter_name name = false) as Hn.
  { replace name with (("natsbus-dead-letter-" +:+ rnd) +:+ ".tmp") by
      (apply bytes_of_inj; unfold name; by rewrite !bytes_of_app, app_assoc). apply suffix_tmp. }
  cbn in Hop. destruct (disk w !! name) eqn:Ed; simplify_eq; [stay|]. split; [done|].
  apply (leaves_disk _ _ (set_env env' (set_env env w))); [stay|].
  unfold same_letters. cbn. by rewrite letters_insert_other.
Qed.

Lemma WriteFile_spec tmp data w r w1 :
  is_letter_name tmp = false → WriteFile tmp data w = (r, w1) →
  leaves (same_letters w) w w1 ∧ (r = None → disk w1 !! tmp = Some (FileNode data)).
Proof.
  intros Hn. unfold WriteFile. destruct (fault (env w)) as [[e|] env].
  - destruct (written data env) as [part env']. intros [= <- <-]. split; [|done].
    apply (leaves_disk _ _ (set_env env' w)); [stay|]. unfold same_letters.
    cbn. by rewrite letters_insert_other.
  - intros [= <- <-]. split; [|intros _; cbn; by rewrite lookup_insert_eq].
    apply (leaves_disk _ _ (set_env env w)); [stay|]. unfold same_letters.
    cbn. by rewrite letters_insert_other.
Qed.

Lemma CloseFile_spec w r w1 : CloseFile w = (r, w1) → disk w1 = disk w ∧ snapshots w1 = snapshots w.
Proof.
  intros [(e & env & -> & ->)|(env & Hop)]%attempt_cases; [done|]. by simplify_eq.
Qed.

Lemma Rename_spec tmp name data w r w1 :
  is_letter_name tmp = false → is_letter_name name = true → disk w !! tmp = Some (FileNode data) →
  Rename tmp name w = (r, w1) →
  match r with
  | Err _ => disk w1 = disk w ∧ snapshots w1 = snapshots w
  | Ok _ => letters (disk w1) = <[name := data]> (letters (disk w)) ∧ snapshots w1 = snapshots w ++ [disk w1]
  end.
Proof.
  intros Ht Hn Hd [(e & env & -> & ->)|(env & Hop)]%attempt_cases; [done|]. cbn in Hop. rewrite Hd in Hop.
  destruct (disk w !! name) as [[c|]|] eqn:En; simplify_eq; cbn; [|done|].
  all: split; [|done]; by rewrite letters_insert, letters_delete_other.
Qed.

(** What saving may leave: the letters as they were, or with the whole record added. *)
Definition saved_or_not w (r : deadLetterRecord) (d : Disk) : Prop :=
  letters d = letters (disk w) ∨
  ∃ text, marshal_record r = Ok text ∧ letters d = <[file_name r := text]> (letters (disk w)).

Lemma Save_spec s r w err s' w' :
  CreatedAt r ≠ 0 → blank (recID r) = false → Save clock s r w = (err, s', w') →
  leaves (saved_or_not w r) w w' ∧
  match err with
  | None => ∃ text, marshal_record r = Ok text ∧ letters (disk w') = <[file_name r := text]> (letters (disk w))
                    ∧ s' = set_count (wrap64 (count s + 1)) s
  | Some _ => letters (disk w') = letters (disk w) ∧ s' = s
  end.
Proof.
  intros Ht Hi. unfold Save, is_zero_time. rewrite (proj2 (Z.eqb_neq _ _)), Hi by done.
  assert (∀ d, same_letters w d → saved_or_not w r d) as Hsame by (intros d; by left).
  assert (∀ d d', letters d = letters d' → saved_or_not w r d → saved_or_not w r d') as Hcong.
  { unfold saved_or_not. by intros d d' ->. }
  destruct (marshal_record r) as [payload|e] eqn:Hm; [|intros [= <- <- <-]; by split; [apply leaves_refl; left|]].
  destruct (CreateTemp _ _ w) as [[tmp|e] w1] eqn:Hc; apply CreateTemp_spec in Hc.
  2: { intros [= <- <- <-]. split; [by eapply leaves_impl|]. split; [apply Hc|done]. }
  destruct Hc as [Htmp H1]. pose proof (proj1 H1) as L1. apply (leaves_impl _ _ _ _ Hsame) in H1.
  assert (∀ w2 err s2, leaves (saved_or_not w r) w w2 → cleanup tmp (err, s2, w2) = (err, s2, (Remove tmp w2).2) ∧
    leaves (saved_or_not w r) w (Remove tmp w2).2 ∧ letters (disk (Remove tmp w2).2) = letters (disk w2)) as Hclean.
  { intros w2 err2 s2 H2. split; [done|]. split.
    - eapply leaves_trans; [exact H2|]. apply cleanup_leaves; [done..|apply H2].
    - by apply (cleanup_leaves (λ d, letters d = letters (disk w2))); [|intros ? ? <-|]. }
  destruct (WriteFile tmp payload w1) as [[e|] w2] eqn:Hw; apply WriteFile_spec in Hw as [H2 Hfile]; try done.
  all: pose proof (proj1 H2) as L2; unfold same_letters in L1, L2.
  all: apply (leaves_impl _ (saved_or_not w r)) in H2; [|intros d Hd; left; unfold same_letters in Hd; congruence].
  all: pose proof (leaves_trans _ _ _ _ H1 H2) as H12.
  all: destruct (CloseFile w2) as [[[]|e3] w3] eqn:H3; apply CloseFile_spec in H3 as [D3 S3]; cbn [snd].
  all: assert (leaves (saved_or_not w r) w w3) as H13 by (unfold leaves in *; by rewrite D3, S3).
  1,2,4: match goal with |- cleanup _ (?x, ?y, ?z) = _ → _ =>
    destruct (Hclean z x y H13) as (-> & Hl & Hlet); intros [= <- <- <-]; split; [done|]; split; [congruence|done] end.
  destruct (Rename tmp (file_name r) w3) as [[[]|e4] w4] eqn:H4;
    apply (Rename_spec tmp _ payload) in H4; try (done || apply file_name_letter || (rewrite D3; by apply Hfile)).
  - destruct H4 as [L4 S4]. assert (letters (disk w4) = <[file_name r := payload]> (letters (disk w))) as L4'
      by (rewrite L4, D3, L2, L1; done).
    assert (leaves (saved_or_not w r) w w4) as H14.
    { eapply leaves_trans; [exact H13|]. assert (saved_or_not w r (disk w4)) by (right; by exists payload).
      split; [done|]. exists [disk w4]. split; [done|]. by constructor. }
    destruct (Hclean w4 None (set_count (wrap64 (count s + 1)) s) H14) as (-> & Hl & Hlet).
    intros [= <- <- <-]. split; [done|]. exists payload. by rewrite Hlet.
  - destruct H4 as [D4 S4]. assert (leaves (saved_or_not w r) w w4) as H14 by (unfold leaves in *; by rewrite D4, S4).
    match goal with |- cleanup _ (?x, ?y, ?z) = _ → _ =>
      destruct (Hclean z x y H14) as (-> & Hl & Hlet); intros [= <- <- <-]; split; [done|]; split; [congruence|done] end.
Qed.
End SaveLemmas.

(** ** Publishing *)

Lemma cloneMessageHeader_id h : cloneMessageHeader h = h.
Proof.
  destruct h as [m|]; [|done]. cbn. f_equal. apply map_eq. intros i. rewrite lookup_fmap. by destruct (m !! i).
Qed.

Section Publishing.
Context {A C E F G : Type} `{!Codec A, !Telemetry C, !Bus E C, !Host E, !RetryWorld E, !Float64 F, !CallGuard G}.
Context (clock : E → time * E).
Implicit Types (w : World E) (p : ReliablePublisher (C := C) (E := E) (F := F) (G := G)).

(** JetStream acknowledged the message. *)
Definition acknowledged (j : js) (ctx : C) (m : Msg) : Prop := ∃ e e', PublishMsg j ctx m e = (None, e').

(** What the operations keep of a publisher. *)
Definition same_setup p p' : Prop :=
  inner p' = inner p ∧ retryCfg p' = retryCfg p ∧ replayBatchSize p' = replayBatchSize p.

Lemma publishMessage_spec p j ctx m w err p' w' :
  publishMessage p j ctx m w = (err, p', w') →
  disk w' = disk w ∧ snapshots w' = snapshots w ∧ deadLetters p' = deadLetters p ∧ metrics p' = metrics p ∧
  same_setup p p' ∧ (err = None → acknowledged j ctx m).
Proof.
  unfold publishMessage.
  match goal with |- context [guard_do ?f ?g ?e] => pose proof (guard_do_law _ f g e) as Hlaw;
    destruct (guard_do f g e) as [[err' e'] g'] eqn:Eg end.
  intros [= <- <- <-]. split_and!; try done. intros ->.
  destruct Hlaw as [[? _]|[Hr _]]; [done|].
  match type of Hr with None = (Retry ?c ?f ?e).1 => destruct (Retry c f e) as [r e1] eqn:Er end.
  cbn in Hr. subst r. unfold Retry in Er. pose proof (withDefaults_attempts (retryCfg p)).
  eapply retry_loop_spec in Er as (k & wk & _ & _ & Ho); [|lia..]. inversion Ho as [w1 Hf| | | |].
  cbn [cloneMessage] in Hf. rewrite cloneMessageHeader_id in Hf.
  exists wk, e1. by destruct m.
Qed.

Definition record_of (m : Msg) (id : string) (at_ : time) (cause : error) : deadLetterRecord :=
  {| recID := id; CreatedAt := at_; recSubject := Subject m; recHeader := Header m; recData := Data m;
     LastError := Error_ cause |}.

(** Identifiers are not blank and the clock is set. *)
Definition host_ok : Prop :=
  (∀ e, blank (uuid_NewString e).1 = false ∧ utf8 (uuid_NewString e).1) ∧
  (∀ e, (clock e).1 ≠ 0 ∧ in_calendar (clock e).1).

Lemma handleDeadLetter_spec p m cause w err p' w' :
  host_ok → handleDeadLetter clock p m cause w = (err, p', w') →
  ∃ id at_, in_calendar at_ ∧ utf8 id ∧ id = (uuid_NewString (env w)).1 ∧
  leaves (saved_or_not w (record_of m id at_ cause)) w w' ∧ same_setup p p' ∧
  ((∃ text, err = ErrWrap ("publish " +:+ Subject m +:+ " failed after retries and was dead-lettered: ") cause "" ∧
      marshal_record (record_of m id at_ cause) = Ok text ∧
      letters (disk w') = <[file_name (record_of m id at_ cause) := text]> (letters (disk w)) ∧
      deadLetters p' = set_count (wrap64 (count (deadLetters p) + 1)) (deadLetters p) ∧
      deadLetterSize (metrics p') = count (deadLetters p')) ∨
   (∃ e, err = ErrWrap ("publish " +:+ Subject m +:+ " failed: ") cause ("; persist dead letter: " +:+ Error_ e) ∧
      letters (disk w') = letters (disk w) ∧ deadLetters p' = deadLetters p ∧
      deadLetterSize (metrics p') = deadLetterSize (metrics p))).
Proof.
  intros [Hid Hck]. unfold handleDeadLetter. specialize (Hid (env w)).
  destruct (uuid_NewString (env w)) as [id e1]. specialize (Hck e1).
  destruct (clock e1) as [at_ e2]. cbn [fst] in *. destruct Hid as [Hb Hu], Hck as [Hz Hc].
  rewrite cloneMessageHeader_id. change ("" +:+ Data m) with (Data m). fold (record_of m id at_ cause).
  destruct (Save clock _ _ _) as [[[e|] s'] w1] eqn:Es; apply Save_spec in Es as [Hl Hs]; try done.
  - destruct Hs as [Hl' ->]. intros [= <- <- <-]. exists id, at_. split_and!; try done. right. by exists e.
  - destruct Hs as (text & Hm & Hl' & ->). intros [= <- <- <-]. exists id, at_. split_and!; try done.
    left. by exists text.
Qed.
End Publishing.

(** *** The messages a publisher builds *)

Section Built.
Context {A C E : Type} `{!Codec A, !Telemetry C, !Bus E C}.

Definition plain_message (m : Msg) : Prop := Reply m = "" ∧ Header m ≠ Some ∅.

Lemma inject_plain (ctx : C) m : plain_message m → plain_message (injectMessageTraceContext ctx m).
Proof.
  intros [Hr Hh]. unfold injectMessageTraceContext. case_decide as Hp; [done|]. split; [done|]. cbn. intros [= He].
  apply map_choose in Hp as (k & v & Hk).
  assert ((((λ v, [v]) <$> propagated ctx) ∪ default ∅ (Header m)) !! k = Some [v]) as Hl.
  { apply lookup_union_Some_l. by rewrite lookup_fmap, Hk. }
  by rewrite He in Hl.
Qed.

Lemma buildMessage_plain (p : option (Publisher C E)) ctx (change : Change A) e m e' :
  buildMessage p ctx change e = (Ok m, e') → plain_message m.
Proof.
  unfold buildMessage. destruct (client p) as [[pub j]|]; [|done].
  destruct (recorded_at change e) as [now e1], (uuid_NewString e1) as [id e2].
  destruct (marshalEnvelopeMessage _ _ _) as [m'|] eqn:Em; [|done]. intros [= <- _]. apply inject_plain.
  set (env_ := injectTraceContext _ _) in Em. clearbody env_. unfold marshalEnvelopeMessage in Em.
  case_decide; [by destruct (marshalEnvelope _ _); simplify_eq|]. case_decide; [|done].
  assert (Reply m' = "" ∧ Header m' = Some (envelope_headers env_)) as [Hr Hh].
  { unfold marshalEnvelopeProtoHeaders in Em. destruct (EnvPayload env_) as [a|]; [|by injection Em as <-].
    destruct (any_Marshal a); [by injection Em as <-|done]. }
  split; [done|]. rewrite Hh. intros [= He]. exact (insert_non_empty _ _ _ He).
Qed.
End Built.

(** Texts of a message that JSON carries unchanged. *)
Definition message_ok (m : Msg) : Prop :=
  utf8 (Subject m) ∧ ∀ h, Header m = Some h → map_Forall (λ k vs, utf8 k ∧ Forall utf8 vs) h.

Lemma record_of_read m id at_ cause text :
  plain_message m → message_ok m → utf8 id → in_calendar at_ → utf8 (Error_ cause) →
  marshal_record (record_of m id at_ cause) = Ok text →
  ∃ r, unmarshal_record text = Ok r ∧ message r = m.
Proof.
  intros [Hr Hh] [Hs Hm] Hi Ht Hc Htext. eexists. split.
  - apply unmarshal_marshal_record; [|exact Htext]. by split_and!.
  - unfold message. cbn [with_header record_of recSubject recHeader recData]. rewrite cloneMessageHeader_id.
    destruct m as [su re he da]. cbn in *. subst re. f_equal. destruct he as [h|]; [|done]. cbn.
    by rewrite decide_False by congruence.
Qed.

(** No letter is named after the identifier. *)
Definition fresh_id (id : string) (d : Disk) : Prop :=
  ∀ k, is_Some (letters d !! k) → HasSuffix k ("-" +:+ id +:+ ".json") = false.

Lemma file_name_fresh r d : fresh_id (recID r) d → letters d !! file_name r = None.
Proof.
  intros Hf. destruct (letters d !! file_name r) eqn:E; [|done].
  assert (HasSuffix (file_name r) ("-" +:+ recID r +:+ ".json") = true) as Hs
    by (apply HasSuffix_spec; by eexists).
  rewrite (Hf (file_name r)) in Hs; [done|by rewrite E].
Qed.

Section NoLoss.
Context {A C E F G : Type} `{!Codec A, !Telemetry C, !Bus E C, !Host E, !RetryWorld E, !Float64 F, !CallGuard G}.
Context (clock : E → time * E).
Implicit Types (w : World E) (p : ReliablePublisher (C := C) (E := E) (F := F) (G := G)).

(** The letters of [d] are those of [w], each as it was, and one more that holds [m]. *)
Definition kept w (m : Msg) (d : Disk) : Prop :=
  ∃ name text r, letters (disk w) !! name = None ∧ letters d = <[name := text]> (letters (disk w)) ∧
    is_letter_name name = true ∧ unmarshal_record text = Ok r ∧ message r = m.

Lemma saved_or_not_kept w m id at_ cause d :
  plain_message m → message_ok m → utf8 id → in_calendar at_ → utf8 (Error_ cause) → fresh_id id (disk w) →
  saved_or_not w (record_of m id at_ cause) d → letters d = letters (disk w) ∨ kept w m d.
Proof.
  intros Hp Hm Hi Ht Hc Hf [Hd|(text & Htext & Hd)]; [by left|]. right.
  destruct (record_of_read m id at_ cause text) as (r & Hr & Hrm); try done.
  exists (file_name (record_of m id at_ cause)), text, r. split_and!; try done.
  - by apply file_name_fresh.
  - apply file_name_letter.
Qed.

(** C6: No change is lost silently.  When [Publish] of a change whose message could be
    built returns nil, JetStream acknowledged exactly that message; when it reports a
    dead letter, the directory holds one new file, with a name no letter had, that
    decodes to exactly that message, beside every earlier letter unchanged; in the
    only other case the error says that the dead letter could not be kept, and no
    letter changed.  A crash at any point leaves every earlier letter, and the new one
    whole or not at all.  This is for texts that JSON carries unchanged (a subject,
    header and error text in UTF-8) and for an identifier that no letter in the
    directory is named after, as the random UUIDs of the code are, on a host whose
    identifiers are not blank and whose clock is set to a date of the calendar. *)
Theorem reliable_publish_keeps_message p pub j ctx (change : Change A) w m e1 err p' w' :
  host_ok clock → client (inner p) = Some (pub, j) →
  buildMessage (inner p) (StartSpan ctx) change (env w) = (Ok m, e1) → message_ok m →
  (∀ cause p1 w1, publishMessage p j (StartSpan ctx) m (set_env e1 w) = (Some cause, p1, w1) →
                  utf8 (Error_ cause) ∧ fresh_id (uuid_NewString (env w1)).1 (disk w)) →
  PublishReliable clock p ctx change w = (err, p', w') →
  leaves (λ d, letters d = letters (disk w) ∨ kept w m d) w w' ∧
  match err with
  | None => acknowledged j (StartSpan ctx) m
  | Some e => ∃ cause,
      (e = ErrWrap ("publish " +:+ Subject m +:+ " failed after retries and was dead-lettered: ") cause ""
       ∧ kept w m (disk w')) ∨
      (∃ reason, e = ErrWrap ("publish " +:+ Subject m +:+ " failed: ") cause
                       ("; persist dead letter: " +:+ Error_ reason) ∧ letters (disk w') = letters (disk w))
  end.
Proof.
  intros Hhost Hj Hb Hm Hutf. unfold PublishReliable. rewrite Hj, Hb. pose proof (buildMessage_plain _ _ _ _ _ _ Hb) as Hpl.
  destruct (publishMessage p j (StartSpan ctx) m (set_env e1 w)) as [[[cause|] p1] w1] eqn:Ep.
  - destruct (Hutf _ _ _ eq_refl) as [Hu Hf]. apply publishMessage_spec in Ep as (Hd & Hsn & _).
    destruct (handleDeadLetter clock p1 m cause w1) as [[err1 p2] w2] eqn:Eh. intros [= <- <- <-].
    apply handleDeadLetter_spec in Eh as (id & at_ & Ht & Hi & -> & Hl & _ & Hcase); [|done].
    set (id := (uuid_NewString (env w1)).1) in *.
    assert (∀ d, saved_or_not w1 (record_of m id at_ cause) d → letters d = letters (disk w) ∨ kept w m d) as Hk.
    { intros d Hd'. assert (letters d = letters (disk w1) ∨ kept w1 m d) as Hs.
      { eapply saved_or_not_kept; [done..| |exact Hd']. by rewrite Hd. }
      unfold kept in *. by rewrite Hd in Hs. }
    split; [by apply (leaves_impl _ _ _ _ Hk) in Hl; unfold leaves in *; rewrite Hsn in Hl|]. exists cause.
    destruct Hcase as [(text & -> & Htext & Hlet & _)|(e & -> & Hlet & _)].
    + left. split; [done|]. destruct (record_of_read m id at_ cause text) as (r & Hr & Hrm); try done.
      exists (file_name (record_of m id at_ cause)), text, r. rewrite Hlet, Hd. split_and!; try done.
      * by apply file_name_fresh.
      * apply file_name_letter.
    + right. exists e. by rewrite Hlet, Hd.
  - apply publishMessage_spec in Ep as (Hd & Hsn & _ & _ & _ & Hack). intros [= <- <- <-]. split; [|by apply Hack].
    unfold leaves. rewrite Hd, Hsn. split; [by left|]. exists []. by rewrite app_nil_r.
Qed.
End NoLoss.

(** ** Replay *)

(** The letters among the entries of a listing. *)
Definition letter_entry (x : string * bool) : Prop := x.2 = false ∧ is_letter_name x.1 = true.
Definition letter_names (entries : list (string * bool)) : list string := (filter letter_entry entries).*1.

Definition entries_of (d : Disk) : list (string * bool) :=
  (λ x, (x.1, match x.2 with DirNode => true | FileNode _ => false end)) <$> map_to_list d.

Section Listing.
Context {E : Type} `{!Host E}.
Implicit Types w : World E.

Lemma ReadDir_spec w r w' :
  ReadDir w = (r, w') →
  disk w' = disk w ∧ snapshots w' = snapshots w ∧ match r with Ok l => l = entries_of (disk w) | Err _ => True end.
Proof.
  intros [(e & env & -> & ->)|(env & Hop)]%attempt_cases; [done|]. by simplify_eq.
Qed.

Lemma ReadFile_spec name w r w' :
  ReadFile name w = (r, w') →
  disk w' = disk w ∧ snapshots w' = snapshots w ∧
  match r with Ok c => disk w !! name = Some (FileNode c) | Err _ => True end.
Proof.
  intros [(e & env & -> & ->)|(env & Hop)]%attempt_cases; [done|]. cbn in Hop.
  destruct (disk w !! name) as [[c|]|] eqn:Ed; by simplify_eq.
Qed.

(** A listed record is what its file decodes to. *)
Definition listed (d : Disk) (x : string * deadLetterRecord) : Prop :=
  ∃ text, letters d !! x.1 = Some text ∧ unmarshal_record text = Ok x.2.

Lemma list_loop_spec s n entries w r w' :
  list_loop s n entries w = (r, w') →
  disk w' = disk w ∧ snapshots w' = snapshots w ∧
  match r with
  | Ok records => Forall (listed (disk w)) records ∧ records.*1 = take (Nat.max 1 n) (letter_names entries)
  | Err _ => True
  end.
Proof.
  revert n w r w'. induction entries as [|[name isDir] entries IH]; intros n w r w'.
  { intros [= <- <-]. split_and!; try done. symmetry. apply take_nil. }
  cbn [list_loop]. unfold letter_names. rewrite filter_cons.
  destruct (isDir || negb (is_letter_name name)) eqn:Eskip.
  { rewrite decide_False by (intros [Hd Hl]; cbn in *; by rewrite Hd, Hl in Eskip). apply IH. }
  breflect. rewrite decide_True by done. cbn [fmap list_fmap fst].
  destruct (ReadFile name w) as [[payload|e] w1] eqn:Er; apply ReadFile_spec in Er as (D1 & S1 & Hc);
    [|by intros [= <- <-]].
  destruct (unmarshal_record payload) as [record|e] eqn:Eu; [|by intros [= <- <-]].
  assert (listed (disk w) (name, record)) as Hl.
  { exists payload. split; [|done]. rewrite letters_lookup. cbn [fst]. by rewrite H0, Hc. }
  destruct n as [|[|n]].
  1, 2: intros [= <- <-]; split_and!; try done; by apply Forall_singleton.
  destruct (list_loop s (S n) entries w1) as [[records|e] w2] eqn:El; apply IH in El as (D2 & S2 & Hrec);
    intros [= <- <-]; split_and!; try congruence.
  - destruct Hrec as [Hf _]. constructor; [done|]. by rewrite D1 in Hf.
  - destruct Hrec as [_ Hn]. cbn [fmap list_fmap fst]. rewrite Hn. done.
Qed.

Lemma letter_names_entries d k : k ∈ letter_names (sort_entries (entries_of d)) ↔ is_Some (letters d !! k).
Proof.
  unfold letter_names, sort_entries. rewrite (filter_Permutation _ _ _ (merge_sort_Permutation entry_le _)).
  rewrite list_elem_of_fmap, letters_lookup. split.
  - intros ([k' b] & -> & Hin). apply list_elem_of_filter in Hin as [[Hb Hn] Hin]. cbn in *. subst b.
    apply list_elem_of_fmap in Hin as ([k n] & [= -> Hb] & Hin). apply elem_of_map_to_list in Hin.
    rewrite Hn, Hin. destruct n; [by eexists|done].
  - intros [c Hc]. destruct (is_letter_name k) eqn:Hn; [|done].
    destruct (d !! k) as [[c'|]|] eqn:Ed; try done. exists (k, false). split; [done|].
    apply list_elem_of_filter. split; [done|]. apply list_elem_of_fmap. exists (k, FileNode c').
    split; [done|]. by apply elem_of_map_to_list.
Qed.

Lemma letter_names_sorted d : StronglySorted string_le (letter_names (sort_entries (entries_of d))).
Proof.
  unfold letter_names. assert (StronglySorted entry_le (sort_entries (entries_of d))) as Hs
    by (apply Sorted_StronglySorted; [apply _|apply Sorted_merge_sort; apply _]).
  induction Hs as [|x l Hs IH Hx]; [constructor|]. rewrite filter_cons. case_decide; [|done].
  cbn. constructor; [done|]. apply Forall_fmap, Forall_forall.
  intros y [_ Hy]%list_elem_of_filter. rewrite Forall_forall in Hx. by apply Hx.
Qed.

Lemma letter_names_NoDup d : NoDup (letter_names (sort_entries (entries_of d))).
Proof.
  unfold letter_names, sort_entries. rewrite (filter_Permutation _ _ _ (merge_sort_Permutation entry_le _)).
  assert (NoDup (entries_of d).*1) as Hd
    by (unfold entries_of; rewrite <- list_fmap_compose; apply (NoDup_fst_map_to_list d)).
  induction (entries_of d) as [|x l IH]; [constructor|]. cbn in Hd. apply NoDup_cons in Hd as [Hx Hd].
  rewrite filter_cons. case_decide; [|by apply IH]. cbn. constructor; [|by apply IH].
  intros (y & Ey & [_ Hy]%list_elem_of_filter)%list_elem_of_fmap. apply Hx.
  apply list_elem_of_fmap. by exists y.
Qed.
End Listing.

Section Replaying.
Context {C E F G : Type} `{!Telemetry C, !Bus E C, !Host E, !RetryWorld E, !Float64 F, !CallGuard G}.
Implicit Types (w : World E) (p : ReliablePublisher (C := C) (E := E) (F := F) (G := G)).

(** The letters of [w] without those named. *)
Definition without (names : list string) w w' : Prop :=
  ∀ k, letters (disk w') !! k = if decide (k ∈ names) then None else letters (disk w) !! k.

(** The counter and the gauge agree with the directory. *)
Definition accurate p w : Prop :=
  count (deadLetters p) = Z.of_nat (size (letters (disk w))) ∧ Z.of_nat (size (letters (disk w))) ≤ int64_max ∧
  deadLetterSize (metrics p) = count (deadLetters p).

Lemma wrap64_count n : 0 ≤ n ≤ int64_max → wrap64 n = n.
Proof. intros Hn. apply wrap64_id. unfold in_int64, int64_min, int64_max in *. lia. Qed.

Lemma Delete_spec s name w err s' w' :
  is_letter_name name = true → Delete s name w = (err, s', w') →
  match err with
  | Some _ => letters (disk w') = letters (disk w) ∧ s' = s
  | None => letters (disk w') = delete name (letters (disk w)) ∧ s' = set_count (wrap64 (count s - 1)) s
  end.
Proof.
  intros Hn. unfold Delete. destruct (Remove name w) as [[[]|e] w1] eqn:Er;
    apply Remove_disk in Er as [(? & Hd & _)|(? & _ & Hd & _)]; try done; intros [= <- <- <-].
  - by rewrite Hd, letters_delete.
  - by rewrite Hd.
Qed.

Lemma replay_loop_spec p j ctx records w err p' w' :
  Forall (listed (disk w)) records → NoDup records.*1 →
  replay_loop p j ctx records w = (err, p', w') →
  ∃ done rest, records = done ++ rest ∧ Forall (λ x, acknowledged j ctx (message x.2)) done ∧
    without done.*1 w w' ∧ same_setup p p' ∧ (err = None → rest = []) ∧ (accurate p w → accurate p' w').
Proof.
  revert p w err p' w'. induction records as [|[name record] records IH]; intros p w err p' w' Hl Hnd.
  { intros [= <- <- <-]. exists [], []. by split_and!. }
  apply Forall_cons in Hl as [(text & Ht & Hr) Hl]. cbn in Hnd. apply NoDup_cons in Hnd as [Hni Hnd]. cbn [fst snd] in *.
  assert (is_letter_name name = true) as Hn by (rewrite letters_lookup in Ht; by destruct (is_letter_name name)).
  cbn [replay_loop]. destruct (publishMessage p j ctx (message record) w) as [[[e|] p1] w1] eqn:Ep;
    apply publishMessage_spec in Ep as (D1 & _ & S1 & M1 & C1 & Hack).
  { intros [= <- <- <-]. exists [], ((name, record) :: records). split_and!; try done.
    - intros k. by rewrite D1.
    - unfold accurate. by rewrite D1, S1, M1. }
  specialize (Hack eq_refl). destruct (Delete (deadLetters p1) name w1) as [[[e|] s2] w2] eqn:Ed;
    apply Delete_spec in Ed as [L2 ->]; try done; rewrite ?D1, ?S1 in *.
  { intros [= <- <- <-]. exists [], ((name, record) :: records). split_and!; try done.
    - intros k. by rewrite L2.
    - unfold accurate. cbn. by rewrite L2, M1. }
  assert (∀ x, x ∈ records → x.1 ≠ name) as Hne.
  { intros x Hx <-. apply Hni. apply list_elem_of_fmap. by exists x. }
  intros Hrun. apply IH in Hrun as (dn & rest & -> & Hacks & Hw & C3 & Hrest & Hacc); [|..|done].
  - exists ((name, record) :: dn), rest. split_and!; try done.
    + by constructor.
    + intros k. rewrite Hw, L2. cbn [fmap list_fmap fst]. destruct (decide (k ∈ dn.*1)) as [Hin|Hnin].
      * by rewrite decide_True by by constructor.
      * destruct (decide (k = name)) as [->|Hkn].
        -- by rewrite lookup_delete_eq, decide_True by constructor.
        -- by rewrite lookup_delete_ne, decide_False by (done || set_solver).
    + unfold same_setup in *. destruct C3 as (-> & -> & ->). cbn. by destruct C1 as (-> & -> & ->).
    + intros (Hcount & Hmax & Hg). apply Hacc. unfold accurate. cbn.
      assert (size (letters (disk w)) = S (size (letters (disk w2)))) as Hsz.
      { rewrite L2, <- (insert_delete_id (letters (disk w)) name text Ht) at 1.
        apply map_size_insert_None, lookup_delete_eq. }
      rewrite Hcount, Hsz, wrap64_count; lia.
  - rewrite Forall_forall in *. intros x Hx. destruct (Hl x Hx) as (text' & Ht' & Hr'). exists text'. split; [|done].
    rewrite L2, lookup_delete_ne; [done|]. symmetry. by apply Hne.
Qed.
End Replaying.

(** ** Properties of replay *)

(** The names of the letters in the order of replay. *)
Definition backlog (d : Disk) : list string := letter_names (sort_entries (entries_of d)).

Lemma backlog_lookup d k : k ∈ backlog d ↔ is_Some (letters d !! k).
Proof. apply letter_names_entries. Qed.

Lemma backlog_nil d : backlog d = [] → letters d = ∅.
Proof.
  intros Hb. apply map_empty. intros i. apply eq_None_not_Some. rewrite <- backlog_lookup, Hb. by apply not_elem_of_nil.
Qed.

Lemma backlog_size d : length (backlog d) = size (letters d).
Proof.
  rewrite <- (length_map_to_list (letters d)), <- (length_fmap fst). apply Permutation_length.
  apply NoDup_Permutation; [apply letter_names_NoDup|apply NoDup_fst_map_to_list|]. intros k.
  rewrite backlog_lookup. split.
  - intros [c Hc]. apply list_elem_of_fmap. exists (k, c). split; [done|]. by apply elem_of_map_to_list.
  - intros ([k' c] & -> & Hin)%list_elem_of_fmap. apply elem_of_map_to_list in Hin. by eexists.
Qed.

(** Sorting puts what is at most a member of a prefix into the prefix. *)
Lemma sorted_prefix l n x y :
  StronglySorted string_le l → x ∈ take n l → y ∈ l → string_le y x → y ∈ take n l.
Proof.
  intros Hs Hx Hy Hyx. rewrite <- (take_drop n l) in Hy. apply elem_of_app in Hy as [|Hy]; [done|].
  rewrite <- (take_drop n l) in Hs.
  assert (string_le x y) as Hxy by (by eapply StronglySorted_app_1_elem_of; [exact Hs|..]).
  by rewrite (anti_symm string_le y x Hyx Hxy).
Qed.

(** Later records have later names. *)
Lemma file_name_order r1 r2 :
  in_calendar (CreatedAt r1) → in_calendar (CreatedAt r2) → CreatedAt r1 < CreatedAt r2 →
  string_le (file_name r1) (file_name r2).
Proof.
  intros H1 H2 Hlt. unfold string_le, file_name. rewrite !bytes_of_app.
  by apply lex_lt_leb, lex_lt_app, FormatCompact_lt.
Qed.

Section ReplayTheorems.
Context {C E F G : Type} `{!Telemetry C, !Bus E C, !Host E, !RetryWorld E, !Float64 F, !CallGuard G}.
Implicit Types (w : World E) (p : ReliablePublisher (C := C) (E := E) (F := F) (G := G)).

Lemma replayOnce_spec p j ctx w err p' w' :
  replayOnce p j ctx w = (err, p', w') →
  same_setup p p' ∧ (accurate p w → accurate p' w') ∧
  ∃ n dn, dn.*1 = take n (backlog (disk w)) ∧ Forall (listed (disk w)) dn ∧
    Forall (λ x, acknowledged j ctx (message x.2)) dn ∧ without dn.*1 w w' ∧
    (err = None → n = Nat.max 1 (Z.to_nat (replayBatchSize p))).
Proof.
  unfold replayOnce, List_. destruct (ReadDir w) as [[entries|e] w1] eqn:Er; apply ReadDir_spec in Er as (D1 & _ & Hen).
  2: { intros [= <- <- <-]. split; [done|]. split; [unfold accurate; by rewrite D1|]. exists O, [].
       split_and!; try done. intros k. by rewrite D1. }
  subst entries. destruct (list_loop _ _ _ w1) as [[records|e] w2] eqn:El; apply list_loop_spec in El as (D2 & _ & Hrec).
  2: { intros [= <- <- <-]. split; [done|]. split; [unfold accurate; by rewrite D2, D1|]. exists O, [].
       split_and!; try done. intros k. by rewrite D2, D1. }
  destruct Hrec as [Hl Hnames]. rewrite D1 in Hl. intros Hrun.
  apply replay_loop_spec in Hrun as (dn & rest & -> & Hack & Hw & Hset & Hnil & Hacc).
  - split; [done|]. split; [unfold accurate in *; by rewrite D2, D1 in Hacc|].
    apply Forall_app in Hl as [Hl _]. rewrite fmap_app in Hnames.
    exists (if err then length dn else Nat.max 1 (Z.to_nat (replayBatchSize p))), dn. split_and!; try done.
    + destruct err as [e|].
      * apply (f_equal (take (length dn))) in Hnames. rewrite take_app_le, take_ge, take_take in Hnames by (by rewrite length_fmap).
        rewrite Hnames. f_equal. apply (f_equal length) in Hnames. rewrite length_take, length_fmap in Hnames. lia.
      * by rewrite (Hnil eq_refl), app_nil_r in Hnames.
    + intros k. by rewrite Hw, D2, D1.
    + by intros ->.
  - by rewrite D2, D1.
  - rewrite Hnames. eapply sublist_NoDup; [apply letter_names_NoDup|]. apply sublist_take.
Qed.

(** C7: Replay removes a dead letter only after JetStream acknowledged the message it
    decodes to, leaves every other letter as it is, and goes oldest first: when it
    removed the letter of a record, it removed every earlier record's. *)
Theorem replay_is_safe_and_ordered p j ctx w :
  let '(err, p', w') := replayOnce p j ctx w in
  (∀ name text, letters (disk w) !! name = Some text →
     letters (disk w') !! name = Some text ∨
     letters (disk w') !! name = None ∧ ∃ r, unmarshal_record text = Ok r ∧ acknowledged j ctx (message r)) ∧
  (∀ name, letters (disk w) !! name = None → letters (disk w') !! name = None) ∧
  (∀ r1 r2, in_calendar (CreatedAt r1) → in_calendar (CreatedAt r2) → CreatedAt r1 < CreatedAt r2 →
     is_Some (letters (disk w) !! file_name r1) → is_Some (letters (disk w) !! file_name r2) →
     letters (disk w') !! file_name r2 = None → letters (disk w') !! file_name r1 = None).
Proof.
  destruct (replayOnce p j ctx w) as [[err p'] w'] eqn:Er.
  apply replayOnce_spec in Er as (_ & _ & n & dn & Hn & Hl & Hack & Hw & _). split_and!.
  - intros name text Ht. rewrite Hw. case_decide as Hin; [right|by left]. split; [done|].
    apply list_elem_of_fmap in Hin as (x & -> & Hx). rewrite Forall_forall in Hl, Hack.
    destruct (Hl x Hx) as (text' & Ht' & Hr). exists x.2. rewrite Ht in Ht'. simplify_eq. auto.
  - intros name Hnone. rewrite Hw. by case_decide.
  - intros r1 r2 H1 H2 Hlt Hp1 Hp2. rewrite !Hw.
    destruct (decide (file_name r2 ∈ dn.*1)) as [Hin|]; [|by destruct Hp2 as [? ->]].
    intros _. rewrite decide_True; [done|]. rewrite Hn in *.
    apply (sorted_prefix _ _ (file_name r2)); [apply letter_names_sorted|done|by apply backlog_lookup|by apply file_name_order].
Qed.
End ReplayTheorems.

(** *** A healthy bus drains the directory *)

Section Draining.
Context {C E F G : Type} `{!Telemetry C, !Bus E C, !Host E, !RetryWorld E, !Float64 F, !CallGuard G}.
Context (j : js) (ctx : C) (admits : G → Prop).
Implicit Types (w : World E) (p : ReliablePublisher (C := C) (E := E) (F := F) (G := G)).

(** Messages are accepted while the breaker admits calls, and it goes on admitting
    them; no file operation fails. *)
Definition healthy : Prop :=
  (∀ p m w, admits (breaker p) → let '(err, p', _) := publishMessage p j ctx m w in err = None ∧ admits (breaker p')) ∧
  (∀ e : E, (fault e).1 = None).

Definition decodable (d : Disk) : Prop := map_Forall (λ _ text, ∃ r, unmarshal_record text = Ok r) (letters d).

Lemma attempt_healthy {X} (op : World E → result error X * World E) w :
  healthy → ∃ env, attempt op w = op (set_env env w).
Proof.
  intros [_ Hf]. unfold attempt. specialize (Hf (env w)). destruct (fault (env w)) as [[e|] env]; [done|]. by exists env.
Qed.

Lemma list_loop_healthy s n entries w :
  healthy → decodable (disk w) → (∀ x, x ∈ entries → letter_entry x → is_Some (letters (disk w) !! x.1)) →
  is_ok (list_loop s n entries w).1 = true.
Proof.
  intros Hh. revert n w. induction entries as [|[name isDir] entries IH]; intros n w Hd Hx; [done|].
  cbn [list_loop]. destruct (isDir || negb (is_letter_name name)) eqn:Es.
  { apply IH; [done|]. intros x Hin. apply Hx. by constructor. }
  breflect. destruct (Hx (name, isDir) ltac:(constructor) ltac:(done)) as [text Ht]. cbn [fst] in Ht.
  destruct (attempt_healthy (λ w, match disk w !! name with Some (FileNode c) => (Ok c, w) | _ => (Err not_exist, w) end) w Hh)
    as [env Hr]. unfold ReadFile. rewrite Hr. cbn [disk set_env].
  rewrite letters_lookup in Ht. destruct (is_letter_name name) eqn:Hn; [|done].
  destruct (disk w !! name) as [[c|]|] eqn:Ec; try done. cbn in Ht. simplify_eq.
  destruct (Hd name text) as [r Hru]; [rewrite letters_lookup, Hn, Ec; done|]. rewrite Hru.
  destruct n as [|[|n]]; try done. specialize (IH (S n) (set_env env w)).
  destruct (list_loop s (S n) entries (set_env env w)) as [[records|e] w2]; [done|]. apply IH; [done|].
  intros x Hin. apply Hx. by constructor.
Qed.

Lemma replay_loop_healthy p records w :
  healthy → admits (breaker p) → Forall (listed (disk w)) records → NoDup records.*1 →
  let '(err, p', _) := replay_loop p j ctx records w in err = None ∧ admits (breaker p').
Proof.
  intros Hh. revert p w. induction records as [|[name record] records IH]; intros p w Ha Hl Hnd; [done|].
  apply Forall_cons in Hl as [(text & Ht & Hr) Hl]. cbn in Hnd. apply NoDup_cons in Hnd as [Hni Hnd]. cbn [fst snd] in *.
  cbn [replay_loop]. pose proof (proj1 Hh p (message record) w Ha) as Hp.
  destruct (publishMessage p j ctx (message record) w) as [[err p1] w1] eqn:Ep. destruct Hp as [-> Ha1].
  apply publishMessage_spec in Ep as (D1 & _). unfold Delete, Remove.
  match goal with |- context [attempt ?f w1] => destruct (attempt_healthy f w1 Hh) as [env ->] end. cbn [disk set_env].
  rewrite D1. rewrite letters_lookup in Ht. destruct (is_letter_name name) eqn:Hn; [|done].
  destruct (disk w !! name) as [n|] eqn:Ec; [|done]. apply IH; [done| |done].
  cbn [disk set_disk]. rewrite Forall_forall in *. intros x Hx. destruct (Hl x Hx) as (text' & Ht' & Hr').
  exists text'. split; [|done]. rewrite letters_delete, lookup_delete_ne; [done|]. intros ->. apply Hni.
  apply list_elem_of_fmap. by exists x.
Qed.

Lemma replayOnce_healthy p w :
  healthy → admits (breaker p) → decodable (disk w) →
  let '(err, p', w') := replayOnce p j ctx w in
  err = None ∧ admits (breaker p') ∧ decodable (disk w') ∧ replayBatchSize p' = replayBatchSize p ∧
  (length (backlog (disk w')) = length (backlog (disk w)) - Nat.max 1 (Z.to_nat (replayBatchSize p)))%nat.
Proof.
  intros Hh Ha Hd. destruct (replayOnce p j ctx w) as [[err p'] w'] eqn:Er.
  assert (err = None ∧ admits (breaker p')) as [-> Ha'].
  { unfold replayOnce, List_, ReadDir in Er.
    match type of Er with context [attempt ?f w] => destruct (attempt_healthy f w Hh) as [env E1]; rewrite E1 in Er end.
    cbn [disk set_env] in Er. fold (entries_of (disk w)) in Er.
    destruct (list_loop _ _ _ _) as [r w2] eqn:El. pose proof (list_loop_healthy (deadLetters p)
      (Z.to_nat (replayBatchSize p)) (sort_entries (entries_of (disk w))) (set_env env w) Hh Hd) as Hok.
    rewrite El in Hok. destruct r as [records|e]; [|exfalso; enough (false = true) by done; apply Hok].
    - apply list_loop_spec in El as (D2 & _ & Hl & Hnames). cbn [disk set_env] in *.
      pose proof (replay_loop_healthy p records w2 Hh Ha) as Hrl. rewrite Er in Hrl. apply Hrl; [by rewrite D2|].
      rewrite Hnames. eapply sublist_NoDup; [apply letter_names_NoDup|]. apply sublist_take.
    - intros x Hx Hle. apply letter_names_entries. unfold letter_names. apply list_elem_of_fmap. exists x.
      split; [done|]. by apply list_elem_of_filter. }
  apply replayOnce_spec in Er as ((_ & _ & Hb) & _ & n & dn & Hn & _ & _ & Hw & Hmax). rewrite (Hmax eq_refl) in Hn.
  split_and!; try done.
  - intros k text Hk. rewrite Hw in Hk. case_decide; [done|]. by eapply Hd.
  - rewrite <- length_drop. apply Permutation_length, NoDup_Permutation; [apply letter_names_NoDup| |].
    + eapply sublist_NoDup; [apply letter_names_NoDup|]. apply sublist_drop.
    + intros k. pose proof (letter_names_NoDup (disk w)) as Hnd. fold (backlog (disk w)) in Hnd.
      rewrite backlog_lookup, Hw, Hn. set (l := backlog (disk w)) in *. set (z := Nat.max 1 _) in *.
      rewrite <- (take_drop z l) in Hnd. apply NoDup_app in Hnd as (_ & Hdis & _). case_decide as Hin.
      * split; [by intros []|]. intros Hk. by destruct (Hdis k Hin Hk).
      * rewrite <- backlog_lookup. fold l. rewrite <- (take_drop z l) at 1. rewrite elem_of_app. naive_solver.
Qed.

(** C18: Replay drains the directory: when every letter in it decodes, with a bus that
    accepts messages, a breaker that admits them and a working disk, enough ticks of
    the replay loop leave no dead letter, and [n] ticks are enough for [n] batches. *)
Theorem replay_drains_letters p w n :
  healthy → admits (breaker p) → decodable (disk w) →
  Z.of_nat (size (letters (disk w))) ≤ Z.of_nat n * replayBatchSize p →
  letters (disk (replayLoop n p j ctx w).2) = ∅.
Proof.
  intros Hh Ha Hd Hsz. rewrite <- backlog_size in Hsz. apply backlog_nil. revert p w Ha Hd Hsz.
  induction n as [|n IH]; intros p w Ha Hd Hsz; cbn [replayLoop].
  - cbn [snd]. apply nil_length_inv. change (Z.of_nat 0) with 0 in Hsz. lia.
  - pose proof (replayOnce_healthy p w Hh Ha Hd) as Hone.
    destruct (replayOnce p j ctx w) as [[err p'] w']. destruct Hone as (_ & Ha' & Hd' & Hb & Hlen).
    apply IH; [done..|]. rewrite Hb, Hlen. rewrite Nat2Z.inj_succ, Z.mul_succ_l in Hsz.
    destruct (Z.le_gt_cases (replayBatchSize p) 0); nia.
Qed.
End Draining.

(** *** The gauge *)

Section Gauge.
Context {A C E F G : Type} `{!Codec A, !Telemetry C, !Bus E C, !Host E, !RetryWorld E, !Float64 F, !CallGuard G}.
Context (clock : E → time * E).
Abbreviation RP := (ReliablePublisher (C := C) (E := E) (F := F) (G := G)).
Implicit Types (w : World E) (p : RP).

(** The identifier of a new letter is not in use. *)
Definition new_letter p (ctx : C) (change : Change A) w : Prop :=
  ∀ pub j m e1 cause p1 w1,
    client (inner p) = Some (pub, j) → buildMessage (inner p) (StartSpan ctx) change (env w) = (Ok m, e1) →
    publishMessage p j (StartSpan ctx) m (set_env e1 w) = (Some cause, p1, w1) →
    Z.of_nat (size (letters (disk w))) < int64_max ∧
    ∀ t, letters (disk w) !! file_name (record_of m (uuid_NewString (env w1)).1 t cause) = None.

Inductive operation : RP * World E → RP * World E → Prop :=
| op_publish p w ctx (change : Change A) err p' w' :
    new_letter p ctx change w → PublishReliable clock p ctx change w = (err, p', w') → operation (p, w) (p', w')
| op_replay p w j ctx err p' w' : replayOnce p j ctx w = (err, p', w') → operation (p, w) (p', w').

Lemma scanCount_spec w n w' :
  scanCount w = (Ok n, w') → n = Z.of_nat (size (letters (disk w))) ∧ disk w' = disk w.
Proof.
  unfold scanCount. destruct (ReadDir w) as [[entries|e] w1] eqn:Er; [|done]. apply ReadDir_spec in Er as (D1 & _ & ->).
  intros [= <- <-]. split; [|done]. f_equal. rewrite <- backlog_size. unfold backlog, letter_names. rewrite length_fmap.
  unfold sort_entries. by rewrite (filter_Permutation _ _ _ (merge_sort_Permutation entry_le _)).
Qed.

Lemma register_disk name w : disk (register name w).2 = disk w.
Proof. unfold register. by repeat case_match. Qed.

Lemma NewReliablePublisher_accurate NB publisher opts w p w' :
  Z.of_nat (size (letters (disk w))) ≤ int64_max →
  NewReliablePublisher NB publisher opts w = (Ok p, w') → accurate (p : RP) w'.
Proof.
  intros Hmax. unfold NewReliablePublisher. destruct (blank _); [done|]. destruct (client publisher); [|done].
  destruct (newDeadLetterStore _ w) as [[s|] w1] eqn:Es; [|done]. unfold newDeadLetterStore in Es.
  case_decide; [done|]. destruct (MkdirAll w) as [[[]|e] w0] eqn:Em; [|done].
  assert (disk w0 = disk w) as D0.
  { apply attempt_cases in Em as [(? & ? & ? & ->)|(env & Hop)]; [done|]. by simplify_eq. }
  destruct (scanCount w0) as [[n|] w2] eqn:Ec; [|done]. apply scanCount_spec in Ec as [-> D2]. simplify_eq.
  destruct (newReliableMetrics w1) as [[m|] w3] eqn:En; [|done]. intros [= <- <-].
  assert (disk w3 = disk w1) as D3.
  { unfold newReliableMetrics in En. pose proof (register_disk "natsbus_publish_failures_total" w1) as R1.
    destruct (register _ w1) as [[]w4]; [by simplify_eq|].
    pose proof (register_disk "natsbus_dead_letter_size" w4) as R2.
    destruct (register _ w4) as [[]w5]; simplify_eq; cbn in *; congruence. }
  unfold accurate. cbn. rewrite D3, D2, D0. done.
Qed.

Lemma operation_accurate p w p' w' :
  host_ok clock → operation (p, w) (p', w') → accurate p w → accurate p' w'.
Proof.
  intros Hhost Hop Hacc. inversion Hop as [? ? ctx change err ? ? Hnew Hpub|? ? j ctx err ? ? Hrep]; subst.
  2: { by apply replayOnce_spec in Hrep as (_ & ? & _); auto. }
  unfold PublishReliable in Hpub. destruct (client (inner p)) as [[pub j]|] eqn:Hj; [|by simplify_eq].
  destruct (buildMessage _ _ change (env w)) as [[m|e] e1] eqn:Hb; [|by simplify_eq].
  destruct (publishMessage p j (StartSpan ctx) m (set_env e1 w)) as [[[cause|] p1] w1] eqn:Ep.
  - destruct (Hnew _ _ _ _ _ _ _ Hj Hb Ep) as [Hlt Hfresh].
    apply publishMessage_spec in Ep as (D1 & _ & S1 & M1 & _).
    destruct (handleDeadLetter clock p1 m cause w1) as [[err1 p2] w2] eqn:Eh. simplify_eq.
    apply handleDeadLetter_spec in Eh as (id & at_ & _ & _ & -> & _ & _ & Hcase); [|done].
    unfold accurate in *. destruct Hacc as (Hc & Hmax & Hg).
    destruct Hcase as [(text & -> & _ & Hl & Hs & Hm)|(e & -> & -> & -> & ->)].
    + rewrite Hm, Hs, Hl. cbn [count set_count]. rewrite D1, map_size_insert_None, S1 by apply Hfresh.
      cbn [disk set_env]. rewrite Hc, wrap64_count by lia. split_and!; try done; lia.
    + by rewrite D1, S1, M1.
  - apply publishMessage_spec in Ep as (D1 & _ & S1 & M1 & _). simplify_eq. unfold accurate. by rewrite D1, S1, M1.
Qed.

(** C19: The dead-letter gauge is right: from the start of the publisher, through any
    sequence of publishes and replays whose file operations may fail, the counter and
    the gauge are the number of dead-letter files, as long as identifiers are not
    reused. *)
Theorem dead_letter_gauge_is_accurate NB publisher opts w0 p0 w1 p w :
  host_ok clock → Z.of_nat (size (letters (disk w0))) ≤ int64_max →
  NewReliablePublisher NB publisher opts w0 = (Ok p0, w1) → rtc operation (p0, w1) (p, w) →
  Count (deadLetters p) = Z.of_nat (size (letters (disk w))) ∧
  deadLetterSize (metrics p) = Z.of_nat (size (letters (disk w))).
Proof.
  intros Hhost Hmax Hnew Hrun. apply NewReliablePublisher_accurate in Hnew; [|done].
  assert (accurate p w) as (Hc & _ & Hg); [|unfold Count; by rewrite Hg].
  remember (p0, w1) as x eqn:Ex. remember (p, w) as y eqn:Ey. revert p0 w1 Ex Hnew.
  induction Hrun as [x|x [p2 w2] y Hstep Hrun IH]; intros p0 w1 -> Hnew; [by simplify_eq|].
  eapply IH; [done|done|]. by eapply operation_accurate.
Qed.
End Gauge.

(** ** Instances

    An environment of a switch, whether the bus accepts messages, and a counter for
    the clock and the identifiers. *)

Module Desk.
#[local] Existing Instances BoolBus.codec BoolBus.telemetry.

Definition env : Type := bool * Z.
Definition next (e : env) : env := (e.1, e.2 + 1).

Definition clock (e : env) : time * env := (63872000000000000000 + e.2 mod 1000, next e).

#[export] Instance bus : Bus env SpanContext := {
  js := unit;
  time_Now := clock;
  uuid_NewString e := (of_bytes (pad 3 (e.2 mod 1000)), next e);
  PublishMsg _ _ _ e := (if e.1 then None else Some (ErrForeign 6 "nats: no responders"), next e);
}.

#[export] Instance host : Host env := {
  fault e := (None, e);
  written data e := ("", e);
  random_part e := ("0", e);
  Register _ e := (Registered, e);
}.

#[export] Instance retry_world : RetryWorld env := {
  wait _ e := (None, e);
  rand_int64n n e := (0, e);
}.

Lemma host_ok_clock : host_ok (C := SpanContext) clock.
Proof.
  split; intros e; pose proof (Z.mod_pos_bound e.2 1000 ltac:(done)) as Hm; cbn [fst uuid_NewString bus clock].
  - pose proof (pad_solid 3 (e.2 mod 1000) ltac:(lia)) as Hs.
    assert (Forall solid (bytes_of (of_bytes (pad 3 (e.2 mod 1000))))) as Hs' by by rewrite bytes_of_of_bytes.
    split; [|by apply utf8_solid]. unfold blank. rewrite TrimSpace_all_solid by done.
    apply bool_decide_eq_false_2. intros E%(f_equal bytes_of). rewrite bytes_of_of_bytes in E.
    apply (f_equal length) in E. by rewrite pad_length in E.
  - split; [lia|]. unfold in_calendar.
    assert (days_before_year 10000 * 86400 * Second = 315537897600000000000) as -> by by vm_compute. lia.
Qed.

Definition publisher : Publisher SpanContext env :=
  {| pub_js := Some tt; subjectPrefix := "svc.changes"; pub_source := "svc"; wireFormat := WireFormatProtoHeaders |}.

Definition options : ReliableOptions QArith_base.Q :=
  {| PublisherOptions := {| optRetention := 0; optMaxAge := 0; optStorage := 0; optNATSOptions := []; optWireFormat := "" |};
     RetryOptions := Retry.example_config;
     BreakerOptions := {| FailureThreshold := 0; ResetTimeout := 0; HalfOpenMax := 0; OnStateChange := false |};
     DeadLetterDir := "/var/dlq"; ReplayInterval := 0; ReplayBatchSize := 2 |}.

Definition new_guard (c : BreakerConfig) : ClockedBreaker :=
  {| cb_breaker := NewBreaker c; cb_clock := λ n, Z.of_nat n; cb_next := 0 |}.

Definition RP : Type := ReliablePublisher (C := SpanContext) (E := env) (F := QArith_base.Q) (G := ClockedBreaker).

Definition started : RP * World env :=
  match NewReliablePublisher (C := SpanContext) (F := QArith_base.Q) new_guard (Some publisher) options
          {| NatsReliable.env := (false, 1); disk := ∅; snapshots := [] |} with
  | (Ok p, w) => (p, w)
  | (Err _, w) =>
      ({| inner := None; retryCfg := RetryOptions options; breaker := new_guard (BreakerOptions options);
          deadLetters := {| baseDir := ""; count := 0 |}; metrics := {| publishFailuresTotal := 0; deadLetterSize := 0 |};
          replayInterval := 0; replayBatchSize := 0 |}, w)
  end.

(** One failed publish: the letter it leaves. *)
Definition published : option error * RP * World env :=
  PublishReliable (A := bool) clock started.1 BoolBus.span BoolBus.change started.2.

Definition built : Msg :=
  match (buildMessage (A := bool) (Some publisher) BoolBus.span BoolBus.change (false, 1)).1 with
  | Ok m => m | Err _ => NewMsg "" ""
  end.
End Desk.
#[local] Existing Instances BoolBus.codec BoolBus.telemetry Desk.bus Desk.host Desk.retry_world.

Example one_letter_example :
  size (letters (disk Desk.published.2)) = 1%nat ∧ count (deadLetters Desk.published.1.2) = 1 ∧
  size (letters (disk (replayLoop 1 Desk.published.1.2 tt BoolBus.span Desk.published.2).2)) = 1%nat ∧
  letters (disk (replayLoop 1 Desk.published.1.2 tt BoolBus.span (set_env (true, 90) Desk.published.2)).2) = ∅.
Proof. split_and!; vm_compute; reflexivity. Qed.

Lemma reliable_publish_keeps_message_witness :
  ∃ cause, kept Desk.started.2 Desk.built (disk Desk.published.2) ∨
    ∃ reason, Desk.published.1.1 = Some (ErrWrap ("publish " +:+ Subject Desk.built +:+ " failed: ") cause
                                           ("; persist dead letter: " +:+ Error_ reason)).
Proof.
  assert (client (inner Desk.started.1) = Some (Desk.publisher, tt)) as Hc by reflexivity.
  assert (buildMessage (inner Desk.started.1) (StartSpan BoolBus.span) BoolBus.change (env Desk.started.2)
          = (Ok Desk.built, (false, 2))) as Hb by reflexivity.
  assert (message_ok Desk.built) as Hm.
  { split; [by vm_compute|]. intros h Hh.
    assert (map_Forall (λ k vs, utf8 k ∧ Forall utf8 vs) (default ∅ (Header Desk.built))) as Hu
      by (apply (bool_decide_unpack _); by vm_compute).
    by rewrite Hh in Hu. }
  assert (∀ cause p1 w1, publishMessage Desk.started.1 tt (StartSpan BoolBus.span) Desk.built
    (set_env (false, 2) Desk.started.2) = (Some cause, p1, w1) →
    utf8 (Error_ cause) ∧ fresh_id (uuid_NewString (env w1)).1 (disk Desk.started.2)) as Hu.
  { intros cause p1 w1 Hp. split; cycle 1.
    { intros k Hk. assert (letters (disk Desk.started.2) = ∅) as Hn by by vm_compute.
      rewrite Hn, lookup_empty in Hk. by destruct Hk. }
    pose (r := (publishMessage Desk.started.1 tt BoolBus.span Desk.built (set_env (false, 2) Desk.started.2)).1.1).
    assert (utf8 (Error_ (default not_exist r))) as Hu by by vm_compute.
    assert (r = Some cause) as Hr by exact (f_equal (λ x, x.1.1) Hp). by rewrite Hr in Hu. }
  assert (PublishReliable Desk.clock Desk.started.1 BoolBus.span BoolBus.change Desk.started.2
          = (Desk.published.1.1, Desk.published.1.2, Desk.published.2)) as Hp.
  { fold Desk.published. by destruct Desk.published as [[? ?] ?]. }
  pose proof (reliable_publish_keeps_message _ _ _ _ _ _ _ _ _ _ _ _ Desk.host_ok_clock Hc Hb Hm Hu Hp) as [_ Hw].
  destruct Desk.published as [[[e|] p'] w'] eqn:E; cbn [fst snd] in *.
  - destruct Hw as (cause & [[_ Hk]|(reason & -> & _)]); exists cause; eauto.
  - exfalso. assert (negb (bool_decide (Desk.published.1.1 = None)) = true) as Hn by by vm_compute.
    by rewrite E in Hn.
Defined.

Lemma dead_letter_gauge_is_accurate_witness :
  Count (deadLetters Desk.published.1.2) = 1 ∧ deadLetterSize (metrics Desk.published.1.2) = 1.
Proof.
  change 1 with (Z.of_nat 1). assert (size (letters (disk Desk.published.2)) = 1%nat) as <- by by vm_compute.
  eapply (dead_letter_gauge_is_accurate (A := bool) Desk.clock Desk.new_guard (Some Desk.publisher) Desk.options
    {| env := (false, 1); disk := ∅; snapshots := [] |} Desk.started.1 Desk.started.2).
  - apply Desk.host_ok_clock.
  - by vm_compute.
  - reflexivity.
  - eapply rtc_once, (op_publish _ _ _ BoolBus.span BoolBus.change Desk.published.1.1);
      [|fold Desk.published; by destruct Desk.published as [[? ?] ?]].
    intros pub j m e1 cause p1 w1 _ _ _. split; [by vm_compute|]. intros t.
    assert (letters (disk Desk.started.2) = ∅) as -> by by vm_compute. apply lookup_empty.
Defined.

(** A bus that accepts every message, and three letters. *)
Module Calm.
#[export] Instance bus : Bus Z SpanContext := {
  js := unit;
  time_Now e := (e, e + 1);
  uuid_NewString e := ("id", e + 1);
  PublishMsg _ _ _ e := (None, e + 1);
}.

#[export] Instance host : Host Z := {
  fault e := (None, e);
  written data e := ("", e);
  random_part e := ("0", e);
  Register _ e := (Registered, e);
}.

Definition publisher : ReliablePublisher (C := SpanContext) (E := Z) (F := QArith_base.Q) (G := ClockedBreaker) :=
  {| inner := None; retryCfg := Retry.example_config; breaker := Desk.new_guard (BreakerOptions Desk.options);
     deadLetters := {| baseDir := "/var/dlq"; count := 3 |};
     metrics := {| publishFailuresTotal := 3; deadLetterSize := 3 |}; replayInterval := Second; replayBatchSize := 2 |}.

Definition closed (g : ClockedBreaker) : Prop := state (cb_breaker g) = StateClosed.

Definition letter (t : time) : string * node :=
  let r := {| recID := "x"; CreatedAt := t; recSubject := "svc.changes.user.created"; recHeader := None;
              recData := "payload"; LastError := "down" |} in
  (file_name r, FileNode (Marshal (record_json r))).

Definition world : World Z :=
  {| env := 0; disk := list_to_map ([letter 300; letter 100; letter 200] ++ [("notes.txt", FileNode ""); ("old.json", DirNode)]);
     snapshots := [] |}.

Lemma closed_healthy : healthy (C := SpanContext) (F := QArith_base.Q) tt BoolBus.span closed.
Proof.
  split; [|done]. intros p m w Hc. unfold publishMessage. cbn [guard_do Breaker_guard].
  unfold clocked_do, Do, before, stateLocked. unfold closed in Hc. rewrite Hc. cbn [state_eqb andb].
  unfold Retry. destruct (Z.to_nat _) as [|n] eqn:En.
  { pose proof (withDefaults_attempts (retryCfg p)). lia. }
  cbn [retry_loop cloneMessage PublishMsg bus]. unfold after. cbn [andb]. unfold onSuccess. rewrite Hc.
  split; [done|]. cbn. by unfold closed.
Qed.
End Calm.

Lemma replay_drains_letters_witness :
  @letters (disk (@replayLoop _ _ _ _ Calm.bus Calm.host Retry.counting_world _ _ 2 Calm.publisher tt BoolBus.span Calm.world).2) = ∅.
Proof.
  eapply (@replay_drains_letters _ _ _ _ Calm.bus Calm.host Retry.counting_world); [apply Calm.closed_healthy|done| |].
  - assert (letters (disk Calm.world) = list_to_map ((λ x, (x.1, default "" (file_content x.2))) <$>
      [Calm.letter 300; Calm.letter 100; Calm.letter 200])) as Hl
      by (apply (bool_decide_unpack _); vm_compute; exact I).
    unfold decodable. rewrite Hl. cbn [list_to_map fmap list_fmap foldr uncurry].
    repeat (apply map_Forall_insert_2; [eexists; vm_compute; reflexivity|]). apply map_Forall_empty.
  - by vm_compute.
Defined.
