(* ===== verification/NatsConsumer.v ===== *)
(** * Consuming (src/natsbus/consumer.go) and the propagating wrappers
      (src/natsbus/propagation.go)

    A durable queue consumer: the options, the connection, the callback that
    acknowledges what the handler accepted, and the shutdown that runs once however
    often and by whomever it is called. *)

From S2P Require Import Prelude GoStrings GoTime GoErrors Breaker GoFloat Retry Json NatsBus NatsReliable.
#[local] Open Scope Z_scope.

(** [DeliveryPolicy] is a string type. *)
Definition DeliverNew : string := "new".
Definition DeliverAll : string := "all".
Definition DeliverLast : string := "last".

Definition errConsumerSubjectRequired : error := ErrNew "errConsumerSubjectRequired" "consumer_subject_required".
Definition errConsumerStreamRequired : error := ErrNew "errConsumerStreamRequired" "consumer_stream_required".
Definition errConsumerDurableRequired : error := ErrNew "errConsumerDurableRequired" "consumer_durable_required".
Definition errConsumerHandlerNil : error := ErrNew "errConsumerHandlerNil" "consumer_handler_nil".

Record ConsumerOptions := {
  Stream : string; conSubject : string; Durable : string; Queue : string; AckWait : duration;
  DeliverPolicy : string; conNATSOptions : list NatsOption;
}.

Definition consumerDefaults (o : ConsumerOptions) : ConsumerOptions :=
  {| Stream := TrimSpace (Stream o); conSubject := TrimSpace (conSubject o); Durable := TrimSpace (Durable o);
     Queue := TrimSpace (Queue o); AckWait := AckWait o;
     DeliverPolicy := if decide (DeliverPolicy o = "") then DeliverNew else DeliverPolicy o;
     conNATSOptions := conNATSOptions o |}.

Definition queueName (o : ConsumerOptions) : string := if decide (Queue o ≠ "") then Queue o else Durable o.

Definition consumerNatsOptions (o : ConsumerOptions) : list NatsOption :=
  [RetryOnFailedConnect true; MaxReconnects 10; ReconnectWait (2 * Second); NoCallbacksAfterClientClose]
  ++ conNATSOptions o.

(** [nats.SubOpt] values. *)
Inductive SubOpt :=
| BindStream (stream : string) | DurableName (durable : string) | ManualAck | AckWaitOpt (d : duration)
| OptDeliverNew | OptDeliverAll | OptDeliverLast.

Definition subscribeOptions (o : ConsumerOptions) : list SubOpt :=
  [BindStream (Stream o); DurableName (Durable o); ManualAck]
  ++ (if 0 <? AckWait o then [AckWaitOpt (AckWait o)] else [])
  ++ (if decide (DeliverPolicy o = DeliverNew) then [OptDeliverNew]
      else if decide (DeliverPolicy o = DeliverAll) then [OptDeliverAll]
      else if decide (DeliverPolicy o = DeliverLast) then [OptDeliverLast]
      else [OptDeliverNew]).

(** JetStream for consumers: subscriptions, and the two answers to a message. *)
Class ConsumerBus (W C : Type) `{!Bus W C, !Connector W C} := {
  consumer_js : Type;
  subscription : Type;
  newConsumerJetStream : conn → W → result error consumer_js * W;
  QueueSubscribe : consumer_js → string → string → list SubOpt → W → result error subscription * W;
  Drain : subscription → W → option error * W;
  ackMessage : Msg → W → option error * W;
  nakMessage : Msg → W → option error * W;
}.

Section Consumer.
Context {A C W : Type} `{!Codec A, !Telemetry C, !Unicode, !Bus W C, !Connector W C, !ConsumerBus W C}.

Definition Handler : Type := C → Msg → W → option error * W.

(** How a delivery was answered; the error is that of the answer. *)
Inductive answer := Acked (err : option error) | Naked (cause : error) (err : option error).

(** The callback of the subscription. *)
Definition callback (handler : Handler) (m : Msg) (w : W) : answer * W :=
  match extractMessageContext (A := A) (Some m) with
  | (parentCtx, Some m) =>
      match handler (StartSpan parentCtx) m w with
      | (Some e, w) => let '(nakErr, w) := nakMessage m w in (Naked e nakErr, w)
      | (None, w) => let '(ackErr, w) := ackMessage m w in (Acked ackErr, w)
      end
  | (_, None) => (Acked None, w)
  end.

(** A running consumer: its subscription and connection, whether the cleanup ran,
    and its error. *)
Record Running := { run_sub : subscription; run_conn : conn; once_done : bool; cleanup_error : option error }.

Definition Subscribe (natsURL : string) (opts : ConsumerOptions) (handler : option Handler) (w : W)
  : result error Running * W :=
  let opts := consumerDefaults opts in
  let natsURL := TrimSpace natsURL in
  if decide (natsURL = "") then (Err errNATSURLRequired, w)
  else if decide (Stream opts = "") then (Err errConsumerStreamRequired, w)
  else if decide (conSubject opts = "") then (Err errConsumerSubjectRequired, w)
  else if decide (Durable opts = "") then (Err errConsumerDurableRequired, w)
  else match handler with
  | None => (Err errConsumerHandlerNil, w)
  | Some _ =>
      match connectNATS natsURL (consumerNatsOptions opts) w with
      | (Err e, w) => (Err (ErrWrap "nats_connect: " e ""), w)
      | (Ok connection, w) =>
          match newConsumerJetStream connection w with
          | (Err e, w) => (Err (ErrWrap "jetstream_connect: " e ""), closeConnection connection w)
          | (Ok j, w) =>
              match QueueSubscribe j (conSubject opts) (queueName opts) (subscribeOptions opts) w with
              | (Err e, w) => (Err (ErrWrap "queue_subscribe: " e ""), closeConnection connection w)
              | (Ok s, w) =>
                  (Ok {| run_sub := s; run_conn := connection; once_done := false; cleanup_error := None |}, w)
              end
          end
      end
  end.

Definition cleanFn (r : Running) (w : W) : Running * W :=
  let '(err, w) := Drain (run_sub r) w in
  ({| run_sub := run_sub r; run_conn := run_conn r; once_done := true;
      cleanup_error := match err with
                       | Some e => match cleanup_error r with None => Some e | c => c end
                       | None => cleanup_error r
                       end |}, closeConnection (run_conn r) w).

(** [once.Do(cleanFn)]: by the cancelled context or by the returned function. *)
Definition cleanup_once (r : Running) (w : W) : Running * W :=
  if once_done r then (r, w) else cleanFn r w.

(** The returned function: [once.Do(cleanFn)] and the error of the cleanup. *)
Definition shutdown (r : Running) (w : W) : option error * Running * W :=
  let '(r, w) := cleanup_once r w in (cleanup_error r, r, w).

(** ** The wrappers of propagation.go *)

(** [PropagatingPublisher.Publish]; nil wrappers and publishers are [None]. *)
Definition PublishPropagating (p : option (Publisher C W)) (ctx : C) (change : Change A) (w : W) : option error * W :=
  match client p with
  | None => (Some ErrPublisherNil, w)
  | Some (_, j) =>
      let ctx := StartSpan ctx in
      match buildMessage p ctx change w with
      | (Err e, w) => (Some e, w)
      | (Ok message, w) =>
          let message := injectMessageTraceContext ctx message in
          match PublishMsg j ctx message w with
          | (Some e, w) => (Some (ErrWrap ("publish " +:+ Subject message +:+ ": ") e ""), w)
          | (None, w) => (None, w)
          end
      end
  end.

Definition PublishChangePropagating (p : option (Publisher C W)) (ctx : C) (change : Change A) (w : W) : W :=
  (PublishPropagating p ctx change w).2.

(** [PropagatingConsumer.Consume] *)
Definition Consume (handler : option Handler) (m : option Msg) (w : W) : option error * W :=
  match handler with
  | None => (Some errConsumerHandlerNil, w)
  | Some h =>
      match m with
      | None => (Some errMessageNil, w)
      | Some _ =>
          match extractMessageContext (A := A) m with
          | (parentCtx, Some m) => h (StartSpan parentCtx) m w
          | (_, None) => (Some errMessageNil, w)
          end
      end
  end.
End Consumer.

(** ** At least once

    A durable consumer keeps a message pending until its acknowledgement; a message
    that was not acknowledged, or whose acknowledgement failed, is delivered again. *)

Section Delivery.
Context {A C W : Type} `{!Codec A, !Telemetry C, !Unicode, !Bus W C, !Connector W C, !ConsumerBus W C}.
Context (h : Handler (C := C) (W := W)).

Inductive deliver : list Msg * W → list Msg * W → Prop :=
| deliver_done i m q w w' :
    q !! i = Some m → callback (A := A) h m w = (Acked None, w') → deliver (q, w) (delete i q, w')
| deliver_again i m q w a w' :
    q !! i = Some m → callback (A := A) h m w = (a, w') → a ≠ Acked None → deliver (q, w) (q, w').

(** The handler accepted the message, in the context the message carries. *)
Definition handled (m : Msg) : Prop :=
  ∃ w w', h (StartSpan (extractMessageContext (A := A) (Some m)).1) (newNATSHeaderCarrier m) w = (None, w').

Lemma callback_acked m w err w' : callback (A := A) h m w = (Acked err, w') → handled m.
Proof.
  unfold callback, handled. destruct (extractMessageContext (Some m)) as [ctx m'] eqn:Ex.
  assert (m' = Some (newNATSHeaderCarrier m)) as ->.
  { unfold extractMessageContext in Ex. repeat case_match; by simplify_eq. }
  destruct (h (StartSpan ctx) (newNATSHeaderCarrier m) w) as [[e|] w1] eqn:Eh.
  - destruct (nakMessage _ w1). by intros [= ].
  - intros _. exists w, w1. by rewrite <- Eh.
Qed.

Lemma deliver_progress q w q' w' :
  deliver (q, w) (q', w') → ∃ done, q ≡ₚ done ++ q' ∧ Forall handled done.
Proof.
  inversion 1 as [i m q0 w0 w1 Hi Hc|i m q0 w0 a w1 Hi Hc Ha]; subst.
  - exists [m]. split; [by apply delete_Permutation|]. constructor; [|constructor]. by eapply callback_acked.
  - by exists [].
Qed.

(** C20: Messages are handled at least once: whatever the handler, the broker's answers
    and the order of deliveries, a message leaves the consumer's pending messages only
    after the handler accepted it, in the trace context it carries. *)
Theorem consumer_handles_at_least_once q w q' w' :
  rtc deliver (q, w) (q', w') → ∃ done, q ≡ₚ done ++ q' ∧ Forall handled done.
Proof.
  remember (q, w) as x eqn:Ex. remember (q', w') as y eqn:Ey. intros Hr. revert q w Ex.
  induction Hr as [x|x [q1 w1] y Hs Hr IH]; intros q w ->; [simplify_eq; by exists []|].
  apply deliver_progress in Hs as (d1 & Hp1 & Hh1). destruct (IH Ey q1 w1 eq_refl) as (d2 & Hp2 & Hh2).
  exists (d1 ++ d2). split; [by rewrite Hp1, Hp2, app_assoc|]. by apply Forall_app_2.
Qed.

(** Wrapping a publisher in [PropagatingPublisher] changes nothing of what is
    published: the trace context it injects a second time is the one the message
    already carries, so every publish has the same outcome and effect. *)
Theorem propagating_publisher_is_transparent (p : option (Publisher C W)) ctx (change : Change A) w :
  PublishPropagating p ctx change w = Publish p ctx change w.
Proof.
  unfold PublishPropagating, Publish. destruct (client p) as [[pub j]|] eqn:Hc; [|done].
  destruct (buildMessage p (StartSpan ctx) change w) as [[m|e] w1] eqn:Hb; [|done].
  assert (injectMessageTraceContext (StartSpan ctx) m = m) as ->; [|done].
  unfold buildMessage in Hb. rewrite Hc in Hb. destruct (recorded_at change w), (uuid_NewString _).
  destruct (marshalEnvelopeMessage _ _ _) as [m0|]; [|done]. injection Hb as <- _.
  unfold injectMessageTraceContext. case_decide as Hp; [done|]. rewrite ?decide_False by done.
  unfold set_header_map. cbn. do 2 f_equal. by rewrite map_union_assoc, map_union_idemp.
Qed.
End Delivery.

(** ** Connections are closed *)

(** The number of open connections, which only connecting and closing change. *)
Class OpenConnections (W C : Type) `{!Bus W C, !Connector W C, !ConsumerBus W C, !Host W} := {
  live : W → Z;
  live_connect url opts w :
    live (connectNATS url opts w).2 = live w + (if is_ok (connectNATS url opts w).1 then 1 else 0);
  live_close c w : live (closeConnection c w) = live w - 1;
  live_js c w : live (newJetStream c w).2 = live w;
  live_stream j cfg w : live (CreateOrUpdateStream j cfg w).2 = live w;
  live_consumer_js c w : live (newConsumerJetStream c w).2 = live w;
  live_subscribe j s q o w : live (QueueSubscribe j s q o w).2 = live w;
  live_drain s w : live (Drain s w).2 = live w;
  live_fault w : live (fault w).2 = live w;
  live_register name w : live (Register name w).2 = live w;
}.

Section Leaks.
Context {C E F G : Type} `{!Telemetry C, !Unicode, !Bus E C, !Connector E C, !ConsumerBus E C, !Host E, !Float64 F}.
Context `{!OpenConnections E C}.

(** A call that opens one connection when it succeeds and none when it fails. *)
Definition opens_one {X} (w w' : E) (r : result error X) : Prop :=
  live w' = live w + (if is_ok r then 1 else 0).

Lemma connect_opens_one url stream prefix opts w :
  let '(r, w') := ConnectWithOptions url stream prefix opts w in opens_one w w' r.
Proof.
  unfold ConnectWithOptions, opens_one. cbv zeta. repeat (case_decide; [cbn; lia|]).
  match goal with |- context [connectNATS ?u ?o w] => pose proof (live_connect u o w) as L1;
    destruct (connectNATS u o w) as [[c|e] w1] end; cbn in *; [|lia].
  pose proof (live_js c w1) as L2. destruct (newJetStream c w1) as [[j|e] w2]; cbn in *; [|rewrite live_close; lia].
  match goal with |- context [CreateOrUpdateStream j ?s w2] => pose proof (live_stream j s w2) as L3;
    destruct (CreateOrUpdateStream j s w2) as [[e|] w3] end; cbn in *; [rewrite live_close|]; lia.
Qed.

Lemma subscribe_opens_one url opts h w :
  let '(r, w') := Subscribe url opts h w in opens_one w w' r.
Proof.
  unfold Subscribe, opens_one. cbv zeta. repeat (case_decide; [cbn; lia|]). destruct h as [h|]; [|cbn; lia].
  match goal with |- context [connectNATS ?u ?o w] => pose proof (live_connect u o w) as L1;
    destruct (connectNATS u o w) as [[c|e] w1] end; cbn in *; [|lia].
  pose proof (live_consumer_js c w1) as L2.
  destruct (newConsumerJetStream c w1) as [[j|e] w2]; cbn in *; [|rewrite live_close; lia].
  match goal with |- context [QueueSubscribe j ?a ?b ?c w2] => pose proof (live_subscribe j a b c w2) as L3;
    destruct (QueueSubscribe j a b c w2) as [[s|e] w3] end; cbn in *; [|rewrite live_close]; lia.
Qed.

Lemma attempt_live {X} (op : World E → result error X * World E) w :
  (∀ w, live (env (op w).2) = live (env w)) → live (env (attempt op w).2) = live (env w).
Proof.
  intros Hop. unfold attempt. pose proof (live_fault (env w)) as Hf.
  destruct (fault (env w)) as [[e|] env']; cbn in *; [done|]. by rewrite Hop.
Qed.

Lemma store_live dir w : live (env (newDeadLetterStore dir w).2) = live (env w).
Proof.
  unfold newDeadLetterStore. case_decide; [done|].
  assert (live (env (MkdirAll w).2) = live (env w)) as L1 by by apply attempt_live.
  destruct (MkdirAll w) as [[[]|e] w1]; [|done]. unfold scanCount.
  assert (live (env (ReadDir w1).2) = live (env w1)) as L2 by by apply attempt_live.
  destruct (ReadDir w1) as [[l|e] w2]; cbn in *; lia.
Qed.

Lemma register_live name w : live (env (register name w).2) = live (env w).
Proof.
  unfold register. pose proof (live_register name (env w)) as Hr.
  destruct (Register name (env w)) as [[|[]|] e]; done.
Qed.

Lemma reliable_live NB publisher (opts : ReliableOptions F) w :
  live (env (NewReliablePublisher (G := G) NB publisher opts w).2) = live (env w).
Proof.
  unfold NewReliablePublisher. destruct (blank _); [done|]. destruct (client publisher); [|done].
  pose proof (store_live (DeadLetterDir (reliableDefaults opts)) w) as L1.
  destruct (newDeadLetterStore _ w) as [[s|e] w1]; [|done]. unfold newReliableMetrics.
  pose proof (register_live "natsbus_publish_failures_total" w1) as L2.
  destruct (register _ w1) as [[e|] w2]; [cbn in *; lia|].
  pose proof (register_live "natsbus_dead_letter_size" w2) as L3.
  destruct (register _ w2) as [[e|] w3]; cbn in *; lia.
Qed.

Lemma connect_reliable_opens_one NB url stream prefix (opts : ReliableOptions F) w :
  let '(r, w') := ConnectReliable (G := G) NB url stream prefix opts w in opens_one (env w) (env w') r.
Proof.
  unfold ConnectReliable, opens_one. cbv zeta. destruct (blank _); [cbn; lia|].
  pose proof (connect_opens_one url stream prefix (PublisherOptions (reliableDefaults opts)) (env w)) as L1.
  destruct (ConnectWithOptions _ _ _ _ _) as [[[pub c]|e] e1]; unfold opens_one in L1; cbn in *; [|lia].
  pose proof (reliable_live NB (Some pub) (reliableDefaults opts) (set_env e1 w)) as L2.
  destruct (NewReliablePublisher _ _ _ _) as [[p|e] w2]; cbn in *; [|rewrite live_close]; lia.
Qed.

(** The shutdown called [n] times, and by the cancelled context in between. *)
Fixpoint shutdowns (n : nat) (r : Running) (w : E) : Running * E :=
  match n with
  | O => (r, w)
  | S n => let '(_, r, w) := shutdown r w in shutdowns n r w
  end.

Lemma shutdown_done r w : once_done r = true → shutdown r w = (cleanup_error r, r, w).
Proof. intros Hd. unfold shutdown, cleanup_once. by rewrite Hd. Qed.

(** C29: Connections do not leak: connecting a publisher, a reliable publisher or a
    consumer opens exactly one connection when it succeeds and none when it fails at
    any step, and shutting a consumer down any number of times closes its one. *)
Theorem connections_do_not_leak NB url stream prefix opts (ropts : ReliableOptions F) copts h (w : E) (wd : World E) :
  (let '(r, w') := ConnectWithOptions url stream prefix opts w in opens_one w w' r) ∧
  (let '(r, wd') := ConnectReliable (G := G) NB url stream prefix ropts wd in opens_one (env wd) (env wd') r) ∧
  (let '(r, w') := Subscribe url copts h w in
   opens_one w w' r ∧ ∀ run, r = Ok run → ∀ n, live (shutdowns (S n) run w').2 = live w).
Proof.
  split; [apply connect_opens_one|]. split; [apply connect_reliable_opens_one|].
  pose proof (subscribe_opens_one url copts h w) as Hs. destruct (Subscribe url copts h w) as [r w'] eqn:Es.
  split; [done|]. intros run -> n. unfold opens_one in Hs. cbn [is_ok] in Hs.
  assert (once_done run = false) as Ho by (unfold Subscribe in Es; repeat case_match; by simplify_eq).
  cbn [shutdowns]. unfold shutdown at 1. unfold cleanup_once. rewrite Ho. unfold cleanFn.
  pose proof (live_drain (run_sub run) w') as Hd. destruct (Drain (run_sub run) w') as [err w1]. cbn in Hd.
  match goal with |- context [shutdowns n ?r _] => set (r1 := r) end. assert (once_done r1 = true) as L1 by done.
  assert (live (closeConnection (run_conn run) w1) = live w) as Hl by (rewrite live_close; lia).
  clearbody r1. induction n as [|n IH]; [done|]. cbn [shutdowns]. by rewrite shutdown_done.
Qed.
End Leaks.

(** ** Instances: the world counts connections, and the bus answers everything. *)

Module Counted.
#[export] Instance connector : Connector Z SpanContext (Bus0 := Calm.bus) := {
  conn := unit;
  connectNATS url _ w := if decide (url = "nats://down") then (Err not_exist, w) else (Ok tt, w + 1);
  newJetStream _ w := (Ok tt, w);
  CreateOrUpdateStream _ cfg w := (if decide (Name cfg = "broken") then Some not_exist else None, w);
  closeConnection _ w := w - 1;
}.
#[export] Instance consumer_bus : ConsumerBus Z SpanContext (Bus0 := Calm.bus) (Connector0 := connector) := {
  consumer_js := unit;
  subscription := unit;
  newConsumerJetStream _ w := (Ok tt, w);
  QueueSubscribe _ _ _ _ w := (Ok tt, w);
  Drain _ w := (None, w);
  ackMessage _ w := (None, w);
  nakMessage _ w := (None, w);
}.
#[export] Instance open_connections :
  OpenConnections Z SpanContext (Bus0 := Calm.bus) (Connector0 := connector) (ConsumerBus0 := consumer_bus)
    (Host0 := Calm.host).
Proof.
  refine {| live := λ w : Z, w |}; try done. intros url opts w. cbn. case_decide; cbn; lia.
Defined.

Definition options : ConsumerOptions :=
  {| Stream := " S "; conSubject := "svc.>"; Durable := "d"; Queue := ""; AckWait := 0; DeliverPolicy := "";
     conNATSOptions := [] |}.

(** Accepts from the second delivery on. *)
Definition handler (ctx : SpanContext) (m : Msg) (w : Z) : option error * Z :=
  (if w <? 1 then Some (ErrFmt "not yet") else None, w + 1).

Definition message : Msg := NewMsg "svc.user" "x".
End Counted.
#[local] Existing Instances Calm.bus Calm.host Counted.connector Counted.consumer_bus Counted.open_connections
  BoolBus.codec BoolBus.telemetry ascii_unicode.

Lemma consumer_handles_at_least_once_witness :
  ∃ done, [Counted.message] ≡ₚ done ++ [] ∧ Forall (handled (A := bool) Counted.handler) done.
Proof.
  apply (consumer_handles_at_least_once (A := bool) Counted.handler [Counted.message] 0 [] 2).
  eapply rtc_l; [eapply (deliver_again _ 0); [reflexivity|vm_compute; reflexivity|done]|].
  eapply rtc_once, (deliver_done _ 0); [reflexivity|vm_compute; reflexivity].
Defined.

Lemma connections_do_not_leak_witness :
  match Subscribe (C := SpanContext) "nats://up" Counted.options (Some Counted.handler) 5 with
  | (Ok run, w') => w' = 6 ∧ (shutdowns 3 run w').2 = 5
  | _ => False
  end.
Proof.
  pose proof (connections_do_not_leak (C := SpanContext) (F := QArith_base.Q) Desk.new_guard "nats://up" "S" "p"
    (PublisherOptions Desk.options) Desk.options Counted.options (Some Counted.handler) 5 Calm.world) as (_ & _ & Hw).
  destruct (Subscribe "nats://up" Counted.options (Some Counted.handler) 5) as [[run|e] w'] eqn:Hs; vm_compute in Hs; [|done].
  split; [congruence|]. exact (proj2 Hw run eq_refl 2%nat).
Defined.
