(* ===== verification/AgentHook.v ===== *)
(** * The governance hook of agents (src/agenthook)

    A command that reads the description of a tool use, asks the governance service
    whether it may go on, waits for a human approval when the service wants one, and
    answers with its exit code and a deny decision.

    The two services, the clock, sleeping and the streams are operations of the world;
    time.ParseDuration is an argument of the configuration. *)

From S2P Require Import Prelude GoStrings GoErrors Json Http Mtls RtErrors.
From Stdlib Require Import Ascii.
#[local] Open Scope Z_scope.

Definition defaultSurface := "codex".
Definition defaultApprovalTimeout : duration := 5 * Minute.
Definition defaultPollInterval : duration := 3 * Second.
Definition defaultGovernanceTimeout : duration := 5 * Second.
Definition defaultApprovalsTimeout : duration := 5 * Second.
Definition defaultClientServerName := "".

(** ** Configuration *)

Record Config := {
  GovernanceURL : string;
  ApprovalsURL : string;
  AgentToken : string;
  WorkspaceID : string;
  cfgAgentID : string;
  cfgSurface : string;
  ApprovalTimeout : duration;
  ApprovalPollInterval : duration;
  GovernanceTimeout : duration;
  ApprovalsTimeout : duration;
  TLS : ClientConfig;
}.

Definition governanceServiceSuffixes : list string :=
  ["/governance.v1.GovernanceService/EvaluateAction"; "/governance.v1.GovernanceService"].
Definition approvalsServiceSuffixes : list string :=
  ["/approvals.v1.ApprovalService/RequestApproval"; "/approvals.v1.ApprovalService/GetApproval";
   "/approvals.v1.ApprovalService"].

Definition normalizeServiceURL (value : string) (suffixes : list string) : string :=
  TrimRightByte "/" (foldl TrimSuffix (TrimSpace value) suffixes).

Fixpoint firstNonEmpty (values : list string) : string :=
  match values with
  | [] => ""
  | v :: values => if decide (TrimSpace v ≠ "") then TrimSpace v else firstNonEmpty values
  end.

Section Environment.
Context (Getenv : string → string) (ParseDuration : string → option duration).

Definition trimEnv (key : string) : string := TrimSpace (Getenv key).

Definition envOrDefault (key fallback : string) : string :=
  if decide (trimEnv key ≠ "") then trimEnv key else fallback.

Definition envDuration (key : string) (fallback : duration) : duration :=
  let value := trimEnv key in
  if decide (value = "") then fallback
  else match ParseDuration value with
       | Some d => d
       | None => match ParseInt value with Some seconds => wrap64 (seconds * Second) | None => fallback end
       end.

(** [Validate]; [None] is nil. *)
Definition Validate (cfg : Config) : option error :=
  if decide (TrimSpace (GovernanceURL cfg) = "") then Some (ErrFmt "EVALOPS_GOVERNANCE_URL is required")
  else if decide (TrimSpace (WorkspaceID cfg) = "") then Some (ErrFmt "EVALOPS_WORKSPACE_ID is required")
  else if ApprovalTimeout cfg <=? 0 then Some (ErrFmt "EVALOPS_APPROVAL_TIMEOUT must be greater than zero")
  else if ApprovalPollInterval cfg <=? 0
  then Some (ErrFmt "EVALOPS_APPROVAL_POLL_INTERVAL must be greater than zero")
  else if GovernanceTimeout cfg <=? 0 then Some (ErrFmt "EVALOPS_GOVERNANCE_TIMEOUT must be greater than zero")
  else if ApprovalsTimeout cfg <=? 0 then Some (ErrFmt "EVALOPS_APPROVALS_TIMEOUT must be greater than zero")
  else None.

Definition LoadConfigFromEnv : Config * option error :=
  let cfg :=
    {| GovernanceURL := normalizeServiceURL (trimEnv "EVALOPS_GOVERNANCE_URL") governanceServiceSuffixes;
       ApprovalsURL := normalizeServiceURL (trimEnv "EVALOPS_APPROVALS_URL") approvalsServiceSuffixes;
       AgentToken := trimEnv "EVALOPS_AGENT_TOKEN";
       WorkspaceID := trimEnv "EVALOPS_WORKSPACE_ID";
       cfgAgentID := trimEnv "EVALOPS_AGENT_ID";
       cfgSurface := firstNonEmpty [trimEnv "EVALOPS_HOOK_SURFACE"; trimEnv "EVALOPS_SURFACE"; defaultSurface];
       ApprovalTimeout := envDuration "EVALOPS_APPROVAL_TIMEOUT" defaultApprovalTimeout;
       ApprovalPollInterval := envDuration "EVALOPS_APPROVAL_POLL_INTERVAL" defaultPollInterval;
       GovernanceTimeout := envDuration "EVALOPS_GOVERNANCE_TIMEOUT" defaultGovernanceTimeout;
       ApprovalsTimeout := envDuration "EVALOPS_APPROVALS_TIMEOUT" defaultApprovalsTimeout;
       TLS := {| CAFile := trimEnv "EVALOPS_CA_FILE"; CertFile := trimEnv "EVALOPS_CERT_FILE";
                 KeyFile := trimEnv "EVALOPS_KEY_FILE";
                 ServerName := envOrDefault "EVALOPS_SERVER_NAME" defaultClientServerName |} |} in
  (cfg, Validate cfg).
End Environment.

(** ** Events *)

(** A [map[string]any]; nil is [None]. *)
Definition AnyMap : Type := option (gmap string json).

Record ToolUseEvent := {
  ToolName : string;
  ToolInput : option string;
  SessionID : string;
  evAgentID : string;
  evContext : AnyMap;
  Metadata : AnyMap;
}.

Record PermissionDecision := { Permission : string; Reason : string }.

Definition denyDecision (reason : string) : PermissionDecision :=
  {| Permission := "deny"; Reason := TrimSpace reason |}.

Definition assign_map (m : AnyMap) (j : json) : option AnyMap :=
  match j with
  | JNull => Some None
  | JObject fs => Some (Some (foldl (λ m kv, <[kv.1 := kv.2]> m) (default ∅ m) fs))
  | _ => None
  end.

(** [json.Unmarshal] into a [ToolUseEvent]. *)
Definition unmarshal_event (data : string) : option ToolUseEvent :=
  ms ← struct_members data;
  name ← string_field "tool_name" ms;
  session ← string_field "session_id" ms;
  agent ← string_field "agent_id" ms;
  ctx ← fold_field "context" assign_map None ms;
  meta ← fold_field "metadata" assign_map None ms;
  Some {| ToolName := name; ToolInput := raw_field "tool_input" ms; SessionID := session; evAgentID := agent;
          evContext := ctx; Metadata := meta |}.

Definition json_error : error := ErrForeign 1 "json: invalid input".

Definition ParseToolUseEvent (data : string) : result error ToolUseEvent :=
  match unmarshal_event data with
  | None => Err (ErrWrap "decode_tool_use_payload: " json_error "")
  | Some event =>
      if decide (TrimSpace (ToolName event) = "") then Err (ErrFmt "tool_name is required") else Ok event
  end.

Definition ActionPayload (event : ToolUseEvent) (raw : string) : string :=
  let trimmed := TrimSpace (default "" (ToolInput event)) in
  if decide (trimmed ≠ "" ∧ trimmed ≠ "null") then "" +:+ trimmed else TrimSpace raw.

Definition lookupString (values : AnyMap) (key : string) : string :=
  match values with
  | None => ""
  | Some m => match m !! key with Some (JString s) => TrimSpace s | _ => "" end
  end.

Definition ResolvedAgentID (event : ToolUseEvent) (fallback : string) : string :=
  firstNonEmpty [evAgentID event; lookupString (evContext event) "agent_id";
                 lookupString (Metadata event) "agent_id"; SessionID event;
                 lookupString (evContext event) "session_id"; lookupString (Metadata event) "session_id"; fallback].

Definition Surface (event : ToolUseEvent) (fallback : string) : string :=
  firstNonEmpty [lookupString (evContext event) "surface"; lookupString (Metadata event) "surface"; fallback].

(** A []string of a message: nil when it is empty. *)
Definition strings_json (l : list string) : string :=
  Marshal (match l with [] => JNull | _ => JArray (JString <$> l) end).

(** Keys in order; raw text that is not JSON is an error. *)
Definition ApprovalContextJSON (event : ToolUseEvent) (raw : string) (reasons matchedRules : list string) : string :=
  match parse_json raw with
  | None => "{}"
  | Some _ =>
      marshal_members [("governance_reasons", strings_json reasons); ("hook_event", compact raw);
                       ("matched_rules", strings_json matchedRules); ("tool_name", Marshal (JString (ToolName event)))]
  end.

(** ** The services *)

Definition ACTION_DECISION_UNSPECIFIED : Z := 0.
Definition ACTION_DECISION_ALLOW : Z := 1.
Definition ACTION_DECISION_DENY : Z := 2.
Definition ACTION_DECISION_REQUIRE_APPROVAL : Z := 3.

Definition DECISION_TYPE_UNSPECIFIED : Z := 0.
Definition DECISION_TYPE_APPROVED : Z := 1.
Definition DECISION_TYPE_DENIED : Z := 2.
Definition DECISION_TYPE_ESCALATED : Z := 3.
Definition DECISION_TYPE_EXPIRED : Z := 4.
Definition DECISION_TYPE_AUTO_APPROVED : Z := 5.

Record EvaluateActionRequest := { reqWorkspaceId : string; reqAgentId : string; reqActionType : string; reqActionPayload : string }.
Record ActionEvaluation := { Decision : Z; Reasons : list string; MatchedRules : list string; evRiskLevel : Z }.

Record RequestApprovalRequest := {
  raWorkspaceId : string; raAgentId : string; raSurface : string; raActionType : string; raActionPayload : string;
  raRiskLevel : Z; raContextJson : string;
}.
Record ApprovalDecision := { apDecision : Z; apReason : string }.

(** Calls carry the URL of their procedure, a timeout and the headers of the request;
    [None] in the answer of [EvaluateAction] is a response without evaluation.  The
    context of the command can be cancelled at any time. *)
Class HookWorld (W : Type) := {
  EvaluateAction : string → duration → header → EvaluateActionRequest → W → result error (option ActionEvaluation) * W;
  RequestApproval : string → duration → header → RequestApprovalRequest → W → result error string * W;
  GetApproval : string → duration → header → string → string → W → result error (string * list ApprovalDecision) * W;
  hook_Now : W → time * W;
  ctx_Err : W → option error * W;
  hook_Sleep : duration → W → option error * W;
  Stdout : string → W → option error * W;
  Stderr : string → W → W;
}.

Record Runner := { rConfig : Config; rGovernance : option string; rApprovals : option string }.

Definition governanceEvaluateActionProcedure := "/governance.v1.GovernanceService/EvaluateAction".
Definition approvalRequestApprovalProcedure := "/approvals.v1.ApprovalService/RequestApproval".
Definition approvalGetApprovalProcedure := "/approvals.v1.ApprovalService/GetApproval".

(** The clients are the base URLs they call. *)
Definition newConnectGovernanceClient (baseURL : string) : string := TrimRightByte "/" baseURL.
Definition newConnectApprovalClient (baseURL : string) : string := TrimRightByte "/" baseURL.

Definition NewRunner `{!Certificates} (DefaultTransport : RoundTripper) (cfg : Config) : result error Runner :=
  match Validate cfg with
  | Some e => Err e
  | None =>
      match BuildHTTPClient DefaultTransport (TLS cfg) with
      | Err e => Err (ErrWrap "build_http_client: " e "")
      | Ok _ =>
          Ok {| rConfig := cfg; rGovernance := Some (newConnectGovernanceClient (GovernanceURL cfg));
                rApprovals := if decide (TrimSpace (ApprovalsURL cfg) ≠ "")
                              then Some (newConnectApprovalClient (ApprovalsURL cfg)) else None |}
      end
  end.

Definition addAuthorization (r : Runner) (headers : header) : header :=
  let token := TrimSpace (AgentToken (rConfig r)) in
  if decide (token ≠ "") then header_set "Authorization" ("Bearer " +:+ token) headers else headers.

Definition joinReasons (reasons : list string) (fallback : string) : string :=
  let filtered := filter (λ s, s ≠ "") (TrimSpace <$> reasons) in
  if decide (filtered = []) then fallback else Join filtered "; ".

(** The levels of the two services have the same numbers. *)
Definition mapApprovalRisk (level : Z) : Z :=
  if level =? 0 then 0 else if level =? 1 then 1 else if level =? 2 then 2
  else if level =? 3 then 3 else if level =? 4 then 4 else 0.

Definition latestDecision (decisions : list ApprovalDecision) : option ApprovalDecision := last decisions.

Section Runs.
Context {W : Type} `{!HookWorld W, !Quoting}.

(** [decisionFromApproval]; [None] lets the tool run. *)
Definition decisionFromApproval (state : string) (decision : option ApprovalDecision) : option PermissionDecision :=
  match decision with
  | None =>
      Some (denyDecision
        (if decide (state = "resolved") then "approval resolved without a final decision"
         else if decide (state = "expired") then "approval expired"
         else "approval ended in unexpected state " +:+ Quote state))
  | Some d =>
      let deny fallback := Some (denyDecision (firstNonEmpty [apReason d; fallback])) in
      if (apDecision d =? DECISION_TYPE_APPROVED) || (apDecision d =? DECISION_TYPE_AUTO_APPROVED) then None
      else if apDecision d =? DECISION_TYPE_UNSPECIFIED then deny "approval did not resolve to allow"
      else if apDecision d =? DECISION_TYPE_DENIED then deny "approval denied"
      else if apDecision d =? DECISION_TYPE_EXPIRED then deny "approval expired"
      else if apDecision d =? DECISION_TYPE_ESCALATED then deny "approval escalated"
      else deny "approval did not resolve to allow"
  end.

Definition getApproval (r : Runner) (url approvalID : string) (w : W)
  : result error (string * option ApprovalDecision) * W :=
  match GetApproval (url +:+ approvalGetApprovalProcedure) (ApprovalsTimeout (rConfig r)) (addAuthorization r ∅)
          approvalID (WorkspaceID (rConfig r)) w with
  | (Err e, w) => (Err e, w)
  | (Ok (state, decisions), w) => (Ok (TrimSpace state, latestDecision decisions), w)
  end.

(** The loop that waits for the approval; [None] is fuel that ran out. *)
Fixpoint approval_loop (fuel : nat) (r : Runner) (url approvalID : string) (deadline : time) (w : W)
  : option (option PermissionDecision * W) :=
  match fuel with
  | O => None
  | S fuel =>
      match ctx_Err w with
      | (Some e, w) => Some (Some (denyDecision ("approval wait canceled: " +:+ Error_ e)), w)
      | (None, w) =>
          let '(now, w) := hook_Now w in
          if time_after now deadline then Some (Some (denyDecision "approval timed out"), w)
          else
            match getApproval r url approvalID w with
            | (Err e, w) => Some (Some (denyDecision ("approval lookup failed: " +:+ Error_ e)), w)
            | (Ok (state, decision), w) =>
                if decide (state = "" ∨ state = "pending") then
                  match hook_Sleep (ApprovalPollInterval (rConfig r)) w with
                  | (Some e, w) => Some (Some (denyDecision ("approval wait canceled: " +:+ Error_ e)), w)
                  | (None, w) => approval_loop fuel r url approvalID deadline w
                  end
                else Some (decisionFromApproval state decision, w)
            end
      end
  end.

Definition awaitApproval (fuel : nat) (r : Runner) (event : ToolUseEvent) (rawInput agentID : string)
  (evaluation : ActionEvaluation) (w : W) : option (option PermissionDecision * W) :=
  match rApprovals r with
  | None => Some (Some (denyDecision "approval required but EVALOPS_APPROVALS_URL is not configured"), w)
  | Some url =>
      let request :=
        {| raWorkspaceId := WorkspaceID (rConfig r); raAgentId := agentID;
           raSurface := Surface event (cfgSurface (rConfig r)); raActionType := ToolName event;
           raActionPayload := ActionPayload event rawInput; raRiskLevel := mapApprovalRisk (evRiskLevel evaluation);
           raContextJson := ApprovalContextJSON event rawInput (Reasons evaluation) (MatchedRules evaluation) |} in
      match RequestApproval (url +:+ approvalRequestApprovalProcedure) (ApprovalsTimeout (rConfig r))
              (addAuthorization r ∅) request w with
      | (Err e, w) => Some (Some (denyDecision ("approval request failed: " +:+ Error_ e)), w)
      | (Ok id, w) =>
          let approvalID := TrimSpace id in
          if decide (approvalID = "") then Some (Some (denyDecision "approval request failed: missing approval id"), w)
          else
            let '(now, w) := hook_Now w in
            approval_loop fuel r url approvalID (time_add now (ApprovalTimeout (rConfig r))) w
      end
  end.

Definition GovernanceCheck (fuel : nat) (r : option Runner) (input : string) (w : W)
  : option (result error (option PermissionDecision) * W) :=
  let ok (x : option PermissionDecision * W) := (Ok (E := error) x.1, x.2) in
  let deny reason (w : W) := Some (Ok (E := error) (Some (denyDecision reason)), w) in
  match r ≫= λ r, url ← rGovernance r; Some (r, url) with
  | None => Some (Err (ErrNew "" "governance client is required"), w)
  | Some (r, url) =>
      match ParseToolUseEvent input with
      | Err e => deny (Error_ e) w
      | Ok event =>
          let agentID := ResolvedAgentID event (cfgAgentID (rConfig r)) in
          if decide (TrimSpace agentID = "")
          then deny "agent_id is required via EVALOPS_AGENT_ID or hook session_id" w
          else
            let request := {| reqWorkspaceId := WorkspaceID (rConfig r); reqAgentId := agentID;
                              reqActionType := ToolName event; reqActionPayload := ActionPayload event input |} in
            match EvaluateAction (url +:+ governanceEvaluateActionProcedure) (GovernanceTimeout (rConfig r))
                    (addAuthorization r ∅) request w with
            | (Err e, w) => deny ("governance check failed: " +:+ Error_ e) w
            | (Ok None, w) => deny "governance returned no evaluation" w
            | (Ok (Some evaluation), w) =>
                let d := Decision evaluation in
                if d =? ACTION_DECISION_UNSPECIFIED then deny "governance returned an unknown decision" w
                else if d =? ACTION_DECISION_ALLOW then Some (Ok None, w)
                else if d =? ACTION_DECISION_DENY
                then deny (joinReasons (Reasons evaluation) "governance denied this action") w
                else if d =? ACTION_DECISION_REQUIRE_APPROVAL
                then ok <$> awaitApproval fuel r event input agentID evaluation w
                else deny "governance returned an unknown decision" w
            end
      end
  end.

(** ** The command *)

(** The encoder without HTML escapes. *)
Definition plain_escape (a : ascii) : list ascii :=
  if (code a =? 60) || (code a =? 62) || (code a =? 38) then [a] else escape_ascii a.

Fixpoint escape_plain (keep skip : nat) (l : list ascii) : list ascii :=
  match l with
  | [] => []
  | a :: l' =>
      match keep, skip with
      | S k, _ => a :: escape_plain k skip l'
      | O, S k => escape_plain O k l'
      | O, O =>
          match rune_width l with
          | O => bytes_of "\ufffd" ++ escape_plain O O l'
          | S O => plain_escape a ++ escape_plain O O l'
          | S k =>
              match l' with
              | b :: c :: _ =>
                  if (code a =? 226) && (code b =? 128) && ((code c =? 168) || (code c =? 169))
                  then bytes_of (if code c =? 168 then "\u2028" else "\u2029") ++ escape_plain O k l'
                  else a :: escape_plain k O l'
              | _ => a :: escape_plain k O l'
              end
          end
      end
  end.

Definition plain_string (s : string) : string := dquote +:+ of_bytes (escape_plain O O (bytes_of s)) +:+ dquote.

Definition decision_text (d : PermissionDecision) : string :=
  "{" +:+ plain_string "permissionDecision" +:+ ":" +:+ plain_string (Permission d)
  +:+ (if decide (Reason d = "") then "" else "," +:+ plain_string "permissionDecisionReason" +:+ ":" +:+ plain_string (Reason d))
  +:+ "}" +:+ newline.

(** [encodeDecision]: the exit code. *)
Definition encodeDecision (decision : option PermissionDecision) (w : W) : Z * W :=
  match decision with
  | None => (0, w)
  | Some d =>
      match Stdout (decision_text d) w with
      | (Some e, w) => (1, Stderr ("encode_hook_response: " +:+ Error_ e +:+ newline) w)
      | (None, w) => (2, w)
      end
  end.

(** [Execute] with the configuration and the runner it loads; [stdin] is what reading
    it gives, [None] a nil reader. *)
Definition Execute `{!Certificates} (fuel : nat) (Getenv : string → string) (ParseDuration : string → option duration)
  (DefaultTransport : RoundTripper) (args : list string) (stdin : option (result error string)) (w : W)
  : option (Z * W) :=
  if decide (args ≠ ["governance-check"])
  then Some (1, Stderr ("usage: evalops-agent-hook governance-check" +:+ newline) w)
  else
    let '(cfg, err) := LoadConfigFromEnv Getenv ParseDuration in
    match err with
    | Some e => Some (encodeDecision (Some (denyDecision ("hook configuration error: " +:+ Error_ e))) w)
    | None =>
        match NewRunner DefaultTransport cfg with
        | Err e => Some (encodeDecision (Some (denyDecision ("hook bootstrap failed: " +:+ Error_ e))) w)
        | Ok runner =>
            match stdin with
            | None => Some (encodeDecision (Some (denyDecision "read_stdin: input is nil")) w)
            | Some (Err e) => Some (encodeDecision (Some (denyDecision ("read_stdin: " +:+ Error_ e))) w)
            | Some (Ok payload) =>
                match GovernanceCheck fuel (Some runner) payload w with
                | None => None
                | Some (Err e, w) => Some (encodeDecision (Some (denyDecision (Error_ e))) w)
                | Some (Ok decision, w) => Some (encodeDecision decision w)
                end
            end
        end
    end.
End Runs.

(** ** Fail closed *)

Section FailClosed.
Context {W : Type} `{!HookWorld W, !Quoting}.

(** A human or the approval policy approved the request with this identifier: a lookup
    answered with a state that is not pending and an approving latest decision. *)
Definition approved (r : Runner) (id : string) : Prop :=
  ∃ url w state decisions w' d,
    rApprovals r = Some url ∧
    GetApproval (url +:+ approvalGetApprovalProcedure) (ApprovalsTimeout (rConfig r)) (addAuthorization r ∅) id
      (WorkspaceID (rConfig r)) w = (Ok (state, decisions), w') ∧
    TrimSpace state ≠ "" ∧ TrimSpace state ≠ "pending" ∧ last decisions = Some d ∧
    (apDecision d = DECISION_TYPE_APPROVED ∨ apDecision d = DECISION_TYPE_AUTO_APPROVED).

(** The governance service was asked about the tool use of [input] and allowed it, or
    required an approval that was requested for it and given. *)
Definition authorised (r : Runner) (input : string) : Prop :=
  ∃ url event w evaluation w',
    rGovernance r = Some url ∧ ParseToolUseEvent input = Ok event ∧
    EvaluateAction (url +:+ governanceEvaluateActionProcedure) (GovernanceTimeout (rConfig r)) (addAuthorization r ∅)
      {| reqWorkspaceId := WorkspaceID (rConfig r); reqAgentId := ResolvedAgentID event (cfgAgentID (rConfig r));
         reqActionType := ToolName event; reqActionPayload := ActionPayload event input |} w
      = (Ok (Some evaluation), w') ∧
    (Decision evaluation = ACTION_DECISION_ALLOW ∨
     Decision evaluation = ACTION_DECISION_REQUIRE_APPROVAL ∧
     ∃ aurl request w1 id w2,
       rApprovals r = Some aurl ∧ raActionType request = ToolName event ∧
       raActionPayload request = ActionPayload event input ∧
       RequestApproval (aurl +:+ approvalRequestApprovalProcedure) (ApprovalsTimeout (rConfig r))
         (addAuthorization r ∅) request w1 = (Ok id, w2) ∧
       approved r (TrimSpace id)).

Lemma decisionFromApproval_allows state d :
  decisionFromApproval state d = None →
  ∃ x, d = Some x ∧ (apDecision x = DECISION_TYPE_APPROVED ∨ apDecision x = DECISION_TYPE_AUTO_APPROVED).
Proof.
  unfold decisionFromApproval. destruct d as [x|]; [|discriminate]. intros Hn. exists x. split; [done|].
  destruct (Z.eqb_spec (apDecision x) DECISION_TYPE_APPROVED); [by left|].
  destruct (Z.eqb_spec (apDecision x) DECISION_TYPE_AUTO_APPROVED); [by right|].
  cbn [orb] in Hn. repeat case_match; discriminate.
Qed.

Lemma approval_loop_allows fuel r url id deadline w w' :
  rApprovals r = Some url → approval_loop fuel r url id deadline w = Some (None, w') → approved r id.
Proof.
  intros Hu. revert w. induction fuel as [|fuel IH]; intros w; [discriminate|]. cbn [approval_loop].
  destruct (ctx_Err w) as [[e|] w1]; [discriminate|]. destruct (hook_Now w1) as [now w2]. destruct (time_after now deadline); [discriminate|].
  unfold getApproval. destruct (GetApproval _ _ _ _ _ w2) as [[[state ds]|e] w3] eqn:Eg; [|discriminate].
  case_decide as Hs.
  - destruct (hook_Sleep _ w3) as [[e|] w4]; [discriminate|]. apply IH.
  - intros [= Hd _]. apply decisionFromApproval_allows in Hd as (x & Hx & Hx').
    exists url, w2, state, ds, w3, x. naive_solver.
Qed.

Lemma GovernanceCheck_allows fuel r input w w' :
  GovernanceCheck fuel (Some r) input w = Some (Ok None, w') → authorised r input.
Proof.
  unfold GovernanceCheck. cbn [mbind option_bind]. destruct (rGovernance r) as [url|] eqn:Hu; [|discriminate].
  cbn [mbind option_bind]. destruct (ParseToolUseEvent input) as [event|] eqn:Hp; [|discriminate].
  case_decide; [discriminate|]. destruct (EvaluateAction _ _ _ _ w) as [[[ev|]|e] w1] eqn:He; [|discriminate..].
  destruct (Z.eqb_spec (Decision ev) ACTION_DECISION_UNSPECIFIED); [discriminate|].
  destruct (Z.eqb_spec (Decision ev) ACTION_DECISION_ALLOW) as [Ha|].
  { intros _. exists url, event, w, ev, w1. split_and!; auto. }
  destruct (Decision ev =? ACTION_DECISION_DENY); [discriminate|].
  destruct (Z.eqb_spec (Decision ev) ACTION_DECISION_REQUIRE_APPROVAL) as [Hr|]; [|discriminate].
  intros Hw. apply fmap_Some in Hw as ([d w2] & Hw & [= <- <-]).
  exists url, event, w, ev, w1. split_and!; [done..|]. right. split; [done|]. unfold awaitApproval in Hw.
  destruct (rApprovals r) as [aurl|] eqn:Ha; [|discriminate Hw].
  match type of Hw with context [RequestApproval ?u ?t ?h ?q ?s] =>
    destruct (RequestApproval u t h q s) as [[id|e] w3] eqn:Eq; [|discriminate Hw]; exists aurl, q, s, id, w3 end.
  case_decide; [discriminate Hw|]. destruct (hook_Now w3) as [now w4]. split_and!; [done..|].
  by eapply approval_loop_allows.
Qed.

(** Every decision the hook makes is a refusal. *)
Lemma decisionFromApproval_denies state d x :
  decisionFromApproval state d = Some x → ∃ reason, x = denyDecision reason.
Proof. unfold decisionFromApproval. intros Hd. repeat case_match; simplify_eq; by eexists. Qed.

Lemma approval_loop_denies fuel r url id deadline w x w' :
  approval_loop fuel r url id deadline w = Some (Some x, w') → ∃ reason, x = denyDecision reason.
Proof.
  revert w. induction fuel as [|fuel IH]; intros w; [done|]. cbn [approval_loop].
  destruct (ctx_Err w) as [[e|] w1]; [intros [= <- _]; by eexists|]. destruct (hook_Now w1) as [now w2].
  destruct (time_after now deadline); [intros [= <- _]; by eexists|].
  destruct (getApproval _ _ _ w2) as [[[state d]|e] w3]; [|intros [= <- _]; by eexists]. case_decide.
  - destruct (hook_Sleep _ w3) as [[e|] w4]; [intros [= <- _]; by eexists|]. apply IH.
  - intros [= Hd _]. by eapply decisionFromApproval_denies.
Qed.

Lemma GovernanceCheck_denies fuel r input w x w' :
  GovernanceCheck fuel r input w = Some (Ok (Some x), w') → ∃ reason, x = denyDecision reason.
Proof.
  unfold GovernanceCheck. destruct (r ≫= _) as [[r' url]|]; [|done].
  destruct (ParseToolUseEvent input) as [event|]; [|intros [= <- _]; by eexists].
  case_decide; [intros [= <- _]; by eexists|].
  destruct (EvaluateAction _ _ _ _ w) as [[[ev|]|e] w1]; [|intros [= <- _]; by eexists..].
  repeat (case_match; [first [done | intros [= <- _]; by eexists | idtac]|]); [|intros [= <- _]; by eexists].
  intros Hw. apply fmap_Some in Hw as ([d w2] & Hw & [= <- <-]). unfold awaitApproval in Hw.
  destruct (rApprovals r') as [aurl|]; [|injection Hw as <- _; by eexists].
  destruct (RequestApproval _ _ _ _ _) as [[id|e] w3]; [|injection Hw as <- _; by eexists].
  case_decide; [injection Hw as <- _; by eexists|]. destruct (hook_Now w3) as [now w4].
  by eapply approval_loop_denies.
Qed.

Lemma encodeDecision_code d w :
  let '(code, w') := encodeDecision d w in
  match d with
  | None => code = 0 ∧ w' = w
  | Some x =>
      (code = 2 ∧ Stdout (decision_text x) w = (None, w')) ∨
      (code = 1 ∧ ∃ e w1, Stdout (decision_text x) w = (Some e, w1)
                          ∧ w' = Stderr ("encode_hook_response: " +:+ Error_ e +:+ newline) w1)
  end.
Proof.
  unfold encodeDecision. destruct d as [x|]; [|done]. destruct (Stdout _ w) as [[e|] w1]; [right|by left].
  split; [done|]. by exists e, w1.
Qed.

(** The hook stops the tool: a deny decision was written, or could not be. *)
Definition refuses (code : Z) (w' : W) : Prop :=
  ∃ reason w1,
    (code = 2 ∧ Stdout (decision_text (denyDecision reason)) w1 = (None, w')) ∨
    (code = 1 ∧ ∃ e w2, Stdout (decision_text (denyDecision reason)) w1 = (Some e, w2)
                        ∧ w' = Stderr ("encode_hook_response: " +:+ Error_ e +:+ newline) w2).

Lemma encodeDecision_refuses reason w code w' :
  encodeDecision (Some (denyDecision reason)) w = (code, w') → refuses code w'.
Proof. intros He. pose proof (encodeDecision_code (Some (denyDecision reason)) w) as Hc. rewrite He in Hc. by exists reason, w. Qed.

(** C9: The hook fails closed.  It exits with 0, which lets the tool run, only when the
    governance service was asked about exactly this tool use and allowed it, or
    required an approval that was requested for it and granted; configuration and
    input errors, failed calls, unknown decisions, refusals, time-outs and cancelled
    waits all exit with 2 after a deny decision was written.  It exits with 1 only
    when the arguments are wrong, or when writing the deny decision failed and the
    failure was reported on stderr. *)
Theorem hook_fails_closed `{!Certificates} fuel Getenv ParseDuration dt args stdin w code w' :
  Execute fuel Getenv ParseDuration dt args stdin w = Some (code, w') →
  (code = 1 ∧ args ≠ ["governance-check"]
   ∧ w' = Stderr ("usage: evalops-agent-hook governance-check" +:+ newline) w) ∨
  (args = ["governance-check"] ∧
   ((code = 0 ∧ ∃ r payload, NewRunner dt (LoadConfigFromEnv Getenv ParseDuration).1 = Ok r ∧
                             stdin = Some (Ok payload) ∧ authorised r payload) ∨
    refuses code w')).
Proof.
  unfold Execute. case_decide as Ha; [intros [= <- <-]; by left|]. intros Hx. right.
  split; [done|]. revert Hx.
  assert (∀ reason w0, Some (encodeDecision (Some (denyDecision reason)) w0) = Some (code, w') →
    refuses code w') as Hdeny.
  { intros reason w0 He%(inj Some). by eapply encodeDecision_refuses. }
  destruct (LoadConfigFromEnv Getenv ParseDuration) as [cfg [e|]] eqn:El; [intros Hx; right; by eapply Hdeny|].
  cbn [fst]. destruct (NewRunner dt cfg) as [r|e] eqn:En; [|intros Hx; right; by eapply Hdeny].
  destruct stdin as [[payload|e]|]; [|intros Hx; right; by eapply Hdeny..].
  destruct (GovernanceCheck fuel (Some r) payload w) as [[[d|e] w1]|] eqn:Eg; [| |done].
  2: { intros Hx; right; by eapply Hdeny. }
  destruct d as [d|].
  - assert (∃ reason, d = denyDecision reason) as [reason ->]; [|intros Hx; right; by eapply Hdeny].
    by eapply GovernanceCheck_denies.
  - intros [= <- _]. left. split; [done|]. exists r, payload. split_and!; [done..|]. by eapply GovernanceCheck_allows.
Qed.
End FailClosed.

(** ** Termination *)

Section Termination.
Context {W : Type} `{!HookWorld W, !Quoting}.

(** A clock that no operation turns back, and that a sleep advances. *)
Record clock_ok (clock : W → time) : Prop := {
  clock_now w : clock w ≤ (hook_Now w).1 ≤ clock (hook_Now w).2;
  clock_ctx w : clock w ≤ clock (ctx_Err w).2;
  clock_get url d h id ws w : clock w ≤ clock (GetApproval url d h id ws w).2;
  clock_sleep d w w' : hook_Sleep d w = (None, w') → clock w + d ≤ clock w';
}.

Lemma approval_loop_returns clock fuel r url id deadline w :
  clock_ok clock → 0 < ApprovalPollInterval (rConfig r) →
  deadline - clock w < Z.of_nat fuel * ApprovalPollInterval (rConfig r) →
  is_Some (approval_loop (S fuel) r url id deadline w).
Proof.
  intros Hc Hp. revert w. induction fuel as [|fuel IH]; intros w Hd.
  all: cbn [approval_loop]; pose proof (clock_ctx _ Hc w) as H1; destruct (ctx_Err w) as [[e|] w1]; [by eexists|].
  all: pose proof (clock_now _ Hc w1) as H2; destruct (hook_Now w1) as [now w2]; cbn [fst snd] in *.
  all: unfold time_after; destruct (Z.ltb_spec deadline now); [by eexists|].
  { cbn in Hd. lia. }
  unfold getApproval. pose proof (clock_get _ Hc (url +:+ approvalGetApprovalProcedure)
    (ApprovalsTimeout (rConfig r)) (addAuthorization r ∅) id (WorkspaceID (rConfig r)) w2) as H3.
  destruct (GetApproval _ _ _ _ _ w2) as [[[state ds]|e] w3]; [|by eexists]. case_decide; [|by eexists].
  destruct (hook_Sleep _ w3) as [[e|] w4] eqn:Es; [by eexists|]. apply (clock_sleep _ Hc) in Es. apply IH.
  cbn [snd] in *. lia.
Qed.

(** The iterations the approval wait can need. *)
Definition enough_fuel (cfg : Config) : nat := S (S (Z.to_nat (ApprovalTimeout cfg / ApprovalPollInterval cfg))).

Lemma Validate_poll cfg : Validate cfg = None → 0 < ApprovalPollInterval cfg ∧ 0 < ApprovalTimeout cfg.
Proof. unfold Validate. intros Hv. repeat (case_decide || case_match; try discriminate). breflect. lia. Qed.

Lemma GovernanceCheck_returns clock r input w :
  clock_ok clock → Validate (rConfig r) = None →
  is_Some (GovernanceCheck (enough_fuel (rConfig r)) (Some r) input w).
Proof.
  intros Hc [Hp Ht]%Validate_poll. unfold GovernanceCheck. destruct (Some r ≫= _) as [[r' url]|] eqn:Er; [|by eexists].
  assert (r' = r) as -> by (cbn in Er; destruct (rGovernance r); cbn in Er; congruence).
  destruct (ParseToolUseEvent input) as [event|]; [|by eexists]. case_decide; [by eexists|].
  destruct (EvaluateAction _ _ _ _ w) as [[[ev|]|e] w1]; [|by eexists..].
  repeat (case_match; [first [by eexists|idtac]|]); [|by eexists]. apply fmap_is_Some. unfold awaitApproval.
  destruct (rApprovals r) as [aurl|]; [|by eexists].
  destruct (RequestApproval _ _ _ _ _) as [[id|e] w3]; [|by eexists]. case_decide; [by eexists|].
  pose proof (clock_now _ Hc w3) as Hn. destruct (hook_Now w3) as [now w4]. cbn [fst snd] in Hn.
  apply (approval_loop_returns clock); [done..|]. unfold time_add.
  pose proof (Z.div_mod (ApprovalTimeout (rConfig r)) (ApprovalPollInterval (rConfig r)) ltac:(lia)) as Hdm.
  pose proof (Z.mod_pos_bound (ApprovalTimeout (rConfig r)) _ Hp) as Hmod.
  pose proof (Z.div_pos (ApprovalTimeout (rConfig r)) _ ltac:(lia) Hp) as Hpos.
  rewrite Nat2Z.inj_succ, Z2Nat.id by lia. nia.
Qed.

(** C21: The hook terminates: with a clock that does not go back and that a completed
    sleep advances, [Execute] returns an exit code; the wait for an approval polls at
    most two times more than the poll interval fits into the approval time-out. *)
Theorem hook_terminates `{!Certificates} clock Getenv ParseDuration dt args stdin w :
  clock_ok clock →
  is_Some (Execute (enough_fuel (LoadConfigFromEnv Getenv ParseDuration).1) Getenv ParseDuration dt args stdin w).
Proof.
  intros Hc. unfold Execute. case_decide; [by eexists|].
  destruct (LoadConfigFromEnv Getenv ParseDuration) as [cfg [e|]]; [by eexists|]. cbn [fst].
  destruct (NewRunner dt cfg) as [r|e] eqn:En; [|by eexists].
  destruct stdin as [[payload|e]|]; [|by eexists..].
  assert (rConfig r = cfg ∧ Validate cfg = None) as [<- Hv].
  { unfold NewRunner in En. destruct (Validate cfg) eqn:Ev; [discriminate En|].
    destruct (BuildHTTPClient _ _); [|discriminate En]. by injection En as <-. }
  destruct (GovernanceCheck_returns clock r payload w Hc Hv) as [[[d|e] w1] ->]; by eexists.
Qed.
End Termination.

(** ** Instances: the world is a clock; an approval takes ten seconds. *)

Module Slow.
#[export] Instance services : HookWorld Z := {
  EvaluateAction _ _ _ _ w := (Ok (Some {| Decision := 3; Reasons := ["risky"]; MatchedRules := []; evRiskLevel := 3 |}), w + 1);
  RequestApproval _ _ _ _ w := (Ok " ap-1 ", w + 1);
  GetApproval _ _ _ id _ w :=
    (if w <? 10 * Second then Ok ("pending", []) else Ok ("resolved", [{| apDecision := 1; apReason := "" |}]), w + 1);
  hook_Now w := (w, w);
  ctx_Err w := (None, w);
  hook_Sleep d w := (None, w + d);
  Stdout _ w := (None, w);
  Stderr _ w := w;
}.

#[export] Instance quoting : Quoting := { Quote s := dquote +:+ s +:+ dquote }.

#[export] Instance certificates : Certificates := {
  keypair := unit;
  pool := unit;
  LoadX509KeyPair _ _ := Ok tt;
  os_ReadFile _ := Ok "";
  AppendCertsFromPEM _ := Some tt;
}.

Definition Getenv (key : string) : string :=
  if decide (key = "EVALOPS_GOVERNANCE_URL") then "https://gov.example/"
  else if decide (key = "EVALOPS_APPROVALS_URL") then "https://approvals.example/approvals.v1.ApprovalService"
  else if decide (key = "EVALOPS_WORKSPACE_ID") then "ws"
  else if decide (key = "EVALOPS_APPROVAL_POLL_INTERVAL") then "4" else "".

Definition payload : string :=
  "{" +:+ quote_text "tool_name" +:+ ":" +:+ quote_text "Bash" +:+ "," +:+ quote_text "session_id" +:+ ":"
  +:+ quote_text "s1" +:+ "}".

Definition run : option (Z * Z) :=
  Execute (enough_fuel (LoadConfigFromEnv Getenv (λ _, None)).1) Getenv (λ _, None) (Transport None)
    ["governance-check"] (Some (Ok payload)) 0.
End Slow.
#[local] Existing Instances Slow.services Slow.quoting Slow.certificates.

Lemma hook_fails_closed_witness :
  ∃ r payload, NewRunner (Transport None) (LoadConfigFromEnv Slow.Getenv (λ _, None)).1 = Ok r ∧
    Some (Ok Slow.payload) = Some (Ok (E := error) payload) ∧ authorised r payload.
Proof.
  assert (Slow.run = Some (0, 12 * Second + 6)) as Hr by (vm_compute; reflexivity).
  destruct (hook_fails_closed _ _ _ _ _ _ _ _ _ Hr) as [[? _]|[_ [[_ Ha]|Hf]]]; [discriminate|exact Ha|].
  destruct Hf as (? & ? & [[? _]|[? _]]); discriminate.
Defined.

Lemma hook_terminates_witness : is_Some Slow.run.
Proof.
  apply (hook_terminates (λ w : Z, w) Slow.Getenv (λ _, None) (Transport None) ["governance-check"]
    (Some (Ok Slow.payload)) 0).
  split; cbn; try lia. intros d w w' [= <-]. lia.
Defined.
