(* ===== verification/Migrate.v ===== *)
(** * Schema migrations (src/migrate/migrate.go)

    Options from flags and the environment, the source of the migrations, and one run
    of a command.  The migration library and the database are the class
    [MigrateWorld]. *)

From S2P Require Import Prelude GoStrings GoErrors Json.
From Stdlib Require Import Ascii.
#[local] Open Scope Z_scope.

Definition DefaultEnvPrefix := "EVALOPS".
Definition DefaultDownSteps : Z := 1.

(** [Command] is a string type. *)
Definition CommandUp := "up".
Definition CommandDown := "down".
Definition CommandVersion := "version".

Record Options := { Command : string; DownSteps : Z; MigrationsTable : string }.

Record Result := { resCommand : string; Applied : bool; resVersion : option Z; Dirty : bool }.

Definition ErrNoChange : error := ErrNew "gomigrate.ErrNoChange" "no change".
Definition ErrNilVersion : error := ErrNew "gomigrate.ErrNilVersion" "no migration".

(** [gomigrate.ErrDirty], by its identity. *)
Definition dirty_ident : Z := 8.
Definition as_dirty (e : error) : bool :=
  match find_error (λ x, match x with ErrForeign i _ => if i =? dirty_ident then Some tt else None | _ => None end) e with
  | Some _ => true
  | None => false
  end.

(** [errors.Join] of errors that may be nil. *)
Definition join_errors (l : list (option error)) : option error :=
  match omap id l with [] => None | es => Some (ErrJoin es) end.

(** ** Options *)

Section Options.
Context `{!Unicode, !Quoting}.

Definition unsupported (raw : string) : error := ErrFmt ("unsupported migrate command " +:+ Quote raw).

Definition ParseCommand (raw : string) : result error string :=
  let s := TrimSpace (ToLower raw) in
  if decide (s = "" ∨ s = CommandUp) then Ok CommandUp
  else if decide (s = CommandDown) then Ok CommandDown
  else if decide (s = CommandVersion) then Ok CommandVersion
  else Err (unsupported raw).

(** [Command.Set]: the error, and the command after the call. *)
Definition Command_Set (raw c : string) : option error * string :=
  match ParseCommand raw with
  | Err e => (Some e, c)
  | Ok command => (None, command)
  end.

Definition Command_String (c : string) : string := if decide (c = "") then CommandUp else c.

Definition withDefaults (o : Options) : Options :=
  {| Command := if decide (Command o = "") then CommandUp else Command o;
     DownSteps := if DownSteps o =? 0 then DefaultDownSteps else DownSteps o;
     MigrationsTable := TrimSpace (MigrationsTable o) |}.

Definition validate (o : Options) : option error :=
  match ParseCommand (Command_String (Command o)) with
  | Err e => Some e
  | Ok _ => if DownSteps o <? 1 then Some (ErrFmt "migrate down steps must be >= 1") else None
  end.

(** [BindFlags] on a flag set that is not nil: the options become the defaults. *)
Definition BindFlags (o : Options) : Options :=
  let current := withDefaults o in
  {| Command := Command current; DownSteps := DownSteps current; MigrationsTable := TrimSpace (MigrationsTable o) |}.

(** One rune after the other: letters and digits stay, every other becomes '_'. *)
Definition env_byte (a : ascii) : ascii :=
  if ((65 <=? code a) && (code a <=? 90)) || ((48 <=? code a) && (code a <=? 57)) then a else "_"%char.

Fixpoint env_runes (skip : nat) (l : list ascii) : list ascii :=
  match l with
  | [] => []
  | a :: l' =>
      match skip with
      | S k => env_runes k l'
      | O =>
          match rune_width l with
          | S (S k) => "_"%char :: env_runes (S k) l'
          | _ => env_byte a :: env_runes O l'
          end
      end
  end.

Definition normalizeEnvPrefix (prefix : string) : string :=
  let prefix := TrimSpace prefix in
  let prefix := if decide (prefix = "") then DefaultEnvPrefix else prefix in
  TrimByte "_" (of_bytes (env_runes O (bytes_of (ToUpper prefix)))).

Section ApplyEnv.
Context (Getenv : string → string).

Definition set_command (c : string) (o : Options) : Options :=
  {| Command := c; DownSteps := DownSteps o; MigrationsTable := MigrationsTable o |}.
Definition set_steps (n : Z) (o : Options) : Options :=
  {| Command := Command o; DownSteps := n; MigrationsTable := MigrationsTable o |}.
Definition set_table (t : string) (o : Options) : Options :=
  {| Command := Command o; DownSteps := DownSteps o; MigrationsTable := t |}.

(** The error of strconv.Atoi, by its text. *)
Definition atoi_error (raw : string) : error := ErrForeign 9 ("strconv.Atoi: parsing " +:+ raw).

(** [ApplyEnv]: the error, and the options after the call. *)
Definition ApplyEnv (prefix : string) (o : Options) : option error * Options :=
  let current := withDefaults o in
  let envPrefix := normalizeEnvPrefix prefix in
  let raw := TrimSpace (Getenv (envPrefix +:+ "_MIGRATE_COMMAND")) in
  match (if decide (raw = "") then Ok current
         else match Command_Set raw (Command current) with
              | (Some e, _) => Err e
              | (None, c) => Ok (set_command c current)
              end) with
  | Err e => (Some e, o)
  | Ok current =>
      let raw := TrimSpace (Getenv (envPrefix +:+ "_MIGRATE_DOWN_STEPS")) in
      match (if decide (raw = "") then Ok current
             else match ParseInt raw with
                  | None => Err (ErrWrap (envPrefix +:+ "_MIGRATE_DOWN_STEPS: ") (atoi_error raw) "")
                  | Some n => Ok (set_steps n current)
                  end) with
      | Err e => (Some e, o)
      | Ok current =>
          let raw := TrimSpace (Getenv (envPrefix +:+ "_MIGRATE_TABLE")) in
          let current := if decide (raw = "") then current else set_table raw current in
          match validate current with
          | Some e => (Some e, o)
          | None => (None, current)
          end
      end
  end.
End ApplyEnv.
End Options.

(** ** Sources *)

(** [url.URL] printing a path: the bytes that stay. *)
Definition path_byte (a : ascii) : bool :=
  let c := code a in
  ((48 <=? c) && (c <=? 57)) || ((65 <=? c) && (c <=? 90)) || ((97 <=? c) && (c <=? 122))
  || existsb (Z.eqb c) [36; 38; 43; 44; 45; 46; 47; 58; 59; 61; 64; 95; 126].

Definition upper_hex (z : Z) : ascii := ascii_of_N (Z.to_N (if z <? 10 then 48 + z else 55 + z)).

Definition escape_path (l : list ascii) : list ascii :=
  l ≫= λ a, if path_byte a then [a] else ["%"%char; upper_hex (code a / 16); upper_hex (code a mod 16)].

(** [normalizeSourceURL] with the working directory. *)
Definition normalizeSourceURL (Getwd : result error string) (raw : string) : result error string :=
  let raw := TrimSpace raw in
  if decide (raw = "") then Err (ErrNew "" "migration directory is required")
  else if Contains raw "://" then Ok raw
  else
    match (if HasPrefix raw "/" then Ok (Clean raw)
           else match Getwd with Err e => Err e | Ok wd => Ok (join_path wd raw) end) with
    | Err e => Err (ErrWrap "resolve migration directory: " e "")
    | Ok absolute => Ok ("file://" +:+ of_bytes (escape_path (bytes_of absolute)))
    end.

Example source_example :
  normalizeSourceURL (Ok "/srv/app") " db/../my migrations " = Ok "file:///srv/app/my%20migrations" ∧
  normalizeSourceURL (Err ErrNoChange) "github://x/y" = Ok "github://x/y".
Proof. by vm_compute. Qed.

(** ** Runs *)

(** Database handles, and the drivers, sources and migrators of the migration
    library. *)
Class MigrateWorld (W : Type) := {
  DB : Type;
  driver : Type;
  source : Type;
  migrator : Type;
  WithInstance : DB → string → W → result error driver * W;
  iofs_New : string → W → result error source * W;
  NewWithInstance : source → driver → W → result error migrator * W;
  NewWithDatabaseInstance : string → driver → W → result error migrator * W;
  driver_Close : driver → W → W;
  source_Close : source → W → W;
  Up : migrator → W → option error * W;
  Steps : migrator → Z → W → option error * W;
  Version : migrator → W → Z * bool * option error * W;
  migrator_Close : migrator → W → option error * option error * W;
}.

(** [sourceConfig]: an embedded file system with its path, or a URL. *)
Inductive sourceConfig := FromFS (path : string) | FromURL (url : string).

Section Runs.
Context {W : Type} `{!Unicode, !Quoting, !MigrateWorld W}.

Definition buildRunner (db : DB) (src : sourceConfig) (o : Options) (w : W) : result error migrator * W :=
  match WithInstance db (TrimSpace (MigrationsTable o)) w with
  | (Err e, w) => (Err (ErrWrap "open postgres migration driver: " e ""), w)
  | (Ok d, w) =>
      match src with
      | FromFS path =>
          match iofs_New path w with
          | (Err e, w) => (Err (ErrWrap "open iofs migration source: " e ""), driver_Close d w)
          | (Ok s, w) =>
              match NewWithInstance s d w with
              | (Err e, w) => (Err (ErrWrap "build migrator: " e ""), driver_Close d (source_Close s w))
              | (Ok m, w) => (Ok m, w)
              end
          end
      | FromURL url =>
          match NewWithDatabaseInstance url d w with
          | (Err e, w) => (Err (ErrWrap "build migrator: " e ""), driver_Close d w)
          | (Ok m, w) => (Ok m, w)
          end
      end
  end.

(** The error of an operation that may have had nothing to do. *)
Definition changed (r : option error * W) : result error bool * W :=
  match r with
  | (Some e, w) => (if IsVar "gomigrate.ErrNoChange" e then Ok false else Err e, w)
  | (None, w) => (Ok true, w)
  end.

Definition execute (m : migrator) (o : Options) (w : W) : result error bool * W :=
  if decide (Command o = CommandUp) then changed (Up m w)
  else if decide (Command o = CommandDown) then changed (Steps m (wrap64 (- DownSteps o)) w)
  else if decide (Command o = CommandVersion) then (Ok false, w)
  else (Err (unsupported (Command o)), w).

Definition zero_result : Result := {| resCommand := ""; Applied := false; resVersion := None; Dirty := false |}.

(** The body of [run] between building the runner and the deferred close. *)
Definition run_body (m : migrator) (o : Options) (w : W) : Result * option error * W :=
  match execute m o w with
  | (Err e, w) =>
      ({| resCommand := Command o; Applied := false; resVersion := None; Dirty := as_dirty e |},
       Some (ErrWrap ("run " +:+ Command_String (Command o) +:+ " migrations: ") e ""), w)
  | (Ok applied, w) =>
      let result v d := {| resCommand := Command o; Applied := applied; resVersion := v; Dirty := d |} in
      match Version m w with
      | (version, dirty, None, w) => (result (Some version) dirty, None, w)
      | (_, dirty, Some e, w) =>
          if IsVar "gomigrate.ErrNilVersion" e then (result None dirty, None, w)
          else (result None false, Some (ErrWrap "read migration version: " e ""), w)
      end
  end.

(** The deferred close: its error is added to the one of the run. *)
Definition close_runner (m : migrator) (r : Result * option error * W) : Result * option error * W :=
  let '(result, err, w) := r in
  let '(sourceErr, databaseErr, w) := migrator_Close m w in
  match join_errors [sourceErr; databaseErr] with
  | None => (result, err, w)
  | Some closeErr =>
      let closeErr := ErrWrap "close migrator: " closeErr "" in
      match err with
      | Some e => (result, Some (ErrJoin [e; closeErr]), w)
      | None => (result, Some closeErr, w)
      end
  end.

(** [run]; [ctxErr] is the error of the context. *)
Definition run (ctxErr : option error) (db : option DB) (src : sourceConfig) (o : Options) (w : W)
  : Result * option error * W :=
  match ctxErr with
  | Some e => (zero_result, Some e, w)
  | None =>
      match db with
      | None => (zero_result, Some (ErrNew "" "migration db is required"), w)
      | Some db =>
          let o := withDefaults o in
          match validate o with
          | Some e => (zero_result, Some e, w)
          | None =>
              match buildRunner db src o w with
              | (Err e, w) => (zero_result, Some e, w)
              | (Ok m, w) => close_runner m (run_body m o w)
              end
          end
      end
  end.

Definition Run (Getwd : result error string) (ctxErr : option error) (db : option DB) (dir : string) (o : Options) (w : W)
  : Result * option error * W :=
  match normalizeSourceURL Getwd dir with
  | Err e => (zero_result, Some e, w)
  | Ok url => run ctxErr db (FromURL url) o w
  end.

(** [RunIOFS]; [fsys] is whether there is a file system. *)
Definition RunIOFS (ctxErr : option error) (db : option DB) (fsys : bool) (path : string) (o : Options) (w : W)
  : Result * option error * W :=
  if negb fsys then (zero_result, Some (ErrNew "" "migration fs is required"), w)
  else if blank path then (zero_result, Some (ErrNew "" "migration fs path is required"), w)
  else run ctxErr db (FromFS path) o w.
End Runs.

(** ** Properties *)

(** Options a run accepts: a command of the three, steps of at least one. *)
Definition well_formed (o : Options) : Prop :=
  Command o ∈ [CommandUp; CommandDown; CommandVersion] ∧ 1 ≤ DownSteps o ∧ trimmed (MigrationsTable o).

Section Typing.
Context `{!Unicode, !Quoting}.

Lemma ParseCommand_ok raw c : ParseCommand raw = Ok c → c ∈ [CommandUp; CommandDown; CommandVersion].
Proof. unfold ParseCommand. intros Hp. repeat case_decide; simplify_eq; by apply (bool_decide_unpack _). Qed.

Lemma withDefaults_table o : trimmed (MigrationsTable (withDefaults o)).
Proof. apply TrimSpace_trimmed. Qed.

Lemma validate_steps o : validate o = None → 1 ≤ DownSteps o.
Proof. unfold validate. destruct (ParseCommand _); [|done]. by destruct (Z.ltb_spec (DownSteps o) 1). Qed.

(** The options that come from the environment are well formed: when [ApplyEnv]
    succeeds they name one of the three commands, roll back at least one step and
    have a table name without surrounding white space, provided the command they
    started from was empty or one of the three; when it fails the options are as
    they were. *)
Theorem migrate_env_is_typed Getenv prefix o :
  Command o ∈ ["" ; CommandUp; CommandDown; CommandVersion] →
  match ApplyEnv Getenv prefix o with
  | (None, o') => well_formed o'
  | (Some _, o') => o' = o
  end.
Proof.
  intros Hc. unfold ApplyEnv. set (cur := withDefaults o).
  assert (Command cur ∈ [CommandUp; CommandDown; CommandVersion]) as Hcur.
  { unfold cur, withDefaults. cbn. case_decide as E; [by apply (bool_decide_unpack _)|].
    apply elem_of_cons in Hc as [?|Hc]; [done|exact Hc]. }
  pose proof (withDefaults_table o) as Ht. fold cur in Ht. cbn zeta.
  set (raw1 := TrimSpace (Getenv (_ +:+ "_MIGRATE_COMMAND"))). set (raw2 := TrimSpace (Getenv (_ +:+ "_MIGRATE_DOWN_STEPS"))).
  set (raw3 := TrimSpace (Getenv (_ +:+ "_MIGRATE_TABLE"))).
  assert (trimmed raw3) as Hr3 by apply TrimSpace_trimmed.
  assert (∀ o1, Command o1 ∈ [CommandUp; CommandDown; CommandVersion] → trimmed (MigrationsTable o1) →
    match (match validate (if decide (raw3 = "") then o1 else set_table raw3 o1) with
           | Some e => (Some e, o) | None => (None, if decide (raw3 = "") then o1 else set_table raw3 o1) end) with
    | (None, o') => well_formed o' | (Some _, o') => o' = o end) as Hlast.
  { intros o1 H1 H2. destruct (validate _) eqn:Ev; [done|]. apply validate_steps in Ev.
    split_and!; [by case_decide|done|by case_decide]. }
  destruct (decide (raw1 = "")); [|unfold Command_Set; destruct (ParseCommand raw1) as [c|] eqn:Ep; [|done]; apply ParseCommand_ok in Ep];
    (destruct (decide (raw2 = "")); [|destruct (ParseInt raw2) as [steps|]; [|done]]); by apply Hlast.
Qed.

(** The bytes of a prefix. *)
Definition env_ok (a : ascii) : Prop := env_byte a = a.

Lemma env_byte_ok a : env_ok (env_byte a).
Proof.
  unfold env_ok. assert (∀ b, env_byte b = b ∨ env_byte b = "_"%char) as Hb
    by (intros b; unfold env_byte; destruct (_ || _); auto).
  destruct (Hb a) as [He|He]; rewrite He; [exact He|done].
Qed.

Lemma env_runes_ok k l : Forall env_ok (env_runes k l).
Proof.
  revert k. induction l as [|a l IH]; intros [|k]; cbn [env_runes]; [constructor..| |done].
  destruct (rune_width (a :: l)) as [|[|n]]; constructor; auto using env_byte_ok. done.
Qed.

(** Environment names have upper-case letters, digits and inner underscores only. *)
Lemma normalizeEnvPrefix_ok prefix :
  let l := bytes_of (normalizeEnvPrefix prefix) in
  Forall env_ok l ∧ head l ≠ Some "_"%char ∧ last l ≠ Some "_"%char.
Proof. apply TrimByte_spec. rewrite bytes_of_of_bytes. apply env_runes_ok. Qed.
End Typing.

(** ** Handles are released *)

(** The number of open drivers and sources: a migrator owns one of each. *)
Class OpenHandles (W : Type) `{!MigrateWorld W} := {
  handles : W → Z;
  handles_driver db t w :
    handles (WithInstance db t w).2 = handles w + (if is_ok (WithInstance db t w).1 then 1 else 0);
  handles_source p w : handles (iofs_New p w).2 = handles w + (if is_ok (iofs_New p w).1 then 1 else 0);
  handles_instance s d w : handles (NewWithInstance s d w).2 = handles w;
  handles_url u d w :
    handles (NewWithDatabaseInstance u d w).2 = handles w + (if is_ok (NewWithDatabaseInstance u d w).1 then 1 else 0);
  handles_driver_close d w : handles (driver_Close d w) = handles w - 1;
  handles_source_close s w : handles (source_Close s w) = handles w - 1;
  handles_up m w : handles (Up m w).2 = handles w;
  handles_steps m n w : handles (Steps m n w).2 = handles w;
  handles_version m w : handles (Version m w).2 = handles w;
  handles_close m w : handles (migrator_Close m w).2 = handles w - 2;
}.

Section Handles.
Context {W : Type} `{!Unicode, !Quoting, !MigrateWorld W, !OpenHandles W}.

Lemma buildRunner_handles db src o w :
  let '(r, w') := buildRunner db src o w in handles w' = handles w + (if is_ok r then 2 else 0).
Proof.
  unfold buildRunner. pose proof (handles_driver db (TrimSpace (MigrationsTable o)) w) as L1.
  destruct (WithInstance db _ w) as [[d|e] w1]; cbn in *; [|lia]. destruct src as [path|url].
  - pose proof (handles_source path w1) as L2.
    destruct (iofs_New path w1) as [[s|e] w2]; cbn in *; [|rewrite handles_driver_close; lia].
    pose proof (handles_instance s d w2) as L3. destruct (NewWithInstance s d w2) as [[m|e] w3]; cbn in *; [lia|].
    rewrite handles_driver_close, handles_source_close. lia.
  - pose proof (handles_url url d w1) as L2.
    destruct (NewWithDatabaseInstance url d w1) as [[m|e] w2]; cbn in *; [lia|]. rewrite handles_driver_close. lia.
Qed.

Lemma execute_handles m o w : handles (execute m o w).2 = handles w.
Proof.
  assert (∀ r, handles (changed r).2 = handles (W := W) r.2) as Hch by (by intros [[e|] w1]).
  unfold execute. repeat case_decide; rewrite ?Hch; auto using handles_up, handles_steps.
Qed.

Lemma run_body_handles m o w : handles (run_body m o w).2 = handles w.
Proof.
  unfold run_body. pose proof (execute_handles m o w) as L1. destruct (execute m o w) as [[a|e] w1]; [|done].
  cbn in L1. rewrite <- L1. pose proof (handles_version m w1) as L2.
  destruct (Version m w1) as [[[v d] [e|]] w2]; cbn in *; [|done]. by case_match.
Qed.

(** C30: A migration run releases what it opened, on every path: after [run] of an
    embedded or a URL source, whatever failed, no driver and no source is left open.
    Once the migrator is built, an error of closing it is always reported, joined to
    the error of the run if there is one.  When building it fails, what was opened is
    closed without a report and the error that stopped the build is returned. *)
Theorem migration_run_releases_handles ctxErr db src o w :
  handles (run ctxErr db src o w).2 = handles w ∧
  ∀ d,
    ctxErr = None → db = Some d → validate (withDefaults o) = None →
    (∀ m w1 w2 res err se de w3,
       buildRunner d src (withDefaults o) w = (Ok m, w1) → run_body m (withDefaults o) w1 = (res, err, w2) →
       migrator_Close m w2 = (se, de, w3) → se ≠ None ∨ de ≠ None →
       let closing := ErrWrap "close migrator: " (ErrJoin (omap id [se; de])) "" in
       run ctxErr db src o w
       = (res, Some (match err with Some e => ErrJoin [e; closing] | None => closing end), w3)) ∧
    (∀ e w1, buildRunner d src (withDefaults o) w = (Err e, w1) →
       run ctxErr db src o w = (zero_result, Some e, w1)).
Proof.
  unfold run. split.
  - destruct ctxErr; [done|]. destruct db as [d|]; [|done]. destruct (validate _); [done|].
    pose proof (buildRunner_handles d src (withDefaults o) w) as L1.
    destruct (buildRunner d src (withDefaults o) w) as [[m|e] w1]; cbn in L1; [|cbn; lia].
    pose proof (run_body_handles m (withDefaults o) w1) as L2. unfold close_runner.
    destruct (run_body m (withDefaults o) w1) as [[res err] w2]. cbn in L2.
    pose proof (handles_close m w2) as L3. destruct (migrator_Close m w2) as [[se de] w3]. cbn in L3.
    repeat case_match; cbn; lia.
  - intros d -> -> ->. split; [|by intros e w1 ->]. intros m w1 w2 res err se de w3 -> Hb Hclose Herr.
    unfold close_runner. rewrite Hb, Hclose. destruct se as [se|], de as [de|]; cbn; try (by destruct err).
    by destruct Herr.
Qed.
End Handles.

(** ** A command that passes validation and cannot run *)

(** [validate] accepts a command in any case and with white space around it, and
    leaves it as it is; [execute] compares it with the three commands. *)
Lemma validated_command_unsupported `{!Quoting} {W} `{!MigrateWorld W} (m : migrator) (w : W) :
  let o := {| Command := "UP"; DownSteps := 1; MigrationsTable := "" |} in
  validate (H := ascii_unicode) (withDefaults o) = None ∧
  execute m (withDefaults o) w = (Err (unsupported "UP"), w).
Proof. done. Qed.

(** A prefix without a letter or a digit leaves no prefix at all. *)
Lemma separator_prefix_is_empty : normalizeEnvPrefix (H := ascii_unicode) " -- " = "".
Proof. reflexivity. Qed.

(** ** Instances *)

Module Library.
(** Quoting of texts without quotes and control bytes. *)
#[export] Instance quoting : Quoting := { Quote s := of_bytes ["034"%char] +:+ s +:+ of_bytes ["034"%char] }.

(** The environment of a rollback of three steps. *)
Definition environment (name : string) : string :=
  if decide (name = "MY_APP_MIGRATE_COMMAND") then " DOWN "
  else if decide (name = "MY_APP_MIGRATE_DOWN_STEPS") then "3"
  else "".

(** A library whose runs find no version and whose close reports an error; the state
    counts the open handles. *)
Definition close_error : error := ErrNew "" "connection already closed".
#[export] Instance world : MigrateWorld Z := {
  DB := unit;
  driver := unit;
  source := unit;
  migrator := unit;
  WithInstance _ _ w := (Ok tt, w + 1);
  iofs_New path w := if decide (path = "missing") then (Err (ErrNew "" "no such directory"), w) else (Ok tt, w + 1);
  NewWithInstance _ _ w := (Ok tt, w);
  NewWithDatabaseInstance _ _ w := (Ok tt, w + 1);
  driver_Close _ w := w - 1;
  source_Close _ w := w - 1;
  Up _ w := (Some ErrNoChange, w);
  Steps _ _ w := (None, w);
  Version _ w := (0, false, Some ErrNilVersion, w);
  migrator_Close _ w := (None, Some close_error, w - 2);
}.

#[export] Instance open_handles : OpenHandles Z.
Proof.
  refine {| handles := id |}; intros; unfold id; cbn; try lia. unfold iofs_New. cbn. case_decide; cbn; lia.
Defined.
End Library.

#[local] Existing Instances ascii_unicode Library.quoting Library.world Library.open_handles.

Lemma migrate_env_is_typed_witness :
  let o := {| Command := ""; DownSteps := 0; MigrationsTable := " migrations " |} in
  ApplyEnv Library.environment "my-app" o =
    (None, {| Command := "down"; DownSteps := 3; MigrationsTable := "migrations" |}) ∧
  match ApplyEnv Library.environment "my-app" o with
  | (None, o') => well_formed o'
  | (Some _, o') => o' = o
  end.
Proof.
  split; [reflexivity|]. apply (migrate_env_is_typed Library.environment "my-app").
  apply (bool_decide_unpack _). vm_compute. exact I.
Defined.

Lemma migration_run_releases_handles_witness :
  let o := {| Command := "up"; DownSteps := 0; MigrationsTable := "" |} in
  (handles (run (MigrateWorld0 := Library.world) None (Some tt) (FromFS "missing") o 5).2 = 5 ∧
   is_ok (buildRunner (MigrateWorld0 := Library.world) tt (FromFS "missing") (withDefaults o) 5).1 = false) ∧
  (run (MigrateWorld0 := Library.world) None (Some tt) (FromFS "db") o 5).1.2
  = Some (ErrWrap "close migrator: " (ErrJoin [Library.close_error]) "").
Proof.
  split.
  - split; [exact (proj1 (migration_run_releases_handles (MigrateWorld0 := Library.world) None (Some tt) (FromFS "missing")
      {| Command := "up"; DownSteps := 0; MigrationsTable := "" |} 5))|reflexivity].
  - set (o := {| Command := "up"; DownSteps := 0; MigrationsTable := "" |}).
    destruct (migration_run_releases_handles (MigrateWorld0 := Library.world) None (Some tt) (FromFS "db") o 5) as [_ Hrun].
    destruct (Hrun tt) as [Hclose _]; [reflexivity..|].
    assert (run_body (MigrateWorld0 := Library.world) tt (withDefaults o) 7
            = ((run_body (MigrateWorld0 := Library.world) tt (withDefaults o) 7).1.1, None, 7)) as Hb by reflexivity.
    assert (Some Library.close_error ≠ None) as He by discriminate.
    pose proof (Hclose tt 7 7 _ None None (Some Library.close_error) 5 eq_refl Hb eq_refl (or_intror He)) as Hr.
    cbn zeta in Hr. by rewrite Hr.
Defined.
