(* ===== verification/Open.v ===== *)
(** * Database and cache connections (src/postgres/open.go, src/pgxpoolutil/open.go,
      src/redisutil/open.go)

    Opening a connection and waiting until the service answers, with the retry of
    Startup.v and the migrations of Migrate.v.  The client libraries are the classes
    [SqlWorld], [PoolWorld] and [RedisWorld]. *)

From S2P Require Import Prelude GoStrings GoErrors Retry Startup Migrate.
#[local] Open Scope Z_scope.

(** The retry of the three packages: the zero configuration stands for the
    defaults. *)
Definition retry_or_default (c : Config) : Config :=
  if (MaxAttempts c =? 0) && (Delay c =? 0) then {| MaxAttempts := DefaultMaxAttempts; Delay := DefaultDelay |} else c.

Definition ping_timeout (d : duration) : duration := if d <=? 0 then 5 * Second else d.

(** ** Postgres through database/sql *)

Record PostgresOptions := { DriverName : string; pgPingTimeout : duration; pgRetry : Config }.

Definition postgresDefaults (o : PostgresOptions) : PostgresOptions :=
  {| DriverName := if decide (DriverName o = "") then "pgx" else DriverName o;
     pgPingTimeout := ping_timeout (pgPingTimeout o);
     pgRetry := retry_or_default (pgRetry o) |}.

Class SqlWorld (W : Type) `{!MigrateWorld W} := {
  sqlOpen : string → string → W → result error DB * W;
  PingContext : duration → DB → W → option error * W;
  db_Close : DB → W → option error * W;
  attempt_Err : W → option error;  (* the error of the context of the attempt *)
}.

Section Postgres.
Context {W : Type} `{!Unicode, !Quoting, !MigrateWorld W, !SqlWorld W, !RetryWorld W}.

(** [InitFunc] on a database handle; [S] is what its closure captured. *)
Definition InitFunc (S : Type) : Type := DB → W * S → option error * (W * S).

(** The function that [OpenAndInit] retries. *)
Definition ready {S} (timeout : duration) (init : option (InitFunc S)) (db : DB) (ws : W * S)
  : option error * (W * S) :=
  let '(w, s) := ws in
  match PingContext timeout db w with
  | (Some e, w) => (Some (ErrWrap "ping_postgres: " e ""), (w, s))
  | (None, w) => match init with None => (None, (w, s)) | Some f => f db (w, s) end
  end.

Definition OpenAndInit {S} (databaseURL : string) (init : option (InitFunc S)) (opts : PostgresOptions) (ws : W * S)
  : result error DB * (W * S) :=
  let opts := postgresDefaults opts in
  let '(w, s) := ws in
  match sqlOpen (DriverName opts) databaseURL w with
  | (Err e, w) => (Err (ErrWrap "open_postgres: " e ""), (w, s))
  | (Ok db, w) =>
      match Do (pgRetry opts) (ready (pgPingTimeout opts) init db) (w, s) with
      | (Some e, (w, s)) => (Err e, ((db_Close db w).2, s))
      | (None, ws) => (Ok db, ws)
      end
  end.

Definition OpenPostgres (databaseURL : string) (opts : PostgresOptions) (w : W) : result error DB * W :=
  let '(r, (w, _)) := OpenAndInit (S := unit) databaseURL None opts (w, tt) in (r, w).

(** The closure of the two functions below: it runs the migrations, captures their
    result, and calls [init]. *)
Definition migrate_then (run : DB → W → Result * option error * W) (init : option (DB → W → option error * W))
  : InitFunc Result := λ db '(w, result),
  let '(applied, err, w) := run db w in
  match err with
  | Some e => (Some e, (w, result))
  | None =>
      match init with
      | Some f => let '(e, w) := f db w in (e, (w, applied))
      | None => (None, (w, applied))
      end
  end.

Definition with_result (r : result error DB * (W * Result)) : result error (DB * Result) * W :=
  match r with
  | (Err e, (w, _)) => (Err e, w)
  | (Ok db, (w, result)) => (Ok (db, result), w)
  end.

Definition OpenAndMigrate (Getwd : result error string) (databaseURL migrationsDir : string)
  (migrateOpts : Migrate.Options) (init : option (DB → W → option error * W)) (opts : PostgresOptions) (w : W)
  : result error (DB * Result) * W :=
  let run db w := Run Getwd (attempt_Err w) (Some db) migrationsDir migrateOpts w in
  with_result (OpenAndInit databaseURL (Some (migrate_then run init)) opts (w, zero_result)).

(** [fsys] is whether there is a file system. *)
Definition OpenAndMigrateIOFS (databaseURL : string) (fsys : bool) (path : string)
  (migrateOpts : Migrate.Options) (init : option (DB → W → option error * W)) (opts : PostgresOptions) (w : W)
  : result error (DB * Result) * W :=
  let run db w := RunIOFS (attempt_Err w) (Some db) fsys path migrateOpts w in
  with_result (OpenAndInit databaseURL (Some (migrate_then run init)) opts (w, zero_result)).
End Postgres.

(** ** Postgres through a pool *)

Class PoolWorld (W : Type) := {
  pool_config : Type;
  pgx_pool : Type;
  parseConfig : string → result error pool_config;
  newPool : pool_config → W → result error pgx_pool * W;
  pingPool : duration → pgx_pool → W → option error * W;
  closePool : pgx_pool → W → W;
}.

Section Pool.
Context {W : Type} `{!PoolWorld W, !RetryWorld W}.

(** [Configure] changes the configuration or fails. *)
Record PoolOptions := {
  poolPingTimeout : duration;
  poolRetry : Config;
  Configure : option (pool_config → W → result error pool_config * W);
}.

Definition poolDefaults (o : PoolOptions) : PoolOptions :=
  {| poolPingTimeout := ping_timeout (poolPingTimeout o); poolRetry := retry_or_default (poolRetry o);
     Configure := Configure o |}.

(** The function that [Open] retries; the nil pool is [None]. *)
Definition open_pool (dsn : string) (opts : PoolOptions) (w : W) : result error (option pgx_pool) * W :=
  match parseConfig dsn with
  | Err e => (Err (ErrWrap "parse_pgxpool_config: " e ""), w)
  | Ok cfg =>
      match (match Configure opts with None => (Ok cfg, w) | Some f => f cfg w end) with
      | (Err e, w) => (Err (ErrWrap "configure_pgxpool: " e ""), w)
      | (Ok cfg, w) =>
          match newPool cfg w with
          | (Err e, w) => (Err (ErrWrap "open_pgxpool: " e ""), w)
          | (Ok pool, w) =>
              match pingPool (poolPingTimeout opts) pool w with
              | (Some e, w) => (Err (ErrWrap "ping_pgxpool: " e ""), closePool pool w)
              | (None, w) => (Ok (Some pool), w)
              end
          end
      end
  end.

Definition OpenPool (dsn : string) (opts : PoolOptions) (w : W) : result error (option pgx_pool) * W :=
  let opts := poolDefaults opts in Value None (poolRetry opts) (open_pool dsn opts) w.
End Pool.

(** ** Redis *)

Class RedisWorld (W : Type) := {
  redis_options : Type;
  redis_client : Type;
  ParseURL : string → result error redis_options;
  NewClient : redis_options → W → redis_client * W;
  pingClient : duration → redis_client → W → option error * W;
  client_Close : redis_client → W → option error * W;
}.

Record RedisOptions := { redisPingTimeout : duration; redisRetry : Config }.

Definition redisDefaults (o : RedisOptions) : RedisOptions :=
  {| redisPingTimeout := ping_timeout (redisPingTimeout o); redisRetry := retry_or_default (redisRetry o) |}.

Definition OpenRedis {W} `{!RedisWorld W, !RetryWorld W} (redisURL : string) (opts : RedisOptions) (w : W)
  : result error redis_client * W :=
  match ParseURL redisURL with
  | Err e => (Err (ErrWrap "parse_redis_url: " e ""), w)
  | Ok options =>
      let '(client, w) := NewClient options w in
      let opts := redisDefaults opts in
      match Do (redisRetry opts) (pingClient (redisPingTimeout opts) client) w with
      | (Some e, w) => (Err (ErrWrap "ping_redis: " e ""), (client_Close client w).2)
      | (None, w) => (Ok client, w)
      end
  end.

(** ** Opened connections are ready, and none is lost *)

(** The number of open database handles, pools and clients. *)
Class OpenedCount (W : Type) `{!MigrateWorld W, !SqlWorld W, !PoolWorld W, !RedisWorld W, !RetryWorld W} := {
  opened : W → Z;
  opened_wait d w : opened (wait d w).2 = opened w;
  opened_sql n u w : opened (sqlOpen n u w).2 = opened w + (if is_ok (sqlOpen n u w).1 then 1 else 0);
  opened_ping d db w : opened (PingContext d db w).2 = opened w;
  opened_db_close db w : opened (db_Close db w).2 = opened w - 1;
  opened_pool c w : opened (newPool c w).2 = opened w + (if is_ok (newPool c w).1 then 1 else 0);
  opened_pool_ping d p w : opened (pingPool d p w).2 = opened w;
  opened_pool_close p w : opened (closePool p w) = opened w - 1;
  opened_client o w : opened (NewClient o w).2 = opened w + 1;
  opened_client_ping d c w : opened (pingClient d c w).2 = opened w;
  opened_client_close c w : opened (client_Close c w).2 = opened w - 1;
}.

Section Ready.
Context {W : Type} `{!Unicode, !Quoting, !MigrateWorld W, !SqlWorld W, !PoolWorld W, !RedisWorld W, !RetryWorld W,
                     !OpenedCount W}.

(** What an opener leaves: nothing new when it fails; one connection more, which
    passed its check, when it succeeds. *)
Definition opens {X} (check : X → W → W → Prop) (w : W) (r : result error X * W) : Prop :=
  match r with
  | (Ok x, w') => opened w' = opened w + 1 ∧ ∃ w1, check x w1 w'
  | (Err _, w') => opened w' = opened w
  end.

(** Functions a caller passes do not open or close connections. *)
Definition keeps_opened (f : W → W) : Prop := ∀ w, opened (f w) = opened w.

Lemma Do_opened {S} c op (ws : W * S) :
  (∀ ws r ws', op ws = (r, ws') → opened ws'.1 = opened ws.1) →
  match Do c op ws with
  | (None, ws') => opened ws'.1 = opened ws.1 ∧ ∃ ws1, op ws1 = (None, ws')
  | (Some _, ws') => opened ws'.1 = opened ws.1
  end.
Proof.
  intros Hop. assert (match Do c op ws with
    | (None, ws') => ∃ ws1, opened ws1.1 = opened ws.1 ∧ op ws1 = (None, ws')
    | (Some _, ws') => opened ws'.1 = opened ws.1
    end) as Hd.
  { apply (Do_outcome (λ ws', opened ws'.1 = opened ws.1)); [| |done].
    - intros d [w1 s] H1. cbn in *. pose proof (opened_wait d w1). by destruct (wait d w1); cbn in *; lia.
    - intros ws1 e ws2 H1 Hs. by rewrite (Hop _ _ _ Hs). }
  destruct (Do c op ws) as [[e|] ws']; [done|]. destruct Hd as (ws1 & H1 & Hs). rewrite (Hop _ _ _ Hs). eauto.
Qed.

Lemma OpenAndInit_opens (init : option (InitFunc unit)) url opts w :
  (∀ f, init = Some f → ∀ db, keeps_opened (λ w, (f db (w, tt)).2.1)) →
  let '(r, (w', _)) := OpenAndInit (S := unit) url init opts (w, tt) in
  opens (λ db w1 w', ∃ w2, PingContext (pgPingTimeout (postgresDefaults opts)) db w1 = (None, w2) ∧
                           match init with Some f => f db (w2, tt) = (None, (w', tt)) | None => w' = w2 end)
        w (r, w').
Proof.
  intros Hinit. unfold OpenAndInit. set (o := postgresDefaults opts). pose proof (opened_sql (DriverName o) url w) as L1.
  destruct (sqlOpen _ _ w) as [[db|e] w0]; cbn in L1; [|cbn; lia].
  set (op := ready (pgPingTimeout o) init db).
  assert (∀ ws r ws', op ws = (r, ws') → opened ws'.1 = opened ws.1) as Hop.
  { unfold op, ready. intros [w1 []] r [w2 []]. pose proof (opened_ping (pgPingTimeout o) db w1) as L2.
    destruct (PingContext _ db w1) as [[e|] w3]; cbn in *; [intros; simplify_eq; lia|].
    destruct init as [f|]; [|intros; simplify_eq; lia]. intros Hf. pose proof (Hinit f eq_refl db w3) as L3.
    cbn in L3. rewrite Hf in L3. cbn in L3. lia. }
  pose proof (Do_opened (pgRetry o) op (w0, tt) Hop) as Hd.
  destruct (Do (pgRetry o) op (w0, tt)) as [[e|] [w1 []]]; cbn in *; [rewrite opened_db_close; lia|].
  destruct Hd as [H1 [[w2 []] Hs]]. split; [lia|]. exists w2. unfold op, ready in Hs.
  destruct (PingContext _ db w2) as [[e|] w3]; [done|]. exists w3. split; [done|]. destruct init; by simplify_eq.
Qed.

Lemma OpenPool_opens dsn (opts : PoolOptions) w :
  (∀ f, Configure opts = Some f → ∀ cfg, keeps_opened (λ w, (f cfg w).2)) →
  opens (λ p w1 w', ∃ pool, p = Some pool ∧ pingPool (poolPingTimeout (poolDefaults opts)) pool w1 = (None, w'))
        w (OpenPool dsn opts w).
Proof.
  intros Hconf. unfold OpenPool. set (o := poolDefaults opts).
  assert (∀ w1, opens (λ p w2 w', ∃ pool, p = Some pool ∧ pingPool (poolPingTimeout o) pool w2 = (None, w'))
                      w1 (open_pool dsn o w1)) as Hop.
  { intros w1. unfold open_pool. destruct (parseConfig dsn) as [cfg|e]; [|done].
    assert (opened (match Configure o with None => (Ok cfg, w1) | Some f => f cfg w1 end).2 = opened w1) as L1.
    { destruct (Configure o) as [f|] eqn:Ef; [|done]. by apply (Hconf f). }
    destruct (match Configure o with None => _ | Some f => _ end) as [[cfg'|e] w2]; [|exact L1]. cbn in L1.
    pose proof (opened_pool cfg' w2) as L2. destruct (newPool cfg' w2) as [[pool|e] w3]; cbn in L2 |- *; [|lia].
    pose proof (opened_pool_ping (poolPingTimeout o) pool w3) as L3.
    destruct (pingPool _ pool w3) as [[e|] w4] eqn:Ep; cbn in L3 |- *; [rewrite opened_pool_close; lia|].
    split; [lia|]. eauto. }
  pose proof (Value_outcome (λ w', opened w' = opened w) None (poolRetry o) (open_pool dsn o) w) as Hv.
  destruct (Value None (poolRetry o) (open_pool dsn o) w) as [[p|e] w'].
  - destruct Hv as (w1 & H1 & Hw); [intros; by rewrite opened_wait| |done|].
    + intros w1 e w2 H1 Hw. specialize (Hop w1). rewrite Hw in Hop. cbn in Hop. lia.
    + specialize (Hop w1). rewrite Hw in Hop. destruct Hop as [H2 H3]. split; [lia|exact H3].
  - apply Hv; [intros; by rewrite opened_wait| |done].
    intros w1 e2 w2 H1 Hw. specialize (Hop w1). rewrite Hw in Hop. cbn in Hop. lia.
Qed.

Lemma OpenRedis_opens url opts w :
  opens (λ c w1 w', pingClient (redisPingTimeout (redisDefaults opts)) c w1 = (None, w')) w (OpenRedis url opts w).
Proof.
  unfold OpenRedis. destruct (ParseURL url) as [ro|e]; [|done]. pose proof (opened_client ro w) as L1.
  destruct (NewClient ro w) as [c w0]. cbn in L1. set (o := redisDefaults opts).
  set (op := pingClient (redisPingTimeout o) c).
  assert (∀ w1 r w2, op w1 = (r, w2) → opened w2 = opened w1) as Hop.
  { intros w1 r w2 Hw. pose proof (opened_client_ping (redisPingTimeout o) c w1) as L2. unfold op in Hw.
    by rewrite Hw in L2. }
  assert (match Do (redisRetry o) op w0 with
          | (None, w') => ∃ w1, opened w1 = opened w0 ∧ op w1 = (None, w')
          | (Some _, w') => opened w' = opened w0
          end) as Hd.
  { apply (Do_outcome (λ w', opened w' = opened w0)); [intros; by rewrite opened_wait| |done].
    intros w1 e w2 H1 Hw. by rewrite (Hop _ _ _ Hw). }
  destruct (Do (redisRetry o) op w0) as [[e|] w']; cbn.
  - rewrite opened_client_close. lia.
  - destruct Hd as (w1 & H1 & Hw). pose proof (Hop _ _ _ Hw). split; [lia|]. by exists w1.
Qed.

(** C24: Opening a connection is all or nothing: [Open] of the three packages, and
    [OpenAndInit], leave no connection open when they fail, at whichever step and
    attempt, and otherwise exactly one, which answered its ping within the time-out
    and, where there is an initialisation, passed it.  This is for initialisations and
    [Configure] functions that open and close no connection of their own; the
    initialisation that migrates closes the one it is given. *)
Theorem opened_connections_are_ready url (init : option (InitFunc unit)) popts lopts ropts w :
  (∀ f, init = Some f → ∀ db, keeps_opened (λ w, (f db (w, tt)).2.1)) →
  (∀ f, Configure lopts = Some f → ∀ cfg, keeps_opened (λ w, (f cfg w).2)) →
  (let '(r, (w', _)) := OpenAndInit (S := unit) url init popts (w, tt) in
   opens (λ db w1 w', ∃ w2, PingContext (pgPingTimeout (postgresDefaults popts)) db w1 = (None, w2) ∧
                            match init with Some f => f db (w2, tt) = (None, (w', tt)) | None => w' = w2 end)
         w (r, w')) ∧
  opens (λ db w1 w', PingContext (pgPingTimeout (postgresDefaults popts)) db w1 = (None, w')) w (OpenPostgres url popts w) ∧
  opens (λ p w1 w', ∃ pool, p = Some pool ∧ pingPool (poolPingTimeout (poolDefaults lopts)) pool w1 = (None, w'))
        w (OpenPool url lopts w) ∧
  opens (λ c w1 w', pingClient (redisPingTimeout (redisDefaults ropts)) c w1 = (None, w')) w (OpenRedis url ropts w).
Proof.
  intros H1 H2. split_and!; auto using OpenPool_opens, OpenRedis_opens.
  - by apply OpenAndInit_opens.
  - unfold OpenPostgres. pose proof (OpenAndInit_opens None url popts w) as Ho.
    specialize (Ho ltac:(intros ? [=])).
    destruct (OpenAndInit url None popts (w, tt)) as [r [w' []]].
    destruct r as [db|e]; [|exact Ho]. destruct Ho as (Hc & w1 & w2 & Hp & ->). cbn. eauto.
Qed.
End Ready.

(** ** Migrations close the database they are given *)

(** The postgres driver of the migration library keeps the database handle it is made
    with, and closing the migrator closes that handle
    (src/vendor/github.com/golang-migrate/migrate/v4/database/postgres/postgres.go,
    [WithInstance] and [Close]). *)
Class ClosingDriver (W : Type) `{!MigrateWorld W} := {
  closed : DB → W → Prop;
  driver_db : driver → DB;
  migrator_db : migrator → DB;
  driver_keeps_db db t w d w' : WithInstance db t w = (Ok d, w') → driver_db d = db;
  migrator_keeps_db s d w m w' : NewWithInstance s d w = (Ok m, w') → migrator_db m = driver_db d;
  migrator_keeps_url_db u d w m w' : NewWithDatabaseInstance u d w = (Ok m, w') → migrator_db m = driver_db d;
  migrator_closes_db m w : closed (migrator_db m) (migrator_Close m w).2;
}.

Section Closing.
Context {W : Type} `{!Unicode, !Quoting, !MigrateWorld W, !SqlWorld W, !RetryWorld W, !ClosingDriver W}.

Lemma buildRunner_db db src o w m w' : buildRunner db src o w = (Ok m, w') → migrator_db m = db.
Proof.
  unfold buildRunner. destruct (WithInstance db _ w) as [[d|e] w1] eqn:Ed; [|discriminate].
  apply driver_keeps_db in Ed. rewrite <- Ed. destruct src as [path|url].
  - destruct (iofs_New path w1) as [[s|e] w2]; [|discriminate].
    destruct (NewWithInstance s d w2) as [[m'|e] w3] eqn:Em; [|discriminate].
    intros Heq. apply migrator_keeps_db in Em. by simplify_eq.
  - destruct (NewWithDatabaseInstance url d w1) as [[m'|e] w2] eqn:Em; [|discriminate].
    intros Heq. apply migrator_keeps_url_db in Em. by simplify_eq.
Qed.

Lemma run_closes ctxErr db src o w res w' : run ctxErr (Some db) src o w = (res, None, w') → closed db w'.
Proof.
  unfold run. destruct ctxErr; [done|]. destruct (validate _); [done|].
  destruct (buildRunner db src _ w) as [[m|e] w1] eqn:Eb; [|discriminate]. apply buildRunner_db in Eb as <-.
  unfold close_runner. destruct (run_body m _ w1) as [[res1 err] w2].
  pose proof (migrator_closes_db m w2) as Hcl. destruct (migrator_Close m w2) as [[se de] w3]. cbn in Hcl.
  destruct (join_errors _); [by destruct err|]. intros Heq. by simplify_eq.
Qed.

Definition closes (run : DB → W → Result * option error * W) : Prop :=
  ∀ db w res w', run db w = (res, None, w') → closed db w'.

Lemma migrated_is_closed run init url opts w :
  closes run →
  match with_result (OpenAndInit url (Some (migrate_then run init)) opts (w, zero_result)) with
  | (Ok (db, res), w') => ∃ w1, closed db w1 ∧ match init with None => w' = w1 | Some f => f db w1 = (None, w') end
  | (Err _, _) => True
  end.
Proof.
  intros Hrun. unfold OpenAndInit. set (o := postgresDefaults opts).
  destruct (sqlOpen _ _ w) as [[db|e] w0]; [|done].
  pose proof (Do_outcome (λ _ : W * Result, True) (pgRetry o) (ready (pgPingTimeout o) (Some (migrate_then run init)) db)
    (w0, zero_result)) as Hd.
  destruct (Do _ _ _) as [[e|] [w1 res]]; [done|]. destruct Hd as ([w2 res2] & _ & Hr); [done..|].
  unfold ready in Hr. destruct (PingContext _ db w2) as [[e|] w3]; [done|]. unfold migrate_then in Hr.
  destruct (run db w3) as [[applied [e|]] w4] eqn:Er; [done|]. apply Hrun in Er. cbn. exists w4. split; [done|].
  destruct init as [f|]; [|by simplify_eq]. destruct (f db w4) as [e w5]. by simplify_eq.
Qed.

Lemma Run_closes Getwd dir o : closes (λ db w, Run Getwd (attempt_Err w) (Some db) dir o w).
Proof. intros db w res w'. unfold Run. destruct (normalizeSourceURL _ _); [apply run_closes|done]. Qed.

Lemma RunIOFS_closes fsys path o : closes (λ db w, RunIOFS (attempt_Err w) (Some db) fsys path o w).
Proof. intros db w res w'. unfold RunIOFS. destruct fsys; [|done]. destruct (blank path); [done|apply run_closes]. Qed.

(** C25: [OpenAndMigrate] and [OpenAndMigrateIOFS] cannot give a usable database:
    the migrator they run closes the handle they return, so without an initialisation
    a success returns a closed handle, and with one that needs the database they never
    succeed. *)
Theorem migrated_database_is_closed Getwd fsys url dir mopts popts w :
  (∀ db res w', OpenAndMigrate Getwd url dir mopts None popts w = (Ok (db, res), w') → closed db w') ∧
  (∀ db res w', OpenAndMigrateIOFS url fsys dir mopts None popts w = (Ok (db, res), w') → closed db w') ∧
  (∀ init, (∀ db w, closed db w → (init db w).1 ≠ None) →
     is_ok (OpenAndMigrate Getwd url dir mopts (Some init) popts w).1 = false ∧
     is_ok (OpenAndMigrateIOFS url fsys dir mopts (Some init) popts w).1 = false).
Proof.
  unfold OpenAndMigrate, OpenAndMigrateIOFS.
  assert (∀ run, closes run → ∀ db res w',
    with_result (OpenAndInit url (Some (migrate_then run None)) popts (w, zero_result)) = (Ok (db, res), w') →
    closed db w') as Hnone.
  { intros run Hrun db res w' Heq. pose proof (migrated_is_closed run None url popts w Hrun) as Hm.
    rewrite Heq in Hm. by destruct Hm as (w1 & Hc & ->). }
  assert (∀ run init, closes run → (∀ db w, closed db w → (init db w).1 ≠ None) →
    is_ok (with_result (OpenAndInit url (Some (migrate_then run (Some init))) popts (w, zero_result))).1 = false) as Hsome.
  { intros run init Hrun Hinit. pose proof (migrated_is_closed run (Some init) url popts w Hrun) as Hm.
    destruct (with_result _) as [[[db res]|e] w']; [|done]. destruct Hm as (w1 & Hc & Hf).
    specialize (Hinit db w1 Hc). by rewrite Hf in Hinit. }
  split_and!; [apply Hnone, Run_closes|apply Hnone, RunIOFS_closes|].
  intros init Hinit. split; [by apply Hsome; [apply Run_closes|]|by apply Hsome; [apply RunIOFS_closes|]].
Qed.
End Closing.

(** ** Instances *)

Module Lab.
(** Pings that still fail, open connections, and whether the database was closed. *)
Record lab := { failing : Z; count : Z; shut : bool }.

Definition bump (n : Z) (w : lab) : lab := {| failing := failing w; count := count w + n; shut := shut w |}.
Definition ping (w : lab) : option error * lab :=
  if shut w then (Some (ErrNew "" "sql: database is closed"), w)
  else if 0 <? failing w
       then (Some (ErrNew "" "connection refused"), {| failing := failing w - 1; count := count w; shut := shut w |})
       else (None, w).
Definition shut_down (w : lab) : lab := {| failing := failing w; count := count w; shut := true |}.

#[export] Instance migrate_world : MigrateWorld lab := {
  DB := unit;
  driver := unit;
  source := unit;
  migrator := unit;
  WithInstance _ _ w := (Ok tt, w);
  iofs_New _ w := (Ok tt, w);
  NewWithInstance _ _ w := (Ok tt, w);
  NewWithDatabaseInstance _ _ w := (Ok tt, w);
  driver_Close _ w := shut_down w;
  source_Close _ w := w;
  Up _ w := (None, w);
  Steps _ _ w := (None, w);
  Version _ w := (4, false, None, w);
  migrator_Close _ w := (None, None, shut_down w);
}.

#[export] Instance sql_world : SqlWorld lab := {
  sqlOpen _ _ w := (Ok tt, bump 1 w);
  PingContext _ _ w := ping w;
  db_Close _ w := (None, bump (-1) w);
  attempt_Err _ := None;
}.

#[export] Instance pool_world : PoolWorld lab := {
  pool_config := string;
  pgx_pool := unit;
  parseConfig s := Ok s;
  newPool _ w := (Ok tt, bump 1 w);
  pingPool _ _ w := ping w;
  closePool _ w := bump (-1) w;
}.

#[export] Instance redis_world : RedisWorld lab := {
  redis_options := string;
  redis_client := unit;
  ParseURL s := Ok s;
  NewClient _ w := (tt, bump 1 w);
  pingClient _ _ w := ping w;
  client_Close _ w := (None, bump (-1) w);
}.

#[export] Instance retry_world : RetryWorld lab := { wait _ w := (None, w); rand_int64n _ w := (0, w) }.

Lemma ping_count w : count (ping w).2 = count w.
Proof. unfold ping. destruct (shut w), (0 <? failing w); done. Qed.

#[export] Instance opened_count : OpenedCount lab.
Proof. refine {| opened := count |}; intros; cbn; rewrite ?ping_count; lia. Defined.

#[export] Instance closing_driver : ClosingDriver lab.
Proof.
  refine {| closed _ w := shut w = true; driver_db d := d; migrator_db m := m |}; cbn; intros;
    repeat match goal with x : unit |- _ => destruct x end; reflexivity.
Defined.

Definition opts : PostgresOptions := {| DriverName := ""; pgPingTimeout := 0; pgRetry := {| MaxAttempts := 0; Delay := 0 |} |}.
Definition pool_opts : PoolOptions (W := lab) :=
  {| poolPingTimeout := 0; poolRetry := {| MaxAttempts := 4; Delay := 0 |}; Configure := None |}.
Definition redis_opts : RedisOptions := {| redisPingTimeout := Second; redisRetry := {| MaxAttempts := 2; Delay := 0 |} |}.
Definition init : InitFunc (W := lab) unit := λ _ ws, (None, ws).
Definition start : lab := {| failing := 3; count := 0; shut := false |}.
Definition needs_database (db : DB (W := lab)) (w : lab) : option error * lab := ping w.
Definition migrate_opts : Migrate.Options := {| Command := ""; DownSteps := 0; MigrationsTable := "" |}.
End Lab.

#[local] Existing Instances ascii_unicode Library.quoting Lab.migrate_world Lab.sql_world Lab.pool_world Lab.redis_world
  Lab.retry_world Lab.opened_count Lab.closing_driver.

(** The pool is ready at the fourth attempt; two attempts are too few for Redis. *)
Lemma opened_connections_are_ready_witness :
  (is_ok (OpenPool "dsn" Lab.pool_opts Lab.start).1 = true ∧ is_ok (OpenRedis "dsn" Lab.redis_opts Lab.start).1 = false) ∧
  opens (λ p w1 w', ∃ pool, p = Some pool ∧ pingPool (5 * Second) pool w1 = (None, w')) Lab.start
        (OpenPool "dsn" Lab.pool_opts Lab.start) ∧
  opens (λ c w1 w', pingClient Second c w1 = (None, w')) Lab.start (OpenRedis "dsn" Lab.redis_opts Lab.start).
Proof.
  split; [by vm_compute|].
  apply (opened_connections_are_ready "dsn" (Some Lab.init) Lab.opts Lab.pool_opts Lab.redis_opts Lab.start).
  - intros f Hf. injection Hf as <-. intros db w. reflexivity.
  - intros f Hf. discriminate.
Defined.

(** The migration succeeds and the database is closed. *)
Lemma migrated_database_is_closed_witness :
  closed (W := Lab.lab) tt (OpenAndMigrate (Ok "/srv") "url" "db" Lab.migrate_opts None Lab.opts Lab.start).2 ∧
  is_ok (OpenAndMigrate (Ok "/srv") "url" "db" Lab.migrate_opts (Some Lab.needs_database) Lab.opts Lab.start).1 = false.
Proof.
  split.
  - eapply (proj1 (migrated_database_is_closed (Ok "/srv") true "url" "db" Lab.migrate_opts Lab.opts Lab.start)).
    reflexivity.
  - apply (proj2 (proj2 (migrated_database_is_closed (Ok "/srv") true "url" "db" Lab.migrate_opts Lab.opts Lab.start))).
    intros db w Hc. unfold Lab.needs_database, Lab.ping. cbn in Hc. by rewrite Hc.
Defined.
