(* ===== verification/Tracing.v ===== *)
(** * Tracing set-up (src/startup/tracing.go)

    The tracing configuration from the OTEL environment variables, and starting and
    stopping the tracer provider.  The OpenTelemetry SDK and its process-wide provider
    and propagator are the class [TraceWorld]; strconv.ParseFloat and the printing of
    floats are the class [FloatText]. *)

From S2P Require Import Prelude GoStrings GoErrors GoFloat Retry Startup.
From Stdlib Require Import Ascii QArith.
#[local] Open Scope Z_scope.

Definition defaultTracingServiceName := "service".
Definition defaultTracingSampler := "parentbased_traceidratio".
Definition DefaultTraceBatchTimeout : duration := Second.
Definition DefaultTraceExportTimeout : duration := 5 * Second.

Record TracingConfig (F : Type) := {
  Endpoint : string;
  ServiceName : string;
  SamplerName : string;
  SampleRatio : F;
  BatchTimeout : duration;
  ExportTimeout : duration;
}.
Arguments Endpoint {F}.
Arguments ServiceName {F}.
Arguments SamplerName {F}.
Arguments SampleRatio {F}.
Arguments BatchTimeout {F}.
Arguments ExportTimeout {F}.

Definition Enabled {F} (cfg : TracingConfig F) : bool := bool_decide (TrimSpace (Endpoint cfg) ≠ "").

(** Numbers as texts: [strconv.ParseFloat] and the verb [%v]. *)
Class FloatText (F : Type) := {
  ParseFloat : string → result error F;
  FormatFloat : F → string;
}.

(** ** The configuration *)

Section Sampler.
Context {F : Type} `{!Float64 F, !FloatText F, !Unicode, !Quoting}.

Definition defaultTracingRatio : F := f1.

Definition ReplaceByte (a b : ascii) (s : string) : string :=
  of_bytes ((λ c, if Ascii.eqb c a then b else c) <$> bytes_of s).

Definition normalizeSampler (raw : string) : string := ReplaceByte "-" "_" (TrimSpace (ToLower raw)).

(** A byte of a number; a rune above 127 has none. *)
Definition ratio_byte (a : ascii) : bool :=
  ((48 <=? code a) && (code a <=? 57)) || Ascii.eqb a "." || Ascii.eqb a "+" || Ascii.eqb a "-"
  || Ascii.eqb a "e" || Ascii.eqb a "E".

Definition looksLikeTracingRatio (raw : string) : bool := forallb ratio_byte (bytes_of raw).

Definition validateTracingRatio (ratio : F) : option error :=
  if f_is_nan ratio || fltb ratio f0 || fltb f1 ratio
  then Some (ErrFmt ("OTEL trace sample ratio must be between 0 and 1, got " +:+ FormatFloat ratio))
  else None.

(** [Ok None] is a text that is not a number. *)
Definition parseTracingRatio (raw : string) : result error (option F) :=
  let raw := TrimSpace raw in
  if decide (raw = "") then Ok None
  else if negb (looksLikeTracingRatio raw) then Ok None
  else
    match ParseFloat raw with
    | Err e => Err (ErrWrap ("invalid OTEL trace sample ratio " +:+ Quote raw +:+ ": ") e "")
    | Ok ratio => match validateTracingRatio ratio with Some e => Err e | None => Ok (Some ratio) end
    end.

Definition unsupported_sampler (raw : string) : error := ErrFmt ("unsupported OTEL_TRACES_SAMPLER " +:+ Quote raw).

(** [Ok None] is a text without a colon. *)
Definition parseInlineTracingRatio (raw : string) : result error (option (string * F)) :=
  match CutByte ":" raw with
  | None => Ok None
  | Some (sampler, rawRatio) =>
      let sampler := normalizeSampler sampler in
      if bool_decide (sampler ≠ "traceidratio") && bool_decide (sampler ≠ "parentbased_traceidratio")
      then Err (unsupported_sampler raw)
      else
        match parseTracingRatio rawRatio with
        | Err e => Err e
        | Ok None => Err (ErrFmt ("OTEL_TRACES_SAMPLER " +:+ Quote raw +:+ " must include a numeric ratio between 0 and 1"))
        | Ok (Some ratio) => Ok (Some (sampler, ratio))
        end
  end.

(** The ratio of a sampler that takes one, from its argument. *)
Definition argument_ratio (rawArg : string) : result error F :=
  if decide (rawArg = "") then Ok defaultTracingRatio
  else
    match parseTracingRatio rawArg with
    | Err e => Err e
    | Ok None => Err (ErrFmt ("OTEL_TRACES_SAMPLER_ARG " +:+ Quote rawArg +:+ " must be a number between 0 and 1"))
    | Ok (Some ratio) => Ok ratio
    end.

Definition named_sampler (raw rawArg : string) : result error (string * F) :=
  let normalizedRaw := normalizeSampler raw in
  if decide (normalizedRaw = "always_on" ∨ normalizedRaw = "always_off") then Ok (normalizedRaw, defaultTracingRatio)
  else if decide (normalizedRaw = "traceidratio" ∨ normalizedRaw = "parentbased_traceidratio") then
    match argument_ratio rawArg with
    | Err e => Err e
    | Ok ratio => match validateTracingRatio ratio with Some e => Err e | None => Ok (normalizedRaw, ratio) end
    end
  else Err (unsupported_sampler raw).

Definition parseTracingSampler (raw rawArg : string) : result error (string * F) :=
  let raw := TrimSpace (ToLower raw) in
  let rawArg := TrimSpace rawArg in
  if decide (raw = "") then Ok (defaultTracingSampler, defaultTracingRatio)
  else
    match parseTracingRatio raw with
    | Err e => Err e
    | Ok (Some ratio) => Ok (defaultTracingSampler, ratio)
    | Ok None =>
        match parseInlineTracingRatio raw with
        | Err e => Err e
        | Ok (Some p) => Ok p
        | Ok None => named_sampler raw rawArg
        end
    end.

Definition TracingConfigFromEnv (Getenv : string → string) (serviceName : string) : result error (TracingConfig F) :=
  match parseTracingSampler (Getenv "OTEL_TRACES_SAMPLER") (Getenv "OTEL_TRACES_SAMPLER_ARG") with
  | Err e => Err e
  | Ok (sampler, ratio) =>
      let defaultServiceName := TrimSpace serviceName in
      let serviceName := TrimSpace (Getenv "OTEL_SERVICE_NAME") in
      let serviceName := if decide (serviceName = "") then defaultServiceName else serviceName in
      let serviceName := if decide (serviceName = "") then defaultTracingServiceName else serviceName in
      Ok {| Endpoint := TrimSpace (Getenv "OTEL_EXPORTER_OTLP_ENDPOINT"); ServiceName := serviceName;
            SamplerName := sampler; SampleRatio := ratio;
            BatchTimeout := DefaultTraceBatchTimeout; ExportTimeout := DefaultTraceExportTimeout |}
  end.

(** The samplers of the SDK. *)
Inductive Sampler := AlwaysSample | NeverSample | TraceIDRatioBased (ratio : F) | ParentBased (root : Sampler).

Definition tracingSampler (cfg : TracingConfig F) : result error Sampler :=
  let ratio_sampler s := match validateTracingRatio (SampleRatio cfg) with Some e => Err e | None => Ok s end in
  if decide (SamplerName cfg = "always_on") then Ok AlwaysSample
  else if decide (SamplerName cfg = "always_off") then Ok NeverSample
  else if decide (SamplerName cfg = "traceidratio") then ratio_sampler (TraceIDRatioBased (SampleRatio cfg))
  else if decide (SamplerName cfg = "parentbased_traceidratio" ∨ SamplerName cfg = "")
  then ratio_sampler (ParentBased (TraceIDRatioBased (SampleRatio cfg)))
  else Err (unsupported_sampler (SamplerName cfg)).
End Sampler.
Arguments Sampler : clear implicits.

(** ** The provider *)

Class TraceWorld (F W : Type) := {
  exporter : Type;
  resource : Type;
  provider : Type;
  propagator : Type;
  newOTLPTraceExporter : string → W → result error exporter * W;
  resource_New : string → W → result error resource * W;
  exporter_Shutdown : exporter → W → option error * W;
  NewTracerProvider : Sampler F → resource → exporter → duration → duration → W → provider * W;
  provider_Shutdown : provider → W → option error * W;
  GetTracerProvider : W → provider;
  SetTracerProvider : provider → W → W;
  GetTextMapPropagator : W → propagator;
  SetTextMapPropagator : propagator → W → W;
  trace_context_and_baggage : propagator;  (* the composite of the two *)
}.

Section Provider.
Context {F W : Type} `{!Float64 F, !FloatText F, !Unicode, !Quoting, !TraceWorld F W}.

(** [ShutdownFunc]. *)
Definition ShutdownFunc : Type := W → option error * W.

Definition shutdownTracingExporter (x : exporter) (err : error) (w : W) : error * W :=
  match exporter_Shutdown x w with
  | (Some e, w) => (ErrJoin [err; ErrWrap "shutdown otlp trace exporter: " e ""], w)
  | (None, w) => (err, w)
  end.

(** Installing the provider, and the function that stops it. *)
Definition install (p : provider) (w : W) : ShutdownFunc * W :=
  let previousProvider := GetTracerProvider w in
  let previousPropagator := GetTextMapPropagator w in
  let shutdown w :=
    let '(err, w) := provider_Shutdown p w in
    (err, SetTextMapPropagator previousPropagator (SetTracerProvider previousProvider w)) in
  (shutdown, SetTextMapPropagator trace_context_and_baggage (SetTracerProvider p w)).

Definition InitTracing (cfg : TracingConfig F) (w : W) : result error ShutdownFunc * W :=
  if negb (Enabled cfg) then (Ok (λ w, (None, w)), w)
  else
    let serviceName := TrimSpace (ServiceName cfg) in
    let serviceName := if decide (serviceName = "") then defaultTracingServiceName else serviceName in
    match newOTLPTraceExporter (TrimSpace (Endpoint cfg)) w with
    | (Err e, w) => (Err (ErrWrap "initialize otlp trace exporter: " e ""), w)
    | (Ok x, w) =>
        match resource_New serviceName w with
        | (Err e, w) =>
            let '(e, w) := shutdownTracingExporter x (ErrWrap "initialize otel resource: " e "") w in (Err e, w)
        | (Ok res, w) =>
            match tracingSampler cfg with
            | Err e => let '(e, w) := shutdownTracingExporter x e w in (Err e, w)
            | Ok sampler =>
                let batchTimeout := if BatchTimeout cfg <=? 0 then DefaultTraceBatchTimeout else BatchTimeout cfg in
                let exportTimeout := if ExportTimeout cfg <=? 0 then DefaultTraceExportTimeout else ExportTimeout cfg in
                let '(p, w) := NewTracerProvider sampler res x batchTimeout exportTimeout w in
                let '(shutdown, w) := install p w in
                (Ok shutdown, w)
            end
        end
    end.

(** [Lifecycle.EnableTracingFromEnv]: the error, and the lifecycle after the call. *)
Definition EnableTracingFromEnv (Getenv : string → string) (serviceName : string) (l : Lifecycle W) (w : W)
  : option error * Lifecycle W * W :=
  match TracingConfigFromEnv Getenv serviceName with
  | Err e => (Some e, l, w)
  | Ok cfg =>
      match InitTracing cfg w with
      | (Err e, w) => (Some e, l, w)
      | (Ok shutdown, w) =>
          (None, if Enabled cfg then OnShutdown "otel tracer provider" (Some shutdown) l else l, w)
      end
  end.
End Provider.

(** ** Properties of the configuration *)

Section Valid.
Context {F : Type} `{!Float64 F, !Float64Laws F, !FloatText F, !Unicode, !Quoting}.

Definition samplers : list string := ["always_on"; "always_off"; "traceidratio"; "parentbased_traceidratio"].

(** A number between 0 and 1. *)
Definition ratio_ok (r : F) : Prop := f_is_nan r = false ∧ fleb f0 r = true ∧ fleb r f1 = true.

Lemma f_small_num : f_is_nan (f0 : F) = false ∧ f_is_nan (f1 : F) = false.
Proof. split; apply f_of_int_num; vm_compute; split; discriminate. Qed.

Lemma validateTracingRatio_ok r : validateTracingRatio r = None ↔ ratio_ok r.
Proof.
  unfold validateTracingRatio, ratio_ok. destruct f_small_num as [N0 N1]. split.
  - destruct (f_is_nan r) eqn:Hn; [done|]. destruct (fltb r f0) eqn:Hl; [done|]. destruct (fltb f1 r) eqn:Hh; [done|].
    intros _. auto using fle_total.
  - intros (Hn & Hl & Hh). rewrite Hn. destruct (fltb r f0) eqn:E0; [apply flt_not_le in E0; congruence|].
    destruct (fltb f1 r) eqn:E1; [apply flt_not_le in E1; congruence|done].
Qed.

Lemma default_ratio_ok : ratio_ok defaultTracingRatio.
Proof.
  unfold defaultTracingRatio. destruct f_small_num as [_ N1]. split_and!; [done| |by apply fle_refl].
  apply f_of_int_le; [split; discriminate..|lia].
Qed.

Lemma parseTracingRatio_ok raw r : parseTracingRatio raw = Ok (Some r) → ratio_ok r.
Proof.
  unfold parseTracingRatio. case_decide; [discriminate|]. destruct (negb _); [discriminate|].
  destruct (ParseFloat _) as [x|]; [|discriminate]. destruct (validateTracingRatio x) eqn:Ev; [discriminate|].
  intros Heq. apply validateTracingRatio_ok. congruence.
Qed.

Lemma named_sampler_ok raw arg s r : named_sampler raw arg = Ok (s, r) → s ∈ samplers ∧ ratio_ok r.
Proof.
  unfold named_sampler. destruct (decide (_ ∨ _)) as [Hs|_].
  - intros Heq. simplify_eq. split; [unfold samplers; set_solver|apply default_ratio_ok].
  - destruct (decide (_ ∨ _)) as [Hs|_]; [|discriminate]. destruct (argument_ratio arg) as [x|]; [|discriminate].
    destruct (validateTracingRatio x) eqn:Ev; [discriminate|]. intros Heq. simplify_eq.
    split; [unfold samplers; set_solver|by apply validateTracingRatio_ok].
Qed.

Lemma parseInlineTracingRatio_ok raw s r : parseInlineTracingRatio raw = Ok (Some (s, r)) → s ∈ samplers ∧ ratio_ok r.
Proof.
  unfold parseInlineTracingRatio. destruct (CutByte _ _) as [[a b]|]; [|discriminate].
  destruct (bool_decide _ && _) eqn:Es; [discriminate|]. destruct (parseTracingRatio b) as [[x|]|] eqn:Ep; [|discriminate..].
  intros Heq. simplify_eq. split; [|by eapply parseTracingRatio_ok].
  apply andb_false_iff in Es as [Es|Es]; apply bool_decide_eq_false, dec_stable in Es; rewrite Es; unfold samplers; set_solver.
Qed.

Lemma parseTracingSampler_ok raw arg s r : parseTracingSampler raw arg = Ok (s, r) → s ∈ samplers ∧ ratio_ok r.
Proof.
  assert (defaultTracingSampler ∈ samplers) as Hd by (unfold samplers, defaultTracingSampler; set_solver).
  unfold parseTracingSampler. case_decide; [intros Heq; simplify_eq; by split; [|apply default_ratio_ok]|].
  destruct (parseTracingRatio _) as [[x|]|] eqn:Ep; [| |discriminate].
  - intros Heq. simplify_eq. split; [done|by eapply parseTracingRatio_ok].
  - destruct (parseInlineTracingRatio _) as [[[s' r']|]|] eqn:Ei; [| |discriminate].
    + intros Heq. simplify_eq. by eapply parseInlineTracingRatio_ok.
    + apply named_sampler_ok.
Qed.

(** C31: A tracing configuration read from the environment is well formed: it names
    the service and one of the four samplers, with a ratio between 0 and 1, so that
    building its sampler cannot fail and gives the sampler of that name and ratio. *)
Theorem tracing_config_is_typed Getenv serviceName cfg :
  TracingConfigFromEnv Getenv serviceName = Ok cfg →
  ServiceName cfg ≠ "" ∧ ratio_ok (SampleRatio cfg) ∧
  ((SamplerName cfg = "always_on" ∧ tracingSampler cfg = Ok AlwaysSample) ∨
   (SamplerName cfg = "always_off" ∧ tracingSampler cfg = Ok NeverSample) ∨
   (SamplerName cfg = "traceidratio" ∧ tracingSampler cfg = Ok (TraceIDRatioBased (SampleRatio cfg))) ∨
   (SamplerName cfg = "parentbased_traceidratio" ∧
    tracingSampler cfg = Ok (ParentBased (TraceIDRatioBased (SampleRatio cfg))))).
Proof.
  unfold TracingConfigFromEnv. destruct (parseTracingSampler _ _) as [[s r]|] eqn:Ep; [|discriminate].
  apply parseTracingSampler_ok in Ep as [Hs Hr]. intros Heq. injection Heq as <-.
  cbn [ServiceName SampleRatio SamplerName]. split_and!; [|done|].
  - destruct (decide (_ = "")); [discriminate|done].
  - unfold tracingSampler. cbn [SamplerName SampleRatio]. apply validateTracingRatio_ok in Hr. rewrite Hr.
    unfold samplers in Hs. rewrite !elem_of_cons, elem_of_nil in Hs.
    destruct Hs as [->|[->|[->|[->|[]]]]]; cbn; auto 10.
Qed.
End Valid.

(** The documented names of the standard samplers include two that are refused. *)
Lemma standard_sampler_refused {F} `{!Float64 F, !FloatText F, !Quoting} arg :
  parseTracingSampler (H := ascii_unicode) "parentbased_always_on" arg =
  Err (unsupported_sampler "parentbased_always_on").
Proof. reflexivity. Qed.

(** ** Starting and stopping *)

(** The process-wide provider and propagator are variables that the other operations
    leave alone; [exporters] counts the exporters that are not shut down. *)
Class TraceLaws (F W : Type) `{!TraceWorld F W} := {
  exporters : W → Z;
  globals (w : W) := (GetTracerProvider w, GetTextMapPropagator w);
  globals_set_provider p w : globals (SetTracerProvider p w) = (p, GetTextMapPropagator w);
  globals_set_propagator q w : globals (SetTextMapPropagator q w) = (GetTracerProvider w, q);
  globals_exporter u w : globals (newOTLPTraceExporter u w).2 = globals w;
  globals_resource n w : globals (resource_New n w).2 = globals w;
  globals_exporter_shutdown x w : globals (exporter_Shutdown x w).2 = globals w;
  globals_new_provider s r x b e w : globals (NewTracerProvider s r x b e w).2 = globals w;
  globals_provider_shutdown p w : globals (provider_Shutdown p w).2 = globals w;
  exporters_set_provider p w : exporters (SetTracerProvider p w) = exporters w;
  exporters_set_propagator q w : exporters (SetTextMapPropagator q w) = exporters w;
  exporters_exporter u w :
    exporters (newOTLPTraceExporter u w).2 = exporters w + (if is_ok (newOTLPTraceExporter u w).1 then 1 else 0);
  exporters_resource n w : exporters (resource_New n w).2 = exporters w;
  exporters_exporter_shutdown x w : exporters (exporter_Shutdown x w).2 = exporters w - 1;
  exporters_new_provider s r x b e w : exporters (NewTracerProvider s r x b e w).2 = exporters w;
  exporters_provider_shutdown p w : exporters (provider_Shutdown p w).2 = exporters w - 1;
}.

Section Undo.
Context {F W : Type} `{!Float64 F, !FloatText F, !Unicode, !Quoting, !TraceWorld F W, !TraceLaws F W}.

(** A function that undoes the set-up made in [w]: it puts the provider and the
    propagator of [w] back and shuts one exporter down. *)
Definition undoes (w : W) (f : ShutdownFunc) : Prop :=
  ∀ w1, globals (f w1).2 = globals w ∧ exporters (f w1).2 = exporters w1 - 1.

Lemma shutdownTracingExporter_spec x e w :
  globals (shutdownTracingExporter x e w).2 = globals w ∧
  exporters (shutdownTracingExporter x e w).2 = exporters w - 1.
Proof.
  unfold shutdownTracingExporter. pose proof (globals_exporter_shutdown x w). pose proof (exporters_exporter_shutdown x w).
  by destruct (exporter_Shutdown x w) as [[e1|] w1].
Qed.

Lemma install_spec p w :
  let '(f, w') := install p w in
  undoes w f ∧ globals w' = (p, trace_context_and_baggage) ∧ exporters w' = exporters w.
Proof.
  unfold install. split_and!.
  - intros w1. pose proof (exporters_provider_shutdown p w1) as He. destruct (provider_Shutdown p w1) as [e w2]. cbn in *.
    rewrite globals_set_propagator, exporters_set_propagator, exporters_set_provider. split; [|done].
    pose proof (globals_set_provider (GetTracerProvider w) w2) as Hg. unfold globals in Hg.
    apply (f_equal fst) in Hg. cbn in Hg. by rewrite Hg.
  - rewrite globals_set_propagator. pose proof (globals_set_provider p w) as Hg. unfold globals in Hg.
    apply (f_equal fst) in Hg. cbn in Hg. by rewrite Hg.
  - by rewrite exporters_set_propagator, exporters_set_provider.
Qed.

Lemma InitTracing_spec cfg w :
  match InitTracing cfg w with
  | (Err _, w') => globals w' = globals w ∧ exporters w' = exporters w
  | (Ok f, w') =>
      if Enabled cfg
      then undoes w f ∧ (globals w').2 = trace_context_and_baggage ∧ exporters w' = exporters w + 1
      else w' = w
  end.
Proof.
  unfold InitTracing. destruct (Enabled cfg); cbn [negb]; [|done].
  set (u := TrimSpace (Endpoint cfg)). set (n := if decide _ then _ else _).
  pose proof (globals_exporter u w) as G1. pose proof (exporters_exporter u w) as E1.
  destruct (newOTLPTraceExporter u w) as [[x|e] w1]; cbn in G1, E1; [|split; [done|lia]].
  pose proof (globals_resource n w1) as G2. pose proof (exporters_resource n w1) as E2.
  destruct (resource_New n w1) as [[res|e] w2]; cbn in G2, E2.
  - destruct (tracingSampler cfg) as [s|e].
    + set (b := if BatchTimeout cfg <=? 0 then _ else _). set (t := if ExportTimeout cfg <=? 0 then _ else _).
      pose proof (globals_new_provider s res x b t w2) as G3. pose proof (exporters_new_provider s res x b t w2) as E3.
      destruct (NewTracerProvider s res x b t w2) as [p w3]. cbn in G3, E3.
      pose proof (install_spec p w3) as Hi. destruct (install p w3) as [f w4]. destruct Hi as (Hu & Hg & He).
      split_and!; [|by rewrite Hg|lia]. intros w5. destruct (Hu w5) as [Hu1 Hu2]. split; [congruence|done].
    + destruct (shutdownTracingExporter_spec x e w2) as [G3 E3].
      destruct (shutdownTracingExporter x e w2) as [e3 w3]. cbn in *. split; [congruence|lia].
  - set (e' := ErrWrap _ _ _). destruct (shutdownTracingExporter_spec x e' w2) as [G3 E3].
    destruct (shutdownTracingExporter x e' w2) as [e3 w3]. cbn in *. split; [congruence|lia].
Qed.

(** Enabling tracing is all or nothing and can be undone: when it fails, at
    whichever step, the lifecycle and the process-wide provider and propagator are as
    before and no exporter is left running; when it succeeds it either changed nothing,
    or added one hook, last, that restores the provider and propagator of before and
    shuts the exporter down. *)
Lemma tracing_undo_spec Getenv serviceName (l : Lifecycle W) w :
  let '(err, l', w') := EnableTracingFromEnv Getenv serviceName l w in
  match err with
  | Some _ => l' = l ∧ globals w' = globals w ∧ exporters w' = exporters w
  | None =>
      (l' = l ∧ w' = w) ∨
      (exporters w' = exporters w + 1 ∧ (globals w').2 = trace_context_and_baggage ∧
       ∃ h, hooks l' = hooks l ++ [h] ∧ undoes w (hook_fn h))
  end.
Proof.
  unfold EnableTracingFromEnv. destruct (TracingConfigFromEnv _ _) as [cfg|e]; [|done].
  pose proof (InitTracing_spec cfg w) as Hi. destruct (InitTracing cfg w) as [[f|e] w']; [|done].
  destruct (Enabled cfg); [|by left]. destruct Hi as (Hu & Hg & He). right. split_and!; [done..|].
  eexists. split; [reflexivity|exact Hu].
Qed.
End Undo.

(** ** Instances *)

Module Otel.
(** Numbers of one digit, with or without one decimal. *)
#[export] Instance float_text : FloatText Q := {
  ParseFloat s :=
    match omap digit (bytes_of s), length (bytes_of s) with
    | [a], 1%nat => Ok (inject_Z a)
    | [a; b], 3%nat => Ok (inject_Z a + inject_Z b / 10)%Q
    | _, _ => Err (ErrForeign 9 "strconv.ParseFloat: invalid syntax")
    end;
  FormatFloat q := FormatInt (Qnum q) +:+ "/" +:+ FormatInt (Zpos (Qden q));
}.

#[export] Instance quoting : Quoting := { Quote s := of_bytes ["034"%char] +:+ s +:+ of_bytes ["034"%char] }.

Definition environment (sampler endpoint name : string) : string :=
  if decide (name = "OTEL_TRACES_SAMPLER") then sampler
  else if decide (name = "OTEL_EXPORTER_OTLP_ENDPOINT") then endpoint
  else "".

(** The state: the provider, the propagator, and the running exporters.  Resources
    cannot be made for the service named "broken". *)
Record process := { current : Z; propagates : bool; running : Z }.

#[export] Instance world : TraceWorld Q process := {
  exporter := unit;
  resource := string;
  provider := Z;
  propagator := bool;
  newOTLPTraceExporter _ w := (Ok tt, {| current := current w; propagates := propagates w; running := running w + 1 |});
  resource_New n w := (if decide (n = "broken") then Err (ErrNew "" "no host name") else Ok n, w);
  exporter_Shutdown _ w := (None, {| current := current w; propagates := propagates w; running := running w - 1 |});
  NewTracerProvider _ _ _ _ _ w := (7, w);
  provider_Shutdown _ w := (None, {| current := current w; propagates := propagates w; running := running w - 1 |});
  GetTracerProvider := current;
  SetTracerProvider p w := {| current := p; propagates := propagates w; running := running w |};
  GetTextMapPropagator := propagates;
  SetTextMapPropagator q w := {| current := current w; propagates := q; running := running w |};
  trace_context_and_baggage := true;
}.

#[export] Instance laws : TraceLaws Q process.
Proof. by refine {| exporters := running |}; intros; cbn; try case_decide; cbn; try lia. Defined.

Definition start : process := {| current := 0; propagates := false; running := 0 |}.
End Otel.

#[local] Existing Instances ascii_unicode Otel.float_text Otel.quoting Otel.world Otel.laws.

Lemma tracing_config_is_typed_witness :
  match TracingConfigFromEnv (F := Q) (Otel.environment " TraceIdRatio:0.3 " "") "api" with
  | Ok cfg => ratio_ok (SampleRatio cfg) ∧ SamplerName cfg = "traceidratio"
  | Err _ => False
  end.
Proof.
  destruct (TracingConfigFromEnv (F := Q) (Otel.environment " TraceIdRatio:0.3 " "") "api") as [cfg|e] eqn:Ec; [|discriminate].
  destruct (tracing_config_is_typed (Otel.environment " TraceIdRatio:0.3 " "") "api" cfg Ec) as (_ & Hr & _).
  split; [exact Hr|]. vm_compute in Ec. injection Ec as <-. reflexivity.
Defined.

Lemma tracing_undo_example :
  (let '(err, l', w') := EnableTracingFromEnv (F := Q) (Otel.environment "" "http://tempo:4318") "api" NewLifecycle Otel.start in
   err = None ∧ exporters w' = 1 ∧ globals w' = (7, true) ∧
   ∃ h, hooks l' = [h] ∧ globals (hook_fn h w').2 = (0, false) ∧ exporters (hook_fn h w').2 = 0) ∧
  (let '(err, l', w') := EnableTracingFromEnv (F := Q) (Otel.environment "" "http://tempo:4318") "broken" NewLifecycle Otel.start in
   err ≠ None ∧ exporters w' = 0).
Proof.
  split.
  - pose proof (tracing_undo_spec (F := Q) (Otel.environment "" "http://tempo:4318") "api" NewLifecycle Otel.start) as Ht.
    destruct (EnableTracingFromEnv _ _ _ _) as [[err l'] w'] eqn:Ee. vm_compute in Ee. injection Ee as <- <- <-.
    destruct Ht as [[Hl _]|(He & Hg & h & Hh & Hu)]; [discriminate|]. split_and!; [done..|]. exists h. split; [exact Hh|].
    match goal with |- context [hook_fn h ?w] => destruct (Hu w) as [U1 U2] end. rewrite U1, U2. by split.
  - pose proof (tracing_undo_spec (F := Q) (Otel.environment "" "http://tempo:4318") "broken" NewLifecycle Otel.start) as Ht.
    destruct (EnableTracingFromEnv _ _ _ _) as [[err l'] w'] eqn:Ee. vm_compute in Ee. injection Ee as <- <- <-.
    split; [discriminate|apply Ht].
Defined.
