(* ===== verification/Server.v ===== *)
(** * The managed HTTP server (src/startup/http.go)

    [RunHTTPServer]: tracing is enabled, the server is started on a goroutine, and the
    function waits for the server to return or for its context to end; then the
    lifecycle's hooks run.  The net/http server is the class [ServerWorld]. *)

From S2P Require Import Prelude GoStrings GoErrors GoFloat Http HttpKit Retry Startup Tracing.
#[local] Open Scope Z_scope.

(** src/startup/defaults.go. *)
Definition DefaultShutdownTimeout : duration := 10 * Second.

(** The four ways to serve: on a listener or on the server's address, with or without
    TLS. *)
Inductive ServeCall := ServeTLS | ListenAndServeTLS | Serve | ListenAndServe.

(** What the [select] receives first: the end of the serving goroutine, with the error
    of its call, or the end of the context. *)
Inductive event := ServeReturned (err : option error) | ContextDone.

Class ServerWorld (W : Type) := {
  start_serving : ServeCall → Handler W → W → W;
  select : W → event * W;
  server_Shutdown : duration → W → option error * W;
  DefaultServeMux : Handler W;
}.

Definition isErrServerClosed : error → bool := IsVar "http.ErrServerClosed".
Definition isCanceled : error → bool := IsVar "context.Canceled".

Section Server.
Context {F W : Type} `{!Float64 F, !FloatText F, !Unicode, !Quoting, !TraceWorld F W, !ServerWorld W}.

(** [HTTPServerConfig]; of the server, its handler, and of the listener, whether there
    is one. *)
Record HTTPServerConfig := {
  cfgServiceName : string;
  cfgServer : option (option (Handler W));
  cfgListener : bool;
  ShutdownTimeout : duration;
  cfgLifecycle : option (Lifecycle W);
  TLSCertFile : string;
  TLSKeyFile : string;
}.

Definition nonNilHTTPHandler (h : option (Handler W)) : Handler W :=
  match h with None => DefaultServeMux | Some h => h end.

(** The call of the goroutine. *)
Definition serve_call (cfg : HTTPServerConfig) : ServeCall :=
  if negb (blank (TLSCertFile cfg)) && negb (blank (TLSKeyFile cfg))
  then if cfgListener cfg then ServeTLS else ListenAndServeTLS
  else if cfgListener cfg then Serve else ListenAndServe.

(** What the goroutine sends on its channel before it closes it. *)
Definition sent (err : option error) : option error :=
  match err with Some e => if isErrServerClosed e then None else Some e | None => None end.

(** The two branches of the [select]. *)
Definition listen_failed (err : error) (l : Lifecycle W) (w : W) : option error * Lifecycle W * W :=
  let '(lifecycleErr, l, w) := Shutdown l w in
  let e := ErrWrap "listen failed: " err "" in
  (Some (match lifecycleErr with Some le => ErrJoin [e; le] | None => e end), l, w).

Definition stop (timeout : duration) (l : Lifecycle W) (w : W) : option error * Lifecycle W * W :=
  let '(err, w) := server_Shutdown timeout w in
  let errs := match err with
              | Some e => if isCanceled e then [] else [ErrWrap "shutdown server: " e ""]
              | None => []
              end in
  let '(lifecycleErr, l, w) := Shutdown l w in
  let errs := errs ++ option_list lifecycleErr in
  (match errs with [] => None | _ => Some (ErrJoin errs) end, l, w).

(** The error, the lifecycle after the call, and the state. *)
Definition RunHTTPServer (Getenv : string → string) (cfg : HTTPServerConfig) (w : W)
  : option error * Lifecycle W * W :=
  let lifecycle := default NewLifecycle (cfgLifecycle cfg) in
  match cfgServer cfg with
  | None => (Some (ErrFmt "startup: server is required"), lifecycle, w)
  | Some handler =>
      let timeout := if ShutdownTimeout cfg <=? 0 then DefaultShutdownTimeout else ShutdownTimeout cfg in
      let serviceName := TrimSpace (cfgServiceName cfg) in
      let serviceName := if decide (serviceName = "") then "service" else serviceName in
      match EnableTracingFromEnv (F := F) Getenv serviceName lifecycle w with
      | (Some e, lifecycle, w) => (Some (ErrWrap "startup tracing: " e ""), lifecycle, w)
      | (None, lifecycle, w) =>
          let w := start_serving (serve_call cfg) (WithBrowserSecurityDefaults (nonNilHTTPHandler handler)) w in
          match select w with
          | (ServeReturned err, w) =>
              match sent err with
              | None => (None, lifecycle, w)
              | Some e => listen_failed e lifecycle w
              end
          | (ContextDone, w) => stop timeout lifecycle w
          end
      end
  end.
End Server.

(** ** Shutdown *)

Section Complete.
Context {F W : Type} `{!Float64 F, !FloatText F, !Unicode, !Quoting, !TraceWorld F W, !ServerWorld W}.

(** Every hook of [l] ran once, the last registered first, from [w] to [w'], with the
    errors [errs]. *)
Definition all_ran (l : Lifecycle W) (w : W) (errs : list error) (w' : W) : Prop :=
  run_all (rev (hook_fn <$> hooks l)) w = (errs, w').

Lemma Shutdown_all (l : Lifecycle W) w :
  let '(err, l', w') := Shutdown l w in
  hooks l' = [] ∧ ∃ errs, all_ran l w errs w' ∧ (err = None ↔ errs = []).
Proof.
  unfold Shutdown, all_ran. destruct (run_hooks_all (rev (hooks l)) w) as [Hw He].
  assert (hook_fn <$> rev (hooks l) = rev (hook_fn <$> hooks l)) as Hr by apply map_rev.
  rewrite Hr in Hw, He. destruct (run_hooks (rev (hooks l)) w) as [es w1]. cbn in *.
  destruct (run_all (rev (hook_fn <$> hooks l)) w) as [errs we]. cbn in *. subst. split; [done|].
  eexists. split; [reflexivity|]. destruct es; cbn; split; done.
Qed.

(** The service name that tracing gets, and the time-out of the shutdown. *)
Definition service_name (cfg : HTTPServerConfig (W := W)) : string :=
  if decide (TrimSpace (cfgServiceName cfg) = "") then "service" else TrimSpace (cfgServiceName cfg).
Definition shutdown_timeout (cfg : HTTPServerConfig (W := W)) : duration :=
  if ShutdownTimeout cfg <=? 0 then DefaultShutdownTimeout else ShutdownTimeout cfg.

(** C23: A managed server shuts down completely.  Once it was started, with the
    browser defaults around its handler, the end of the context stops the server first
    and then runs every hook once, in reverse order; a failed listener also runs every
    hook; the error is nil exactly when nothing failed.  Only when the server was
    closed from elsewhere does no hook run. *)
Theorem server_shutdown_is_complete Getenv cfg handler w l1 w1 :
  cfgServer cfg = Some handler →
  EnableTracingFromEnv (F := F) Getenv (service_name cfg) (default NewLifecycle (cfgLifecycle cfg)) w = (None, l1, w1) →
  let '(err, l', w') := RunHTTPServer (F := F) Getenv cfg w in
  match select (start_serving (serve_call cfg) (WithBrowserSecurityDefaults (nonNilHTTPHandler handler)) w1) with
  | (ContextDone, w2) =>
      hooks l' = [] ∧ ∃ errs, all_ran l1 (server_Shutdown (shutdown_timeout cfg) w2).2 errs w' ∧
      (err = None ↔ errs = [] ∧ ∀ e, (server_Shutdown (shutdown_timeout cfg) w2).1 = Some e → isCanceled e = true)
  | (ServeReturned r, w2) =>
      match sent r with
      | Some e => hooks l' = [] ∧ (∃ errs, all_ran l1 w2 errs w') ∧
                  ∃ err', err = Some err' ∧ (err' = ErrWrap "listen failed: " e "" ∨
                                             ∃ le, err' = ErrJoin [ErrWrap "listen failed: " e ""; le])
      | None => err = None ∧ l' = l1 ∧ w' = w2
      end
  end.
Proof.
  intros Hs Ht. unfold RunHTTPServer. rewrite Hs. fold (service_name cfg). rewrite Ht.
  destruct (select _) as [[r|] w2].
  - destruct (sent r) as [e|]; [|done]. unfold listen_failed. pose proof (Shutdown_all l1 w2) as Hl.
    destruct (Shutdown l1 w2) as [[le l2] w3]. destruct Hl as (H1 & errs & H2 & _). split_and!; eauto.
    destruct le; eauto.
  - unfold stop. fold (shutdown_timeout cfg). destruct (server_Shutdown _ w2) as [se w3].
    pose proof (Shutdown_all l1 w3) as Hl. destruct (Shutdown l1 w3) as [[le l2] w4]. destruct Hl as (H1 & errs & H2 & H3).
    split; [done|]. exists errs. split; [done|]. rewrite <- H3. cbn.
    destruct se as [e|]; [destruct (isCanceled e) eqn:Ec|]; destruct le; cbn; split; try discriminate;
      try (by intros [? ?]).
    + intros _. split; [done|]. intros e' He. congruence.
    + intros [_ Hc]. specialize (Hc e eq_refl). congruence.
    + intros _. split; [done|]. intros e' He. congruence.
Qed.
End Complete.

(** ** A run leaves the process as it was *)

(** The server does not touch the process-wide tracing. *)
Class ServerLaws (F W : Type) `{!TraceWorld F W, !TraceLaws F W, !ServerWorld W} : Prop := {
  start_keeps c h w : globals (start_serving c h w) = globals w ∧ exporters (start_serving c h w) = exporters w;
  select_keeps w : globals (select w).2 = globals w ∧ exporters (select w).2 = exporters w;
  stop_keeps d w : globals (server_Shutdown d w).2 = globals w ∧ exporters (server_Shutdown d w).2 = exporters w;
}.

Section Clean.
Context {F W : Type} `{!Float64 F, !FloatText F, !Unicode, !Quoting, !TraceWorld F W, !TraceLaws F W, !ServerWorld W,
                       !ServerLaws F W}.

Definition same_process (w w' : W) : Prop := globals w' = globals w ∧ exporters w' = exporters w.

(** A hook that leaves the tracing alone. *)
Definition neutral (f : W → option error * W) : Prop := ∀ w, same_process w (f w).2.

Lemma run_all_neutral fs w : Forall neutral fs → same_process w (run_all fs w).2.
Proof.
  revert w. induction fs as [|f fs IH]; intros w Hfs; [done|]. apply Forall_cons in Hfs as [Hf Hfs]. cbn.
  destruct (Hf w) as [H1 H2]. destruct (f w) as [r w1]. destruct (IH w1 Hfs) as [H3 H4].
  destruct (run_all fs w1) as [errs w2]. cbn in *. split; congruence.
Qed.

(** Running the hooks of a lifecycle whose last hook, if tracing added one, undoes it. *)
Lemma hooks_undo (l l1 : Lifecycle W) w w1 w2 errs w' :
  Forall neutral (hook_fn <$> hooks l) →
  (l1 = l ∧ w1 = w) ∨ (exporters w1 = exporters w + 1 ∧ (globals w1).2 = trace_context_and_baggage ∧
    ∃ h, hooks l1 = hooks l ++ [h] ∧ undoes w (hook_fn h)) →
  same_process w1 w2 → all_ran l1 w2 errs w' → same_process w w'.
Proof.
  intros Hn Ht [G1 E1] Hr. apply (f_equal snd) in Hr. cbn in Hr. subst w'.
  destruct Ht as [[-> ->]|(E2 & _ & h & Hh & Hu)].
  - destruct (run_all_neutral (rev (hook_fn <$> hooks l)) w2 (Forall_rev Hn)) as [G2 E2]. split; congruence.
  - rewrite Hh, fmap_app. cbn [fmap list_fmap]. rewrite rev_app_distr. cbn.
    destruct (Hu w2) as [G2 E3]. destruct (hook_fn h w2) as [r w3]. cbn in *.
    destruct (run_all_neutral (rev (hook_fn <$> hooks l)) w3 (Forall_rev Hn)) as [G3 E4].
    destruct (run_all _ w3) as [es w4]. cbn in *. split; [congruence|lia].
Qed.

(** The serving goroutine ended without an error, or with [http.ErrServerClosed]: the
    server was closed from elsewhere. *)
Definition closed_elsewhere (Getenv : string → string) (cfg : HTTPServerConfig (W := W)) (w : W) : bool :=
  match cfgServer cfg with
  | None => false
  | Some handler =>
      match EnableTracingFromEnv (F := F) Getenv (service_name cfg) (default NewLifecycle (cfgLifecycle cfg)) w with
      | (Some _, _, _) => false
      | (None, _, w1) =>
          match (select (start_serving (serve_call cfg) (WithBrowserSecurityDefaults (nonNilHTTPHandler handler)) w1)).1 with
          | ServeReturned None => true
          | ServeReturned (Some e) => isErrServerClosed e
          | ContextDone => false
          end
      end
  end.

End Clean.

(** ** Instances *)

#[local] Existing Instances ascii_unicode Otel.float_text Otel.quoting Otel.world Otel.laws.

Module Interrupted.
(** A server whose context ends, and whose shutdown takes too long. *)
Definition late : error := ErrNew "context.DeadlineExceeded" "context deadline exceeded".
#[export] Instance server : ServerWorld Otel.process := {
  start_serving _ _ w := w;
  select w := (ContextDone, w);
  server_Shutdown _ w := (Some late, w);
  DefaultServeMux _ rw w := (Returned, rw, w);
}.
#[export] Instance server_laws : ServerLaws QArith_base.Q Otel.process.
Proof. by split. Defined.

Definition close_database (w : Otel.process) : option error * Otel.process := (Some (ErrNew "" "busy"), w).
Definition config : HTTPServerConfig (W := Otel.process) :=
  {| cfgServiceName := " api "; cfgServer := Some None; cfgListener := false; ShutdownTimeout := 0;
     cfgLifecycle := Some (OnShutdown "database" (Some close_database) NewLifecycle);
     TLSCertFile := "cert.pem"; TLSKeyFile := "key.pem" |}.
Definition environment : string → string := Otel.environment "" "http://tempo:4318".
Definition enabled : option error * Lifecycle Otel.process * Otel.process :=
  EnableTracingFromEnv (F := QArith_base.Q) environment "api" (default NewLifecycle (cfgLifecycle config)) Otel.start.
End Interrupted.

#[local] Existing Instances Interrupted.server Interrupted.server_laws.

(** The server is stopped, then the tracer, then the database. *)
Lemma server_shutdown_is_complete_witness :
  let '(err, l', w') := RunHTTPServer (F := QArith_base.Q) Interrupted.environment Interrupted.config Otel.start in
  serve_call Interrupted.config = ListenAndServeTLS ∧ err ≠ None ∧ hooks l' = [] ∧
  ∃ errs, all_ran Interrupted.enabled.1.2 Interrupted.enabled.2 errs w'.
Proof.
  pose proof (server_shutdown_is_complete Interrupted.environment Interrupted.config None Otel.start
    Interrupted.enabled.1.2 Interrupted.enabled.2 eq_refl eq_refl) as Hs.
  destruct (RunHTTPServer _ _ _) as [[err l'] w']. destruct Hs as (H1 & errs & H2 & H3). split_and!; [reflexivity| |exact H1|].
  - intros He. apply H3 in He as [_ Hc]. specialize (Hc _ eq_refl). discriminate.
  - exists errs. exact H2.
Defined.

