(* ===== verification/WideEvent.v ===== *)
(** * Wide events (src/observability/wide_event.go)

    Events are Go pointers to structs with a map of attributes, and a request's context
    holds a pointer to its state, so they are modelled in a store: three tables of
    objects with one counter for new addresses.  Attribute values may themselves be
    references. *)

From S2P Require Import Prelude Http.
#[local] Open Scope positive_scope.

Abbreviation loc := positive.

(** A value of type [any]: one without structure, or a reference to a map. *)
Inductive any := Scalar (text : string) | MapRef (l : loc).
Abbreviation attributes := (gmap string any).

Record WideEvent := {
  Name : string;
  Category : string;
  ResourceType : string;
  Action : string;
  Attributes : option loc;  (* nil, or a map *)
}.

(** [RequestState] holds the pointer to its event, or nil. *)
Record Heap := {
  events : gmap loc WideEvent;
  maps : gmap loc attributes;
  states : gmap loc (option loc);
  next : loc;
}.

(** ** The store *)

Definition set_event (l : loc) (e : WideEvent) (h : Heap) : Heap :=
  {| events := <[l := e]> (events h); maps := maps h; states := states h; next := next h |}.
Definition set_map (l : loc) (m : attributes) (h : Heap) : Heap :=
  {| events := events h; maps := <[l := m]> (maps h); states := states h; next := next h |}.
Definition set_state (l : loc) (e : option loc) (h : Heap) : Heap :=
  {| events := events h; maps := maps h; states := <[l := e]> (states h); next := next h |}.
Definition fresh_loc (h : Heap) : loc * Heap :=
  (next h, {| events := events h; maps := maps h; states := states h; next := Pos.succ (next h) |}).

Definition new_map (m : attributes) (h : Heap) : loc * Heap :=
  let '(l, h) := fresh_loc h in (l, set_map l m h).
Definition new_event (e : WideEvent) (h : Heap) : loc * Heap :=
  let '(l, h) := fresh_loc h in (l, set_event l e h).

Definition with_attributes (m : option loc) (e : WideEvent) : WideEvent :=
  {| Name := Name e; Category := Category e; ResourceType := ResourceType e; Action := Action e; Attributes := m |}.

(** The entries of a map; a nil map has none. *)
Definition entries (m : option loc) (h : Heap) : attributes :=
  match m with None => ∅ | Some l => default ∅ (maps h !! l) end.

(** ** Operations *)

Definition NewWideEvent (name category resourceType action : string) (h : Heap) : loc * Heap :=
  let '(m, h) := new_map ∅ h in
  new_event {| Name := name; Category := category; ResourceType := resourceType; Action := action;
               Attributes := Some m |} h.

(** [AddAttributes] with the entries of the argument; [None] is the nil event. *)
Definition AddAttributes (event : option loc) (attrs : attributes) (h : Heap) : Heap :=
  match event with
  | None => h
  | Some l =>
      match events h !! l with
      | None => h
      | Some e =>
          let '(m, h) :=
            match Attributes e with
            | Some m => (m, h)
            | None => let '(m, h) := new_map ∅ h in (m, set_event l (with_attributes (Some m) e) h)
            end in
          set_map m (attrs ∪ entries (Some m) h) h
      end
  end.

Definition Clone (event : option loc) (h : Heap) : option loc * Heap :=
  match event with
  | None => (None, h)
  | Some l =>
      match events h !! l with
      | None => (None, h)
      | Some e =>
          let '(m, h) :=
            if decide (entries (Attributes e) h = ∅) then (None, h)
            else let '(m, h) := new_map (entries (Attributes e) h) h in (Some m, h) in
          let '(l', h) := new_event (with_attributes m e) h in
          (Some l', h)
      end
  end.

Definition RequestStateFromContext (c : context) : option loc := ctx_state c.

(** The event a request's state points to. *)
Definition stored (s : option loc) (h : Heap) : option loc :=
  match s with None => None | Some s => default None (states h !! s) end.

Definition WideEventFromContext (c : context) (h : Heap) : option loc * Heap :=
  Clone (stored (RequestStateFromContext c) h) h.

Definition SetWideEvent (r : Request) (event : option loc) (h : Heap) : Heap :=
  match RequestStateFromContext (Ctx r), event with
  | Some s, Some _ => let '(c, h) := Clone event h in set_state s c h
  | _, _ => h
  end.

Definition AddWideEventAttributes (r : Request) (attrs : attributes) (h : Heap) : Heap :=
  match RequestStateFromContext (Ctx r) with
  | None => h
  | Some s =>
      let h :=
        match stored (Some s) h with
        | Some _ => h
        | None => let '(e, h) := NewWideEvent "" "" "" "" h in set_state s (Some e) h
        end in
      AddAttributes (stored (Some s) h) attrs h
  end.

Definition with_state (s : loc) (c : context) : context :=
  {| ctx_request_id := ctx_request_id c; ctx_route := ctx_route c; ctx_actor := ctx_actor c;
     ctx_principal := ctx_principal c; ctx_state := Some s |}.

Definition withRequestState (r : Request) (h : Heap) : Request * Heap :=
  match RequestStateFromContext (Ctx r) with
  | Some _ => (r, h)
  | None => let '(s, h) := fresh_loc h in (with_ctx (with_state s (Ctx r)) r, set_state s None h)
  end.

(** ** What an event shows *)

(** The fields and the entries of an event, with the values as they are stored. *)
Definition top (event : option loc) (h : Heap) : option (string * string * string * string * attributes) :=
  match event with
  | None => None
  | Some l =>
      match events h !! l with
      | None => None
      | Some e => Some (Name e, Category e, ResourceType e, Action e, entries (Attributes e) h)
      end
  end.

(** A value with the contents of the maps inside it, [n] levels deep. *)
Inductive tree := Leaf (text : string) | Node (fields : list (string * tree)) | Deeper.

Fixpoint deep (n : nat) (h : Heap) (v : any) : tree :=
  match v, n with
  | Scalar text, _ => Leaf text
  | MapRef _, O => Deeper
  | MapRef l, S n => Node ((λ kv, (kv.1, deep n h kv.2)) <$> map_to_list (entries (Some l) h))
  end.

Definition expand (n : nat) (h : Heap) (v : string * string * string * string * attributes)
  : string * string * string * string * gmap string tree :=
  let '(name, category, resourceType, action, m) := v in
  (name, category, resourceType, action, deep n h <$> m).

(** What a reader of the event sees, down to depth [n]. *)
Definition view (n : nat) (event : option loc) (h : Heap)
  : option (string * string * string * string * gmap string tree) := expand n h <$> top event h.

(** Addresses from [next] on are not in use. *)
Definition allocated (h : Heap) : Prop :=
  ∀ l, next h ≤ l → events h !! l = None ∧ maps h !! l = None ∧ states h !! l = None.

Lemma withRequestState_allocated r h : allocated h → allocated (withRequestState r h).2.
Proof.
  intros Ha. unfold withRequestState. destruct (RequestStateFromContext (Ctx r)); [done|]. cbn.
  intros l Hl. cbn in *. destruct (Ha l ltac:(lia)) as (? & ? & ?). rewrite lookup_insert_ne by lia. done.
Qed.

(** ** Private events *)

(** The event and the map that belong to the request state [s]. *)
Definition owned (s : loc) (h : Heap) (l : loc) : Prop :=
  ∃ e ev, states h !! s = Some (Some e) ∧ events h !! e = Some ev ∧ (l = e ∨ Attributes ev = Some l).

(** [K] are the addresses that code outside the request states holds.  They are closed
    under following attributes, and what belongs to a request state is not among them
    and belongs to no other. *)
Record private (K : loc → Prop) (h : Heap) : Prop := {
  p_allocated : allocated h;
  p_known l : K l → l < next h;
  p_closed e ev m : K e → events h !! e = Some ev → Attributes ev = Some m → K m;
  p_owned s l : owned s h l → l < next h ∧ ¬ K l;
  p_apart s s' l : owned s h l → owned s' h l → s = s';
  p_stored s e : states h !! s = Some (Some e) → is_Some (events h !! e);
}.

Lemma p_state K h s : private K h → is_Some (states h !! s) → s < next h.
Proof.
  intros Hp [e He]. destruct (decide (next h ≤ s)) as [Hl|]; [|lia].
  apply (p_allocated _ _ Hp) in Hl as (_ & _ & Hs). congruence.
Qed.

(** The state [r], its event and its map are the same in both heaps. *)
Definition agree (r : loc) (h h' : Heap) : Prop :=
  states h' !! r = states h !! r ∧
  ∀ e, states h !! r = Some (Some e) →
    events h' !! e = events h !! e ∧
    ∀ ev m, events h !! e = Some ev → Attributes ev = Some m → maps h' !! m = maps h !! m.

Lemma agree_top r h h' : agree r h h' → top (stored (Some r) h') h' = top (stored (Some r) h) h.
Proof.
  intros [Hs Ha]. unfold stored. rewrite Hs. destruct (states h !! r) as [[e|]|]; [|done..]. cbn.
  destruct (Ha e eq_refl) as [-> Hm]. destruct (events h !! e) as [ev|]; [|done].
  destruct (Attributes ev) as [m|] eqn:Em; [|done]. cbn. by rewrite (Hm ev m eq_refl Em).
Qed.

Lemma agree_refl r h : agree r h h.
Proof. by split. Qed.

Lemma agree_trans r h1 h2 h3 : agree r h1 h2 → agree r h2 h3 → agree r h1 h3.
Proof.
  intros [S1 A1] [S2 A2]. split; [congruence|]. intros e He. destruct (A1 e He) as [E1 M1].
  destruct (A2 e) as [E2 M2]; [congruence|]. split; [congruence|]. intros ev m Hev Hm.
  rewrite (M2 ev m); [by eapply M1|congruence|done].
Qed.

(** *** Primitive changes *)

Section Primitives.
Context (K : loc → Prop).

(** An address that belongs to nobody yet. *)
Definition unclaimed (h : Heap) (l : loc) : Prop := l < next h ∧ ¬ K l ∧ ∀ s, ¬ owned s h l.

(** Writing a map changes nobody's belongings. *)
Lemma private_map h l m : private K h → l < next h → private K (set_map l m h).
Proof.
  intros [Ha Hk Hc Ho Hp Hs] Hl. split; cbn; try done. intros l' Hl'. cbn in Hl'. destruct (Ha l' Hl') as (? & ? & ?).
  split_and!; [done| |done]. cbn. rewrite lookup_insert_ne by lia. done.
Qed.

Lemma agree_map h l m r : ¬ owned r h l → agree r h (set_map l m h).
Proof.
  intros Hl. split; [done|]. intros e He. split; [done|]. intros ev m' Hev Hm. cbn.
  rewrite lookup_insert_ne; [done|]. intros ->. apply Hl. exists e, ev. auto.
Qed.

(** Writing an event that no request state has. *)
Lemma owned_event h l ev s l' : (∀ s, states h !! s ≠ Some (Some l)) → owned s (set_event l ev h) l' ↔ owned s h l'.
Proof.
  intros Hl. split; intros (e & ev' & H1 & H2 & H3); exists e, ev'; cbn in *; split_and!; try done.
  - rewrite lookup_insert_ne in H2; [done|]. intros ->. by eapply Hl.
  - rewrite lookup_insert_ne; [done|]. intros ->. by eapply Hl.
Qed.

Lemma private_event h l ev :
  private K h → l < next h → (∀ s, states h !! s ≠ Some (Some l)) →
  (K l → ∀ m, Attributes ev = Some m → K m) → private K (set_event l ev h) ∧ ∀ r, agree r h (set_event l ev h).
Proof.
  intros [Ha Hk Hc Ho Hp Hs] Hl Hn Hm. assert (∀ s l', owned s (set_event l ev h) l' ↔ owned s h l') as Hi
    by (intros; by apply owned_event). split.
  - split; cbn.
    + intros l' Hl'. cbn in Hl'. destruct (Ha l' Hl') as (? & ? & ?). cbn. rewrite lookup_insert_ne by lia. done.
    + done.
    + intros e ev' m He Hev Hat. destruct (decide (l = e)) as [->|Hne].
      * rewrite lookup_insert_eq in Hev. simplify_eq. by apply Hm.
      * rewrite lookup_insert_ne in Hev by done. by eapply Hc.
    + intros s l' Hl'%Hi. by eapply Ho.
    + intros s s' l' H1%Hi H2%Hi. by eapply Hp.
    + intros s e Hse. rewrite lookup_insert_ne by (intros ->; by eapply Hn). by eapply Hs.
  - intros r. split; [done|]. intros e He. split; [|done]. cbn. rewrite lookup_insert_ne; [done|]. intros ->.
    by eapply Hn.
Qed.

(** Giving the event of a state a map that belongs to nobody. *)
Lemma private_attach h s e ev m :
  private K h → states h !! s = Some (Some e) → Attributes ev = Some m → unclaimed h m →
  private K (set_event e ev h) ∧ ∀ r, r ≠ s → agree r h (set_event e ev h).
Proof.
  intros [Ha Hk Hc Ho Hp Hs] Hse Hat (Hm1 & Hm2 & Hm3). destruct (Hs s e Hse) as [ev0 Hev0].
  assert (owned s h e) as Hoe by (exists e, ev0; auto). destruct (Ho s e Hoe) as [Hlt Hnk].
  assert (∀ s', states h !! s' = Some (Some e) → s' = s) as Hone.
  { intros s' H1. eapply Hp; [|exact Hoe]. exists e, ev0; auto. }
  assert (∀ s' l, owned s' (set_event e ev h) l → (s' = s ∧ (l = e ∨ l = m)) ∨ (s' ≠ s ∧ owned s' h l)) as Hi.
  { intros s' l (e' & ev' & H1 & H2 & H3). cbn in H1, H2. destruct (decide (e = e')) as [<-|Hne].
    - rewrite lookup_insert_eq in H2. simplify_eq. left. split; [by apply Hone|]. destruct H3; [auto|]. right. congruence.
    - rewrite lookup_insert_ne in H2 by done. right. split; [intros ->; congruence|]. by exists e', ev'. }
  split.
  - split; cbn.
    + intros l Hl'. cbn in Hl'. destruct (Ha l Hl') as (? & ? & ?). cbn. rewrite lookup_insert_ne by lia. done.
    + done.
    + intros e' ev' m' He' Hev Hm. rewrite lookup_insert_ne in Hev by (intros ->; done). by eapply Hc.
    + intros s' l [[-> [->| ->]]|[_ H1]]%Hi; [done|done|by eapply Ho].
    + intros s1 s2 l [[-> H1]|[N1 O1]]%Hi [[-> H2]|[N2 O2]]%Hi; [done| | |by eapply Hp].
      * destruct H1 as [->| ->]; [by destruct N2; eapply Hp|by destruct (Hm3 s2)].
      * destruct H2 as [->| ->]; [by destruct N1; eapply Hp|by destruct (Hm3 s1)].
    + intros s' e' Hse'. destruct (decide (e = e')) as [<-|Hne]; [rewrite lookup_insert_eq; eauto|].
      rewrite lookup_insert_ne by done. by eapply Hs.
  - intros r Hr. split; [done|]. intros e' He'. cbn. rewrite lookup_insert_ne; [done|]. intros ->. by destruct Hr; apply Hone.
Qed.

(** Giving a state an event that belongs to nobody. *)
Lemma private_state h s c :
  private K h → s < next h →
  (∀ e, c = Some e → is_Some (events h !! e) ∧ unclaimed h e ∧
     ∀ ev m, events h !! e = Some ev → Attributes ev = Some m → unclaimed h m) →
  private K (set_state s c h) ∧ ∀ r, r ≠ s → agree r h (set_state s c h).
Proof.
  intros [Ha Hk Hc Ho Hp Hs] Hl Hn.
  assert (∀ s' l, owned s' (set_state s c h) l → (s' = s ∧ unclaimed h l) ∨ (s' ≠ s ∧ owned s' h l)) as Hi.
  { intros s' l (e & ev & H1 & H2 & H3). cbn in H1, H2. destruct (decide (s = s')) as [->|Hne].
    - rewrite lookup_insert_eq in H1. simplify_eq. left. split; [done|].
      destruct (Hn e eq_refl) as (_ & He & Hm). destruct H3 as [->|H3]; eauto.
    - rewrite lookup_insert_ne in H1 by done. right. split; [done|]. by exists e, ev. }
  split.
  - split; cbn.
    + intros l Hl'. cbn in Hl'. destruct (Ha l Hl') as (? & ? & ?). cbn. rewrite lookup_insert_ne by lia. done.
    + done.
    + done.
    + intros s' l [[-> (? & ? & ?)]|[_ H1]]%Hi; [done|by eapply Ho].
    + intros s1 s2 l [[-> (H1 & H2 & H3)]|[N1 O1]]%Hi [[-> (H4 & H5 & H6)]|[N2 O2]]%Hi;
        [done|by destruct (H3 s2)|by destruct (H6 s1)|by eapply Hp].
    + intros s' e Hse. destruct (decide (s = s')) as [->|Hne].
      * rewrite lookup_insert_eq in Hse. simplify_eq. by destruct (Hn e eq_refl).
      * rewrite lookup_insert_ne in Hse by done. by eapply Hs.
  - intros r Hr. split; cbn; [by rewrite lookup_insert_ne by done|done].
Qed.
End Primitives.

(** Telling the outside of addresses that belong to nobody. *)
Lemma private_tell (K X : loc → Prop) h :
  private K h → (∀ l, X l → unclaimed K h l ∨ K l) →
  (∀ e ev m, X e → events h !! e = Some ev → Attributes ev = Some m → X m ∨ K m) →
  private (λ l, K l ∨ X l) h.
Proof.
  intros [Ha Hk Hc Ho Hp Hs] Hx Hm. split; try done.
  - intros l [Hl|Hl]; [by apply Hk|]. destruct (Hx l Hl) as [[? _]|?]; [done|by apply Hk].
  - intros e ev m [He|He] Hev Hat; [left; by eapply Hc|]. destruct (Hm e ev m He Hev Hat); auto.
  - intros s l Hl. destruct (Ho s l Hl) as [H1 H2]. split; [done|]. intros [?|HX]; [done|].
    destruct (Hx l HX) as [(_ & _ & H3)|?]; [by destruct (H3 s)|done].
Qed.

(** *** New objects *)

(** [h'] is [h] with new events and maps. *)
Definition grows (h h' : Heap) : Prop :=
  next h ≤ next h' ∧ states h' = states h ∧ allocated h' ∧
  ∀ l, l < next h → events h' !! l = events h !! l ∧ maps h' !! l = maps h !! l.

Lemma grows_trans h1 h2 h3 : grows h1 h2 → grows h2 h3 → grows h1 h3.
Proof.
  intros (N1 & S1 & A1 & G1) (N2 & S2 & A2 & G2). split_and!; [lia|congruence|done|]. intros l Hl.
  destruct (G1 l Hl), (G2 l ltac:(lia)). split; congruence.
Qed.

Lemma grows_map m h : allocated h → let '(l, h') := new_map m h in
  grows h h' ∧ l = next h ∧ next h' = Pos.succ l ∧ maps h' !! l = Some m ∧ events h' !! l = None.
Proof.
  intros Ha. cbn. split_and!; [|done|done|by rewrite lookup_insert_eq|by apply Ha].
  split_and!; [cbn; lia|done| |].
  - intros l Hl. cbn in *. destruct (Ha l ltac:(lia)) as (? & ? & ?). rewrite lookup_insert_ne by lia. done.
  - intros l Hl. cbn. rewrite lookup_insert_ne by lia. done.
Qed.

Lemma grows_event e h : allocated h → let '(l, h') := new_event e h in
  grows h h' ∧ l = next h ∧ next h' = Pos.succ l ∧ events h' !! l = Some e ∧ maps h' = maps h.
Proof.
  intros Ha. cbn. split_and!; [|done|done|by rewrite lookup_insert_eq|done].
  split_and!; [cbn; lia|done| |].
  - intros l Hl. cbn in *. destruct (Ha l ltac:(lia)) as (? & ? & ?). rewrite lookup_insert_ne by lia. done.
  - intros l Hl. cbn. rewrite lookup_insert_ne by lia. done.
Qed.

Lemma grows_owned K h h' s l : private K h → grows h h' → owned s h' l ↔ owned s h l.
Proof.
  intros Hp (Hn & Hs & Ha & Hg). unfold owned. rewrite Hs.
  assert (∀ e, states h !! s = Some (Some e) → events h' !! e = events h !! e) as He.
  { intros e He. destruct (p_stored _ _ Hp s e He) as [ev Hev]. destruct (p_owned _ _ Hp s e) as [Hl _].
    - exists e, ev. auto.
    - by destruct (Hg e Hl). }
  split; intros (e & ev & H1 & H2 & H3); exists e, ev; split_and!; try done; specialize (He e H1); congruence.
Qed.

(** What is there stays private, and what is new belongs to nobody. *)
Lemma grows_private K h h' : private K h → grows h h' →
  private K h' ∧ (∀ r, agree r h h') ∧ ∀ l, next h ≤ l → l < next h' → unclaimed K h' l.
Proof.
  intros Hp Hg. assert (∀ s l, owned s h' l ↔ owned s h l) as Hi by (intros; by eapply grows_owned).
  destruct Hg as (Hn & Hs & Ha & Hg). split_and!.
  - split; [done|..].
    + intros l Hl. apply (p_known _ _ Hp) in Hl. lia.
    + intros e ev m He Hev Hm. destruct (Hg e (p_known _ _ Hp e He)) as [He' _]. eapply (p_closed _ _ Hp); [done| |done].
      congruence.
    + intros s l Hl%Hi. destruct (p_owned _ _ Hp s l Hl). split; [lia|done].
    + intros s s' l H1%Hi H2%Hi. by eapply (p_apart _ _ Hp).
    + intros s e. rewrite Hs. intros Hse. destruct (p_stored _ _ Hp s e Hse) as [ev Hev].
      destruct (p_owned _ _ Hp s e) as [Hl _]; [by exists e, ev; auto|]. destruct (Hg e Hl) as [-> _]. eauto.
  - intros r. split; [by rewrite Hs|]. intros e He. destruct (p_stored _ _ Hp r e He) as [ev Hev].
    destruct (p_owned _ _ Hp r e) as [Hl _]; [by exists e, ev; auto|]. split; [by apply Hg|].
    intros ev' m Hev' Hm. destruct (p_owned _ _ Hp r m) as [Hl' _]; [by exists e, ev'; auto|]. by apply Hg.
  - intros l H1 H2. split_and!; [done| |].
    + intros Hl. apply (p_known _ _ Hp) in Hl. lia.
    + intros s Hl%Hi. apply (p_owned _ _ Hp) in Hl. lia.
Qed.

(** New objects become known when they refer to new or known ones only. *)
Lemma grows_tell (K : loc → Prop) h h' :
  private K h → grows h h' →
  (∀ e ev m, next h ≤ e → events h' !! e = Some ev → Attributes ev = Some m → next h ≤ m < next h' ∨ K m) →
  private (λ l, K l ∨ next h ≤ l < next h') h' ∧ ∀ r, agree r h h'.
Proof.
  intros Hp Hg Hm. destruct (grows_private K h h' Hp Hg) as (Hp' & Ha & Hu). split; [|done].
  apply private_tell; [done| |].
  - intros l [H1 H2]. left. by apply Hu.
  - intros e ev m [H1 H2]. by apply Hm.
Qed.

(** New events refer to new maps only. *)
Definition self_contained (h h' : Heap) : Prop :=
  ∀ e ev m, next h ≤ e → events h' !! e = Some ev → Attributes ev = Some m → next h ≤ m < next h'.

(** One new event with at most one new map before it. *)
Lemma new_event_contained h h1 e : grows h h1 → (∀ l, next h ≤ l → events h1 !! l = None) →
  (∀ m, Attributes e = Some m → next h ≤ m < next h1) →
  let '(l, h') := new_event e h1 in
  grows h h' ∧ self_contained h h' ∧ next h ≤ l < next h' ∧ events h' !! l = Some e ∧ maps h' = maps h1.
Proof.
  intros Hg Hn Hm. assert (allocated h1) as Ha by apply Hg. pose proof (grows_event e h1 Ha) as He. cbn in *.
  destruct He as (G & _ & _ & E & _). split_and!; [by eapply grows_trans| | | |done|done].
  - intros l ev m Hl Hev Hat. cbn in *. destruct (decide (next h1 = l)) as [<-|Hne].
    + rewrite lookup_insert_eq in Hev. simplify_eq. specialize (Hm m Hat). lia.
    + rewrite lookup_insert_ne, Hn in Hev by done. done.
  - apply Hg.
  - cbn. lia.
Qed.

Lemma NewWideEvent_grows n c t a h : allocated h →
  let '(l, h') := NewWideEvent n c t a h in
  grows h h' ∧ self_contained h h' ∧ next h ≤ l < next h' ∧ is_Some (events h' !! l).
Proof.
  intros Ha. unfold NewWideEvent. pose proof (grows_map ∅ h Ha) as Hm. destruct (new_map ∅ h) as [m h1] eqn:Em.
  destruct Hm as (G & -> & N & _ & _). injection Em as Eh1.
  pose proof (new_event_contained h h1 {| Name := n; Category := c; ResourceType := t; Action := a; Attributes := Some (next h) |} G) as He.
  destruct (new_event _ h1) as [l h']. destruct He as (G' & C & L & E & _).
  - intros l' Hl'. subst h1. by apply Ha.
  - cbn. intros m Hm. simplify_eq. lia.
  - eauto 10.
Qed.

Lemma Clone_grows e h : allocated h →
  let '(c, h') := Clone e h in
  grows h h' ∧ self_contained h h' ∧ top c h' = top e h ∧
  (∀ l, c = Some l → next h ≤ l < next h' ∧ is_Some (events h' !! l)).
Proof.
  intros Ha. assert (grows h h) as Gr by (split_and!; [lia|done..]).
  assert (self_contained h h) as Cr by (intros l ev m Hl Hev; destruct (Ha l Hl); congruence).
  unfold Clone. destruct e as [l|]; [|done]. destruct (events h !! l) as [ev|] eqn:El; [|cbn; by rewrite El].
  case_decide as Hem.
  - pose proof (new_event_contained h h (with_attributes None ev) Gr) as He. destruct (new_event _ h) as [c h'].
    destruct He as (G & C & L & E & M); [intros; by apply Ha|done|]. split_and!; [done|done| |].
    + cbn. rewrite E, El. cbn. by rewrite Hem.
    + intros l' Hl'. simplify_eq. eauto.
  - set (m := entries (Attributes ev) h). pose proof (grows_map m h Ha) as Hm. destruct (new_map m h) as [k h1] eqn:Em.
    destruct Hm as (G1 & -> & N & M1 & _). injection Em as Eh1.
    pose proof (new_event_contained h h1 (with_attributes (Some (next h)) ev) G1) as He. destruct (new_event _ h1) as [c h'].
    destruct He as (G & C & L & E & M).
    + intros l' Hl'. subst h1. by apply Ha.
    + cbn. intros m' Hm'. simplify_eq. lia.
    + split_and!; [done|done| |].
      * cbn [top]. rewrite E, El. cbn. rewrite M, M1. done.
      * intros l' Hl'. simplify_eq. eauto.
Qed.

(** ** Operations outside a request keep its event *)

Lemma known_not_stored (K : loc → Prop) l h s : private K h → K l → states h !! s ≠ Some (Some l).
Proof.
  intros Hp Kl Hs. destruct (p_stored _ _ Hp s l Hs) as [ev Hev].
  destruct (p_owned _ _ Hp s l) as [_ Hk]; [by exists l, ev; auto|done].
Qed.

(** Adding to a known event. *)
Lemma AddAttributes_known (K : loc → Prop) e attrs h :
  private K h → K e → let h' := AddAttributes (Some e) attrs h in
  private (λ l, K l ∨ next h ≤ l < next h') h' ∧ ∀ r, agree r h h'.
Proof.
  intros Hp Ke. cbn [AddAttributes]. destruct (events h !! e) as [ev|] eqn:Ee.
  2:{ split; [|intros; apply agree_refl]. apply private_tell; [done| |]; [intros l ?; lia|intros ? ? ? ?; lia]. }
  destruct (Attributes ev) as [m|] eqn:Em.
  - assert (K m) as Km by (by eapply (p_closed _ _ Hp)). pose proof (p_known _ _ Hp m Km) as Hm.
    split; [|intros r; apply agree_map; intros Ho; by destruct (p_owned _ _ Hp r m Ho)].
    apply private_tell; [by apply private_map| |]; cbn; [intros l ?; lia|intros ? ? ? ?; lia].
  - pose proof (grows_map ∅ h (p_allocated _ _ Hp)) as Hg. destruct (new_map ∅ h) as [m h1] eqn:Enm.
    destruct Hg as (G & -> & N & _ & _). injection Enm as Eh1.
    set (K' := λ l, K l ∨ next h ≤ l < next h1).
    destruct (grows_tell K h h1 Hp G) as [P1 A1].
    { intros e' ev' m' He' Hev'. subst h1. cbn in Hev'. destruct (p_allocated _ _ Hp e' He'). congruence. }
    fold K' in P1. assert (K' (next h)) as Kn by (right; lia). assert (K' e) as Ke' by (by left).
    destruct (private_event K' h1 e (with_attributes (Some (next h)) ev) P1) as [P2 A2].
    + apply (p_known _ _ P1), Ke'.
    + intros s. by apply (known_not_stored K').
    + intros _ m' Hm'. cbn in Hm'. by simplify_eq.
    + cbn zeta beta. set (h2 := set_event _ _ h1) in *. split.
      * change (next (set_map _ _ h2)) with (next h1). apply private_map; [exact P2|]. apply (p_known _ _ P1), Kn.
      * intros r. eapply agree_trans; [apply A1|]. eapply agree_trans; [apply A2|]. apply agree_map. intros Ho.
        by destruct (p_owned _ _ P2 r _ Ho).
Qed.

(** Adding to the event of another request. *)
Lemma AddAttributes_stored (K : loc → Prop) s attrs h :
  private K h → let h' := AddAttributes (stored (Some s) h) attrs h in
  private K h' ∧ ∀ r, r ≠ s → agree r h h'.
Proof.
  intros Hp. unfold stored. cbn zeta. destruct (states h !! s) as [[e|]|] eqn:Es; cbn [from_option id AddAttributes];
    [|by split; [|intros; apply agree_refl]..].
  destruct (p_stored _ _ Hp s e Es) as [ev Ee]. rewrite Ee. destruct (Attributes ev) as [m|] eqn:Em.
  - assert (owned s h m) as Ho by (exists e, ev; auto). destruct (p_owned _ _ Hp s m Ho) as [Hm _].
    split; [by apply private_map|]. intros r Hr. apply agree_map. intros Ho'. destruct Hr. by eapply (p_apart _ _ Hp).
  - pose proof (grows_map ∅ h (p_allocated _ _ Hp)) as Hg. destruct (new_map ∅ h) as [m h1].
    destruct Hg as (G & -> & N & _ & _). destruct (grows_private K h h1 Hp G) as (P1 & A1 & U1).
    assert (states h1 !! s = Some (Some e)) as Es1 by (destruct G as (_ & -> & _); done).
    destruct (private_attach K h1 s e (with_attributes (Some (next h)) ev) (next h) P1 Es1 eq_refl) as [P2 A2];
      [apply U1; lia|].
    cbn zeta beta. set (h2 := set_event _ _ h1) in *. split.
    + apply private_map; [exact P2|]. change (next h2) with (next h1). lia.
    + intros r Hr. eapply agree_trans; [apply A1|]. eapply agree_trans; [by apply A2|]. apply agree_map. intros Ho. destruct Hr.
      eapply (p_apart _ _ P2); [exact Ho|]. exists e, (with_attributes (Some (next h)) ev). cbn. rewrite lookup_insert_eq. auto.
Qed.

(** Steps of code other than the request of state [r], on the addresses [K] it knows:
    it writes its own maps and events, makes new ones, calls the functions of the
    package with them, and handles other requests.  It may also take the event of [r],
    and does what it likes with the copy.  Only the maps of [F] it does not write. *)
Inductive step (r : loc) (F : loc → Prop) : (loc → Prop) * Heap → (loc → Prop) * Heap → Prop :=
| step_write_map K h l m : K l → ¬ F l → step r F (K, h) (K, set_map l m h)
| step_write_event K h l e :
    K l → (∀ m, Attributes e = Some m → K m) → step r F (K, h) (K, set_event l e h)
| step_make_map K h m l h' :
    new_map m h = (l, h') → step r F (K, h) (λ l, K l ∨ next h ≤ l < next h', h')
| step_make_event K h e l h' :
    (∀ m, Attributes e = Some m → K m) → new_event e h = (l, h') →
    step r F (K, h) (λ l, K l ∨ next h ≤ l < next h', h')
| step_NewWideEvent K h n c t a l h' :
    NewWideEvent n c t a h = (l, h') → step r F (K, h) (λ l, K l ∨ next h ≤ l < next h', h')
| step_AddAttributes K h e attrs :
    K e → (∀ ev m, events h !! e = Some ev → Attributes ev = Some m → ¬ F m) →
    let h' := AddAttributes (Some e) attrs h in step r F (K, h) (λ l, K l ∨ next h ≤ l < next h', h')
| step_Clone K h e c h' :
    Clone e h = (c, h') → step r F (K, h) (λ l, K l ∨ next h ≤ l < next h', h')
| step_WideEventFromContext K h c e h' :
    WideEventFromContext c h = (e, h') → step r F (K, h) (λ l, K l ∨ next h ≤ l < next h', h')
| step_SetWideEvent K h q e :
    RequestStateFromContext (Ctx q) ≠ Some r → (∀ s, RequestStateFromContext (Ctx q) = Some s → is_Some (states h !! s)) →
    step r F (K, h) (K, SetWideEvent q e h)
| step_AddWideEventAttributes K h q attrs :
    RequestStateFromContext (Ctx q) ≠ Some r → (∀ s, RequestStateFromContext (Ctx q) = Some s → is_Some (states h !! s)) →
    step r F (K, h) (K, AddWideEventAttributes q attrs h)
| step_withRequestState K h q : step r F (K, h) (K, (withRequestState q h).2).

(** Objects that somebody makes. *)
Lemma new_map_known (K : loc → Prop) m l h h' : private K h → new_map m h = (l, h') →
  private (λ l, K l ∨ next h ≤ l < next h') h' ∧ ∀ r, agree r h h'.
Proof.
  intros Hp Hm. pose proof (grows_map m h (p_allocated _ _ Hp)) as Hg. rewrite Hm in Hg. destruct Hg as (G & -> & N & _ & _).
  injection Hm as Eh. apply grows_tell; [done..|].
  intros e ev m' H1 H2. subst h'. destruct (p_allocated _ _ Hp e H1). cbn in H2. congruence.
Qed.

Lemma new_event_known (K : loc → Prop) e l h h' : private K h → (∀ m, Attributes e = Some m → K m) →
  new_event e h = (l, h') → private (λ l, K l ∨ next h ≤ l < next h') h' ∧ ∀ r, agree r h h'.
Proof.
  intros Hp Ke He. pose proof (grows_event e h (p_allocated _ _ Hp)) as Hg. rewrite He in Hg.
  destruct Hg as (G & -> & N & E & _). injection He as Eh. apply grows_tell; [done..|].
  intros e' ev m' H1 H2 H3. subst h'. cbn in H2. destruct (decide (next h = e')) as [<-|Hne].
  - rewrite lookup_insert_eq in H2. simplify_eq. right. by apply Ke.
  - rewrite lookup_insert_ne in H2 by done. destruct (p_allocated _ _ Hp e' H1). congruence.
Qed.

Lemma NewWideEvent_known (K : loc → Prop) n c t a l h h' : private K h → NewWideEvent n c t a h = (l, h') →
  private (λ l, K l ∨ next h ≤ l < next h') h' ∧ ∀ r, agree r h h'.
Proof.
  intros Hp He. pose proof (NewWideEvent_grows n c t a h (p_allocated _ _ Hp)) as Hg. rewrite He in Hg.
  destruct Hg as (G & C & _ & _). apply grows_tell; [done..|]. intros e ev m H1 H2 H3. left. by eapply C.
Qed.

(** Writes to what somebody knows. *)
Lemma set_map_known (K : loc → Prop) l m h : private K h → K l → private K (set_map l m h) ∧ ∀ r, agree r h (set_map l m h).
Proof.
  intros Hp Kl. split; [by apply private_map; [|apply (p_known _ _ Hp)]|]. intros r. apply agree_map. intros Ho.
  by destruct (p_owned _ _ Hp r l Ho).
Qed.

Lemma set_event_known (K : loc → Prop) l e h : private K h → K l → (∀ m, Attributes e = Some m → K m) →
  private K (set_event l e h) ∧ ∀ r, agree r h (set_event l e h).
Proof.
  intros Hp Kl Ke. apply private_event; [done|by apply (p_known _ _ Hp)| |done]. intros s. by apply (known_not_stored K).
Qed.

(** A copy that somebody takes. *)
Lemma Clone_known (K : loc → Prop) e c h h' : private K h → Clone e h = (c, h') →
  private (λ l, K l ∨ next h ≤ l < next h') h' ∧ ∀ r, agree r h h'.
Proof.
  intros Hp He. pose proof (Clone_grows e h (p_allocated _ _ Hp)) as Hc. rewrite He in Hc. destruct Hc as (G & C & _ & _).
  apply grows_tell; [done..|]. intros e' ev m H1 H2 H3. left. by eapply C.
Qed.

Lemma SetWideEvent_private K q e h r : private K h → RequestStateFromContext (Ctx q) ≠ Some r →
  (∀ s, RequestStateFromContext (Ctx q) = Some s → is_Some (states h !! s)) →
  private K (SetWideEvent q e h) ∧ agree r h (SetWideEvent q e h).
Proof.
  intros Hp Hq Hl. unfold SetWideEvent. destruct (RequestStateFromContext (Ctx q)) as [s|]; [|by split].
  destruct e as [e|]; [|by split]. pose proof (Clone_grows (Some e) h (p_allocated _ _ Hp)) as Hc.
  destruct (Clone (Some e) h) as [c h1]. destruct Hc as (G & C & _ & L).
  destruct (grows_private K h h1 Hp G) as (P1 & A1 & U1).
  destruct (private_state K h1 s c P1) as [P2 A2].
  - specialize (Hl s eq_refl). apply (p_state _ _ _ Hp) in Hl. destruct G. lia.
  - intros l Hcl. destruct (L l Hcl) as [Hll Hev]. split_and!; [done|apply U1; lia|].
    intros ev m Hev' Hm. destruct (C l ev m) as [? ?]; [lia|done..|]. by apply U1.
  - split; [done|]. eapply agree_trans; [apply A1|]. apply A2. congruence.
Qed.

Lemma AddWideEventAttributes_private K q attrs h r : private K h → RequestStateFromContext (Ctx q) ≠ Some r →
  (∀ s, RequestStateFromContext (Ctx q) = Some s → is_Some (states h !! s)) →
  private K (AddWideEventAttributes q attrs h) ∧ agree r h (AddWideEventAttributes q attrs h).
Proof.
  intros Hp Hq Hl. unfold AddWideEventAttributes. destruct (RequestStateFromContext (Ctx q)) as [s|]; [|by split].
  assert (r ≠ s) as Hr by congruence.
  destruct (stored (Some s) h) as [e|] eqn:Es.
  - destruct (AddAttributes_stored K s attrs h Hp) as [P A]. split; [done|by apply A].
  - pose proof (NewWideEvent_grows "" "" "" "" h (p_allocated _ _ Hp)) as Hn.
    destruct (NewWideEvent "" "" "" "" h) as [e h1]. destruct Hn as (G & C & L & E).
    destruct (grows_private K h h1 Hp G) as (P1 & A1 & U1). destruct (private_state K h1 s (Some e) P1) as [P2 A2].
    + specialize (Hl s eq_refl). apply (p_state _ _ _ Hp) in Hl. destruct G. lia.
    + intros e' He'. simplify_eq. split_and!; [done|apply U1; lia|]. intros ev m Hev Hm.
      destruct (C e' ev m) as [? ?]; [lia|done..|]. by apply U1.
    + destruct (AddAttributes_stored K s attrs _ P2) as [P3 A3]. split; [done|].
      eapply agree_trans; [apply A1|]. eapply agree_trans; [by apply A2|]. by apply A3.
Qed.

Lemma withRequestState_private K q h r : private K h → is_Some (states h !! r) →
  private K (withRequestState q h).2 ∧ agree r h (withRequestState q h).2.
Proof.
  intros Hp Hr. unfold withRequestState. destruct (RequestStateFromContext (Ctx q)) as [s|]; [by split|]. cbn.
  set (h1 := {| events := events h; maps := maps h; states := states h; next := Pos.succ (next h) |}).
  assert (grows h h1) as G.
  { split_and!; [cbn; lia|done| |done]. intros l Hl. apply (p_allocated _ _ Hp). cbn in Hl. lia. }
  destruct (grows_private K h h1 Hp G) as (P1 & A1 & _). destruct (private_state K h1 (next h) None P1) as [P2 A2].
  - cbn. lia.
  - done.
  - split; [exact P2|]. eapply agree_trans; [apply A1|]. apply A2. apply (p_state _ _ _ Hp) in Hr. lia.
Qed.

Lemma step_private r F c c' : step r F c c' → private c.1 c.2 → is_Some (states c.2 !! r) →
  private c'.1 c'.2 ∧ agree r c.2 c'.2.
Proof.
  intros Hs Hp Hr. destruct Hs as [K h l m Kl _|K h l e Kl Ke|K h m l h' Hm|K h e l h' Ke He|K h n c t a l h' He
    |K h e attrs Ke _|K h e c h' He|K h c e h' He|K h q e Hq Hl|K h q attrs Hq Hl|K h q]; cbn [fst snd] in *.
  - by destruct (set_map_known K l m h).
  - by destruct (set_event_known K l e h).
  - by destruct (new_map_known K m l h h').
  - by destruct (new_event_known K e l h h').
  - by destruct (NewWideEvent_known K n c t a l h h').
  - by destruct (AddAttributes_known K e attrs h Hp Ke).
  - by destruct (Clone_known K e c h h').
  - by destruct (Clone_known K _ e h h' Hp He).
  - by apply SetWideEvent_private.
  - by apply AddWideEventAttributes_private.
  - by apply withRequestState_private.
Qed.

Lemma steps_agree r F c c' : rtc (step r F) c c' → private c.1 c.2 → is_Some (states c.2 !! r) →
  private c'.1 c'.2 ∧ agree r c.2 c'.2.
Proof.
  induction 1 as [c|c c1 c2 Hs _ IH]; intros Hp Hr; [by split; [|apply agree_refl]|].
  destruct (step_private r F c c1 Hs Hp Hr) as [P A]. destruct IH as [P' A']; [done| |].
  - by rewrite (proj1 A).
  - split; [done|by eapply agree_trans].
Qed.

(** *** The maps inside the attributes *)

(** The maps of [F] hold what they held. *)
Definition same_maps (F : loc → Prop) (h h' : Heap) : Prop := ∀ l, F l → maps h' !! l = maps h !! l.

#[export] Instance same_maps_preorder F : PreOrder (same_maps F).
Proof. split; [by intros h l|]. intros h1 h2 h3 H1 H2 l Hl. rewrite H2, H1 by done. done. Qed.

Section SameMaps.
Context (K F : loc → Prop) (HF : ∀ l, F l → K l).

Lemma grows_same_maps h h' : private K h → grows h h' → same_maps F h h'.
Proof. intros Hp (_ & _ & _ & Hg) l Hl. apply Hg, (p_known _ _ Hp), HF, Hl. Qed.

Lemma AddAttributes_same_maps e attrs h : private K h →
  (∀ ev m, events h !! e = Some ev → Attributes ev = Some m → ¬ F m) →
  same_maps F h (AddAttributes (Some e) attrs h).
Proof.
  intros Hp Hn l Hl. cbn [AddAttributes]. destruct (events h !! e) as [ev|] eqn:Ee; [|done].
  pose proof (p_known _ _ Hp l (HF l Hl)) as Hlt. destruct (Attributes ev) as [m|] eqn:Em; cbn.
  - rewrite lookup_insert_ne; [done|]. intros ->. by apply (Hn ev l).
  - by rewrite !lookup_insert_ne by lia.
Qed.

Lemma AddWideEventAttributes_same_maps q attrs h : private K h →
  (∀ s, RequestStateFromContext (Ctx q) = Some s → is_Some (states h !! s)) →
  same_maps F h (AddWideEventAttributes q attrs h).
Proof.
  intros Hp Hl. unfold AddWideEventAttributes. destruct (RequestStateFromContext (Ctx q)) as [s|]; [|done].
  assert (∀ h1 s e, private K h1 → states h1 !! s = Some (Some e) → same_maps F h1 (AddAttributes (Some e) attrs h1)) as Hadd.
  { intros h1 s1 e Hp1 Hs1. apply AddAttributes_same_maps; [done|]. intros ev m Hev Hm Hf.
    destruct (p_owned _ _ Hp1 s1 m) as [_ Hk]; [by exists e, ev; auto|]. by apply Hk, HF. }
  destruct (stored (Some s) h) as [e|] eqn:Es.
  - rewrite Es. unfold stored in Es. destruct (states h !! s) as [[e'|]|] eqn:Hs; [|done..]. cbn in Es. simplify_eq. by eapply Hadd.
  - pose proof (NewWideEvent_grows "" "" "" "" h (p_allocated _ _ Hp)) as Hn.
    destruct (NewWideEvent "" "" "" "" h) as [e h1]. destruct Hn as (G & C & L & E).
    destruct (grows_private K h h1 Hp G) as (P1 & _ & U1). destruct (private_state K h1 s (Some e) P1) as [P2 _].
    + specialize (Hl s eq_refl). apply (p_state _ _ _ Hp) in Hl. destruct G. lia.
    + intros e' He'. simplify_eq. split_and!; [done|apply U1; lia|]. intros ev m Hev Hm.
      destruct (C e' ev m) as [? ?]; [lia|done..|]. by apply U1.
    + unfold stored. cbn [set_state states]. rewrite lookup_insert_eq. cbn [default from_option id].
      transitivity h1; [by apply grows_same_maps|]. transitivity (set_state s (Some e) h1); [done|].
      apply (Hadd _ s); [done|]. cbn. by rewrite lookup_insert_eq.
Qed.

Lemma SetWideEvent_same_maps q e h : private K h → same_maps F h (SetWideEvent q e h).
Proof.
  intros Hp. unfold SetWideEvent. destruct (RequestStateFromContext (Ctx q)) as [s|]; [|done]. destruct e as [e|]; [|done].
  pose proof (Clone_grows (Some e) h (p_allocated _ _ Hp)) as Hc. destruct (Clone (Some e) h) as [c h1].
  destruct Hc as (G & _). transitivity h1; [by apply grows_same_maps|done].
Qed.
End SameMaps.

Lemma step_same_maps r F c c' : step r F c c' → private c.1 c.2 → (∀ l, F l → c.1 l) →
  same_maps F c.2 c'.2 ∧ ∀ l, F l → c'.1 l.
Proof.
  intros Hs Hp HF. destruct Hs as [K h l m Kl Fl|K h l e Kl Ke|K h m l h' Hm|K h e l h' Ke He|K h n c t a l h' He
    |K h e attrs Ke Fm|K h e c h' He|K h c e h' He|K h q e Hq Hl|K h q attrs Hq Hl|K h q]; cbn [fst snd] in *.
  all: split; [|intros; first [by apply HF|by left; apply HF]].
  - intros l' Hl'. cbn. rewrite lookup_insert_ne; [done|by intros ->].
  - done.
  - apply (grows_same_maps K F HF _ _ Hp). pose proof (grows_map m h (p_allocated _ _ Hp)) as Hg. rewrite Hm in Hg. apply Hg.
  - apply (grows_same_maps K F HF _ _ Hp). pose proof (grows_event e h (p_allocated _ _ Hp)) as Hg. rewrite He in Hg. apply Hg.
  - apply (grows_same_maps K F HF _ _ Hp). pose proof (NewWideEvent_grows n c t a h (p_allocated _ _ Hp)) as Hg. rewrite He in Hg. apply Hg.
  - by apply (AddAttributes_same_maps K F HF).
  - apply (grows_same_maps K F HF _ _ Hp). pose proof (Clone_grows e h (p_allocated _ _ Hp)) as Hg. rewrite He in Hg. apply Hg.
  - unfold WideEventFromContext in He. apply (grows_same_maps K F HF _ _ Hp).
    pose proof (Clone_grows (stored (RequestStateFromContext c) h) h (p_allocated _ _ Hp)) as Hg. rewrite He in Hg. apply Hg.
  - by apply (SetWideEvent_same_maps K F HF).
  - by apply (AddWideEventAttributes_same_maps K F HF).
  - unfold withRequestState. by destruct (RequestStateFromContext (Ctx q)).
Qed.

Lemma steps_same_maps r F c c' : rtc (step r F) c c' → private c.1 c.2 → is_Some (states c.2 !! r) → (∀ l, F l → c.1 l) →
  same_maps F c.2 c'.2 ∧ ∀ l, F l → c'.1 l.
Proof.
  induction 1 as [c|c c1 c2 Hs _ IH]; intros Hp Hr HF; [done|]. destruct (step_private r F c c1 Hs Hp Hr) as [P A].
  destruct (step_same_maps r F c c1 Hs Hp HF) as [M HF']. destruct IH as [M' HF'']; [done|by rewrite (proj1 A)|done|].
  split; [by transitivity c1.2|done].
Qed.

(** [F] holds every map inside the attributes of the event [e], at any depth. *)
Record inner_maps (F : loc → Prop) (e : loc) (h : Heap) : Prop := {
  ne_event ev k l : events h !! e = Some ev → entries (Attributes ev) h !! k = Some (MapRef l) → F l;
  ne_closed l k l' : F l → entries (Some l) h !! k = Some (MapRef l') → F l';
}.

Lemma deep_same F e h h' n v : inner_maps F e h → same_maps F h h' → (∀ l, v = MapRef l → F l) → deep n h' v = deep n h v.
Proof.
  intros [_ Hc] Hm. revert v. induction n as [|n IH]; intros v Hv; destruct v as [t|l]; try done. cbn.
  assert (maps h' !! l = maps h !! l) as Hl by (apply Hm, Hv; done). rewrite Hl. f_equal.
  apply list_fmap_ext. intros i [k v] Hi. cbn [fst snd]. f_equal. apply IH. intros l' ->. apply (Hc l k); [by apply Hv|].
  apply list_elem_of_lookup_2, elem_of_map_to_list in Hi. exact Hi.
Qed.

Lemma deep_attributes F e ev h h' n : inner_maps F e h → same_maps F h h' → events h !! e = Some ev →
  deep n h' <$> entries (Attributes ev) h = deep n h <$> entries (Attributes ev) h.
Proof.
  intros Hn Hm He. apply map_fmap_ext. intros k v Hk. apply (deep_same F e); [done..|]. intros l ->. by eapply (ne_event _ _ _ Hn).
Qed.

(** ** Properties *)

(** Adding attributes shows: later values replace earlier ones. *)
Lemma AddAttributes_top l attrs n c t a m h :
  top (Some l) h = Some (n, c, t, a, m) → top (Some l) (AddAttributes (Some l) attrs h) = Some (n, c, t, a, attrs ∪ m).
Proof.
  cbn [top AddAttributes]. destruct (events h !! l) as [ev|] eqn:El; [|done]. intros Heq. simplify_eq.
  destruct (Attributes ev) as [k|] eqn:Ek; cbn; rewrite ?lookup_insert_eq; cbn;
    rewrite ?El, ?Ek; cbn; rewrite ?lookup_insert_eq; done.
Qed.

Lemma SetWideEvent_own K q e h r v :
  private K h → RequestStateFromContext (Ctx q) = Some r → is_Some (states h !! r) → top (Some e) h = Some v →
  let h1 := SetWideEvent q (Some e) h in
  private K h1 ∧ is_Some (states h1 !! r) ∧ top (stored (Some r) h1) h1 = Some v.
Proof.
  intros Hp Hq Hr Hv. cbn zeta. split_and!.
  - apply (SetWideEvent_private K q (Some e) h (Pos.succ r)); [done|rewrite Hq; intros Heq; simplify_eq; lia|].
    intros s Hs. by rewrite Hq in Hs; simplify_eq.
  - unfold SetWideEvent. rewrite Hq. destruct (Clone (Some e) h) as [c h1]. cbn. rewrite lookup_insert_eq. eauto.
  - unfold SetWideEvent. rewrite Hq. pose proof (Clone_grows (Some e) h (p_allocated _ _ Hp)) as Hc.
    destruct (Clone (Some e) h) as [c h1]. destruct Hc as (_ & _ & Hc & _). unfold stored. cbn. rewrite lookup_insert_eq.
    cbn. rewrite <- Hv, <- Hc. done.
Qed.

(** What the stored event shows at the top, after any steps. *)
Lemma wide_event_top K K' F q r e v h h' :
  private K h → RequestStateFromContext (Ctx q) = Some r → is_Some (states h !! r) → top (Some e) h = Some v →
  rtc (step r F) (K, SetWideEvent q (Some e) h) (K', h') →
  (let '(copy, h'') := WideEventFromContext (Ctx q) h' in top copy h'' = Some v) ∧
  ∀ attrs, let '(copy, h'') := WideEventFromContext (Ctx q) (AddWideEventAttributes q attrs h') in
           top copy h'' = let '(n, c, t, a, m) := v in Some (n, c, t, a, attrs ∪ m).
Proof.
  intros Hp Hq Hr Hv Hs. destruct (SetWideEvent_own K q e h r v Hp Hq Hr Hv) as (P1 & R1 & V1).
  destruct (steps_agree r F _ _ Hs P1 R1) as [P2 A2]. cbn [fst snd] in *. pose proof (agree_top _ _ _ A2) as Hview.
  rewrite V1 in Hview. unfold WideEventFromContext. rewrite Hq. split.
  - pose proof (Clone_grows (stored (Some r) h') h' (p_allocated _ _ P2)) as Hc. destruct (Clone _ h') as [c h''].
    destruct Hc as (_ & _ & Hc & _). congruence.
  - intros attrs. destruct v as [[[[n c] t] a] m].
    assert (∃ l, stored (Some r) h' = Some l) as [l Hl] by (destruct (stored (Some r) h'); [eauto|done]).
    assert (AddWideEventAttributes q attrs h' = AddAttributes (Some l) attrs h') as Hadd
      by (unfold AddWideEventAttributes; by rewrite Hq, !Hl).
    rewrite Hadd. destruct (AddAttributes_stored K' r attrs h' P2) as [P3 _]. rewrite Hl in P3.
    pose proof (Clone_grows (stored (Some r) (AddAttributes (Some l) attrs h')) _ (p_allocated _ _ P3)) as Hc.
    destruct (Clone _ (AddAttributes (Some l) attrs h')) as [c' h'']. destruct Hc as (_ & _ & Hc & _). rewrite Hc.
    assert (stored (Some r) (AddAttributes (Some l) attrs h') = Some l) as ->.
    { transitivity (stored (Some r) h'); [|done]. unfold stored, AddAttributes. destruct (events h' !! l) as [ev|]; [|done]. by destruct (Attributes ev). }
    apply AddAttributes_top. by rewrite Hl in Hview.
Qed.

(** C11: The event of a request is its own.  After [SetWideEvent], whatever the rest
    of the program does with the event it passed, with that event's map of attributes,
    with copies it takes and with other requests, the request's event shows what was
    set, to any depth; [AddWideEventAttributes] of that request adds to it.  The one
    thing the program must leave alone are the maps inside the values of the
    attributes ([F], when there are any): [Clone] is documented as a deep copy, but
    shares them. *)
Theorem wide_event_is_isolated K K' F q r e h h' n :
  private K h → RequestStateFromContext (Ctx q) = Some r → is_Some (states h !! r) → is_Some (events h !! e) →
  inner_maps F e h → (∀ l, F l → K l) →
  rtc (step r F) (K, SetWideEvent q (Some e) h) (K', h') →
  (let '(copy, h'') := WideEventFromContext (Ctx q) h' in view n copy h'' = view n (Some e) h) ∧
  ∀ attrs, let '(copy, h'') := WideEventFromContext (Ctx q) (AddWideEventAttributes q attrs h') in
           view n copy h'' = (λ '(name, c, t, a, m), (name, c, t, a, (deep n h'' <$> attrs) ∪ m)) <$> view n (Some e) h.
Proof.
  intros Hp Hq Hr [ev Hev] Hne HF Hs.
  destruct (SetWideEvent_own K q e h r (Name ev, Category ev, ResourceType ev, Action ev, entries (Attributes ev) h) Hp Hq Hr)
    as (P1 & R1 & _); [by cbn; rewrite Hev|].
  destruct (wide_event_top K K' F q r e (Name ev, Category ev, ResourceType ev, Action ev, entries (Attributes ev) h) h h')
    as [Htop Hadd]; [done..|by cbn; rewrite Hev|done|].
  destruct (steps_agree r F _ _ Hs P1 R1) as [P2 A2]. destruct (steps_same_maps r F _ _ Hs P1 R1 HF) as [M2 HF'].
  cbn [fst snd] in *. assert (same_maps F h h') as M by (etrans; [exact (SetWideEvent_same_maps K F HF q (Some e) h Hp)|exact M2]).
  assert (∀ h1, private K' h1 → let '(copy, h'') := WideEventFromContext (Ctx q) h1 in same_maps F h1 h'') as Hcl.
  { intros h1 Hp1. unfold WideEventFromContext. pose proof (Clone_grows (stored (RequestStateFromContext (Ctx q)) h1) h1
      (p_allocated _ _ Hp1)) as Hc. destruct (Clone _ h1) as [c h2]. destruct Hc as (G & _). by eapply grows_same_maps. }
  assert (is_Some (states h' !! r)) as R2 by (by rewrite (proj1 A2)). unfold view. split.
  - specialize (Hcl h' P2). destruct (WideEventFromContext (Ctx q) h') as [copy h'']. rewrite Htop. cbn [top]. rewrite Hev. cbn.
    assert (same_maps F h h'') as M' by (etrans; [exact M|exact Hcl]). by rewrite (deep_attributes F e ev h h'').
  - intros attrs. specialize (Hadd attrs).
    assert (∀ s, RequestStateFromContext (Ctx q) = Some s → is_Some (states h' !! s)) as Hl by (intros s Hs'; by simplify_eq).
    assert (private K' (AddWideEventAttributes q attrs h')) as P3.
    { apply (AddWideEventAttributes_private K' q attrs h' (Pos.succ r)); [done| |done]. rewrite Hq. intros Heq. simplify_eq. lia. }
    pose proof (AddWideEventAttributes_same_maps K' F HF' q attrs h' P2 Hl) as M3. specialize (Hcl _ P3).
    destruct (WideEventFromContext (Ctx q) (AddWideEventAttributes q attrs h')) as [copy h'']. rewrite Hadd. cbn [top]. rewrite Hev. cbn.
    assert (same_maps F h h'') as M' by (etrans; [exact M|etrans; [exact M3|exact Hcl]]).
    rewrite map_fmap_union. by rewrite (deep_attributes F e ev h h'').
Qed.

(** The copy of an event shares the values of its attributes: writing a map inside
    them shows in both. *)
Definition nested : Heap :=
  {| events := {[ 3 := {| Name := ""; Category := ""; ResourceType := ""; Action := ""; Attributes := Some 2 |} ]};
     maps := <[ 2 := {[ "details" := MapRef 1 ]} ]> {[ 1 := ∅ ]}; states := ∅; next := 4 |}.

Lemma clone_shares_nested_maps :
  let copy := (Clone (Some 3) nested).1 in
  let h := (Clone (Some 3) nested).2 in
  let h' := set_map 1 {[ "colour" := Scalar "red" ]} h in
  copy ≠ Some 3 ∧ view 1 copy h = Some ("", "", "", "", {[ "details" := Node [] ]}) ∧
  view 1 copy h' = Some ("", "", "", "", {[ "details" := Node [("colour", Leaf "red")] ]}) ∧
  view 1 (Some 3) h' = view 1 copy h'.
Proof. split_and!; [vm_compute; discriminate|vm_compute; reflexivity..]. Qed.

(** A request whose event is set from an event that is changed afterwards; one of its
    attributes is the map 2. *)
Module Handling.
Definition start : Heap :=
  {| events := ∅; maps := {[ 2 := {[ "colour" := Scalar "red" ]} ]}; states := {[ 1 := None ]}; next := 3 |}.
Definition request : Request := with_ctx (with_state 1 (Ctx example_request)) example_request.
Definition made : loc * Heap := NewWideEvent "order" "commerce" "order" "create" start.
Definition filled : Heap := AddAttributes (Some made.1) {[ "details" := MapRef 2 ]} made.2.
Definition known (l : loc) : Prop := (l = 2 ∨ next start ≤ l < next made.2) ∨ next made.2 ≤ l < next filled.
Definition set : Heap := SetWideEvent request (Some made.1) filled.
Definition changed : Heap := AddAttributes (Some made.1) {[ "total" := Scalar "12" ]} set.

Lemma start_private : private (λ l, l = 2) start.
Proof.
  split; try done.
  - intros l Hl. cbn in *. rewrite lookup_empty, !lookup_singleton_ne by lia. done.
  - by intros l ->.
  - intros s l (e & ev & H1 & H2 & _). cbn in H2. by rewrite lookup_empty in H2.
  - intros s s' l (e & ev & H1 & H2 & _). cbn in H2. by rewrite lookup_empty in H2.
  - intros s e Hs. cbn in Hs. apply lookup_singleton_Some in Hs as [_ ?]. done.
Qed.

Lemma filled_private : private known filled.
Proof.
  destruct (NewWideEvent_known (λ l, l = 2) "order" "commerce" "order" "create" made.1 start made.2 start_private eq_refl) as [Hp _].
  apply (AddAttributes_known _ made.1 {[ "details" := MapRef 2 ]} made.2 Hp). right. vm_compute. split; [discriminate|reflexivity].
Qed.

Lemma filled_inner : inner_maps (λ l, l = 2) made.1 filled.
Proof.
  split.
  - intros ev k l He Hk. vm_compute in He. simplify_eq. change (entries _ _) with ({[ "details" := MapRef 2 ]} : attributes) in Hk.
    by apply lookup_singleton_Some in Hk as [_ [= <-]].
  - intros l k l' -> Hk. change (entries _ _) with ({[ "colour" := Scalar "red" ]} : attributes) in Hk.
    by apply lookup_singleton_Some in Hk as [_ ?].
Qed.
End Handling.

Lemma wide_event_is_isolated_witness :
  let '(copy, h) := WideEventFromContext (Ctx Handling.request) Handling.changed in
  view 1 copy h = view 1 (Some Handling.made.1) Handling.filled.
Proof.
  refine (proj1 (wide_event_is_isolated Handling.known
    (λ l, Handling.known l ∨ next Handling.set ≤ l < next Handling.changed)
    (λ l, l = 2) Handling.request 1 Handling.made.1 Handling.filled Handling.changed 1 _ _ _ _ _ _ _)).
  - apply Handling.filled_private.
  - reflexivity.
  - by eexists.
  - by eexists.
  - apply Handling.filled_inner.
  - intros l ->. by do 2 left.
  - apply rtc_once. refine (step_AddAttributes 1 _ Handling.known Handling.set Handling.made.1 _ _ _).
    + left. right. vm_compute. split; [discriminate|reflexivity].
    + intros ev m Hev Hm. vm_compute in Hev. injection Hev as <-. injection Hm as <-. discriminate.
Defined.

Example isolated_view :
  view 1 (Some Handling.made.1) Handling.filled
  = Some ("order", "commerce", "order", "create", {[ "details" := Node [("colour", Leaf "red")] ]}).
Proof. vm_compute. reflexivity. Qed.
