(* ===== verification/Metrics.v ===== *)
(** * Metrics (src/observability/labels.go, metrics.go, redishook.go, dbstats.go,
      redisstats.go, logging.go)

    Bounded labels, the metrics of HTTP requests and Redis commands, the statistics of
    connection pools, and the middleware that records requests.  A Prometheus registry
    is the class [Registry]; metrics that are registered under one name share their
    values, so a metric is known by its name. *)

From S2P Require Import Prelude GoStrings GoErrors GoFloat Json Http HttpKit WideEvent.
From Stdlib Require Import Ascii.
#[local] Open Scope Z_scope.

(** ** Labels *)

Definition otherLabelValue := "other".

Record BoundedLabel := { name : string; values : gset string }.

(** The loop over the given values. *)
Definition allow (allowedValues : gset string) (value : string) : gset string :=
  let normalizedValue := TrimSpace value in
  if decide (normalizedValue = "") then allowedValues else {[ normalizedValue ]} ∪ allowedValues.

Definition NewBoundedLabel (n : string) (vs : list string) : BoundedLabel :=
  {| name := TrimSpace n; values := foldl allow {[ otherLabelValue ]} vs |}.

Definition LabelName (l : BoundedLabel) : string := name l.

Definition Value (l : BoundedLabel) (value : string) : string :=
  let v := TrimSpace value in
  if decide (v = "") then otherLabelValue else if decide (v ∈ values l) then v else otherLabelValue.

Definition http_methods : list string :=
  ["CONNECT"; "DELETE"; "GET"; "HEAD"; "OPTIONS"; "PATCH"; "POST"; "PUT"; "TRACE"].
Definition httpMethodLabel : BoundedLabel := NewBoundedLabel "method" http_methods.

(** The codes from 100 to 599. *)
Definition newHTTPStatusLabel : BoundedLabel :=
  NewBoundedLabel "status" ((λ i, FormatInt (100 + Z.of_nat i)) <$> seq 0 500).
Definition httpStatusLabel : BoundedLabel := newHTTPStatusLabel.

(** ** Names *)

(** The [unicode] package on a rune of more than one byte. *)
Class RuneClasses := {
  rune_letter : list ascii → bool;
  rune_digit : list ascii → bool;
  rune_lower : list ascii → list ascii;
}.

Definition ascii_letter (a : ascii) : bool := between 65 90 a || between 97 122 a.
Definition ascii_digit (a : ascii) : bool := between 48 57 a.

Section Names.
Context `{!RuneClasses}.

(** What the loop of [metricPrefix] writes for the rune [r]: its lower case when it is a
    letter or a digit, and an underscore after a digit that comes first. *)
Definition prefix_rune (first : bool) (r : list ascii) : list ascii :=
  let letter := match r with [a] => ascii_letter a | _ => rune_letter r end in
  let digit := match r with [a] => ascii_digit a | _ => rune_digit r end in
  (if letter || digit then match r with [a] => [lower_byte a] | _ => rune_lower r end else ["_"%char])
  ++ (if first && digit then ["_"%char] else []).

Fixpoint prefix_runes (first : bool) (skip : nat) (l : list ascii) : list ascii :=
  match l with
  | [] => []
  | a :: l' =>
      match skip with
      | S k => prefix_runes first k l'
      | O =>
          match rune_width l with
          | O => ["_"%char] ++ prefix_runes false O l'  (* a byte that is not UTF-8 *)
          | S k => prefix_rune first (take (S k) l) ++ prefix_runes false k l'
          end
      end
  end.

Definition metricPrefix (serviceName : string) : string :=
  let serviceName := TrimSpace serviceName in
  if decide (serviceName = "") then "service"
  else
    let prefix := TrimByte "_" (of_bytes (prefix_runes true O (bytes_of serviceName))) in
    match bytes_of prefix with
    | [] => "service"
    | a :: _ => if ascii_digit a then "service_" +:+ prefix else prefix
    end.
End Names.

(** ** Registering *)

Inductive collector (F W : Type) :=
| CounterVec (name help : string) (labels : list string)
| HistogramVec (name help : string) (labels : list string) (buckets : list F)
| GaugeFunc (name help : string) (read : W → F)
| CounterFunc (name help : string) (read : W → F).
Arguments CounterVec {F W}.
Arguments HistogramVec {F W}.
Arguments GaugeFunc {F W}.
Arguments CounterFunc {F W}.

Class Registry (F W : Type) := {
  Register : collector F W → W → registration * W;
  Inc : string → list string → W → W;
  Observe : string → list string → F → W → W;
  Now : W → time * W;
}.

Section Metrics.
Context {F W : Type} `{!Float64 F, !RuneClasses, !Unicode, !Registry F W}.

(** [registerCounterVec] and [registerHistogramVec]: a collector of the same type that
    is registered already is used instead. *)
Definition registerVec (c : collector F W) (w : W) : option error * W :=
  match Register c w with
  | (Registered, w) => (None, w)
  | (AlreadyRegistered true _, w) => (None, w)
  | (AlreadyRegistered false e, w) => (Some e, w)
  | (RegisterFailed e, w) => (Some e, w)
  end.

(** Two vectors one after the other. *)
Definition register_pair (a b : collector F W) (w : W) : option error * W :=
  match registerVec a w with
  | (Some e, w) => (Some e, w)
  | (None, w) => registerVec b w
  end.

(** ** HTTP requests *)

(** The names of the two vectors. *)
Record Metrics := { serviceName : string; requestsTotal : string; requestDuration : string }.

(** [RequestBuckets], or the default ones. *)
Definition metricsBuckets (DefBuckets RequestBuckets : list F) : list F :=
  match RequestBuckets with [] => DefBuckets | _ => RequestBuckets end.

Definition NewMetrics (DefBuckets : list F) (service : string) (RequestBuckets : list F) (w : W)
  : result error Metrics * W :=
  let buckets := metricsBuckets DefBuckets RequestBuckets in
  let prefix := metricPrefix service in
  let total := prefix +:+ "_http_requests_total" in
  let duration := prefix +:+ "_http_request_duration_seconds" in
  match register_pair
          (CounterVec total ("Count of HTTP requests handled by " +:+ service +:+ ".") ["method"; "route"; "status"])
          (HistogramVec duration ("Duration of HTTP requests handled by " +:+ service +:+ ".")
             ["method"; "route"; "status"] buckets) w with
  | (Some e, w) => (Err e, w)
  | (None, w) => (Ok {| serviceName := service; requestsTotal := total; requestDuration := duration |}, w)
  end.

(** The label values of a request. *)
Definition request_labels (method route : string) (status : Z) : list string :=
  [Value httpMethodLabel (ToUpper (TrimSpace method)); if decide (route = "") then "unknown" else route;
   Value httpStatusLabel (FormatInt status)].

Definition RecordRequest (metrics : option Metrics) (method route : string) (status : Z) (duration : duration) (w : W) : W :=
  match metrics with
  | None => w
  | Some m =>
      let labels := request_labels method route status in
      Observe (requestDuration m) labels (duration_seconds duration) (Inc (requestsTotal m) labels w)
  end.

(** ** Redis commands *)

Record redisCommandHook := { commandsTotal : string; commandDuration : string }.

Definition redisCommandStatusLabel : BoundedLabel := NewBoundedLabel "status" ["ok"; "nil"; "error"].

(** [DurationBuckets], or the ones of the package, in ten-thousandths of a second. *)
Definition redisBuckets (DurationBuckets : list F) : list F :=
  match DurationBuckets with
  | [] => (λ n, fdiv (f_of_int n) (f_of_int 10000)) <$> [5; 10; 25; 50; 100; 250; 500; 1000; 2500; 5000; 10000]
  | _ => DurationBuckets
  end.

Definition NewRedisCommandHook (service : string) (DurationBuckets : list F) (w : W) : result error redisCommandHook * W :=
  let prefix := metricPrefix service in
  let total := prefix +:+ "_redis_commands_total" in
  let duration := prefix +:+ "_redis_command_duration_seconds" in
  match register_pair
          (CounterVec total "Count of Redis commands executed by the service." ["command"; "status"])
          (HistogramVec duration "Duration of Redis commands executed by the service." ["command"; "status"]
             (redisBuckets DurationBuckets)) w with
  | (Some e, w) => (Err e, w)
  | (None, w) => (Ok {| commandsTotal := total; commandDuration := duration |}, w)
  end.

Definition redis_record (hook : option redisCommandHook) (command status : string) (duration : duration) (w : W) : W :=
  match hook with
  | None => w
  | Some h =>
      Observe (commandDuration h) [command; status] (duration_seconds duration) (Inc (commandsTotal h) [command; status] w)
  end.

(** A command is known by its name; [None] is nil. *)
Definition redisCommandName (cmd : option string) : string :=
  match cmd with
  | None => "unknown"
  | Some n => if decide (TrimSpace n = "") then "unknown" else ToLower (TrimSpace n)
  end.

Definition redisPipelineName (cmds : list (option string)) : string := "pipeline".

Definition redisCommandStatus (err : option error) : string :=
  match err with None => "ok" | Some e => if IsVar "goredis.Nil" e then "nil" else "error" end.

(** The two hooks around [next]; the hook for connections is [next] itself. *)
Definition timed (hook : option redisCommandHook) (command : string) (next : W → option error * W) (w : W)
  : option error * W :=
  let '(start, w) := Now w in
  let '(err, w) := next w in
  let '(now, w) := Now w in
  (err, redis_record hook command (Value redisCommandStatusLabel (redisCommandStatus err)) (time_sub now start) w).

Definition ProcessHook (hook : option redisCommandHook) (next : option string → W → option error * W)
  (cmd : option string) : W → option error * W := timed hook (redisCommandName cmd) (next cmd).

Definition ProcessPipelineHook (hook : option redisCommandHook) (next : list (option string) → W → option error * W)
  (cmds : list (option string)) : W → option error * W := timed hook (redisPipelineName cmds) (next cmds).

Definition DialHook {A} (hook : option redisCommandHook) (next : A) : A := next.
End Metrics.

(** ** Statistics of connection pools *)

Record DBStats := { OpenConnections : Z; InUse : Z; Idle : Z }.

Record PoolStats := {
  TotalConns : Z; IdleConns : Z; PendingRequests : Z; Hits : Z; Misses : Z; WaitCount : Z; WaitDurationNs : Z;
  Timeouts : Z; Unusable : Z; StaleConns : Z;
}.

Section Stats.
Context {F W : Type} `{!Float64 F, !RuneClasses, !Registry F W}.

(** [registerDBGauge], [registerRedisGauge] and [registerRedisCounter]: a collector
    that is registered already is kept, whatever its type. *)
Definition registerFunc (c : collector F W) (w : W) : option error * W :=
  match Register c w with
  | (RegisterFailed e, w) => (Some e, w)
  | (_, w) => (None, w)
  end.

(** One after the other until one fails. *)
Fixpoint register_all (cs : list (collector F W)) (w : W) : option error * W :=
  match cs with
  | [] => (None, w)
  | c :: cs =>
      match registerFunc c w with
      | (Some e, w) => (Some e, w)
      | (None, w) => register_all cs w
      end
  end.

(** [sync.Once] for every registry and prefix: the keys whose function has run. *)
Definition once_register (key : string * string) (cs : list (collector F W)) (sw : gset (string * string) * W)
  : option error * (gset (string * string) * W) :=
  let '(ran, w) := sw in
  if decide (key ∈ ran) then (None, (ran, w))
  else let '(err, w) := register_all cs w in (err, ({[ key ]} ∪ ran, w)).

Definition db_collectors (prefix : string) (statFunc : W → DBStats) : list (collector F W) :=
  [GaugeFunc (prefix +:+ "_db_open_connections") "Number of open database connections."
     (λ w, f_of_int (OpenConnections (statFunc w)));
   GaugeFunc (prefix +:+ "_db_in_use_connections") "Number of database connections currently in use."
     (λ w, f_of_int (InUse (statFunc w)));
   GaugeFunc (prefix +:+ "_db_idle_connections") "Number of idle database connections."
     (λ w, f_of_int (Idle (statFunc w)))].

(** [registerer] names the registry of the options, or the default one. *)
Definition RegisterDBStats (service : string) (statFunc : option (W → DBStats)) (registerer : string)
  (sw : gset (string * string) * W) : option error * (gset (string * string) * W) :=
  match statFunc with
  | None => (None, sw)
  | Some f => once_register (registerer, metricPrefix service) (db_collectors (metricPrefix service) f) sw
  end.

Definition redisStatValue (statFunc : option (W → option PoolStats)) (valueFunc : option (PoolStats → F)) (w : W) : F :=
  match statFunc, valueFunc with
  | Some sf, Some vf => match sf w with None => f0 | Some stats => vf stats end
  | _, _ => f0
  end.

Definition redis_collectors (prefix : string) (statFunc : W → option PoolStats) : list (collector F W) :=
  let read v := redisStatValue (Some statFunc) (Some v) in
  let gauge n help v := GaugeFunc (prefix +:+ n) help (read v) in
  let counter n help v := CounterFunc (prefix +:+ n) help (read v) in
  [gauge "_redis_pool_total_connections" "Number of total Redis connections in the pool." (λ s, f_of_int (TotalConns s));
   gauge "_redis_pool_idle_connections" "Number of idle Redis connections in the pool." (λ s, f_of_int (IdleConns s));
   gauge "_redis_pool_pending_requests" "Number of Redis requests currently waiting for a pooled connection."
     (λ s, f_of_int (PendingRequests s));
   counter "_redis_pool_hits_total" "Count of Redis requests that reused an idle pooled connection." (λ s, f_of_int (Hits s));
   counter "_redis_pool_misses_total" "Count of Redis requests that could not reuse an idle pooled connection."
     (λ s, f_of_int (Misses s));
   counter "_redis_pool_wait_count_total" "Count of Redis requests that had to wait for a pooled connection."
     (λ s, f_of_int (WaitCount s));
   counter "_redis_pool_wait_duration_seconds_total" "Total time spent waiting for a Redis pooled connection."
     (λ s, fdiv (f_of_int (WaitDurationNs s)) (f_of_int Second));
   counter "_redis_pool_timeouts_total" "Count of Redis connection pool wait timeouts." (λ s, f_of_int (Timeouts s));
   counter "_redis_pool_unusable_total" "Count of Redis pooled connections found to be unusable." (λ s, f_of_int (Unusable s));
   counter "_redis_pool_stale_connections_total" "Count of stale Redis pooled connections removed."
     (λ s, f_of_int (StaleConns s))].

Definition RegisterRedisPoolStats (service : string) (statFunc : option (W → option PoolStats)) (registerer : string)
  (sw : gset (string * string) * W) : option error * (gset (string * string) * W) :=
  match statFunc with
  | None => (None, sw)
  | Some f => once_register (registerer, metricPrefix service) (redis_collectors (metricPrefix service) f) sw
  end.
End Stats.

(** ** The middleware that records requests *)

Record request_entry := {
  re_request_id : string; re_method : string; re_path : string; re_route : string; re_status : Z;
  re_duration_ms : Z; re_wide_event : option loc;
}.

Section Middleware.
Context {F W : Type} `{!Float64 F, !RuneClasses, !Unicode, !Registry F W, !Routing W}.

(** [RequestLoggingMiddleware]; the log entry is returned beside the outcome (none when
    the handler panics).  The store of events is part of the handler's world. *)
Definition RequestLoggingMiddleware (metrics : option Metrics) (next : Handler (W * Heap)) (r : Request) (rw : RW)
  (wh : W * Heap) : list request_entry * (outcome * RW * (W * Heap)) :=
  let '(w, h) := wh in
  let '(r, h) := withRequestState r h in
  let '(start, w) := Now w in
  let '(o, recorder, (w, h)) := next r (NewCaptureResponseWriter rw) (w, h) in
  match o with
  | Panicked _ => ([], (o, unwrap recorder, (w, h)))
  | Returned =>
      let '(now, w) := Now w in
      let duration := time_sub now start in
      let route := RoutePattern r w in
      let w := RecordRequest metrics (Method r) route (StatusCode recorder) duration w in
      let '(event, h) := WideEventFromContext (Ctx r) h in
      ([{| re_request_id := header_get (rw_header recorder) "X-Request-Id"; re_method := Method r; re_path := Path r;
           re_route := route; re_status := StatusCode recorder; re_duration_ms := milliseconds duration;
           re_wide_event := event |}],
       (o, unwrap recorder, (w, h)))
  end.
End Middleware.

(** ** Properties *)

(** *** Labels are bounded *)

Lemma size_list_le `{Countable A} (l : list A) : (size (list_to_set l : gset A) ≤ length l)%nat.
Proof.
  induction l as [|a l IH]; cbn; [by rewrite size_empty|]. rewrite size_union_alt, size_singleton.
  pose proof (subseteq_size (list_to_set l ∖ {[ a ]} : gset A) (list_to_set l) ltac:(set_solver)). lia.
Qed.

Lemma allow_size s v : s ⊆ allow s v ∧ (size (allow s v) ≤ S (size s))%nat.
Proof.
  unfold allow. case_decide; [split; [done|lia]|]. split; [set_solver|]. rewrite size_union_alt, size_singleton.
  pose proof (subseteq_size (s ∖ {[ TrimSpace v ]}) s ltac:(set_solver)). lia.
Qed.

Lemma NewBoundedLabel_values n vs :
  otherLabelValue ∈ values (NewBoundedLabel n vs) ∧ (size (values (NewBoundedLabel n vs)) ≤ S (length vs))%nat.
Proof.
  assert (∀ s, s ⊆ foldl allow s vs ∧ (size (foldl allow s vs) ≤ size s + length vs)%nat) as Hf.
  { induction vs as [|v vs IH]; intros s; cbn [foldl length]; [split; [done|lia]|].
    destruct (IH (allow s v)) as [H1 H2], (allow_size s v) as [H3 H4]. split; [by etrans|lia]. }
  destruct (Hf {[ otherLabelValue ]}) as [H1 H2]. rewrite size_singleton in H2. cbn [values NewBoundedLabel].
  split; [set_solver|lia].
Qed.

Lemma Value_in n vs v : Value (NewBoundedLabel n vs) v ∈ values (NewBoundedLabel n vs).
Proof.
  unfold Value. destruct (NewBoundedLabel_values n vs) as [Ho _]. case_decide; [done|]. by case_decide.
Qed.

(** The labels of all requests whose routes are among [routes]. *)
Definition possible_labels (routes : list string) : list (list string) :=
  m ← elements (values httpMethodLabel); r ← "unknown" :: routes; s ← elements (values httpStatusLabel); mret [m; r; s].

Lemma length_bind_le {A B} (f : A → list B) l n : (∀ a, length (f a) ≤ n)%nat → (length (l ≫= f) ≤ length l * n)%nat.
Proof.
  intros Hf. induction l as [|a l IH]; [cbn; lia|]. rewrite bind_cons, length_app. cbn [length].
  specialize (Hf a). lia.
Qed.

Lemma possible_labels_length routes : (length (possible_labels routes) ≤ 10 * (S (length routes) * 501))%nat.
Proof.
  destruct (NewBoundedLabel_values "method" http_methods) as [_ Hm].
  destruct (NewBoundedLabel_values "status" ((λ i, FormatInt (100 + Z.of_nat i)) <$> seq 0 500)) as [_ Hs].
  rewrite length_fmap, length_seq in Hs. unfold possible_labels.
  etrans; [apply (length_bind_le _ _ (S (length routes) * 501))|].
  - intros m. etrans; [apply (length_bind_le _ _ 501)|done]. intros r.
    etrans; [apply (length_bind_le _ _ 1); done|]. rewrite Nat.mul_1_r. exact Hs.
  - apply Nat.mul_le_mono_r. exact Hm.
Qed.

(** C33: The series of request metrics stay finite: whatever methods and statuses
    requests carry, requests on [n] routes make at most [10 * (n + 1) * 501] series. *)
Theorem request_series_are_bounded `{!Unicode} (routes : list string) (requests : list (string * string * Z)) :
  Forall (λ q, q.1.2 ∈ routes ∨ q.1.2 = "") requests →
  (size (list_to_set ((λ q, request_labels q.1.1 q.1.2 q.2) <$> requests) : gset (list string))
   ≤ 10 * (S (length routes) * 501))%nat.
Proof.
  intros Hr. etrans; [|apply possible_labels_length]. etrans; [|apply size_list_le]. apply subseteq_size.
  intros ls. rewrite !elem_of_list_to_set, list_elem_of_fmap. intros (q & -> & Hq).
  rewrite Forall_forall in Hr. specialize (Hr q Hq). unfold request_labels, possible_labels.
  apply list_elem_of_bind. eexists. split; [|apply elem_of_elements, Value_in].
  apply list_elem_of_bind. eexists. split; [apply list_elem_of_bind; eexists; split; [by apply list_elem_of_singleton|apply elem_of_elements, Value_in]|].
  rewrite elem_of_cons. case_decide; [by left|]. right. by destruct Hr.
Qed.

(** Requests that match no route are labelled with their paths, so that each path makes
    a series of its own. *)
Definition unmatched `{Routing W} (r : Request) (w : W) : Prop :=
  ∀ p, ctx_route (Ctx r) = Some p → chi_pattern p w = "".

Lemma RoutePattern_unmatched `{Routing W} r (w : W) : unmatched r w → RoutePattern r w = Path r.
Proof. unfold unmatched, RoutePattern. intros Hu. destruct (ctx_route (Ctx r)); [|done]. by rewrite Hu. Qed.

Lemma unmatched_paths_make_series `{!Unicode} `{Routing W} method status (r r' : Request) (w w' : W) :
  unmatched r w → unmatched r' w' → Path r ≠ "" → Path r' ≠ "" → Path r ≠ Path r' →
  request_labels method (RoutePattern r w) status ≠ request_labels method (RoutePattern r' w') status.
Proof.
  intros Hr Hr' H1 H2 Hne Heq. rewrite !RoutePattern_unmatched in Heq by done. unfold request_labels in Heq.
  rewrite !decide_False in Heq by done. congruence.
Qed.

(** *** Names of metrics *)

(** A byte of a metric's name. *)
Definition name_byte (a : ascii) : Prop :=
  between 97 122 a = true ∨ ascii_digit a = true ∨ a = "_"%char.

Lemma name_byte_lower a : ascii_letter a || ascii_digit a = true → name_byte (lower_byte a).
Proof.
  unfold ascii_letter, name_byte, lower_byte. rewrite !orb_true_iff. intros [[Hu|Hl]|Hd].
  - left. unfold between in *. apply andb_true_iff in Hu as [H1 H2]. rewrite H1, H2. cbn [andb].
    apply Z.leb_le in H1, H2. unfold code in *. rewrite N_ascii_embedding by lia.
    apply andb_true_iff. rewrite !Z.leb_le. lia.
  - left. unfold between in *. apply andb_true_iff in Hl as [H1 H2]. apply Z.leb_le in H1, H2.
    destruct ((65 <=? code a) && (code a <=? 90)) eqn:E; [apply andb_true_iff in E; rewrite !Z.leb_le in E; lia|].
    apply andb_true_iff. rewrite !Z.leb_le. done.
  - right; left. unfold ascii_digit, between in *. apply andb_true_iff in Hd as [H1 H2]. apply Z.leb_le in H1, H2.
    destruct ((65 <=? code a) && (code a <=? 90)) eqn:E; [apply andb_true_iff in E; rewrite !Z.leb_le in E; lia|].
    apply andb_true_iff. rewrite !Z.leb_le. done.
Qed.

Lemma prefix_runes_bytes `{!RuneClasses} first l :
  Forall (λ a, code a < 128) l → Forall name_byte (prefix_runes first O l).
Proof.
  intros Hl. revert first. induction Hl as [|a l Ha _ IH]; intros first; [done|]. cbn [prefix_runes].
  assert (rune_width (a :: l) = 1%nat) as -> by (unfold rune_width; by rewrite (proj2 (Z.ltb_lt _ _) Ha)).
  change (take 1 (a :: l)) with [a]. apply Forall_app_2; [|apply IH]. unfold prefix_rune. apply Forall_app_2.
  - destruct (ascii_letter a || ascii_digit a) eqn:E; (constructor; [|constructor]); [by apply name_byte_lower|by right; right].
  - destruct (first && ascii_digit a); constructor; [by right; right|constructor].
Qed.

(** The prefix of a service's metrics is a valid start of a Prometheus name for
    every ASCII service name, the empty one and one that starts with digits included:
    it starts with a letter, has lower-case letters, digits and underscores only, and
    does not end with an underscore. *)
Theorem metric_prefix_is_valid `{!RuneClasses} service :
  ascii_only service = true →
  let l := bytes_of (metricPrefix service) in
  (∃ a l', l = a :: l' ∧ between 97 122 a = true) ∧ Forall name_byte l ∧ last l ≠ Some "_"%char.
Proof.
  intros Hs. assert (Forall (λ a, code a < 128) (bytes_of (TrimSpace service))) as Hb.
  { unfold ascii_only in Hs. rewrite forallb_forall in Hs. apply Forall_forall. intros a Ha. apply Z.ltb_lt, Hs.
    apply list_elem_of_In. by eapply TrimSpace_bytes. }
  unfold metricPrefix. cbn zeta. case_decide as He.
  { cbn. split_and!; [eauto| |done]. repeat constructor; by left. }
  destruct (TrimByte_spec name_byte "_" (of_bytes (prefix_runes true O (bytes_of (TrimSpace service))))) as (H1 & H2 & H3);
    [rewrite bytes_of_of_bytes; by apply prefix_runes_bytes|].
  set (p := TrimByte _ _) in *. destruct (bytes_of p) as [|a l] eqn:Ep.
  { cbn. split_and!; [eauto| |done]. repeat constructor; by left. }
  pose proof (Forall_inv H1) as Ha. destruct (ascii_digit a) eqn:Ed.
  - rewrite bytes_of_app, Ep. split_and!.
    + cbn. eauto.
    + apply Forall_app_2; [|done]. cbn. repeat constructor; try (by left); by right; right.
    + by rewrite last_app_cons.
  - rewrite Ep. split_and!; [|done..]. exists a, l. split; [done|]. destruct Ha as [?|[?| ->]]; [done|congruence|].
    by cbn in H2.
Qed.

(** *** Statistics *)

Section Forgotten.
Context {F W : Type} `{!Float64 F, !RuneClasses, !Registry F W}.

Lemma once_register_ran key cs sw err sw' : once_register key cs sw = (err, sw') → ∀ cs', once_register key cs' sw' = (None, sw').
Proof.
  destruct sw as [ran w]. unfold once_register at 1. case_decide as Hk.
  - intros Heq cs'. injection Heq as <- <-. unfold once_register. by rewrite decide_True.
  - destruct (register_all cs w) as [e w1]. intros Heq cs'. injection Heq as <- <-. unfold once_register.
    by rewrite decide_True by set_solver.
Qed.

(** Statistics are registered at most once per registry and prefix, and a failure
    is reported only to the first caller: after any call, failed or not, every later one
    for the same service returns nil and registers nothing. *)
Theorem stats_registration_runs_once service registerer (f f' : W → DBStats) (g g' : W → option PoolStats) sw err sw' :
  (RegisterDBStats service (Some f) registerer sw = (err, sw') →
   RegisterDBStats service (Some f') registerer sw' = (None, sw')) ∧
  (RegisterRedisPoolStats service (Some g) registerer sw = (err, sw') →
   RegisterRedisPoolStats service (Some g') registerer sw' = (None, sw')).
Proof. split; intros Heq; by eapply once_register_ran. Qed.
End Forgotten.

(** *** The middleware *)

Section Recording.
Context {F W : Type} `{!Float64 F, !RuneClasses, !Unicode, !Registry F W, !Routing W}.

(** C32: The request middleware reports what happened.  On a writer that has not
    answered, and for a handler that leaves the store of events with free addresses
    from its counter on, it runs the handler once with
    a request that has a state, and gives back its outcome and what it wrote; when the
    handler returned there is one log entry and one observation, with the route that
    matched and the status that the capturing writer recorded, and the entry's wide
    event has the fields and attributes of the request's event when the handler
    returns; when it panicked there is neither.  For a handler that sends no informational status
    (1xx) and does not flush, the recorded status is the one the client got (200 when
    none was sent). *)
Theorem request_logging_is_faithful metrics (next : Handler (W * Heap)) r rw w h :
  fresh rw →
  allocated (next (withRequestState r h).1 (NewCaptureResponseWriter rw) ((Now w).2, (withRequestState r h).2)).2.2 →
  let '(logged, (o, rw', (w', h'))) := RequestLoggingMiddleware metrics next r rw (w, h) in
  let '(r1, h1) := withRequestState r h in
  let '(start, w1) := Now w in
  let '(o1, recorder, (w2, h2)) := next r1 (NewCaptureResponseWriter rw) (w1, h1) in
  o = o1 ∧ rw' = unwrap recorder ∧ is_Some (RequestStateFromContext (Ctx r1)) ∧
  match o with
  | Panicked _ => logged = [] ∧ w' = w2 ∧ h' = h2
  | Returned => ∃ e d,
      logged = [e] ∧ re_status e = StatusCode recorder ∧
      re_method e = Method r ∧ re_route e = RoutePattern r (Now w2).2 ∧ re_duration_ms e = milliseconds d ∧
      w' = RecordRequest metrics (Method r) (RoutePattern r (Now w2).2) (StatusCode recorder) d (Now w2).2 ∧
      top (re_wide_event e) h' = top (stored (RequestStateFromContext (Ctx r1)) h2) h2 ∧
      (answers_plainly next → ∃ st, StatusCode recorder = default 200 st ∧ responds st (BodyBytes recorder) rw')
  end.
Proof.
  intros Hf Ha2. unfold RequestLoggingMiddleware.
  assert (let r1 := (withRequestState r h).1 in is_Some (RequestStateFromContext (Ctx r1)) ∧
            Method r1 = Method r ∧ ∀ w, RoutePattern r1 w = RoutePattern r w) as (Hs & Hm & Hr).
  { unfold withRequestState. destruct (RequestStateFromContext (Ctx r)) eqn:Es; cbn; [eauto|]. split_and!; [by eexists|done..]. }
  destruct (withRequestState r h) as [r1 h1]. destruct (Now w) as [start w1].
  cbn [fst snd] in Ha2.
  assert (answers_plainly next → let rec := (next r1 (NewCaptureResponseWriter rw) (w1, h1)).1.2 in
            ∃ st, StatusCode rec = default 200 st ∧ responds st (BodyBytes rec) (unwrap rec)) as Hplain.
  { intros Hu. destruct (capture_faithful rw _ Hf (Hu r1 (NewCaptureResponseWriter rw) (w1, h1))) as (st & ? & ? & _). eauto. }
  destruct (next r1 (NewCaptureResponseWriter rw) (w1, h1)) as [[o recorder] [w2 h2]]. cbn [fst snd] in *.
  destruct o; [|done]. destruct (Now w2) as [now w3]. unfold WideEventFromContext.
  pose proof (Clone_grows (stored (RequestStateFromContext (Ctx r1)) h2) h2 Ha2) as Hc.
  destruct (Clone _ h2) as [event h3]. destruct Hc as (_ & _ & Hv & _). rewrite Hm, Hr. split_and!; [done..|].
  eexists. exists (time_sub now start). split_and!; [reflexivity|done..|exact Hv|exact Hplain].
Qed.
End Recording.

(** ** Instances *)

Module Scrape.
(** No letters above ASCII. *)
#[export] Instance runes : RuneClasses := { rune_letter _ := false; rune_digit _ := false; rune_lower r := r }.

(** The state: the clock, and the observations.  The registry refuses the gauge of idle
    connections. *)
Definition refused : error := ErrNew "" "descriptor is inconsistent".
#[export] Instance registry : Registry QArith_base.Q (Z * list (string * list string)) := {
  Register c w := match c with
                  | GaugeFunc n _ _ => if HasSuffix n "_idle_connections" then (RegisterFailed refused, w) else (Registered, w)
                  | _ => (Registered, w)
                  end;
  Inc n ls w := (w.1, (n, ls) :: w.2);
  Observe n ls _ w := (w.1, (n, ls) :: w.2);
  Now w := (w.1, (w.1 + Second, w.2));
}.

(** The router found one pattern for every request. *)
#[export] Instance routes : Routing (Z * list (string * list string)) := λ _ _, "/orders/{id}".

Definition metrics : Metrics := {| serviceName := "api"; requestsTotal := "api_total"; requestDuration := "api_seconds" |}.

(** A handler that sends 201 and names the event of its request. *)
Definition create : Handler ((Z * list (string * list string)) * Heap) := λ r rw '(w, h),
  (Returned, Write_ "b" (WriteHeader 201 rw), (w, AddWideEventAttributes r {[ "id" := Scalar "7" ]} h)).

Lemma create_plain : answers_plainly create.
Proof.
  intros r rw [w h]. cbn. eapply rtc_l; [by apply (plain_status 201)|]. apply rtc_once, (plain_write "b").
Qed.

End Scrape.

#[local] Existing Instances ascii_unicode Scrape.runes Scrape.registry Scrape.routes.

Definition three_requests : list (string * string * Z) :=
  [("get", "/orders", 200); ("BREW", "/orders", 418); ("GET", "", 999)].

Lemma request_series_are_bounded_witness :
  (size (list_to_set ((λ q, request_labels q.1.1 q.1.2 q.2) <$> three_requests) : gset (list string)) ≤ 10 * (2 * 501))%nat.
Proof.
  apply (request_series_are_bounded ["/orders"]). unfold three_requests.
  constructor; [left; set_solver|]. constructor; [left; set_solver|]. constructor; [by right|constructor].
Defined.

Lemma metric_prefix_is_valid_witness :
  metricPrefix " 3D-Printing " = "service_3_d_printing" ∧
  Forall name_byte (bytes_of (metricPrefix " 3D-Printing ")).
Proof. split; [reflexivity|]. apply (metric_prefix_is_valid " 3D-Printing "). reflexivity. Defined.

(** The first call fails; the second returns nil. *)
Lemma stats_registration_runs_once_witness :
  let f (w : Z * list (string * list string)) : DBStats := {| OpenConnections := 3; InUse := 1; Idle := 2 |} in
  let first := RegisterDBStats "api" (Some f) "default" (∅, (0, [])) in
  first.1 = Some Scrape.refused ∧ RegisterDBStats "api" (Some f) "default" first.2 = (None, first.2).
Proof.
  split; [reflexivity|].
  apply (proj1 (stats_registration_runs_once (W := Z * list (string * list string)) "api" "default"
    (λ _, {| OpenConnections := 3; InUse := 1; Idle := 2 |}) (λ _, {| OpenConnections := 3; InUse := 1; Idle := 2 |})
    (λ _, None) (λ _, None) (∅, (0, [])) (Some Scrape.refused) _)). reflexivity.
Defined.

Lemma request_logging_is_faithful_witness :
  let '(logged, (o, rw', (w', h'))) :=
    RequestLoggingMiddleware (Some Scrape.metrics) Scrape.create example_request example_writer ((0, []), Handling.start) in
  o = Returned ∧ ∃ e, logged = [e] ∧ re_status e = 201 ∧ responds (Some 201) "b" rw' ∧
  top (re_wide_event e) h' = Some ("", "", "", "", {[ "id" := Scalar "7" ]}).
Proof.
  pose proof (request_logging_is_faithful (Some Scrape.metrics) Scrape.create example_request example_writer (0, []) Handling.start) as Hl.
  destruct (RequestLoggingMiddleware _ _ _ _ _) as [logged [[o rw'] [w' h']]] eqn:El.
  assert (o = Returned) as -> by (by injection El).
  destruct Hl as (_ & _ & _ & e & d & -> & _ & _ & _ & _ & _ & Hv & Hp).
  - done.
  - destruct (withRequestState_private (λ l, l = 2%positive) example_request Handling.start 1%positive Handling.start_private) as [P _];
      [by eexists|].
    eapply p_allocated, (AddWideEventAttributes_private (λ l, l = 2%positive) _ _ _ 1%positive P); [done|].
    intros s Hs. injection Hs as <-. by eexists.
  - split; [done|]. exists e. split; [done|].
    injection El as He <- _ _. split; [by rewrite <- He|]. split; [|by rewrite Hv; vm_compute].
    destruct (Hp Scrape.create_plain) as (st & Hst & Hr). vm_compute in Hst. destruct st as [st|]; [|discriminate].
    cbn in Hst. by subst st.
Defined.
