(* ===== verification/IdentityMtls.v ===== *)
(** * Identity clients and their HTTP clients (src/identityclient/client.go)

    The construction of an identity client from an HTTP client of Mtls.v: whether the
    client presents a certificate is read off its transport, under the wrapper that
    traces it, and decides whether service tokens can be asked for without a bootstrap
    key. *)

From S2P Require Import Prelude GoStrings GoErrors Mtls Lru IdentityClient.
#[local] Open Scope Z_scope.

(** ** Responses *)

Record ServiceTokenClaims := { claims_ExpiresAt : time }.

(** A protobuf timestamp is the time it stands for. *)
Definition ClaimsGetExpiresAt (c : option ServiceTokenClaims) : option time :=
  match c with
  | None => None
  | Some c => if is_zero_time (claims_ExpiresAt c) then None else Some (claims_ExpiresAt c)
  end.

Definition GetToken (r : option ServiceTokenResponse) : string :=
  match r with None => "" | Some r => st_Token r end.

Definition GetExpiresAt (r : option ServiceTokenResponse) : option time :=
  match r with
  | None => None
  | Some r => if is_zero_time (st_ExpiresAt r) then None else Some (st_ExpiresAt r)
  end.

Definition GetClaims (r : option ServiceTokenResponse) : option ServiceTokenClaims :=
  match r with None => None | Some r => (λ t, {| claims_ExpiresAt := t |}) <$> st_Claims r end.

(** ** Certificates of a client *)

Section Mtls.
Context `{!Certificates} (DefaultTransport : RoundTripper).

Definition tlsConfigHasClientCertificate (cfg : option Mtls.Config) : bool :=
  match cfg with
  | None => false
  | Some cfg => bool_decide (KeyPairs cfg ≠ []) || GetClientCertificate cfg
  end.

(** The loop that unwraps transports. *)
Fixpoint transport_certificate (t : RoundTripper) : bool :=
  match t with
  | Transport tls => tlsConfigHasClientCertificate tls
  | TracedTransport base => transport_certificate base
  | OtelTransport _ | OtherTransport _ => false
  end.

Definition httpClientUsesMTLSCertificate (client : option HTTPClient) : bool :=
  match client with
  | None => false
  | Some c => transport_certificate (default DefaultTransport (client_transport c))
  end.

(** ** Constructors *)

Context {CI CT : Type} `{!Cache CI string cachedIntrospection, !Cache CT serviceTokenCacheKey cachedServiceToken}.

(** [New] with the HTTP client of its configuration: the client it keeps, and the
    rest. *)
Definition NewWith (httpClient : option HTTPClient) (introspectURL serviceTokensURL bootstrapKey : string)
  (cacheTTL : duration) (maxCacheSize : Z) : HTTPClient * Client CI CT :=
  let httpClient := default DefaultClient httpClient in
  let usesMTLSCert := httpClientUsesMTLSCertificate (Some httpClient) in
  let httpClient := TraceHTTPClient DefaultTransport (Some httpClient) in
  (httpClient,
   New {| IntrospectURL := introspectURL; ServiceTokensURL := serviceTokensURL; BootstrapKey := bootstrapKey;
          CacheTTL := cacheTTL; MaxCacheSize := maxCacheSize; UsesMTLSCert := usesMTLSCert |}).

Definition NewClient (introspectURL : string) (httpClient : option HTTPClient) : HTTPClient * Client CI CT :=
  NewWith httpClient introspectURL "" "" 0 0.

Definition NewMTLSClient (introspectURL : string) (tlsConfig : ClientConfig) : result error (HTTPClient * Client CI CT) :=
  match BuildHTTPClient DefaultTransport tlsConfig with
  | Err e => Err e
  | Ok httpClient => Ok (NewWith (Some httpClient) introspectURL "" "" 0 0)
  end.

(** ** Properties *)

(** Tracing does not hide the certificate. *)
Lemma traced_certificate t : transport_certificate (traceRoundTripper DefaultTransport (Some t)) = transport_certificate t.
Proof. by destruct t. Qed.

Lemma TraceHTTPClient_certificate c :
  httpClientUsesMTLSCertificate (Some (TraceHTTPClient DefaultTransport (Some c))) = httpClientUsesMTLSCertificate (Some c).
Proof. apply traced_certificate. Qed.

Lemma BuildClientTLSConfig_certificate cfg tls :
  BuildClientTLSConfig cfg = Ok tls → tlsConfigHasClientCertificate tls = bool_decide (CertFile cfg ≠ "").
Proof.
  unfold BuildClientTLSConfig. destruct (bool_decide _ && _ && _ && _) eqn:Ee.
  - rewrite !andb_true_iff, !bool_decide_eq_true in Ee. intros Heq. simplify_eq. cbn.
    symmetry. apply bool_decide_eq_false. naive_solver.
  - intros Heq. destruct (bool_decide (CertFile cfg = "") && _); [done|].
    destruct (bool_decide (CertFile cfg ≠ "") && _); [done|].
    destruct (client_roots cfg) as [roots|]; [|done]. unfold client_config in Heq. case_decide as Hc.
    + destruct (LoadX509KeyPair _ _) as [kp|]; [|done]. simplify_eq. cbn. by rewrite (bool_decide_eq_true_2 _ Hc).
    + simplify_eq. cbn. symmetry. apply bool_decide_eq_false. naive_solver.
Qed.

(** A client certificate replaces the bootstrap key.  With the HTTP client that
    [BuildHTTPClient] makes from a TLS configuration, a service-token URL and no
    bootstrap key, service tokens are configured exactly when the configuration has a
    client certificate; the tracing around the transport, once or twice, does not hide
    it. *)
Theorem certificate_replaces_bootstrap_key cfg client url tokensURL ttl size tls0 :
  DefaultTransport = Transport tls0 → tlsConfigHasClientCertificate tls0 = false → tokensURL ≠ "" →
  BuildHTTPClient DefaultTransport cfg = Ok client →
  let '(traced, c) := NewWith (Some client) url tokensURL "" ttl size in
  ServiceTokensConfigured c = bool_decide (CertFile cfg ≠ "") ∧
  httpClientUsesMTLSCertificate (Some traced) = bool_decide (CertFile cfg ≠ "").
Proof.
  intros Hd Ht Hu. unfold BuildHTTPClient. destruct (BuildClientTLSConfig cfg) as [tls|] eqn:Eb; [|discriminate].
  apply BuildClientTLSConfig_certificate in Eb. intros Hc.
  assert (httpClientUsesMTLSCertificate (Some client) = bool_decide (CertFile cfg ≠ "")) as Hcert.
  { rewrite <- Eb. destruct tls as [tls|].
    - rewrite Hd in Hc. simplify_eq. rewrite <- Hd. by rewrite TraceHTTPClient_certificate.
    - simplify_eq. rewrite TraceHTTPClient_certificate. cbn. rewrite Hd. exact Ht. }
  unfold NewWith. cbn [default from_option id]. rewrite TraceHTTPClient_certificate, Hcert. split; [|done].
  unfold ServiceTokensConfigured. cbn. rewrite (bool_decide_eq_true_2 _ Hu). done.
Qed.
End Mtls.

(** ** Instances *)

Module Files.
(** Every key pair loads and every authority parses. *)
#[export] Instance certificates : Certificates := {
  keypair := string;
  pool := string;
  LoadX509KeyPair cert key := Ok cert;
  os_ReadFile file := Ok file;
  AppendCertsFromPEM pem := Some pem;
}.
Definition default_transport : RoundTripper := Transport None.
Definition config : ClientConfig := {| CAFile := "ca.pem"; CertFile := "cert.pem"; KeyFile := "key.pem"; ServerName := "" |}.
Definition client : HTTPClient :=
  match BuildHTTPClient default_transport config with Ok c => c | Err _ => DefaultClient end.
End Files.

#[local] Existing Instance Files.certificates.

Lemma certificate_replaces_bootstrap_key_witness :
  let '(traced, c) := NewWith (CI := lruCache string cachedIntrospection)
    (CT := lruCache serviceTokenCacheKey cachedServiceToken) Files.default_transport (Some Files.client)
    "http://identity/introspect" "http://identity/tokens" "" 0 0 in
  ServiceTokensConfigured c = true ∧ httpClientUsesMTLSCertificate Files.default_transport (Some traced) = true.
Proof.
  apply (certificate_replaces_bootstrap_key Files.default_transport Files.config Files.client "http://identity/introspect"
    "http://identity/tokens" 0 0 None); [reflexivity|reflexivity|discriminate|reflexivity].
Defined.
