(* ===== verification/HttpLb.v ===== *)
(** * The load-balanced HTTP client (src/httpclient/httplb.go)

    Its options, their defaults, and the transports they make.  The balancing client is
    the third-party package httplb, known here by the options it is given. *)

From S2P Require Import Prelude GoErrors Mtls.
#[local] Open Scope Z_scope.

Definition DefaultRequestTimeout : duration := 30 * Second.
Definition DefaultIdleConnTimeout : duration := 90 * Second.
Definition DefaultMaxIdleConns : Z := 64.
Definition DefaultMaxIdleConnsPerHost : Z := 16.
Definition DefaultMaxConnsPerHost : Z := 32.

Section LoadBalancing.
Context `{!Certificates}.

Record LoadBalancedOptions := {
  RequestTimeout : duration;
  IdleConnTimeout : duration;
  MaxIdleConns : Z;
  MaxIdleConnsPerHost : Z;
  MaxConnsPerHost : Z;
  MaxResponseHeaderSize : Z;
  TLSClientConfig : option Mtls.Config;
  TLSHandshakeTimeout : duration;
  DisableCompression : bool;
}.

Definition positive_or (n d : Z) : Z := if n <=? 0 then d else n.

Definition withDefaults (o : LoadBalancedOptions) : LoadBalancedOptions :=
  {| RequestTimeout := positive_or (RequestTimeout o) DefaultRequestTimeout;
     IdleConnTimeout := positive_or (IdleConnTimeout o) DefaultIdleConnTimeout;
     MaxIdleConns := positive_or (MaxIdleConns o) DefaultMaxIdleConns;
     MaxIdleConnsPerHost := positive_or (MaxIdleConnsPerHost o) DefaultMaxIdleConnsPerHost;
     MaxConnsPerHost := positive_or (MaxConnsPerHost o) DefaultMaxConnsPerHost;
     MaxResponseHeaderSize := MaxResponseHeaderSize o; TLSClientConfig := TLSClientConfig o;
     TLSHandshakeTimeout := TLSHandshakeTimeout o; DisableCompression := DisableCompression o |}.

(** Options of httplb. *)
Inductive ClientOption :=
| WithRequestTimeout (d : duration)
| WithIdleConnectionTimeout (d : duration)
| WithTransport (scheme : string) (options : LoadBalancedOptions)
| WithTLSConfig (cfg : Mtls.Config) (handshake : duration)
| WithMaxResponseHeaderBytes (n : Z)
| WithDisableCompression.

(** The options that [NewLoadBalanced] gives to httplb. *)
Definition NewLoadBalanced (options : LoadBalancedOptions) : list ClientOption :=
  let options := withDefaults options in
  [WithRequestTimeout (RequestTimeout options); WithIdleConnectionTimeout (IdleConnTimeout options);
   WithTransport "http" options; WithTransport "https" options]
  ++ match TLSClientConfig options with
     | Some cfg => [WithTLSConfig cfg (TLSHandshakeTimeout options)]
     | None => []
     end
  ++ (if 0 <? MaxResponseHeaderSize options then [WithMaxResponseHeaderBytes (MaxResponseHeaderSize options)] else [])
  ++ (if DisableCompression options then [WithDisableCompression] else []).

(** The transport settings that httplb passes on, and the ones of a transport. *)
Record TransportConfig := {
  tcIdleConnTimeout : duration;
  tcTLSHandshakeTimeout : duration;
  tcTLSClientConfig : option Mtls.Config;
  tcMaxResponseHeaderBytes : Z;
  tcDisableCompression : bool;
}.

Record http_Transport := {
  trMaxIdleConns : Z;
  trMaxIdleConnsPerHost : Z;
  trMaxConnsPerHost : Z;
  trConfig : TransportConfig;
  ForceAttemptHTTP2 : bool;
  ExpectContinueTimeout : duration;
}.

Definition NewRoundTripper (o : LoadBalancedOptions) (config : TransportConfig) : http_Transport :=
  {| trMaxIdleConns := MaxIdleConns o; trMaxIdleConnsPerHost := MaxIdleConnsPerHost o;
     trMaxConnsPerHost := MaxConnsPerHost o; trConfig := config; ForceAttemptHTTP2 := true;
     ExpectContinueTimeout := Second |}.

(** [LoadBalancedClient.Close] with the one of httplb; nil clients are [None]. *)
Definition Close {W} (client_Close : W → option error * W) (c : option (option unit)) (w : W) : option error * W :=
  match c with Some (Some _) => client_Close w | _ => (None, w) end.

(** ** Properties *)

Lemma positive_or_pos n d : 0 < d → 0 < positive_or n d.
Proof. intros. unfold positive_or. destruct (Z.leb_spec n 0); lia. Qed.

Lemma positive_or_idemp n d : 0 < d → positive_or (positive_or n d) d = positive_or n d.
Proof. intros Hd. pose proof (positive_or_pos n d Hd). unfold positive_or at 1. destruct (Z.leb_spec (positive_or n d) 0); lia. Qed.

Lemma withDefaults_idemp o : withDefaults (withDefaults o) = withDefaults o.
Proof. unfold withDefaults. cbn. by rewrite !positive_or_idemp. Qed.

(** Every transport of a load-balanced client bounds its connections, and requests and
    idle connections have a time-out, whatever options were given; a limit that was
    given is kept. *)
Theorem load_balanced_client_is_bounded o config :
  let options := NewLoadBalanced o in
  (∃ d, WithRequestTimeout d ∈ options ∧ 0 < d ∧ (0 < RequestTimeout o → d = RequestTimeout o)) ∧
  (∃ d, WithIdleConnectionTimeout d ∈ options ∧ 0 < d ∧ (0 < IdleConnTimeout o → d = IdleConnTimeout o)) ∧
  ∀ scheme lb, WithTransport scheme lb ∈ options →
    let t := NewRoundTripper lb config in
    0 < trMaxIdleConns t ∧ 0 < trMaxIdleConnsPerHost t ∧ 0 < trMaxConnsPerHost t ∧
    (0 < MaxConnsPerHost o → trMaxConnsPerHost t = MaxConnsPerHost o).
Proof.
  assert (∀ n d, 0 < n → positive_or n d = n) as Hk by (intros n d Hn; unfold positive_or; destruct (Z.leb_spec n 0); lia).
  unfold NewLoadBalanced. cbn zeta. split_and!.
  - eexists. split; [left|]. cbn. split; [by apply positive_or_pos|]. intros. by apply Hk.
  - eexists. split; [right; left|]. cbn. split; [by apply positive_or_pos|]. intros. by apply Hk.
  - intros scheme lb Hin. assert (lb = withDefaults o) as ->.
    { rewrite !elem_of_app in Hin. destruct Hin as [Hin|[Hin|[Hin|Hin]]].
      - repeat (apply elem_of_cons in Hin as [Hin|Hin]; [congruence|]). by apply elem_of_nil in Hin.
      - destruct (TLSClientConfig _); [by apply list_elem_of_singleton in Hin|by apply elem_of_nil in Hin].
      - destruct (0 <? _); [by apply list_elem_of_singleton in Hin|by apply elem_of_nil in Hin].
      - destruct (DisableCompression _); [by apply list_elem_of_singleton in Hin|by apply elem_of_nil in Hin]. }
    cbn. split_and!; try (by apply positive_or_pos). intros. by apply Hk.
Qed.
End LoadBalancing.
