(* ===== verification/TestUtil.v ===== *)
(** * Test helpers (src/testutil)

    What the helpers do to a test: they go on, fail it or skip it, and register
    cleanups, which run last in, first out however the test ends.  A helper is an action
    on the world and the test; databases, servers and package testing are classes.  The
    time limits of the set-up statements are left out. *)

From S2P Require Import Prelude GoStrings GoErrors Base64 Json Sha256 Http RtErrors HttpKit.
From Stdlib Require Import Ascii.
#[local] Open Scope Z_scope.

(** ** testing.T *)

Section Testing.
Context {W : Type}.

(** A cleanup: what it reports with [Errorf], and the world after it. *)
Definition cleanup_func : Type := W → list string * W.

(** The cleanups of a test, the last one first. *)
Definition T : Type := list cleanup_func.

Inductive ended (A : Type) := Goes_on (a : A) | Fatal (message : string) | Skipped (message : string).
#[global] Arguments Goes_on {A} a.
#[global] Arguments Fatal {A} message.
#[global] Arguments Skipped {A} message.

Definition helper (A : Type) : Type := W * T → ended A * (W * T).

#[export] Instance helper_ret : MRet helper := λ A a s, (Goes_on a, s).
#[export] Instance helper_bind : MBind helper := λ A B f m s,
  match m s with
  | (Goes_on a, s) => f a s
  | (Fatal e, s) => (Fatal e, s)
  | (Skipped e, s) => (Skipped e, s)
  end.

Definition Fatalf {A} (message : string) : helper A := λ s, (Fatal message, s).
Definition Skipf {A} (message : string) : helper A := λ s, (Skipped message, s).
Definition Cleanup (c : cleanup_func) : helper unit := λ '(w, t), (Goes_on tt, (w, c :: t)).
Definition act {A} (f : W → A * W) : helper A := λ '(w, t), let '(a, w) := f w in (Goes_on a, (w, t)).

(** [if err != nil { t.Fatalf(prefix + "%v", err) }]. *)
Definition require (prefix : string) (err : option error) : helper unit :=
  match err with None => mret tt | Some e => Fatalf (prefix +:+ Error_ e) end.
Definition must {A} (prefix : string) (f : W → result error A * W) : helper A :=
  r ← act f; match r with Ok a => mret a | Err e => Fatalf (prefix +:+ Error_ e) end.

Definition errorf (prefix : string) (f : W → option error * W) : cleanup_func := λ w,
  let '(err, w) := f w in (match err with None => [] | Some e => [prefix +:+ Error_ e] end, w).
Definition silently (f : W → W) : cleanup_func := λ w, ([], f w).

Fixpoint run_cleanups (cs : T) (w : W) : list string * W :=
  match cs with
  | [] => ([], w)
  | c :: cs => let '(e, w) := c w in let '(es, w) := run_cleanups cs w in (e ++ es, w)
  end.

(** A test with its cleanups: how it ended, what the cleanups reported, and the world. *)
Definition no_cleanups : T := [].
Definition run_test (test : helper unit) (w : W) : ended unit * list string * W :=
  let '(o, (w, t)) := test (w, no_cleanups) in
  let '(errs, w) := run_cleanups t w in (o, errs, w).

(** ** Contexts and HTTP servers *)

Class TestResources := {
  ctx_type : Type; server_type : Type;
  WithCancel : W → ctx_type * W;
  cancel : ctx_type → W → W;
  NewServer : Handler W → W → server_type * W;
  server_Close : server_type → W → W;
}.

Definition Context_ `{!TestResources} : helper ctx_type :=
  ctx ← act WithCancel; _ ← Cleanup (silently (cancel ctx)); mret ctx.

Definition NewTestServer `{!TestResources} (handler : Handler W) : helper server_type :=
  server ← act (NewServer handler); _ ← Cleanup (silently (server_Close server)); mret server.

(** ** Postgres *)

(** database/sql, pgx and pgxpool, and crypto/rand. *)
Class TestPostgres := {
  sql_DB : Type; ConnConfig : Type; PoolConfig : Type; pgx_Pool : Type;
  sql_Open : string → string → W → result error sql_DB * W;
  OpenDB : ConnConfig → W → sql_DB * W;
  Ping : sql_DB → W → option error * W;
  ExecContext : string → sql_DB → W → option error * W;
  sql_Close : sql_DB → W → option error * W;
  ParseConfig : string → result error ConnConfig;
  RuntimeParams : ConnConfig → option (gmap string string);
  set_RuntimeParams : gmap string string → ConnConfig → ConnConfig;
  ParsePoolConfig : string → result error PoolConfig;
  pool_conn : PoolConfig → ConnConfig;
  set_pool_conn : ConnConfig → PoolConfig → PoolConfig;
  NewWithConfig : PoolConfig → W → result error pgx_Pool * W;
  pool_Ping : pgx_Pool → W → option error * W;
  pool_Exec : string → pgx_Pool → W → option error * W;
  pool_Close : pgx_Pool → W → W;
  rand_Read : W → result error (list Z) * W; (* six bytes *)
}.

Definition testDatabaseURLEnv : string := "TEST_DATABASE_URL".

Definition quoteIdentifier (identifier : string) : string :=
  dquote +:+ of_bytes (bytes_of identifier ≫= λ a, if code a =? 34 then [a; a] else [a]) +:+ dquote.

Section Postgres.
Context `{!TestPostgres}.

Definition testDatabaseURL (Getenv : string → string) : helper string :=
  let databaseURL := TrimSpace (Getenv testDatabaseURLEnv) in
  if decide (databaseURL = "") then Skipf (testDatabaseURLEnv +:+ " is not set") else mret databaseURL.

Definition openAdminDB (databaseURL : string) : helper sql_DB :=
  db ← must "open admin postgres db: " (sql_Open "pgx" databaseURL);
  _ ← Cleanup (errorf "close admin postgres db: " (sql_Close db));
  err ← act (Ping db); _ ← require "ping admin postgres db: " err;
  mret db.

Definition randomSuffix : helper string :=
  raw ← must "read random suffix: " rand_Read; mret (hex_encode raw).

Definition create_schema (schemaName : string) : string := "create schema " +:+ quoteIdentifier schemaName.
Definition drop_schema (schemaName : string) : string :=
  "drop schema if exists " +:+ quoteIdentifier schemaName +:+ " cascade".

(** The message quotes the name as a Go string; the name is hexadecimal, which needs no
    escapes. *)
Definition drop_cleanup (admin : sql_DB) (schemaName : string) : cleanup_func :=
  errorf ("drop test schema " +:+ quote_text schemaName +:+ ": ") (ExecContext (drop_schema schemaName) admin).

Definition createTestSchema (admin : sql_DB) : helper string :=
  suffix ← randomSuffix;
  let schemaName := "test_" +:+ suffix in
  err ← act (ExecContext (create_schema schemaName) admin);
  _ ← require "create test schema: " err;
  _ ← Cleanup (drop_cleanup admin schemaName);
  mret schemaName.

(** [config.RuntimeParams] with a new search path; the nil map becomes an empty one. *)
Definition scoped (schemaName : string) (config : ConnConfig) : ConnConfig :=
  set_RuntimeParams (<["search_path" := schemaName]> (default ∅ (RuntimeParams config))) config.

Definition scopedConnConfig (databaseURL schemaName : string) : helper ConnConfig :=
  match ParseConfig databaseURL with
  | Err e => Fatalf ("parse postgres config: " +:+ Error_ e)
  | Ok config => mret (scoped schemaName config)
  end.

Definition scopedPoolConfig (databaseURL schemaName : string) : helper PoolConfig :=
  match ParsePoolConfig databaseURL with
  | Err e => Fatalf ("parse pgx pool config: " +:+ Error_ e)
  | Ok config => mret (set_pool_conn (scoped schemaName (pool_conn config)) config)
  end.

Definition applySchemaSQL (exec : string → W → option error * W) (schemaSQL : string) : helper unit :=
  if decide (TrimSpace schemaSQL = "") then mret tt
  else err ← act (exec schemaSQL); require "apply test schema sql: " err.

Definition NewTestDB (Getenv : string → string) (schemaSQL : string) : helper sql_DB :=
  databaseURL ← testDatabaseURL Getenv;
  admin ← openAdminDB databaseURL;
  schemaName ← createTestSchema admin;
  config ← scopedConnConfig databaseURL schemaName;
  db ← act (OpenDB config);
  _ ← Cleanup (errorf "close scoped postgres db: " (sql_Close db));
  err ← act (Ping db); _ ← require "ping scoped postgres db: " err;
  _ ← applySchemaSQL (λ q, ExecContext q db) schemaSQL;
  mret db.

Definition NewTestPGXPool (Getenv : string → string) (schemaSQL : string) : helper pgx_Pool :=
  databaseURL ← testDatabaseURL Getenv;
  admin ← openAdminDB databaseURL;
  schemaName ← createTestSchema admin;
  config ← scopedPoolConfig databaseURL schemaName;
  pool ← must "open scoped pgx pool: " (NewWithConfig config);
  _ ← Cleanup (silently (pool_Close pool));
  err ← act (pool_Ping pool); _ ← require "ping scoped pgx pool: " err;
  _ ← applySchemaSQL (λ q, pool_Exec q pool) schemaSQL;
  mret pool.
End Postgres.
End Testing.
#[global] Arguments cleanup_func W : clear implicits.
#[global] Arguments T W : clear implicits.
#[global] Arguments helper W A : clear implicits.
#[global] Arguments TestResources W : clear implicits.
#[global] Arguments TestPostgres W : clear implicits.

(** ** NATS *)

(** An embedded server and the connection of a client. *)
Class TestNats (W : Type) := {
  nats_Server : Type; nats_Conn : Type;
  TempDir : helper W string;
  nserver_New : string → W → result error nats_Server * W; (* the options but for the directory are fixed *)
  Start : nats_Server → W → W;
  ReadyForConnections : duration → nats_Server → W → bool * W;
  Shutdown : nats_Server → W → W;
  WaitForShutdown : nats_Server → W → W;
  ClientURL : nats_Server → string;
  nats_Connect : string → W → result error nats_Conn * W;
  Drain : nats_Conn → W → option error * W;
  nats_Close : nats_Conn → W → W;
  is_ErrConnectionClosed : error → bool; (* the comparison with [nats.ErrConnectionClosed] *)
  nats_Msg : Type; nats_Subscription : Type;
  NextMsg : nats_Subscription → duration → W → result error nats_Msg * W;
}.

Definition testNATSReadyTimeout : duration := 10 * Second.

Section Nats.
Context {W : Type} `{!TestNats W}.

Definition stop_server (server : nats_Server) (w : W) : W := WaitForShutdown server (Shutdown server w).

Definition close_nats (server : nats_Server) (conn : nats_Conn) : cleanup_func W := λ w,
  let '(err, w) := Drain conn w in
  let report := match err with
                | Some e => if is_ErrConnectionClosed e then [] else ["drain test nats client: " +:+ Error_ e]
                | None => []
                end in
  (report, stop_server server (nats_Close conn w)).

Definition NewTestNATSServer : helper W (nats_Conn * string) :=
  dir ← TempDir;
  server ← must "create test nats server: " (nserver_New dir);
  _ ← act (λ w, (tt, Start server w));
  ok ← act (ReadyForConnections testNATSReadyTimeout server);
  if negb ok then
    _ ← act (λ w, (tt, stop_server server w)); Fatalf "test nats server was not ready in time"
  else
    r ← act (nats_Connect (ClientURL server));
    match r with
    | Err e =>
        _ ← act (λ w, (tt, stop_server server w)); Fatalf ("connect test nats client: " +:+ Error_ e)
    | Ok conn => _ ← Cleanup (close_nats server conn); mret (conn, ClientURL server)
    end.

Definition WaitForNATSMessage (sub : option nats_Subscription) (timeout : duration) : helper W nats_Msg :=
  match sub with
  | None => Fatalf "expected non-nil NATS subscription"
  | Some sub => must "wait for nats message: " (NextMsg sub timeout)
  end.
End Nats.

(** ** HTTP *)

(** [WriteJSON] of the tests; encoding a value of the model does not fail. *)
Definition test_WriteJSON (status : Z) (payload : json) (rw : RW) : RW :=
  EncodeJSON payload (WriteHeader status (set_header "Content-Type" "application/json" rw)).

(** encoding/json into [any], [reflect.DeepEqual] on what it makes, and [json.Indent]. *)
Class AnyJSON := {
  any_value : Type;
  Unmarshal_any : string → result error any_value;
  DeepEqual : any_value → any_value → bool;
  Indent : string → option string;
}.

Record Response := { ResStatus : Z; ResBody : result error string (* what reading it gives *) }.

Section Assertions.
Context {W : Type} `{!Unicode}.

Definition formatJSON `{!AnyJSON} (raw : string) : string := default raw (Indent raw).

(** [bytes.TrimSpace] is that of strings. *)
Definition AssertJSONResponse `{!AnyJSON} (close_body : W → W) (response : option Response) (status : Z)
  (body : option json) : helper W unit :=
  match response with
  | None => Fatalf "expected non-nil response"
  | Some res => λ s,
      let checked : helper W unit :=
        if negb (ResStatus res =? status) then
          Fatalf ("expected status " +:+ FormatInt status +:+ ", got " +:+ FormatInt (ResStatus res))
        else match ResBody res with
        | Err e => Fatalf ("read response body: " +:+ Error_ e)
        | Ok raw =>
            match body with
            | None => if decide (TrimSpace raw = "") then mret tt
                      else Fatalf ("expected empty body, got " +:+ formatJSON raw)
            | Some body =>
                match Unmarshal_any raw with
                | Err e => Fatalf ("decode response body: " +:+ Error_ e +:+ newline +:+ "body: " +:+ raw)
                | Ok got =>
                    let wantRaw := Marshal body in
                    match Unmarshal_any wantRaw with
                    | Err e => Fatalf ("decode expected body: " +:+ Error_ e)
                    | Ok want =>
                        if DeepEqual got want then mret tt
                        else Fatalf ("unexpected json response" +:+ newline +:+ "want: " +:+ formatJSON wantRaw
                                     +:+ newline +:+ "got:  " +:+ formatJSON raw)
                    end
                end
            end
        end in
      let '(o, (w, t)) := checked s in (o, (close_body w, t)) (* the deferred close *)
  end.

(** The field [code] of the object in the field [error]. *)
Definition assign_code (acc : string) (j : json) : option string :=
  match j with
  | JNull => Some acc
  | JObject fs => fold_field "code" assign_string acc ((λ kv, (kv.1, (Marshal kv.2, kv.2))) <$> fs)
  | _ => None
  end.

(** The message of the decoder's error is left out. *)
Definition AssertErrorCode (raw expected : string) : helper W unit :=
  match (ms ← struct_members raw; fold_field "error" assign_code "" ms) with
  | None => Fatalf "decode error response"
  | Some code =>
      if decide (code = expected) then mret tt
      else Fatalf ("expected error code " +:+ quote_text expected +:+ ", got " +:+ quote_text code)
  end.
End Assertions.

(** ** Tokens *)

(** [base64.RawURLEncoding]: the letters for 62 and 63 are a hyphen and an underscore,
    and there is no padding. *)
Definition url_letter (a : ascii) : ascii :=
  if code a =? 43 then "-"%char else if code a =? 47 then "_"%char else a.
Definition std_letter (a : ascii) : ascii :=
  if code a =? 45 then "+"%char else if code a =? 95 then "/"%char else a.

Definition RawURL_EncodeToString (s : string) : string :=
  of_bytes (url_letter <$> List.filter (λ a, negb (code a =? 61)) (encode_groups (bytes_of s))).

(** A map as [json.Marshal] writes it, in the order of its keys. *)
Definition map_json (m : gmap string json) : json :=
  JObject ((λ k, (k, default JNull (m !! k))) <$> SortStrings (map_to_list m).*1).

Definition encodeTokenSegment (value : json) : string := RawURL_EncodeToString (Marshal value).

Definition NewTestToken (claims : option (gmap string json)) : string :=
  encodeTokenSegment (map_json {[ "alg" := JString "none"; "typ" := JString "JWT" ]})
  +:+ "." +:+ encodeTokenSegment (map_json (default ∅ claims)) +:+ ".".

(** [NewRequest] is httptest's. *)
Definition NewAuthenticatedRequest (NewRequest : string → string → option string → Request)
  (method target orgID scope : string) (body : list string) : Request :=
  let request := NewRequest method target (head body) in
  let claims := {[ "sub" := JString "test-subject"; "organization_id" := JString (TrimSpace orgID) ]} in
  let claims := if decide (TrimSpace scope ≠ "") then <["scopes" := JArray [JString (TrimSpace scope)]]> claims
                else claims in
  let h := header_set "Authorization" ("Bearer " +:+ NewTestToken (Some claims)) (Header request) in
  let h := match body with [] => h | _ => header_set "Content-Type" "application/json" h end in
  {| Method := Method request; Path := Path request; Query := Query request; Header := h;
     RemoteAddr := RemoteAddr request; ReqBody := ReqBody request; ContentLength := ContentLength request;
     TransferEncoding := TransferEncoding request; Ctx := Ctx request |}.

(** ** Properties *)

(** *** Resources

    What a world holds open: handles, pools, servers, connections and contexts.  The
    laws of each library say what opening and closing do to it. *)
Class Held (W : Type) := held : W → gset positive.

Section Tidy.
Context {W : Type} `{!Held W}.

(** An operation that gives a new resource when it succeeds, and one that gives back. *)
Definition opens {A} (id : A → positive) (f : W → result error A * W) : Prop := ∀ w,
  match f w with
  | (Ok a, w') => id a ∉ held w ∧ held w' = {[ id a ]} ∪ held w
  | (Err _, w') => held w' = held w
  end.
Definition keeps {A} (f : W → A * W) : Prop := ∀ w, held (f w).2 = held w.
Definition closes {A} (X : gset positive) (f : W → A * W) : Prop := ∀ w, held (f w).2 = held w ∖ X.

(** A helper is tidy when, however it ends, the cleanups it registered give back what
    it holds. *)
Definition tidy {A} (m : helper W A) : Prop := ∀ w (t : T W), let '(_, (w', t')) := m (w, t) in
  ∃ cs : T W, t' = cs ++ t ∧ ∀ v, held v = held w' → held (run_cleanups cs v).2 = held w.

Lemma run_cleanups_app (cs ds : T W) v :
  (run_cleanups (cs ++ ds) v).2 = (run_cleanups ds (run_cleanups cs v).2).2.
Proof.
  revert v. induction cs as [|c cs IH]; intros v; cbn; [done|]. destruct (c v) as [e w]. specialize (IH w).
  destruct (run_cleanups (cs ++ ds) w) as [e1 w1], (run_cleanups cs w) as [e2 w2]. exact IH.
Qed.

Lemma tidy_still {A} (o : ended A) (m : helper W A) : (∀ s, m s = (o, s)) → tidy m.
Proof. intros Hm w t. rewrite Hm. exists []. split; [done|]. by intros v. Qed.

Lemma tidy_ret {A} (a : A) : tidy (mret a).
Proof. by apply (tidy_still (Goes_on a)). Qed.
Lemma tidy_Fatalf {A} e : tidy (A := A) (Fatalf e).
Proof. by apply (tidy_still (Fatal e)). Qed.
Lemma tidy_Skipf {A} e : tidy (A := A) (Skipf e).
Proof. by apply (tidy_still (Skipped e)). Qed.

Lemma tidy_bind {A B} (m : helper W A) (f : A → helper W B) : tidy m → (∀ a, tidy (f a)) → tidy (a ← m; f a).
Proof.
  intros Hm Hf w t. unfold mbind, helper_bind. specialize (Hm w t).
  destruct (m (w, t)) as [[a|e|e] [w1 t1]]; [|done..]. destruct Hm as (cs & Ht & Hcs). specialize (Hf a w1 t1).
  destruct (f a (w1, t1)) as [o [w2 t2]]. destruct Hf as (ds & -> & Hds). subst t1.
  exists (ds ++ cs). split; [by rewrite app_assoc|]. intros v Hv. rewrite run_cleanups_app. by apply Hcs, Hds.
Qed.

Lemma tidy_act {A} (f : W → A * W) : keeps f → tidy (act f).
Proof.
  intros Hf w t. specialize (Hf w). unfold act. destruct (f w) as [a w']. exists []. split; [done|].
  intros v Hv. cbn. by rewrite Hv.
Qed.

Lemma tidy_Cleanup c : keeps c → tidy (Cleanup c).
Proof.
  intros Hc w t. exists [c]. split; [done|]. intros v Hv. cbn. specialize (Hc v). destruct (c v). cbn in *. congruence.
Qed.

Lemma tidy_require prefix err : tidy (require (W := W) prefix err).
Proof. destruct err; [apply tidy_Fatalf|apply tidy_ret]. Qed.

Lemma tidy_must {A} prefix (f : W → result error A * W) : keeps f → tidy (must prefix f).
Proof.
  intros Hf. apply tidy_bind; [by apply tidy_act|]. intros []; [apply tidy_ret|apply tidy_Fatalf].
Qed.

(** What was opened and has its cleanup is given back, whatever follows. *)
Lemma tidy_opened {A} X (c : cleanup_func W) (k : helper W A) w0 w (t t1 : T W) :
  t1 = c :: t → X ## held w0 → held w = X ∪ held w0 → closes X c → tidy k →
  let '(_, (w', t')) := k (w, t1) in
  ∃ cs : T W, t' = cs ++ t ∧ ∀ v, held v = held w' → held (run_cleanups cs v).2 = held w0.
Proof.
  intros Ht Hn Hw Hc Hk. specialize (Hk w t1). destruct (k (w, t1)) as [o [w' t']].
  destruct Hk as (cs & -> & Hcs). subst t1. exists (cs ++ [c]). split; [by rewrite <- app_assoc|].
  intros v Hv. rewrite run_cleanups_app. cbn. specialize (Hc (run_cleanups cs v).2).
  destruct (c _) as [e w2]. cbn in *. rewrite Hc, (Hcs v Hv), Hw. set_solver.
Qed.

Lemma tidy_must_open {A B} (id : A → positive) prefix f (close : A → cleanup_func W) (k : A → helper W B) :
  opens id f → (∀ a, closes {[ id a ]} (close a)) → (∀ a, tidy (k a)) →
  tidy (a ← must prefix f; _ ← Cleanup (close a); k a).
Proof.
  intros Hf Hc Hk w t. specialize (Hf w). unfold must, act, mbind, helper_bind, mret, helper_ret, Cleanup.
  destruct (f w) as [[a|e] w1]; cbn.
  - by eapply (tidy_opened {[ id a ]}); [reflexivity|set_solver|apply Hf|apply Hc|apply Hk].
  - exists []. split; [done|]. intros v Hv. cbn. congruence.
Qed.

Lemma tidy_act_open {A B} (id : A → positive) f (close : A → cleanup_func W) (k : A → helper W B) :
  (∀ w, id (f w).1 ∉ held w ∧ held (f w).2 = {[ id (f w).1 ]} ∪ held w) →
  (∀ a, closes {[ id a ]} (close a)) → (∀ a, tidy (k a)) → tidy (a ← act f; _ ← Cleanup (close a); k a).
Proof.
  intros Hf Hc Hk w t. specialize (Hf w). unfold act, mbind, helper_bind, Cleanup.
  destruct (f w) as [a w1]; cbn in *.
  by eapply (tidy_opened {[ id a ]}); [reflexivity|set_solver|apply Hf|apply Hc|apply Hk].
Qed.

Lemma errorf_closes X prefix f : closes X f → closes X (errorf prefix f).
Proof. intros Hf w. specialize (Hf w). unfold errorf. by destruct (f w). Qed.
Lemma errorf_keeps prefix f : keeps f → keeps (errorf prefix f).
Proof. intros Hf w. specialize (Hf w). unfold errorf. by destruct (f w). Qed.
End Tidy.
#[export] Hint Resolve tidy_ret tidy_Fatalf tidy_Skipf tidy_require tidy_act tidy_must tidy_bind tidy_Cleanup
  errorf_closes errorf_keeps : tidy.

Class TestResourcesLaws (W : Type) `{!TestResources W, !Held W} := {
  ctx_id : ctx_type → positive; server_id : server_type → positive;
  WithCancel_opens w : ctx_id (WithCancel w).1 ∉ held w ∧ held (WithCancel w).2 = {[ ctx_id (WithCancel w).1 ]} ∪ held w;
  cancel_closes ctx w : held (cancel ctx w) = held w ∖ {[ ctx_id ctx ]};
  NewServer_opens h w :
    server_id (NewServer h w).1 ∉ held w ∧ held (NewServer h w).2 = {[ server_id (NewServer h w).1 ]} ∪ held w;
  server_Close_closes s w : held (server_Close s w) = held w ∖ {[ server_id s ]};
}.

Class TestPostgresLaws (W : Type) `{!TestPostgres W, !Held W} := {
  db_id : sql_DB → positive; pool_id : pgx_Pool → positive;
  sql_Open_opens driver url : opens db_id (sql_Open driver url);
  OpenDB_opens c w : db_id (OpenDB c w).1 ∉ held w ∧ held (OpenDB c w).2 = {[ db_id (OpenDB c w).1 ]} ∪ held w;
  Ping_keeps db : keeps (Ping db);
  ExecContext_keeps q db : keeps (ExecContext q db);
  sql_Close_closes db : closes {[ db_id db ]} (sql_Close db);
  NewWithConfig_opens c : opens pool_id (NewWithConfig c);
  pool_Ping_keeps p : keeps (pool_Ping p);
  pool_Exec_keeps q p : keeps (pool_Exec q p);
  pool_Close_closes p w : held (pool_Close p w) = held w ∖ {[ pool_id p ]};
  rand_Read_keeps : keeps rand_Read;
}.
#[export] Hint Resolve sql_Open_opens OpenDB_opens Ping_keeps ExecContext_keeps sql_Close_closes NewWithConfig_opens
  pool_Ping_keeps pool_Exec_keeps rand_Read_keeps : tidy.

Class TestNatsLaws (W : Type) `{!TestNats W, !Held W} := {
  nats_server_id : nats_Server → positive; nats_conn_id : nats_Conn → positive;
  TempDir_tidy : tidy TempDir;
  (* a new server runs, and holds something, once it is started *)
  nserver_New_fresh dir w : match nserver_New dir w with
                            | (Ok s, w') => nats_server_id s ∉ held w' ∧ held w' = held w
                            | (Err _, w') => held w' = held w
                            end;
  Start_opens s w : held (Start s w) = {[ nats_server_id s ]} ∪ held w;
  ReadyForConnections_keeps d s : keeps (ReadyForConnections d s);
  Shutdown_closes s w : held (Shutdown s w) = held w ∖ {[ nats_server_id s ]};
  WaitForShutdown_keeps s w : held (WaitForShutdown s w) = held w;
  nats_Connect_opens url : opens nats_conn_id (nats_Connect url);
  Drain_keeps c : keeps (Drain c);
  nats_Close_closes c w : held (nats_Close c w) = held w ∖ {[ nats_conn_id c ]};
  NextMsg_keeps sub d : keeps (NextMsg sub d);
}.

Ltac tidy_steps :=
  repeat first
    [ apply tidy_ret | apply tidy_Fatalf | apply tidy_Skipf | apply tidy_require
    | eapply tidy_must_open; [by auto with tidy..|intros ?] | eapply tidy_act_open; [by eauto with tidy..|intros ?]
    | apply tidy_bind; [|intros ?] | progress (auto with tidy) | case_decide | case_match ].

Section Given_back.
Context {W : Type} `{!Held W}.

Lemma Context_tidy `{!TestResources W, !TestResourcesLaws W} : tidy (W := W) Context_.
Proof. eapply (tidy_act_open ctx_id); [apply WithCancel_opens|intros a w; apply cancel_closes|intros; apply tidy_ret]. Qed.

Lemma NewTestServer_tidy `{!TestResources W, !TestResourcesLaws W} h : tidy (NewTestServer h).
Proof.
  eapply (tidy_act_open server_id); [intros w; apply NewServer_opens|intros a w; apply server_Close_closes|].
  intros; apply tidy_ret.
Qed.

Section Postgres.
Context `{!TestPostgres W, !TestPostgresLaws W}.

Lemma testDatabaseURL_tidy Getenv : tidy (W := W) (testDatabaseURL Getenv).
Proof. unfold testDatabaseURL. tidy_steps. Qed.

Lemma openAdminDB_tidy url : tidy (openAdminDB url).
Proof. unfold openAdminDB. tidy_steps. Qed.

Lemma createTestSchema_tidy admin : tidy (createTestSchema admin).
Proof. unfold createTestSchema, randomSuffix, drop_cleanup. tidy_steps. Qed.

Lemma applySchemaSQL_tidy (exec : string → W → option error * W) q : (∀ q, keeps (exec q)) → tidy (applySchemaSQL exec q).
Proof. intros He. unfold applySchemaSQL. tidy_steps. Qed.

Lemma NewTestDB_tidy Getenv q : tidy (NewTestDB Getenv q).
Proof.
  unfold NewTestDB, scopedConnConfig.
  do 3 (apply tidy_bind; [auto using testDatabaseURL_tidy, openAdminDB_tidy, createTestSchema_tidy|intros ?]).
  apply tidy_bind; [tidy_steps|intros ?]. eapply (tidy_act_open db_id); [intros; apply OpenDB_opens|auto with tidy|].
  intros db. do 3 (apply tidy_bind; [auto using applySchemaSQL_tidy with tidy|intros ?]). apply tidy_ret.
Qed.

Lemma NewTestPGXPool_tidy Getenv q : tidy (NewTestPGXPool Getenv q).
Proof.
  unfold NewTestPGXPool, scopedPoolConfig.
  do 3 (apply tidy_bind; [auto using testDatabaseURL_tidy, openAdminDB_tidy, createTestSchema_tidy|intros ?]).
  apply tidy_bind; [tidy_steps|intros ?].
  eapply (tidy_must_open pool_id); [apply NewWithConfig_opens|intros p w; apply pool_Close_closes|].
  intros pool. do 3 (apply tidy_bind; [auto using applySchemaSQL_tidy with tidy|intros ?]). apply tidy_ret.
Qed.
End Postgres.

Section Nats.
Context `{!TestNats W, !TestNatsLaws W}.

Lemma stop_server_closes s w : held (stop_server s w) = held w ∖ {[ nats_server_id s ]}.
Proof. unfold stop_server. by rewrite WaitForShutdown_keeps, Shutdown_closes. Qed.

Lemma close_nats_closes server conn :
  closes {[ nats_server_id server; nats_conn_id conn ]} (close_nats server conn).
Proof.
  intros w. unfold close_nats. pose proof (Drain_keeps conn w) as Hd. destruct (Drain conn w) as [err w1]. cbn in *.
  rewrite stop_server_closes, nats_Close_closes, Hd. set_solver.
Qed.

(** The rest of [NewTestNATSServer] once there is a server. *)
Lemma NewTestNATSServer_tidy : tidy (W := W) NewTestNATSServer.
Proof.
  apply tidy_bind; [apply TempDir_tidy|intros dir]. intros w t.
  unfold must, act, mbind, helper_bind, mret, helper_ret, Fatalf, Cleanup.
  pose proof (nserver_New_fresh dir w) as Hn. destruct (nserver_New dir w) as [[s|e] w1]; cbn.
  2:{ exists []. split; [done|]. intros v Hv. cbn. congruence. }
  destruct Hn as [Hn Hw1]. pose proof (Start_opens s w1) as Hs.
  pose proof (ReadyForConnections_keeps testNATSReadyTimeout s (Start s w1)) as Hr.
  destruct (ReadyForConnections _ s _) as [ok w2]. cbn in Hr. destruct ok; cbn.
  2:{ exists []. split; [done|]. intros v Hv. cbn. rewrite Hv, stop_server_closes. set_solver. }
  pose proof (nats_Connect_opens (ClientURL s) w2) as Hc. destruct (nats_Connect (ClientURL s) w2) as [[c|e] w3]; cbn.
  2:{ exists []. split; [done|]. intros v Hv. cbn. rewrite Hv, stop_server_closes. set_solver. }
  destruct Hc as [Hc Hw3]. exists [close_nats s c]. split; [done|]. intros v Hv.
  pose proof (close_nats_closes s c v) as Hcl. cbn. destruct (close_nats s c v). cbn in *. rewrite Hr, Hs, Hw1 in Hc, Hw3.
    rewrite Hw1 in Hn. rewrite Hcl, Hv, Hw3. clear - Hn Hc. set_solver.
Qed.

Lemma WaitForNATSMessage_tidy sub d : tidy (W := W) (WaitForNATSMessage sub d).
Proof. destruct sub; cbn; [apply tidy_must, NextMsg_keeps|apply tidy_Fatalf]. Qed.
End Nats.

Lemma AssertErrorCode_tidy `{!Unicode} raw expected : tidy (W := W) (AssertErrorCode raw expected).
Proof.
  unfold AssertErrorCode. destruct (_ ← struct_members raw; _) as [c|]; [|apply tidy_Fatalf].
  destruct (decide (c = expected)); [apply tidy_ret|apply tidy_Fatalf].
Qed.

(** Tests written with the helpers. *)
Context `{!Unicode, !TestResources W, !TestResourcesLaws W, !TestPostgres W, !TestPostgresLaws W, !TestNats W, !TestNatsLaws W}.

Inductive written : ∀ {A : Type}, helper W A → Prop :=
| w_ret {A} (a : A) : written (mret a)
| w_fatal {A} e : written (A := A) (Fatalf e)
| w_skip {A} e : written (A := A) (Skipf e)
| w_act {A} (f : W → A * W) : keeps f → written (act f) (* the code under test *)
| w_cleanup c : keeps c → written (Cleanup c)
| w_bind {A B} (m : helper W A) (f : A → helper W B) : written m → (∀ a, written (f a)) → written (a ← m; f a)
| w_context : written Context_
| w_http h : written (NewTestServer h)
| w_db Getenv q : written (NewTestDB Getenv q)
| w_pool Getenv q : written (NewTestPGXPool Getenv q)
| w_nats : written NewTestNATSServer
| w_message sub d : written (WaitForNATSMessage sub d)
| w_code raw expected : written (AssertErrorCode raw expected).

Lemma written_tidy {A} (m : helper W A) : written m → tidy m.
Proof.
  induction 1;
    [apply tidy_ret|apply tidy_Fatalf|apply tidy_Skipf|by apply tidy_act|by apply tidy_Cleanup|by apply tidy_bind
    |apply Context_tidy|apply NewTestServer_tidy|apply NewTestDB_tidy|apply NewTestPGXPool_tidy|apply NewTestNATSServer_tidy
    |apply WaitForNATSMessage_tidy|apply AssertErrorCode_tidy].
Qed.

(** A test that uses the helpers, however it goes on with what they give it and
    wherever it fails or is skipped (also in the middle of a helper), holds nothing more
    after its cleanups than before it started: each database handle, pool, server,
    connection and context it got was given back. *)
Theorem tests_give_back_resources (test : helper W unit) w : written test → held (run_test test w).2 = held w.
Proof.
  intros Ht%written_tidy. specialize (Ht w no_cleanups). unfold run_test. destruct (test (w, no_cleanups)) as [o [w1 t1]].
  destruct Ht as (cs & -> & Hcs). unfold no_cleanups. rewrite app_nil_r. specialize (Hcs w1 eq_refl). by destruct (run_cleanups cs w1).
Qed.
End Given_back.

(** *** The schema of a test *)

Lemma bind_goes_on {W A B} (m : helper W A) (f : A → helper W B) s b s' :
  (a ← m; f a) s = (Goes_on b, s') ↔ ∃ a s1, m s = (Goes_on a, s1) ∧ f a s1 = (Goes_on b, s').
Proof.
  unfold mbind, helper_bind. split.
  - destruct (m s) as [[a|e|e] s1] eqn:Em; [|done..]. intros Hf. by exists a, s1.
  - by intros (a & s1 & -> & Hf).
Qed.

Section Set_up.
Context {W : Type} `{!TestPostgres W}.
Implicit Types (w : W) (t : T W).

Lemma require_goes_on prefix err s u s' : require (W := W) prefix err s = (Goes_on u, s') → err = None ∧ s' = s.
Proof. destruct err; [done|]. by intros [= _ <-]. Qed.

Lemma act_goes_on {A} (f : W → A * W) w t a w' t' : act f (w, t) = (Goes_on a, (w', t')) → f w = (a, w') ∧ t' = t.
Proof. unfold act. destruct (f w) as [a1 w1]. by intros [= -> -> ->]. Qed.

Lemma must_goes_on {A} prefix (f : W → result error A * W) w t a w' t' :
  must prefix f (w, t) = (Goes_on a, (w', t')) → f w = (Ok a, w') ∧ t' = t.
Proof.
  intros (r & [w1 t1] & [Hf ->]%act_goes_on & Hr)%bind_goes_on. destruct r; [|done]. by injection Hr as <- <- <-.
Qed.

Lemma openAdminDB_goes_on url w t db w' t' :
  openAdminDB url (w, t) = (Goes_on db, (w', t')) → t' = errorf "close admin postgres db: " (sql_Close db) :: t.
Proof.
  intros (d & [w1 t1] & [_ ->]%must_goes_on & (u & [w2 t2] & Hc & (err & [w3 t3] & [_ ->]%act_goes_on &
    (v & s4 & [_ ->]%require_goes_on & Hr)%bind_goes_on)%bind_goes_on)%bind_goes_on)%bind_goes_on.
  by injection Hc as _ _ <-; injection Hr as <- _ <-.
Qed.

Lemma createTestSchema_goes_on admin w t name w' t' :
  createTestSchema admin (w, t) = (Goes_on name, (w', t')) →
  t' = drop_cleanup admin name :: t ∧ ∃ raw w1, name = "test_" +:+ hex_encode raw ∧
  ExecContext (create_schema name) admin w1 = (None, w').
Proof.
  intros (suffix & [w1 t1] & Hs & (err & [w2 t2] & [He ->]%act_goes_on & (u & s3 & [-> ->]%require_goes_on &
    (v & [w4 t4] & Hc & Hr)%bind_goes_on)%bind_goes_on)%bind_goes_on)%bind_goes_on.
  apply bind_goes_on in Hs as (raw & [w0 t0] & [_ ->]%must_goes_on & Hm).
  injection Hm as <- <- <-. injection Hc as _ <- <-. injection Hr as <- <- <-. split; [done|]. by exists raw, w0.
Qed.

(** What a test that got a database has to clean up, in the order it runs: the
    database is closed, then its schema is dropped through the other handle, and that
    handle is closed last.  The database was opened on the URL of the environment with
    the search path set to the schema, which was created. *)
Theorem test_database_is_scoped Getenv q w t db w' t' :
  NewTestDB Getenv q (w, t) = (Goes_on db, (w', t')) →
  ∃ admin raw config w1 w2 w3, let schema := "test_" +:+ hex_encode raw in
    t' = errorf "close scoped postgres db: " (sql_Close db) :: drop_cleanup admin schema
         :: errorf "close admin postgres db: " (sql_Close admin) :: t ∧
    ParseConfig (TrimSpace (Getenv testDatabaseURLEnv)) = Ok config ∧
    ExecContext (create_schema schema) admin w1 = (None, w2) ∧
    OpenDB (scoped schema config) w2 = (db, w3).
Proof.
  intros (url & [w1 t1] & Hu & (admin & [w2 t2] & Ha%openAdminDB_goes_on & (schema & [w3 t3] & Hs & Hk)%bind_goes_on)%bind_goes_on)%bind_goes_on.
  apply createTestSchema_goes_on in Hs as (Ht3 & raw & wc & Hraw & Hcreate).
  apply bind_goes_on in Hk as (config & [w4 t4] & Hc & (d & [w5 t5] & [Ho ->]%act_goes_on & (u & [w6 t6] & Hcl & Hk)%bind_goes_on)%bind_goes_on).
  apply bind_goes_on in Hk as (err & [w7 t7] & [_ ->]%act_goes_on & (v & s8 & [_ ->]%require_goes_on & (x & [w9 t9] & Happ & Hr)%bind_goes_on)%bind_goes_on).
  assert (url = TrimSpace (Getenv testDatabaseURLEnv) ∧ w1 = w ∧ t1 = t) as (-> & -> & ->).
  { unfold testDatabaseURL in Hu. case_decide; [done|]. by injection Hu as <- <- <-. }
  unfold scopedConnConfig in Hc. destruct (ParseConfig _) as [cfg|] eqn:Ep; [|done]. injection Hc as <- <- <-.
  injection Hcl as _ _ <-. injection Hr as <- _ <-.
  assert (t9 = errorf "close scoped postgres db: " (sql_Close d) :: t3) as ->.
  { unfold applySchemaSQL in Happ. case_decide; [by injection Happ|].
    apply bind_goes_on in Happ as (e & [w10 t10] & [_ ->]%act_goes_on & [_ Hst]%require_goes_on). by injection Hst. }
  exists admin, raw, cfg, wc, w3, w5. cbn zeta. by rewrite <- Hraw, Ht3, Ha.
Qed.
End Set_up.

(** How Postgres reads a quoted identifier, after its opening quote: to the next quote
    that is not doubled.  The rest of the text follows. *)
Fixpoint scan_quoted (l : list ascii) : option (list ascii * list ascii) :=
  match l with
  | [] => None
  | a :: l' =>
      if code a =? 34 then
        match l' with
        | b :: l'' =>
            if code b =? 34 then '(i, rest) ← scan_quoted l''; Some (a :: i, rest) else Some ([], l')
        | [] => Some ([], [])
        end
      else '(i, rest) ← scan_quoted l'; Some (a :: i, rest)
  end.

(** Whatever bytes an identifier has, its quoted form is read as that identifier and
    nothing of it as SQL. *)
Theorem quoted_identifier_is_read_back identifier rest :
  head (bytes_of rest) ≠ Some (ascii_of_nat 34) →
  scan_quoted (drop 1 (bytes_of (quoteIdentifier identifier +:+ rest))) = Some (bytes_of identifier, bytes_of rest).
Proof.
  intros Hr. unfold quoteIdentifier. rewrite !bytes_of_app, bytes_of_of_bytes. change (bytes_of dquote) with [ascii_of_nat 34].
  cbn [app]. rewrite skipn_cons, drop_0, <- app_assoc. induction (bytes_of identifier) as [|a l IH].
  - cbn. destruct (bytes_of rest) as [|b r]; [done|]. destruct (Z.eqb_spec (code b) 34) as [Hb|]; [|done].
    destruct Hr. cbn. f_equal. by apply code_inj.
  - change ((a :: l) ≫= ?f) with (f a ++ (l ≫= f)). rewrite <- app_assoc. cbv beta.
    destruct (code a =? 34) eqn:Ea; cbn [app scan_quoted] in *; rewrite !Ea.
    + rewrite IH. done.
    + rewrite IH. done.
Qed.

(** *** Tokens *)

(** The decoder of [base64.RawURLEncoding], for texts of its alphabet. *)
Definition RawURL_DecodeString (s : string) : option string :=
  let l := std_letter <$> bytes_of s in
  of_bytes <$> decode_groups (l ++ replicate ((4 - length l mod 4) mod 4) "="%char).

Definition url_byte (a : ascii) : Prop := code a ≠ 46 ∧ std_letter (url_letter a) = a.

(** Without its padding an encoding has letters only, and the padding can be added back. *)
Lemma encode_groups_unpadded l :
  let k := List.filter (λ a, negb (code a =? 61)) (encode_groups l) in
  encode_groups l = k ++ replicate ((4 - length k mod 4) mod 4) "="%char ∧
  Forall (λ a, ∃ i, 0 ≤ i < 64 ∧ a = letter i) k.
Proof.
  assert (∀ i, 0 ≤ i < 64 → negb (code (letter i) =? 61) = true) as Hl.
  { intros i Hi. apply negb_true_iff, Z.eqb_neq. intros He. destruct (letter_spec i Hi) as (_ & Hn & _).
    apply Hn. by apply code_inj. }
  revert l. apply groups_ind.
  - split; [done|constructor].
  - intros a. destruct (letters_range a "000" "000") as (L1 & _ & _ & _ & L5 & _).
    cbn [encode_groups List.filter]. rewrite !Hl by done. split; [done|]. repeat constructor; eauto.
  - intros a b. destruct (letters_range a b "000") as (L1 & L2 & _ & _ & _ & L6 & _).
    cbn [encode_groups List.filter]. rewrite !Hl by done. split; [done|]. repeat constructor; eauto.
  - intros a b c l [IH HF]. destruct (letters_range a b c) as (L1 & L2 & L3 & L4 & _).
    cbn [encode_groups List.filter]. rewrite !Hl by done. cbn zeta. split; [|repeat (constructor; [by eauto|]); done].
    set (k := List.filter _ _) in *. cbn [app length]. do 4 f_equal. rewrite IH at 1. do 3 f_equal.
    replace (S (S (S (S (length k))))) with (length k + 1 * 4)%nat by lia. by rewrite Nat.Div0.mod_add.
Qed.

Lemma letter_url i : 0 ≤ i < 64 → std_letter (url_letter (letter i)) = letter i ∧ url_letter (letter i) ≠ "."%char.
Proof.
  intros Hi. assert (Forall (λ i, std_letter (url_letter (letter i)) = letter i ∧ url_letter (letter i) ≠ "."%char) (seqZ 0 64)) as Hall
    by (apply (bool_decide_unpack _); by vm_compute).
  rewrite Forall_forall in Hall. apply Hall, elem_of_seqZ. lia.
Qed.

Lemma RawURL_spec s :
  RawURL_DecodeString (RawURL_EncodeToString s) = Some s ∧ Forall (λ a, a ≠ "."%char) (bytes_of (RawURL_EncodeToString s)).
Proof.
  destruct (encode_groups_unpadded (bytes_of s)) as [He HF]. cbn zeta in *.
  unfold RawURL_DecodeString, RawURL_EncodeToString. rewrite bytes_of_of_bytes. set (k := List.filter _ _) in *. split.
  - assert (std_letter <$> (url_letter <$> k) = k) as ->.
    { clearbody k. clear He. induction HF as [|a k (i & Hi & ->) _ IH]; [done|]. cbn. by rewrite (proj1 (letter_url i Hi)), IH. }
    cbn zeta. rewrite <- He. rewrite (proj1 (decode_encode_groups _)). cbn. by rewrite of_bytes_bytes_of.
  - apply Forall_fmap. eapply Forall_impl; [exact HF|]. intros a (i & Hi & ->). by apply letter_url.
Qed.

Lemma split_byte_app c l r : Forall (λ a, a ≠ c) l → split_byte c (l ++ c :: r) = l :: split_byte c r.
Proof.
  induction 1 as [|a l Ha _ IH]; cbn; [by rewrite Ascii.eqb_refl|]. rewrite (proj2 (Ascii.eqb_neq _ _) Ha). by rewrite IH.
Qed.

(** A test token has three segments, the last one (the signature) empty; the second
    decodes to the claims. *)
Theorem test_token_carries_claims claims :
  map_Forall (λ k v, utf8 k ∧ json_ok v) (default ∅ claims) →
  ∃ h c text, SplitByte "."%char (NewTestToken claims) = [h; c; ""] ∧
  RawURL_DecodeString c = Some text ∧ parse_json text = Some (map_json (default ∅ claims)).
Proof.
  intros Hc. unfold NewTestToken, encodeTokenSegment. set (h := Marshal (map_json {[ _ := _; _ := _ ]})).
  set (m := default ∅ claims) in *. eexists _, _, (Marshal (map_json m)).
  destruct (RawURL_spec h) as [_ Hh], (RawURL_spec (Marshal (map_json m))) as [Hd Hn]. split_and!; [|exact Hd|].
  - unfold SplitByte. rewrite !bytes_of_app. change (bytes_of ".") with ["."%char]. cbn [app].
    rewrite split_byte_app by done. rewrite split_byte_app by done. cbn. by rewrite !of_bytes_bytes_of.
  - apply parse_json_Marshal. constructor. apply Forall_fmap, Forall_forall. intros k Hk.
    rewrite SortStrings_perm in Hk. apply list_elem_of_fmap in Hk as ([k' v] & -> & Hk). apply elem_of_map_to_list in Hk.
    cbn. rewrite Hk. by apply (Hc k' v).
Qed.

(** *** Error codes *)

(** The assertion on error codes accepts exactly the code that [WriteError] of
    src/httpkit sent, with its trailing line feed. *)
Theorem error_code_is_recognised {W} `{!Unicode} code message expected (s : W * T W) :
  utf8 code → utf8 message →
  AssertErrorCode (Marshal (ErrorResponse code message) +:+ newline) expected s = (Goes_on tt, s) ↔ expected = code.
Proof.
  intros Hc Hm. unfold AssertErrorCode, ErrorResponse.
  assert (json_ok (JObject [("code", JString code); ("message", JString message)])) as Hok
    by (constructor; repeat (constructor; [split; [by vm_compute|by constructor]|]); constructor).
  rewrite struct_members_Marshal_space; [|constructor; constructor; [split; [by vm_compute|done]|constructor]|by repeat constructor].
  cbn [mbind option_bind fmap list_fmap fst snd]. rewrite !fold_field_cons.
  change (EqualFold "error" "error") with true. cbn iota. cbn [assign_code fmap list_fmap fst snd].
  rewrite fold_field_cons. change (EqualFold "code" "code") with true. cbn [assign_string mbind option_bind].
  rewrite fold_field_cons. change (EqualFold "message" "code") with false. cbn iota.
  change (fold_field "code" assign_string code []) with (Some code). cbn [mbind option_bind].
  change (fold_field "error" assign_code code []) with (Some code). cbn iota.
  case_decide as Hd; [by subst|]. split; [done|]. by intros ->.
Qed.

(** ** An instance *)

(** A laboratory: the world is the set of what is open; connecting to NATS fails. *)
Module Lab.
Definition world : Type := gset positive.
#[export] Instance lab_held : Held world := λ w, w.

Definition get (w : world) : positive * world := (base.fresh w, {[ base.fresh w ]} ∪ w).
Definition refuse : error := ErrNew "" "connection refused".

#[export] Instance resources : TestResources world := {
  ctx_type := positive; server_type := positive;
  WithCancel := get; cancel i w := w ∖ {[ i ]};
  NewServer _ := get; server_Close i w := w ∖ {[ i ]};
}.

#[export] Instance postgres : TestPostgres world := {
  sql_DB := positive; ConnConfig := gmap string string; PoolConfig := gmap string string; pgx_Pool := positive;
  sql_Open _ _ w := let '(i, w) := get w in (Ok i, w);
  OpenDB _ := get;
  Ping _ w := (None, w); ExecContext _ _ w := (None, w);
  sql_Close i w := (None, w ∖ {[ i ]});
  ParseConfig _ := Ok ∅; RuntimeParams := Some; set_RuntimeParams m _ := m;
  ParsePoolConfig _ := Ok ∅; pool_conn c := c; set_pool_conn c _ := c;
  NewWithConfig _ w := let '(i, w) := get w in (Ok i, w);
  pool_Ping _ w := (None, w); pool_Exec _ _ w := (None, w);
  pool_Close i w := w ∖ {[ i ]};
  rand_Read w := (Ok [1; 2; 3; 4; 5; 255], w);
}.

#[export] Instance nats : TestNats world := {
  nats_Server := positive; nats_Conn := positive;
  TempDir := mret "/tmp/1";
  nserver_New _ w := (Ok (base.fresh w), w);
  Start i w := {[ i ]} ∪ w;
  ReadyForConnections _ _ w := (true, w);
  Shutdown i w := w ∖ {[ i ]};
  WaitForShutdown _ w := w;
  ClientURL _ := "nats://127.0.0.1:4222";
  nats_Connect _ w := (Err refuse, w);
  Drain _ w := (None, w);
  nats_Close i w := w ∖ {[ i ]};
  is_ErrConnectionClosed _ := false;
  nats_Msg := unit; nats_Subscription := unit;
  NextMsg _ _ w := (Ok tt, w);
}.

Lemma get_opens w : (get w).1 ∉ held w ∧ held (get w).2 = {[ (get w).1 ]} ∪ held w.
Proof. split; [apply is_fresh|done]. Qed.

#[export] Program Instance resources_laws : TestResourcesLaws world := { ctx_id i := i; server_id i := i }.
Next Obligation. exact get_opens. Qed.
Next Obligation. done. Qed.
Next Obligation. intros h. exact get_opens. Qed.
Next Obligation. done. Qed.

#[export] Program Instance postgres_laws : TestPostgresLaws world := { db_id i := i; pool_id i := i }.
Solve All Obligations with first [done | intros; intros w; exact (get_opens w) | intros; exact (get_opens _)].

#[export] Program Instance nats_laws : TestNatsLaws world := { nats_server_id i := i; nats_conn_id i := i }.
Next Obligation. apply tidy_ret. Qed.
Next Obligation. intros dir w. split; [apply is_fresh|done]. Qed.
Solve All Obligations with done.

Definition getenv (k : string) : string := if decide (k = testDatabaseURLEnv) then " postgres://lab " else "".

(** A test with a database, a pool and a server, which fails when it starts NATS. *)
Definition test : helper world unit :=
  _ ← Context_; _ ← NewTestDB getenv "create table t (id int)"; _ ← NewTestPGXPool getenv "";
  _ ← NewTestNATSServer; mret tt.
End Lab.

#[local] Existing Instances ascii_unicode Lab.lab_held Lab.resources Lab.postgres Lab.nats Lab.resources_laws
  Lab.postgres_laws Lab.nats_laws.

Lemma tests_give_back_resources_witness :
  (run_test Lab.test {[ 7%positive ]}).1 = (Fatal "connect test nats client: connection refused", []) ∧
  held (run_test Lab.test {[ 7%positive ]}).2 = held (W := Lab.world) {[ 7%positive ]}.
Proof.
  split; [by vm_compute|]. apply (tests_give_back_resources Lab.test {[ 7%positive ]}). unfold Lab.test.
  apply w_bind; [apply w_context|intros _]. apply w_bind; [apply w_db|intros _]. apply w_bind; [apply w_pool|intros _].
  apply w_bind; [apply w_nats|intros _]. apply w_ret.
Defined.

Lemma test_token_carries_claims_witness :
  let claims := Some {[ "sub" := JString "u1"; "admin" := JBool true ]} in
  ∃ h c text, SplitByte "."%char (NewTestToken claims) = [h; c; ""] ∧
  RawURL_DecodeString c = Some text ∧
  parse_json text = Some (JObject [("admin", JBool true); ("sub", JString "u1")]).
Proof.
  intros claims. apply (test_token_carries_claims claims).
  apply map_Forall_lookup. intros k v Hk. cbn [default claims] in Hk. unfold claims in Hk. cbn in Hk.
  apply lookup_insert_Some in Hk as [[<- <-]|[_ Hk]]; [split; [by vm_compute|by repeat constructor]|].
  apply lookup_singleton_Some in Hk as [<- <-]. split; [by vm_compute|by repeat constructor].
Defined.
